(** * sertit.files: archives, file removal and copy, JSON with dates

    A shallow embedding of [sertit/files.py]: [extract_file],
    [read_archived_file], [add_to_zip], [remove], [copy], [CustomEncoder],
    [CustomDecoder], [read_json] and [save_json].

    Python code that reads and writes the file system is embedded in a
    state-and-exception monad over a finite map from paths to nodes.  The
    libraries the module calls ([zipfile], [tarfile], [shutil], [os],
    [tempfile], [re], [json], [datetime], [pathlib]) are modelled by the
    functions of the first half of this file, each with the part of its
    documented behaviour that the module relies on. *)

From Stdlib Require Import ZArith Ascii String List Lia.
From stdpp Require Import gmap strings list fin_maps pretty sorting.

Open Scope string_scope.

Set Warnings "-register-all".

(* ===================================================================== *)
(** ** Strings: the [str] methods used by the module                      *)
(* ===================================================================== *)

Module Str.

(** [s.split(sep)] for a one-character separator:
    ["a/b".split("/") = ["a"; "b"]], ["a/".split("/") = ["a"; ""]],
    ["".split("/") = [""]]. *)
Fixpoint split (sep : ascii) (s : string) : list string :=
  match s with
  | EmptyString => [EmptyString]
  | String c s' =>
      if Ascii.eqb c sep then EmptyString :: split sep s'
      else match split sep s' with
           | [] => [String c EmptyString]
           | h :: t => String c h :: t
           end
  end.

(** [s.startswith(p)] *)
Definition startswith (p s : string) : bool := String.prefix p s.

Fixpoint rev_acc (s acc : string) : string :=
  match s with
  | EmptyString => acc
  | String c s' => rev_acc s' (String c acc)
  end.

Definition rev (s : string) : string := rev_acc s EmptyString.

(** [s.endswith(p)] *)
Definition endswith (p s : string) : bool := String.prefix (rev p) (rev s).

(** [sub in s]: [sub] occurs somewhere in [s]. *)
Fixpoint contains (sub s : string) : bool :=
  String.prefix sub s ||
  match s with
  | EmptyString => false
  | String _ s' => contains sub s'
  end.

(** [s.rfind(c)] for a character, [None] standing for [-1]. *)
Fixpoint rfind (c : ascii) (s : string) : option nat :=
  match s with
  | EmptyString => None
  | String a s' =>
      match rfind c s' with
      | Some i => Some (S i)
      | None => if Ascii.eqb a c then Some 0 else None
      end
  end.

(** [s[i:]] *)
Fixpoint drop (i : nat) (s : string) : string :=
  match i, s with
  | 0, _ => s
  | S i', String _ s' => drop i' s'
  | S _, EmptyString => EmptyString
  end.

(** [s.lstrip(c)] for a character. *)
Fixpoint lstrip (c : ascii) (s : string) : string :=
  match s with
  | String a s' => if Ascii.eqb a c then lstrip c s' else s
  | EmptyString => EmptyString
  end.

(** [sep.join(l)] *)
Definition join (sep : string) (l : list string) : string := String.concat sep l.

End Str.

(* ===================================================================== *)
(** ** Paths                                                               *)
(* ===================================================================== *)

(** A path is a list of components below a root.  The root is the disk, or
    one of the directories handed out by [tempfile.TemporaryDirectory],
    which are numbered in the order of their creation. *)
Inductive root : Type :=
| Disk
| Scratch (id : nat).

Record path : Type := Path { p_root : root; p_parts : list string }.

Global Instance root_eq_dec : EqDecision root.
Proof. solve_decision. Defined.

Global Instance path_eq_dec : EqDecision path.
Proof. solve_decision. Defined.

Global Instance root_countable : Countable root.
Proof.
  refine (inj_countable'
            (fun r => match r with Disk => None | Scratch n => Some n end)
            (fun o => match o with None => Disk | Some n => Scratch n end) _).
  by intros [].
Defined.

Global Instance path_countable : Countable path.
Proof.
  refine (inj_countable' (fun p => (p_root p, p_parts p))
                         (fun rl => Path rl.1 rl.2) _).
  by intros [].
Defined.

Module PurePath.

(** [p.name]: the final component, [""] for a root. *)
Definition name (p : path) : string := List.last (p_parts p) "".

(** [os.path.basename(p)] *)
Definition basename (p : path) : string := name p.

(** [p.parent] *)
Definition parent (p : path) : path :=
  Path (p_root p) (removelast (p_parts p)).

(** The components a relative path string contributes when it is joined
    to a directory: empty and ["."] components vanish. *)
Definition components (s : string) : list string :=
  List.filter (fun c => negb (String.eqb c "" || String.eqb c "."))
              (Str.split "/" s).

(** [p.joinpath(s)] and [os.path.join(p, s)] for a relative [s]. *)
Definition joinpath (p : path) (s : string) : path :=
  Path (p_root p) (p_parts p ++ components s).

(** [q] is [p] or lies below [p]. *)
Definition below (p q : path) : Prop :=
  p_root p = p_root q ∧ p_parts p `prefix_of` p_parts q.

Global Instance below_dec p q : Decision (below p q).
Proof. unfold below. apply _. Defined.

(** [p.suffix] as pathlib computes it from the name. *)
Definition suffix (p : path) : string :=
  let n := name p in
  match Str.rfind "." n with
  | Some i =>
      if (0 <? i)%nat && (i <? String.length n - 1)%nat then Str.drop i n else ""
  | None => ""
  end.

(** [p.suffixes] *)
Definition suffixes (p : path) : list string :=
  let n := name p in
  if Str.endswith "." n then []
  else List.map (fun s => "." +:+ s) (List.tl (Str.split "." (Str.lstrip "." n))).

(** [str(p)] *)
Definition str (p : path) : string :=
  match p_root p with
  | Disk => "/" +:+ Str.join "/" (p_parts p)
  | Scratch n => "/tmp/tmp" +:+ pretty n +:+
                   match p_parts p with
                   | [] => ""
                   | l => "/" +:+ Str.join "/" l
                   end
  end.

End PurePath.

(** *** The order of a listing

    [os.scandir], and with it [os.walk] and [shutil.rmtree], list the
    entries of a directory in the order of the file system.  The model
    lists them by name. *)

Definition name_le (a b : string) : Prop := String.leb a b = true.

Global Instance name_le_dec a b : Decision (name_le a b).
Proof. unfold name_le. apply _. Defined.

(** From the top down: a directory, then its entries by name, each with
    what is below it. *)
Fixpoint parts_leb (l1 l2 : list string) : bool :=
  match l1, l2 with
  | [], _ => true
  | _ :: _, [] => false
  | a :: l1', b :: l2' => if String.eqb a b then parts_leb l1' l2' else String.leb a b
  end.

Definition visit_le (p q : path) : Prop := parts_leb (p_parts p) (p_parts q) = true.

Global Instance visit_le_dec p q : Decision (visit_le p q).
Proof. unfold visit_le. apply _. Defined.

(** From the bottom up: the entries of a directory by name, each after
    what is below it, and then the directory. *)
Fixpoint parts_upb (l1 l2 : list string) : bool :=
  match l1, l2 with
  | _, [] => true
  | [], _ :: _ => false
  | a :: l1', b :: l2' => if String.eqb a b then parts_upb l1' l2' else String.leb a b
  end.

Definition leave_le {A} (p q : path * A) : Prop :=
  parts_upb (p_parts p.1) (p_parts q.1) = true.

Global Instance leave_le_dec {A} (p q : path * A) : Decision (leave_le p q).
Proof. unfold leave_le. apply _. Defined.

(* ===================================================================== *)
(** ** [datetime.date] and [datetime.datetime] with their ISO format      *)
(* ===================================================================== *)

Module Iso.

Local Open Scope Z_scope.

Record date : Type := Date { year : Z; month : Z; day : Z }.

(** A [utcoffset] is kept in microseconds; [None] is a naive datetime.
    A [tzinfo] is identified with the offset it gives. *)
Record datetime : Type := Datetime {
  dt_date : date;
  hour : Z; minute : Z; second : Z; microsecond : Z;
  utcoffset : option Z
}.

Definition is_leap (y : Z) : bool :=
  (y mod 4 =? 0) && (negb (y mod 100 =? 0) || (y mod 400 =? 0)).

Definition days_in_month (y m : Z) : Z :=
  match m with
  | 1 | 3 | 5 | 7 | 8 | 10 | 12 => 31
  | 4 | 6 | 9 | 11 => 30
  | 2 => if is_leap y then 29 else 28
  | _ => 0
  end.

(** The ranges that the constructors of [date] and [datetime] enforce;
    every Python value of these classes satisfies them. *)
Definition valid_date (d : date) : bool :=
  (1 <=? year d) && (year d <=? 9999) &&
  (1 <=? month d) && (month d <=? 12) &&
  (1 <=? day d) && (day d <=? days_in_month (year d) (month d)).

Definition valid_offset (o : option Z) : bool :=
  match o with
  | None => true
  | Some z => (-86400000000 <? z) && (z <? 86400000000)
  end.

Definition valid_datetime (t : datetime) : bool :=
  valid_date (dt_date t) &&
  (0 <=? hour t) && (hour t <? 24) &&
  (0 <=? minute t) && (minute t <? 60) &&
  (0 <=? second t) && (second t <? 60) &&
  (0 <=? microsecond t) && (microsecond t <? 1000000) &&
  valid_offset (utcoffset t).

(** *** Formatting *)

Definition digit (n : Z) : ascii := ascii_of_N (Z.to_N (48 + n)).

(** ["%02d" % n], ["%04d" % n] and ["%06d" % n] as lists of characters *)
Definition d2 (n : Z) : list ascii := [digit (n / 10); digit (n mod 10)].

Definition d4 (n : Z) : list ascii :=
  [digit (n / 1000); digit (n / 100 mod 10); digit (n / 10 mod 10); digit (n mod 10)].

Definition d6 (n : Z) : list ascii :=
  [digit (n / 100000); digit (n / 10000 mod 10); digit (n / 1000 mod 10);
   digit (n / 100 mod 10); digit (n / 10 mod 10); digit (n mod 10)].

Definition date_chars (d : date) : list ascii :=
  d4 (year d) ++ ["-"%char] ++ d2 (month d) ++ ["-"%char] ++ d2 (day d).

(** [date.isoformat()]: [YYYY-MM-DD] *)
Definition date_isoformat (d : date) : string :=
  string_of_list_ascii (date_chars d).

(** [_format_offset]: [+HH:MM], then [:SS] when the offset has seconds
    or microseconds, then [.ffffff] when it has microseconds. *)
Definition offset_chars (o : option Z) : list ascii :=
  match o with
  | None => []
  | Some z =>
      let a := Z.abs z in
      let ss := a / 1000000 mod 60 in
      let us := a mod 1000000 in
      [if z <? 0 then "-"%char else "+"%char] ++
      d2 (a / 3600000000) ++ [":"%char] ++ d2 (a / 60000000 mod 60) ++
      (if (ss =? 0) && (us =? 0) then []
       else [":"%char] ++ d2 ss ++ (if us =? 0 then [] else ["."%char] ++ d6 us))
  end.

Definition time_chars (t : datetime) : list ascii :=
  d2 (hour t) ++ [":"%char] ++ d2 (minute t) ++ [":"%char] ++ d2 (second t) ++
  (if microsecond t =? 0 then [] else ["."%char] ++ d6 (microsecond t)).

(** [datetime.isoformat()]: [YYYY-MM-DDTHH:MM:SS], then [.ffffff] when
    the microseconds are not zero, then the offset of an aware datetime. *)
Definition datetime_isoformat (t : datetime) : string :=
  string_of_list_ascii
    (date_chars (dt_date t) ++ ["T"%char] ++ time_chars t ++ offset_chars (utcoffset t)).

(** *** Parsing

    [fromisoformat] as Python 3.7 to 3.10 have it: what [isoformat] writes
    is read, and little else.  Later versions read more forms of ISO 8601;
    the decoder of the module takes its two parsers from [env], and the
    ones below are one instance. *)

Definition digit_val (c : ascii) : option Z :=
  let n := Z.of_N (N_of_ascii c) in
  if (48 <=? n) && (n <=? 57) then Some (n - 48) else None.

(** [parse_digits]: all characters are digits; the number they spell *)
Fixpoint number (acc : Z) (l : list ascii) : option Z :=
  match l with
  | [] => Some acc
  | c :: l' =>
      match digit_val c with
      | Some v => number (10 * acc + v) l'
      | None => None
      end
  end.

Definition is_char (c d : ascii) : bool := Ascii.eqb c d.

(** The ten characters [YYYY-MM-DD], checked like the constructor does. *)
Definition parse_date (l : list ascii) : option date :=
  match l with
  | [y1; y2; y3; y4; s1; m1; m2; s2; a1; a2] =>
      if is_char s1 "-" && is_char s2 "-" then
        match number 0 [y1; y2; y3; y4], number 0 [m1; m2], number 0 [a1; a2] with
        | Some y, Some m, Some d =>
            let r := Date y m d in if valid_date r then Some r else None
        | _, _, _ => None
        end
      else None
  | _ => None
  end.

(** [date.fromisoformat(s)]; [None] stands for [ValueError]. *)
Definition date_fromisoformat (s : string) : option date :=
  parse_date (list_ascii_of_string s).

(** The fraction of a second: exactly three or six digits. *)
Definition parse_fraction (l : list ascii) : option Z :=
  match length l with
  | 3%nat => match number 0 l with Some v => Some (1000 * v) | None => None end
  | 6%nat => number 0 l
  | _ => None
  end.

(** What may follow the seconds: nothing, or a dot or a colon and the
    fraction. *)
Definition parse_after_ss (h m s : Z) (l : list ascii) : option (Z * Z * Z * Z) :=
  match l with
  | [] => Some (h, m, s, 0)
  | c :: l' =>
      if is_char c "." || is_char c ":" then
        match parse_fraction l' with Some f => Some (h, m, s, f) | None => None end
      else None
  end.

(** What may follow the minutes: nothing, a dot and the fraction, or a
    colon and the seconds. *)
Definition parse_after_mm (h m : Z) (l : list ascii) : option (Z * Z * Z * Z) :=
  match l with
  | [] => Some (h, m, 0, 0)
  | c :: l' =>
      if is_char c "." then
        match parse_fraction l' with Some f => Some (h, m, 0, f) | None => None end
      else if is_char c ":" then
        match l' with
        | s1 :: s2 :: l'' =>
            match number 0 [s1; s2] with
            | Some s => parse_after_ss h m s l''
            | None => None
            end
        | _ => None
        end
      else None
  end.

(** [HH[:MM[:SS]]] and the fraction: hour, minute, second, microsecond. *)
Definition parse_hh_mm_ss_ff (l : list ascii) : option (Z * Z * Z * Z) :=
  match l with
  | h1 :: h2 :: l' =>
      match number 0 [h1; h2] with
      | None => None
      | Some h =>
          match l' with
          | [] => Some (h, 0, 0, 0)
          | c :: l'' =>
              if is_char c "." then
                match parse_fraction l'' with Some f => Some (h, 0, 0, f) | None => None end
              else if is_char c ":" then
                match l'' with
                | m1 :: m2 :: l3 =>
                    match number 0 [m1; m2] with
                    | Some m => parse_after_mm h m l3
                    | None => None
                    end
                | _ => None
                end
              else None
          end
      end
  | _ => None
  end.

(** The part of the time string before the first sign, the sign and the
    part after it. *)
Fixpoint split_sign (l : list ascii) : list ascii * option (bool * list ascii) :=
  match l with
  | [] => ([], None)
  | c :: l' =>
      if is_char c "+" then ([], Some (false, l'))
      else if is_char c "-" then ([], Some (true, l'))
      else let '(t, z) := split_sign l' in (c :: t, z)
  end.

(** The offset after the sign, in microseconds: [HH:MM], [HH:MM:SS] or
    [HH:MM:SS.ffffff], read like a time. *)
Definition parse_offset (neg : bool) (l : list ascii) : option Z :=
  match length l with
  | 5%nat | 8%nat | 15%nat =>
      match parse_hh_mm_ss_ff l with
      | Some (h, m, s, f) =>
          let z := (3600 * h + 60 * m + s) * 1000000 + f in
          Some (if neg then - z else z)
      | None => None
      end
  | _ => None
  end.

Definition parse_time (d : date) (l : list ascii) : option datetime :=
  let '(t, z) := split_sign l in
  match parse_hh_mm_ss_ff t with
  | None => None
  | Some (h, m, s, f) =>
      match z with
      | None => Some (Datetime d h m s f None)
      | Some (neg, zl) =>
          match parse_offset neg zl with
          | Some o => Some (Datetime d h m s f (Some o))
          | None => None
          end
      end
  end.

(** [datetime.fromisoformat(s)]: the date in the first ten characters,
    any one separator, then the time; a string of ten characters is the
    date at midnight.  [None] stands for [ValueError]. *)
Definition datetime_fromisoformat (s : string) : option datetime :=
  let l := list_ascii_of_string s in
  match parse_date (firstn 10 l) with
  | None => None
  | Some d =>
      match skipn 10 l with
      | [] => Some (Datetime d 0 0 0 0 None)
      | _ :: tl =>
          match parse_time d tl with
          | Some t => if valid_datetime t then Some t else None
          | None => None
          end
      end
  end.

End Iso.

(* ===================================================================== *)
(** ** Python values and JSON documents                                    *)
(* ===================================================================== *)

(** The Python objects that the JSON functions meet.  Keys of a [dict] are
    strings; floats are left out. *)
Inductive pyval : Type :=
| VNone
| VBool (b : bool)
| VInt (z : Z)                          (* int *)
| VNpInt (z : Z)                        (* np.int64, np.int32 *)
| VStr (s : string)
| VDate (d : Iso.date)
| VDatetime (t : Iso.datetime)
| VEnum (member : string) (value : pyval)
| VSet (text : string)                  (* a set, with its str() *)
| VPath (p : path)                      (* pathlib.Path *)
| VList (l : list pyval)
| VDict (items : list (string * pyval))
| VObject (cls : string).               (* any other object *)

Inductive json : Type :=
| JNull
| JBool (b : bool)
| JInt (z : Z)
| JStr (s : string)
| JList (l : list json)
| JDict (items : list (string * json)).

(* ===================================================================== *)
(** ** Exceptions                                                          *)
(* ===================================================================== *)

(** The subclasses of [OSError] that occur; [EnvironmentError] is
    [OSError] (and [IOError]) itself, [ShutilError] is [shutil.Error]. *)
Inductive os_error : Type :=
| EnvironmentError
| FileNotFoundError
| FileExistsError
| PermissionError
| IsADirectoryError
| NotADirectoryError
| ShutilError.

(** An exception with its message (the fixed text of it) and, for
    [raise ... from ex], its cause. *)
Inductive exn : Type :=
| TypeError (msg : string) (cause : option exn)
| OSError (kind : os_error) (msg : string) (cause : option exn)
| BadZipFile                             (* zipfile.BadZipFile *)
| ReadError                              (* tarfile.ReadError *)
| IndexError
| AttributeError (msg : string)
| KeyError
| JSONDecodeError
| ReError.                               (* re.error *)

Definition is_OSError (e : exn) : bool :=
  match e with OSError _ _ _ => true | _ => false end.

Definition is_shutil_Error (e : exn) : bool :=
  match e with OSError ShutilError _ _ => true | _ => false end.

Definition is_ReadError (e : exn) : bool :=
  match e with ReadError => true | _ => false end.

Definition is_IndexError (e : exn) : bool :=
  match e with IndexError => true | _ => false end.

Inductive result (A : Type) : Type :=
| Ok (a : A)
| Err (e : exn).

Arguments Ok {A} a.
Arguments Err {A} e.

(* ===================================================================== *)
(** ** The file system                                                     *)
(* ===================================================================== *)

(** The [cls] argument of [json.dump]: the encoder of the module, or the
    one of the library. *)
Inductive encoder : Type := CustomEncoder | JSONEncoder.

(** What the bytes of a file are: a zip archive, a tar archive, a JSON
    document, or bytes that are none of these.  An archive is the list of
    its members in the order of its listing.  A tar archive is a chain of
    headers that is read one by one: [TarCut] is an archive whose chain
    breaks after the members given, at a header that cannot be read. *)
Inductive content : Type :=
| Raw (bytes : list Byte.byte)
| Zip (members : list (string * entry))
| Tar (members : list (string * entry))
| TarCut (members : list (string * entry))
| JsonText (indent : nat) (doc : json)   (* what json.dump wrote *)
| JsonCut (indent : nat) (cls : encoder) (obj : pyval)
                                         (* what json.dump wrote before it raised *)
with entry : Type :=
| EDir                                   (* a directory member *)
| EFile (data : content)                 (* a regular file *)
| EDamaged.                              (* a file whose stored data cannot be read back *)

(** A locked file is one that the process may not read, replace or
    delete: every such access raises [PermissionError]. *)
Inductive node : Type :=
| Dir
| File (locked : bool) (data : content).

Inductive level : Type := Debug | Info | Warning.

(** What a call does that can be observed from outside. *)
Inductive event : Type :=
| Log (lvl : level) (msg : string)
| FsWrite (p : path)                     (* the node at [p] was created or replaced *)
| FsRemove (p : path).                   (* [p] and all below it was deleted *)

Record state : Type := State {
  fs : gmap path node;
  trace : list event;
  next_tmp : nat                          (* the temporary directories made so far *)
}.

(** *** The monad of state and exceptions

    A raised exception keeps the state reached: what was written before
    stays written. *)
Definition M (A : Type) : Type := state -> result A * state.

Definition ret {A} (a : A) : M A := fun st => (Ok a, st).

Definition raise {A} (e : exn) : M A := fun st => (Err e, st).

Definition bind {A B} (m : M A) (k : A -> M B) : M B :=
  fun st =>
    match m st with
    | (Ok a, st') => k a st'
    | (Err e, st') => (Err e, st')
    end.

(** [try: m except: h] *)
Definition catch {A} (m : M A) (h : exn -> M A) : M A :=
  fun st =>
    match m st with
    | (Ok a, st') => (Ok a, st')
    | (Err e, st') => h e st'
    end.

Notation "'let!' x ':=' m 'in' k" := (bind m (fun x => k))
  (at level 10, x pattern, m at level 100, k at level 200).
Notation "m '>>' k" := (bind m (fun _ => k))
  (at level 100, k at level 200, right associativity).

Definition get_fs : M (gmap path node) := fun st => (Ok (fs st), st).

Definition emit (ev : event) : M unit :=
  fun st => (Ok tt, State (fs st) (trace st ++ [ev]) (next_tmp st)).

Definition set_fs (f : gmap path node) : M unit :=
  fun st => (Ok tt, State f (trace st) (next_tmp st)).

Definition log (lvl : level) (msg : string) : M unit := emit (Log lvl msg).

(** *** Tests on paths: [p.is_dir()], [p.is_file()], [p.exists()] *)

Definition is_dir (f : gmap path node) (p : path) : bool :=
  match f !! p with Some Dir => true | _ => false end.

Definition is_file (f : gmap path node) (p : path) : bool :=
  match f !! p with Some (File _ _) => true | _ => false end.

Definition exists_ (f : gmap path node) (p : path) : bool :=
  match f !! p with Some _ => true | None => false end.

(** [p] with all the paths it lies below, the root first *)
Definition lineage (p : path) : list path :=
  List.map (fun n => Path (p_root p) (firstn n (p_parts p)))
           (seq 0 (S (length (p_parts p)))).

Definition ancestors (p : path) : list path :=
  List.map (fun n => Path (p_root p) (firstn n (p_parts p)))
           (seq 0 (length (p_parts p))).

(** Some file stands where a directory is needed on the way to [p]. *)
Definition blocked (f : gmap path node) (p : path) : bool :=
  existsb (is_file f) (ancestors p).

Definition is_locked (n : node) : bool :=
  match n with File true _ => true | _ => false end.

(** Some file at or below [p] is locked. *)
Definition locked_below (f : gmap path node) (p : path) : bool :=
  existsb (fun qn => bool_decide (PurePath.below p qn.1) && is_locked qn.2)
          (map_to_list f).

(** Everything at and below [p] is deleted. *)
Definition prune (p : path) (f : gmap path node) : gmap path node :=
  filter (fun qn => ¬ PurePath.below p qn.1) f.

(** Directories are made at [p] and at every missing place above it. *)
Definition plant (p : path) (f : gmap path node) : gmap path node :=
  foldr (fun q acc => <[q := Dir]> acc) f (lineage p).

(* ===================================================================== *)
(** ** The library calls on the file system                                *)
(* ===================================================================== *)

Definition os_error_of (k : os_error) : exn := OSError k "" None.

Module Os.

(** [os.makedirs(p, exist_ok=True)] *)
Definition makedirs (p : path) : M unit :=
  fun st =>
    if blocked (fs st) p then (Err (os_error_of NotADirectoryError), st)
    else if is_file (fs st) p then (Err (os_error_of FileExistsError), st)
    else if is_dir (fs st) p then (Ok tt, st)
    else (Ok tt, State (plant p (fs st)) (trace st ++ [FsWrite p]) (next_tmp st)).

(** [os.mkdir(p)] *)
Definition mkdir (p : path) : M unit :=
  fun st =>
    if exists_ (fs st) p then (Err (os_error_of FileExistsError), st)
    else if is_dir (fs st) (PurePath.parent p) then
      (Ok tt, State (<[p := Dir]> (fs st)) (trace st ++ [FsWrite p]) (next_tmp st))
    else if is_file (fs st) (PurePath.parent p) then
      (Err (os_error_of NotADirectoryError), st)
    else (Err (os_error_of FileNotFoundError), st).

(** [open(p, "rb").read()] *)
Definition read_file (p : path) : M content :=
  fun st =>
    match fs st !! p with
    | Some (File false d) => (Ok d, st)
    | Some (File true _) => (Err (os_error_of PermissionError), st)
    | Some Dir => (Err (os_error_of IsADirectoryError), st)
    | None => (Err (os_error_of FileNotFoundError), st)
    end.

(** [open(p, "wb").write(data)]: the file is created or replaced. *)
Definition write_file (p : path) (data : content) : M unit :=
  fun st =>
    match fs st !! p with
    | Some Dir => (Err (os_error_of IsADirectoryError), st)
    | Some (File true _) => (Err (os_error_of PermissionError), st)
    | _ =>
        if is_dir (fs st) (PurePath.parent p) then
          (Ok tt, State (<[p := File false data]> (fs st))
                        (trace st ++ [FsWrite p]) (next_tmp st))
        else if is_file (fs st) (PurePath.parent p) then
          (Err (os_error_of NotADirectoryError), st)
        else (Err (os_error_of FileNotFoundError), st)
    end.

(** [p.unlink()] *)
Definition unlink (p : path) : M unit :=
  fun st =>
    match fs st !! p with
    | Some (File false _) =>
        (Ok tt, State (delete p (fs st)) (trace st ++ [FsRemove p]) (next_tmp st))
    | Some (File true _) => (Err (os_error_of PermissionError), st)
    | Some Dir => (Err (os_error_of IsADirectoryError), st)
    | None => (Err (os_error_of FileNotFoundError), st)
    end.

End Os.

Module Shutil.

(** What [shutil.rmtree(p)] has to delete, in the order in which it comes
    to it: the entries of a directory, each after what is below it, and
    then the directory. *)
Definition doomed (f : gmap path node) (p : path) : list (path * node) :=
  merge_sort leave_le
    (List.filter (fun qn => bool_decide (PurePath.below p qn.1)) (map_to_list f)).

(** The entries are deleted one after the other, up to the first that
    cannot be, a locked file: what is deleted, and whether that is all. *)
Fixpoint unlink_each (l : list (path * node)) : list path * bool :=
  match l with
  | [] => ([], true)
  | (q, n) :: rest =>
      if is_locked n then ([], false)
      else let '(gone, all) := unlink_each rest in (q :: gone, all)
  end.

(** [shutil.rmtree(p)].  A locked file below [p] makes it raise when it
    comes to it: what was deleted before stays deleted. *)
Definition rmtree (p : path) : M unit :=
  fun st =>
    if negb (is_dir (fs st) p) then (Err (os_error_of NotADirectoryError), st)
    else
      let '(gone, all) := unlink_each (doomed (fs st) p) in
      let f' := foldr delete (fs st) gone in
      if all then (Ok tt, State f' (trace st ++ [FsRemove p]) (next_tmp st))
      else (Err (os_error_of PermissionError),
            State f' (trace st ++ List.map FsRemove gone) (next_tmp st)).

(** Where the copy of [q], which lies below [src], goes below [dst]. *)
Definition rebase (src dst q : path) : path :=
  Path (p_root dst) (p_parts dst ++ skipn (length (p_parts src)) (p_parts q)).

(** One entry is copied to [t]; the flag tells whether it could be. *)
Definition graft (t : path) (n : node) (acc : gmap path node * bool)
  : gmap path node * bool :=
  match n, acc.1 !! t with
  | Dir, Some (File _ _) => (acc.1, false)
  | Dir, _ => (<[t := Dir]> acc.1, acc.2)
  | File true _, _ => (acc.1, false)
  | File false _, Some Dir => (acc.1, false)
  | File false _, Some (File true _) => (acc.1, false)
  | File false d, _ => (<[t := File false d]> acc.1, acc.2)
  end.

(** [shutil.copytree(src, dst)]: [dst] must not exist; the entries that
    cannot be copied are passed over and reported at the end by
    [shutil.Error]. *)
Definition copytree (src dst : path) : M path :=
  fun st =>
    let f := fs st in
    if negb (is_dir f src) then (Err (os_error_of NotADirectoryError), st)
    else if exists_ f dst then (Err (os_error_of FileExistsError), st)
    else if blocked f dst then (Err (os_error_of NotADirectoryError), st)
    else
      let below_src := List.filter (fun qn => bool_decide (PurePath.below src qn.1))
                                   (map_to_list f) in
      let '(f', clean) :=
        foldr (fun qn acc => graft (rebase src dst qn.1) qn.2 acc)
              (plant dst f, true) below_src in
      let st' := State f' (trace st ++ [FsWrite dst]) (next_tmp st) in
      if clean then (Ok dst, st') else (Err (os_error_of ShutilError), st').

(** [shutil.copy2(src, dst)]: into [dst] when it is a directory. *)
Definition copy2 (src dst : path) : M path :=
  let! data := Os.read_file src in
  let! f := get_fs in
  let target := if is_dir f dst then PurePath.joinpath dst (PurePath.basename src) else dst in
  let! _ := Os.write_file target data in
  ret target.

End Shutil.

Module Tempfile.

(** [tempfile.TemporaryDirectory()]: a new, empty directory *)
Definition mkdtemp : M path :=
  fun st =>
    let p := Path (Scratch (next_tmp st)) [] in
    (Ok p, State (<[p := Dir]> (fs st)) (trace st ++ [FsWrite p]) (S (next_tmp st))).

(** [tmp.cleanup()] *)
Definition cleanup (p : path) : M unit :=
  fun st => (Ok tt, State (prune p (fs st)) (trace st ++ [FsRemove p]) (next_tmp st)).

(** [with tempfile.TemporaryDirectory() as tmp_dir: body]: the directory
    is removed when the block is left, also by an exception. *)
Definition with_tmpdir {A} (body : path -> M A) : M A :=
  fun st =>
    match mkdtemp st with
    | (Ok p, st1) =>
        let '(r, st2) := body p st1 in (r, (cleanup p st2).2)
    | (Err e, st1) => (Err e, st1)
    end.

End Tempfile.

(** The listing of an archive: names and what is stored under them. *)
Definition members : Type := list (string * entry).

(** The last member of the listing that carries the name. *)
Definition last_named (name : string) (ms : members) : option entry :=
  match List.find (fun m => String.eqb m.1 name) (List.rev ms) with
  | Some m => Some m.2
  | None => None
  end.

(** The first member of the listing that carries the name. *)
Definition first_named (name : string) (ms : members) : option entry :=
  match List.find (fun m => String.eqb m.1 name) ms with
  | Some m => Some m.2
  | None => None
  end.

(** Create the directory above [t] when nothing is there. *)
Definition upperdirs (t : path) : M unit :=
  let! f := get_fs in
  if exists_ f (PurePath.parent t) then ret tt else Os.makedirs (PurePath.parent t).

Module ZipFile.

(** [zipfile.ZipFile(p, "r")] *)
Definition open_r (p : path) : M members :=
  let! c := Os.read_file p in
  match c with
  | Zip ms => ret ms
  | _ => raise BadZipFile
  end.

(** [arch.namelist()] *)
Definition namelist (ms : members) : list string := List.map fst ms.

(** [arch.getinfo(name)]: of two members with one name, the later. *)
Definition getinfo (ms : members) (name : string) : M entry :=
  match last_named name ms with
  | Some e => ret e
  | None => raise KeyError
  end.

(** Where a member goes: empty, ["."] and [".."] components are dropped. *)
Definition target (out : path) (name : string) : path :=
  Path (p_root out)
       (p_parts out ++
        List.filter (fun c => negb (String.eqb c "" || String.eqb c "." || String.eqb c ".."))
                    (Str.split "/" name)).

(** [arch.extract(name, out)].  A name that ends in a slash is a
    directory.  A damaged member is found out when it is opened, before
    its file is made. *)
Definition extract (ms : members) (out : path) (name : string) : M unit :=
  let! e := getinfo ms name in
  let t := target out name in
  let! _ := upperdirs t in
  if Str.endswith "/" name then
    let! f := get_fs in
    if is_dir f t then ret tt else Os.mkdir t
  else
    match e with
    | EFile d => Os.write_file t d
    | EDir => Os.write_file t (Raw [])
    | EDamaged => raise BadZipFile
    end.

(** [arch.extractall(path=out, members=names)] *)
Fixpoint extractall (ms : members) (out : path) (names : list string) : M unit :=
  match names with
  | [] => ret tt
  | n :: rest => let! _ := extract ms out n in extractall ms out rest
  end.

(** [arch.read(name)] *)
Definition read (ms : members) (name : string) : M content :=
  let! e := getinfo ms name in
  if Str.endswith "/" name then ret (Raw [])
  else
    match e with
    | EFile d => ret d
    | EDir => ret (Raw [])
    | EDamaged => raise BadZipFile
    end.

End ZipFile.

Module TarFile.

(** [tarfile.open(p, "r")]: the first header is read, and no more.  The
    open archive is the members that can be listed, and whether the
    listing reaches its end. *)
Definition open_r (p : path) : M (members * bool) :=
  let! c := Os.read_file p in
  match c with
  | Tar ms => ret (ms, true)
  | TarCut (m :: ms) => ret (m :: ms, false)
  | _ => raise ReadError
  end.

(** [tar.getmembers()]: the headers are read to the end of the archive;
    one that cannot be read raises [ReadError]. *)
Definition getmembers (tar : members * bool) : M members :=
  if tar.2 then ret tar.1 else raise ReadError.

(** [os.path.join(out, name)] with its [".."] components followed. *)
Definition resolve (parts : list string) (comps : list string) : list string :=
  fold_left (fun acc c =>
               if String.eqb c "" || String.eqb c "." then acc
               else if String.eqb c ".." then removelast acc
               else (acc ++ [c])%list)
            comps parts.

Definition target (out : path) (name : string) : path :=
  Path (p_root out) (resolve (p_parts out) (Str.split "/" name)).

(** [arch.extract(member, out)].  A directory that is already there is
    left as it is.  The file of a damaged member is made, and reading
    its data raises [ReadError]. *)
Definition extract (out : path) (m : string * entry) : M unit :=
  let t := target out m.1 in
  let! _ := upperdirs t in
  match m.2 with
  | EDir =>
      let! f := get_fs in
      if exists_ f t then ret tt else Os.mkdir t
  | EFile d => Os.write_file t d
  | EDamaged => let! _ := Os.write_file t (Raw []) in raise ReadError
  end.

(** [arch.extractall(path=out, members=ms)] *)
Fixpoint extractall (out : path) (ms : members) : M unit :=
  match ms with
  | [] => ret tt
  | m :: rest => let! _ := extract out m in extractall out rest
  end.

(** [arch.extractfile(member)]: [None] for what is not a regular file *)
Definition extractfile (e : entry) : option entry :=
  match e with
  | EDir => None
  | _ => Some e
  end.

(** [fileobj.read()] *)
Definition read (e : entry) : M content :=
  match e with
  | EFile d => ret d
  | _ => raise ReadError
  end.

End TarFile.

(* ===================================================================== *)
(** ** [remove] and [copy]                                                 *)
(* ===================================================================== *)

(** Every path of the model is local: [path.is_cloud_path] is [False]
    throughout, and the branches for cloud paths are not taken. *)

(** [remove(path)] *)
Definition remove (p : path) : M unit :=
  let! f := get_fs in
  if negb (exists_ f p) then log Debug "Non existing %s"
  else if is_dir f p then
    catch (Shutil.rmtree p)
          (fun e => if is_OSError e
                    then log Debug "Impossible to remove the directory %s"
                    else raise e)
  else if is_file f p then
    catch (Os.unlink p)
          (fun e => if is_OSError e
                    then log Debug "Impossible to remove the file %s"
                    else raise e)
  else ret tt.

(** [copy(src, dst)]: the new path, [src] after a [shutil.Error], [None]
    when [src] is neither a directory nor a file. *)
Definition copy (src dst : path) : M (option path) :=
  catch (let! f := get_fs in
         if is_dir f src then
           let! out := Shutil.copytree src dst in ret (Some out)
         else if is_file f src then
           let! out := Shutil.copy2 src dst in ret (Some out)
         else ret None)
        (fun e =>
           if is_shutil_Error e then
             let! _ := log Debug "Error in copy!" in ret (Some src)
           else if is_OSError e then
             raise (OSError EnvironmentError "Copy error" (Some e))
           else raise e).

(* ===================================================================== *)
(** ** [extract_file]                                                      *)
(* ===================================================================== *)

(** What the module takes from the rest of the package and from the
    interpreter.  [sertit/misc.py] and [sertit/path.py] are not at hand:
    [misc.in_docker()] and [path.get_filename] are parameters.  The order
    in which a [set] of strings is iterated is a parameter as well, and so
    are [date.fromisoformat] and [datetime.fromisoformat], which read more
    strings in one version of Python than in another; [None] stands for
    their [ValueError]. *)
Record env : Type := Env {
  in_docker : bool;
  get_filename : path -> string;
  set_order : list string -> list string;
  date_fromisoformat : string -> option Iso.date;
  datetime_fromisoformat : string -> option Iso.datetime
}.

(** [list({...})]: the elements without repetition, in the order of the
    interpreter. *)
Definition list_of_set (E : env) (l : list string) : list string :=
  set_order E (remove_dups l).

(** An open archive. *)
Inductive archive : Type :=
| ZipArchive (ms : members)
| TarArchive (tar : members * bool).

(** [arch.namelist()], which only a [ZipFile] has *)
Definition namelist (arch : archive) : M (list string) :=
  match arch with
  | ZipArchive ms => ret (ZipFile.namelist ms)
  | TarArchive _ => raise (AttributeError "'TarFile' object has no attribute 'namelist'")
  end.

(** [arch.getmembers()], which only a [TarFile] has *)
Definition getmembers (arch : archive) : M members :=
  match arch with
  | TarArchive tar => TarFile.getmembers tar
  | ZipArchive _ => raise (AttributeError "'ZipFile' object has no attribute 'getmembers'")
  end.

(** The [members] argument of [extractall]: names for a zip, the members
    themselves for a tar. *)
Inductive selection : Type :=
| Names (l : list string)
| Infos (l : members).

(** [arch.extractall(path=out, members=sel)] *)
Definition extractall (arch : archive) (out : path) (sel : selection) : M unit :=
  match arch, sel with
  | ZipArchive ms, Names l => ZipFile.extractall ms out l
  | TarArchive _, Infos l => TarFile.extractall out l
  | ZipArchive _, Infos _ => raise (AttributeError "'tuple' object has no attribute 'filename'")
  | TarArchive _, Names _ => raise (AttributeError "'str' object has no attribute 'name'")
  end.

(** What [extract_file] returns: one path, or a list of paths. *)
Inductive extracted : Type :=
| OnePath (p : path)
| PathList (l : list path).

Section Extract.

Variable E : env.

(** The body of the loop of [extract_file] for one target directory.
    [file_path] is assigned in the loop when the code runs in docker:
    the body returns its value for the next round. *)
Definition extract_one (arch : archive) (extr_names : list string)
           (output : path) (overwrite : bool)
           (file_path : path) (extr_dir : path) : M path :=
  let extr_name := PurePath.name extr_dir in
  let! f := get_fs in
  if is_dir f extr_dir then
    if overwrite then
      let! _ := log Debug "Already existing extracted %s. It will be overwritten as asked." in
      let! _ := remove extr_dir in
      ret file_path
    else
      let! _ := log Debug "Already existing extracted %s. It won't be overwritten." in
      ret file_path
  else
    let! _ := log Info "Extracting %s" in
    Tempfile.with_tmpdir (fun tmp_dir =>
      let! (file_path, tmp_extr_output, tmp_extr_dir) :=
        (if in_docker E then
           let! _ := copy file_path tmp_dir in
           ret (PurePath.joinpath tmp_dir (PurePath.basename file_path),
                tmp_dir,
                PurePath.joinpath tmp_dir extr_name)
         else ret (file_path, output, extr_dir)) in
      let! (sel, tmp_extr_output) :=
        (if Str.endswith ".zip" (PurePath.str file_path) then
           let! names := namelist arch in
           ret (Names (List.filter (Str.contains extr_name) names), tmp_extr_output)
         else
           let! ms := getmembers arch in
           ret (Infos ms, tmp_extr_dir)) in
      let! _ :=
        catch (let! _ := Os.makedirs tmp_extr_dir in
               extractall arch tmp_extr_output sel)
              (fun ex =>
                 if is_ReadError ex
                 then raise (TypeError "Impossible to extract" (Some ex))
                 else raise ex) in
      let! _ :=
        (if in_docker E then let! _ := copy tmp_extr_dir extr_dir in ret tt
         else ret tt) in
      ret file_path).

(** [for extr_dir in extr_dirs: ...] *)
Fixpoint extract_loop (arch : archive) (extr_names : list string)
         (output : path) (overwrite : bool)
         (file_path : path) (extr_dirs : list path) : M unit :=
  match extr_dirs with
  | [] => ret tt
  | extr_dir :: rest =>
      let! file_path := extract_one arch extr_names output overwrite file_path extr_dir in
      extract_loop arch extr_names output overwrite file_path rest
  end.

(** The top-level entries of a zip: [{p.split("/")[0] for p in names}] *)
Definition top_level (names : list string) : list string :=
  list_of_set E (List.map (fun p => List.hd "" (Str.split "/" p)) names).

Definition unsupported_format : exn :=
  TypeError "Only .zip, .tar and .tar.gz files can be extracted" None.

(** [extract_file(file_path, output, overwrite)] *)
Definition extract_file (file_path output : path) (overwrite : bool) : M extracted :=
  let! f := get_fs in
  if is_dir f file_path then ret (OnePath file_path)
  else
    let! (arch, extr_names) :=
      (if String.eqb (PurePath.suffix file_path) ".zip" then
         let! ms := ZipFile.open_r file_path in
         ret (ZipArchive ms, top_level (ZipFile.namelist ms))
       else if String.eqb (PurePath.suffix file_path) ".tar"
               || bool_decide (PurePath.suffixes file_path = [".tar"; ".gz"]) then
         let extr_names := [get_filename E file_path] in
         let! tar := TarFile.open_r file_path in
         ret (TarArchive tar, extr_names)
       else raise unsupported_format) in
    let extr_dirs := List.map (PurePath.joinpath output) extr_names in
    let! _ := extract_loop arch extr_names output overwrite file_path extr_dirs in
    match extr_dirs with
    | [d] => ret (OnePath d)
    | _ => ret (PathList extr_dirs)
    end.

(** [extract_files(archives, output, overwrite)] *)
Fixpoint extract_files (archives : list path) (output : path) (overwrite : bool)
  : M (list extracted) :=
  match archives with
  | [] => ret []
  | arch :: rest =>
      let! r := extract_file arch output overwrite in
      let! rs := extract_files rest output overwrite in
      ret (r :: rs)
  end.

End Extract.

(* ===================================================================== *)
(** ** Regular expressions: [re.compile] and [Pattern.match]               *)
(* ===================================================================== *)

Module Re.

Inductive regex : Type :=
| Never
| Eps
| Chr (c : ascii)
| Any                                  (* [.]: any character but a newline *)
| Seq (r1 r2 : regex)
| Alt (r1 r2 : regex)
| Star (r : regex).

Definition newline : ascii := ascii_of_nat 10.

Fixpoint nullable (r : regex) : bool :=
  match r with
  | Never | Chr _ | Any => false
  | Eps | Star _ => true
  | Seq r1 r2 => nullable r1 && nullable r2
  | Alt r1 r2 => nullable r1 || nullable r2
  end.

(** What is left of [r] to match once [c] is read. *)
Fixpoint deriv (c : ascii) (r : regex) : regex :=
  match r with
  | Never | Eps => Never
  | Chr d => if Ascii.eqb c d then Eps else Never
  | Any => if Ascii.eqb c newline then Never else Eps
  | Seq r1 r2 =>
      if nullable r1 then Alt (Seq (deriv c r1) r2) (deriv c r2)
      else Seq (deriv c r1) r2
  | Alt r1 r2 => Alt (deriv c r1) (deriv c r2)
  | Star r1 => Seq (deriv c r1) (Star r1)
  end.

(** [regex.match(s)] as a test: the pattern matches at position 0, that
    is, it matches some prefix of [s]. *)
Fixpoint match_ (r : regex) (s : string) : bool :=
  nullable r ||
  match s with
  | EmptyString => false
  | String c s' => match_ (deriv c r) s'
  end.

(** [regex.search(s)] as a test: the pattern matches at some position. *)
Fixpoint search (r : regex) (s : string) : bool :=
  match_ r s ||
  match s with
  | EmptyString => false
  | String _ s' => search r s'
  end.

(** [regex.fullmatch(s)] as a test *)
Fixpoint fullmatch (r : regex) (s : string) : bool :=
  match s with
  | EmptyString => nullable r
  | String c s' => fullmatch (deriv c r) s'
  end.

(** The strings that a pattern matches from their first to their last
    character. *)
Inductive matches : regex -> string -> Prop :=
| matches_eps : matches Eps ""
| matches_chr c : matches (Chr c) (String c "")
| matches_any c : c <> newline -> matches Any (String c "")
| matches_seq r1 r2 s1 s2 :
    matches r1 s1 -> matches r2 s2 -> matches (Seq r1 r2) (s1 +:+ s2)
| matches_alt_l r1 r2 s : matches r1 s -> matches (Alt r1 r2) s
| matches_alt_r r1 r2 s : matches r2 s -> matches (Alt r1 r2) s
| matches_star_nil r : matches (Star r) ""
| matches_star_app r s1 s2 :
    matches r s1 -> matches (Star r) s2 -> matches (Star r) (s1 +:+ s2).

Definition is_alnum (c : ascii) : bool :=
  let n := nat_of_ascii c in
  ((48 <=? n) && (n <=? 57) || (65 <=? n) && (n <=? 90) || (97 <=? n) && (n <=? 122))%nat.

(** The characters with a meaning that the fragment does not cover:
    groups, classes, counted repetitions and anchors. *)
Definition beyond (c : ascii) : bool :=
  existsb (Ascii.eqb c) (list_ascii_of_string "()[]{}^$").

Definition close_branch (seq : regex) (last : option regex) : regex :=
  match last with
  | Some a => Seq seq a
  | None => seq
  end.

Definition close_alt (alts : option regex) (r : regex) : regex :=
  match alts with
  | Some a => Alt a r
  | None => r
  end.

(** The pattern is read from the left: [alts] are the branches closed by
    a bar, [seq] is the branch being read and [last] its last atom, to
    which a repetition may still apply. *)
Fixpoint parse (l : list ascii) (alts : option regex) (seq : regex)
         (last : option regex) : option regex :=
  match l with
  | [] => Some (close_alt alts (close_branch seq last))
  | c :: l' =>
      if Ascii.eqb c "|" then
        parse l' (Some (close_alt alts (close_branch seq last))) Eps None
      else if Ascii.eqb c "*" then
        match last with
        | Some a => parse l' alts (Seq seq (Star a)) None
        | None => None
        end
      else if Ascii.eqb c "+" then
        match last with
        | Some a => parse l' alts (Seq seq (Seq a (Star a))) None
        | None => None
        end
      else if Ascii.eqb c "?" then
        match last with
        | Some a => parse l' alts (Seq seq (Alt Eps a)) None
        | None => None
        end
      else if Ascii.eqb c "." then
        parse l' alts (close_branch seq last) (Some Any)
      else if Ascii.eqb c "\" then
        match l' with
        | d :: l'' =>
            if is_alnum d then None
            else parse l'' alts (close_branch seq last) (Some (Chr d))
        | [] => None
        end
      else if beyond c then None
      else parse l' alts (close_branch seq last) (Some (Chr c))
  end.

(** [re.compile(pattern)] for patterns made of characters, escaped
    punctuation, [.], the repetitions [*], [+], [?] and the bar.  A
    repetition with nothing to repeat is an error of [re].  The other
    constructs of [re] are not modelled: [compile] refuses them too. *)
Definition compile (pattern : string) : M regex :=
  match parse (list_ascii_of_string pattern) None Eps None with
  | Some r => ret r
  | None => raise ReError
  end.

End Re.

(* ===================================================================== *)
(** ** [read_archived_file]                                                *)
(* ===================================================================== *)

(** [l[0]] *)
Definition item0 {A} (l : list A) : M A :=
  match l with
  | x :: _ => ret x
  | [] => raise IndexError
  end.

(** [read_archived_file(archive_path, regex)] *)
Definition read_archived_file (archive_path : path) (regex : string) : M content :=
  let! regex := Re.compile regex in
  catch
    (if String.eqb (PurePath.suffix archive_path) ".tar" then
       let! tar_ds := TarFile.open_r archive_path in
       let! tar_mb := TarFile.getmembers tar_ds in
       let name_list := List.map fst tar_mb in
       let! band_name := item0 (List.filter (Re.match_ regex) name_list) in
       let! tarinfo := item0 (List.filter (fun mb => String.eqb mb.1 band_name) tar_mb) in
       match TarFile.extractfile tarinfo.2 with
       | Some fileobj => TarFile.read fileobj
       | None => raise (AttributeError "'NoneType' object has no attribute 'read'")
       end
     else if String.eqb (PurePath.suffix archive_path) ".zip" then
       let! zip_ds := ZipFile.open_r archive_path in
       let name_list := ZipFile.namelist zip_ds in
       let! band_name := item0 (List.filter (Re.match_ regex) name_list) in
       ZipFile.read zip_ds band_name
     else if String.eqb (PurePath.suffix archive_path) ".tar.gz" then
       raise (TypeError ".tar.gz files are too slow to read from inside the archive. Please extract them instead." None)
     else
       raise (TypeError "Only .zip and .tar files can be read from inside its archive." None))
    (fun e =>
       if is_IndexError e
       then raise (OSError FileNotFoundError "Impossible to find file" None)
       else raise e).

(* ===================================================================== *)
(** ** [add_to_zip]                                                        *)
(* ===================================================================== *)

Module Walk.

(** The directories at and below [top] from the top down: a directory,
    then the directories in it by name, each with those below it. *)
Definition dirs (f : gmap path node) (top : path) : list path :=
  merge_sort visit_le
    (List.map fst
       (List.filter (fun qn => bool_decide (PurePath.below top qn.1)
                               && match qn.2 with Dir => true | File _ _ => false end)
                    (map_to_list f))).

(** The names of the files that are directly in [d]. *)
Definition files (f : gmap path node) (d : path) : list string :=
  merge_sort name_le
    (List.map (fun qn => PurePath.name qn.1)
       (List.filter (fun qn => bool_decide (PurePath.parent qn.1 = d ∧ qn.1 ≠ d)
                               && match qn.2 with Dir => false | File _ _ => true end)
                    (map_to_list f))).

(** [os.walk(top)]: nothing when [top] is not a directory *)
Definition walk (f : gmap path node) (top : path) : list (path * list string) :=
  if is_dir f top then List.map (fun d => (d, files f d)) (dirs f top) else [].

End Walk.

(** [zipfile.ZipFile(p, "a")]: a file that holds no zip archive gets a new,
    empty one. *)
Definition zip_open_append (p : path) : M unit :=
  let! c := Os.read_file p in
  match c with
  | Zip _ => ret tt
  | _ => Os.write_file p (Zip [])
  end.

(** [zip_file.write(src, arcname)]: a member is added at the end of the
    listing; the name of a directory gets a slash. *)
Definition zip_write (zip_path src : path) (arcname : string) : M unit :=
  let! f := get_fs in
  let! m :=
    match f !! src with
    | Some Dir => ret (arcname +:+ "/", EDir)
    | Some (File false d) => ret (arcname, EFile d)
    | Some (File true _) => raise (os_error_of PermissionError)
    | None => raise (os_error_of FileNotFoundError)
    end in
  let! c := Os.read_file zip_path in
  match c with
  | Zip ms => Os.write_file zip_path (Zip (ms ++ [m]))
  | _ => raise BadZipFile
  end.

(** [os.path.relpath(q, os.path.join(dir_to_add, ".."))] *)
Definition arcname (dir_to_add q : path) : string :=
  Str.join "/" (skipn (length (p_parts dir_to_add) - 1) (p_parts q)).

Section AddToZip.

Variable E : env.

Fixpoint write_files (zip_path dir_to_add root : path) (files : list string) : M unit :=
  match files with
  | [] => ret tt
  | file :: rest =>
      let! _ := zip_write zip_path (PurePath.joinpath root file)
                          (arcname dir_to_add (PurePath.joinpath root file)) in
      write_files zip_path dir_to_add root rest
  end.

Fixpoint write_walk (zip_path dir_to_add : path) (w : list (path * list string)) : M unit :=
  match w with
  | [] => ret tt
  | (root, files) :: rest =>
      let! _ := zip_write zip_path root (arcname dir_to_add root) in
      let! _ := write_files zip_path dir_to_add root files in
      write_walk zip_path dir_to_add rest
  end.

(** The body of the loop of [add_to_zip] for one directory or archive. *)
Definition add_one (zip_path dir_to_add : path) : M unit :=
  let! tmp := Tempfile.mkdtemp in
  let! f := get_fs in
  let! dir_to_add :=
    (if is_file f dir_to_add then
       let! r := extract_file E dir_to_add tmp false in
       match r with
       | OnePath p => ret p
       | PathList _ =>
           raise (TypeError "expected str, bytes or os.PathLike object, not list" None)
       end
     else ret dir_to_add) in
  let! f := get_fs in
  let! _ := write_walk zip_path dir_to_add (Walk.walk f dir_to_add) in
  Tempfile.cleanup tmp.

Fixpoint add_all (zip_path : path) (dirs_to_add : list path) : M unit :=
  match dirs_to_add with
  | [] => ret tt
  | d :: rest => let! _ := add_one zip_path d in add_all zip_path rest
  end.

(** [add_to_zip(zip_path, dirs_to_add)]; [dirs_to_add] is one path or a
    list of paths. *)
Definition add_to_zip (zip_path : path) (dirs_to_add : path + list path) : M path :=
  let! f := get_fs in
  if negb (is_file f zip_path) then
    raise (OSError FileNotFoundError "Non existing" None)
  else
    let dirs_to_add :=
      match dirs_to_add with
      | inl d => [d]
      | inr l => l
      end in
    let! _ := zip_open_append zip_path in
    let! _ := add_all zip_path dirs_to_add in
    ret zip_path.

End AddToZip.

(* ===================================================================== *)
(** ** JSON: [CustomEncoder], [CustomDecoder], [read_json], [save_json]    *)
(* ===================================================================== *)

Definition not_serializable : exn :=
  TypeError "Object is not JSON serializable" None.

(** [CustomEncoder.default(obj)] *)
Definition default (obj : pyval) : result pyval :=
  match obj with
  | VDate d => Ok (VStr (Iso.date_isoformat d))
  | VDatetime t => Ok (VStr (Iso.datetime_isoformat t))
  | VNpInt z => Ok (VInt z)
  | VEnum _ value => Ok value
  | VSet text => Ok (VStr text)
  | VPath p => Ok (VStr (PurePath.str p))
  | _ => Err not_serializable
  end.

(** What the encoder asks of [default]: its own for [CustomEncoder], the
    one of [json.JSONEncoder], which raises, otherwise. *)
Definition default_of (cls : encoder) (obj : pyval) : result pyval :=
  match cls with
  | CustomEncoder => default obj
  | JSONEncoder => Err not_serializable
  end.

(** The encoder: [None], [bool], [int], [str], [list] and [dict] are
    encoded as they are; for any other object the encoder encodes what
    [default] returns for it.  For an enum member that is its value, hence
    the recursive call. *)
Fixpoint encode (cls : encoder) (obj : pyval) : result json :=
  match obj with
  | VNone => Ok JNull
  | VBool b => Ok (JBool b)
  | VInt z => Ok (JInt z)
  | VStr s => Ok (JStr s)
  | VList l =>
      match (fix go (l : list pyval) : result (list json) :=
               match l with
               | [] => Ok []
               | x :: l' =>
                   match encode cls x with
                   | Ok j => match go l' with Ok js => Ok (j :: js) | Err e => Err e end
                   | Err e => Err e
                   end
               end) l with
      | Ok js => Ok (JList js)
      | Err e => Err e
      end
  | VDict items =>
      match (fix go (l : list (string * pyval)) : result (list (string * json)) :=
               match l with
               | [] => Ok []
               | (k, x) :: l' =>
                   match encode cls x with
                   | Ok j => match go l' with Ok js => Ok ((k, j) :: js) | Err e => Err e end
                   | Err e => Err e
                   end
               end) items with
      | Ok js => Ok (JDict js)
      | Err e => Err e
      end
  | VEnum _ value =>
      match default_of cls obj with
      | Ok _ => encode cls value
      | Err e => Err e
      end
  | _ =>
      match default_of cls obj with
      | Ok (VStr s) => Ok (JStr s)
      | Ok (VInt z) => Ok (JInt z)
      | Ok _ => Err not_serializable
      | Err e => Err e
      end
  end.

Section Decoder.

Variable E : env.

(** The loop body of [CustomDecoder.object_hook]: a string is tried as a
    date, then as a datetime, and kept otherwise. *)
Definition hook_value (val : pyval) : pyval :=
  match val with
  | VStr s =>
      match date_fromisoformat E s with
      | Some d => VDate d
      | None =>
          match datetime_fromisoformat E s with
          | Some t => VDatetime t
          | None => VStr s
          end
      end
  | _ => val
  end.

(** [CustomDecoder.object_hook(obj)] *)
Definition object_hook (obj : list (string * pyval)) : list (string * pyval) :=
  List.map (fun kv => (kv.1, hook_value kv.2)) obj.

(** [d[k] = v] *)
Fixpoint dict_set (k : string) (v : pyval) (d : list (string * pyval))
  : list (string * pyval) :=
  match d with
  | [] => [(k, v)]
  | (k', v') :: d' =>
      if String.eqb k k' then (k, v) :: d' else (k', v') :: dict_set k v d'
  end.

(** [d.get(k)] *)
Fixpoint dict_get (k : string) (d : list (string * pyval)) : option pyval :=
  match d with
  | [] => None
  | (k', v) :: d' => if String.eqb k k' then Some v else dict_get k d'
  end.

(** The [dict] that the decoder builds from the pairs of a JSON object. *)
Definition dict_of_pairs (l : list (string * pyval)) : list (string * pyval) :=
  fold_left (fun d kv => dict_set kv.1 kv.2 d) l [].

(** [json.loads(text, cls=CustomDecoder)] on the parsed document: the
    hook is applied to every JSON object, the inner ones first. *)
Fixpoint decode (j : json) : pyval :=
  match j with
  | JNull => VNone
  | JBool b => VBool b
  | JInt z => VInt z
  | JStr s => VStr s
  | JList l => VList (List.map decode l)
  | JDict items =>
      VDict (object_hook (dict_of_pairs
        ((fix go (l : list (string * json)) : list (string * pyval) :=
            match l with
            | [] => []
            | (k, x) :: l' => (k, decode x) :: go l'
            end) items)))
  end.

End Decoder.

(** The path that [open] gets from its argument. *)
Definition as_path (v : pyval) : M path :=
  match v with
  | VPath p => ret p
  | VStr s => ret (Path Disk (PurePath.components s))
  | VInt _ | VBool _ => raise (OSError EnvironmentError "Bad file descriptor" None)
  | _ => raise (TypeError "expected str, bytes or os.PathLike object" None)
  end.

(** [json.dump(obj, file, indent=indent, cls=cls)] into the open file at
    [p]: when the encoder raises, what it had produced is in the file. *)
Definition json_dump (obj : pyval) (p : path) (indent : nat) (cls : encoder) : M unit :=
  match encode cls obj with
  | Ok j => Os.write_file p (JsonText indent j)
  | Err e => let! _ := Os.write_file p (JsonCut indent cls obj) in raise e
  end.

(** [logs.deprecation_warning(msg)]: [sertit/logs.py] defines
    [init_logger], [create_logger], [shutdown_logger] and [reset_logging]
    and no function of this name, so that looking it up in the module
    raises [AttributeError]. *)
Definition deprecation_warning (msg : string) : M unit :=
  raise (AttributeError "module 'sertit.logs' has no attribute 'deprecation_warning'").

(** The keyword arguments of [save_json] that it looks at. *)
Record kwargs : Type := Kwargs { kw_indent : option nat; kw_cls : option encoder }.

(** [kwargs.get(key, value)] *)
Definition kwargs_get {A} (given : option A) (value : A) : A :=
  match given with
  | Some a => a
  | None => value
  end.

Definition is_dict (v : pyval) : bool :=
  match v with VDict _ => true | _ => false end.

(** [save_json(json_dict, output_json, **kwargs)] *)
Definition save_json (json_dict output_json : pyval) (kw : kwargs) : M unit :=
  let! (json_dict, output_json) :=
    (if is_dict output_json then
       let! _ := deprecation_warning
                   "The order of the function has changed. Please set json_dict in first!" in
       ret (output_json, json_dict)
     else ret (json_dict, output_json)) in
  let indent := kwargs_get (kw_indent kw) 3%nat in
  let cls := kwargs_get (kw_cls kw) CustomEncoder in
  let! p := as_path output_json in
  let! _ := Os.write_file p (Raw []) in
  json_dump json_dict p indent cls.

(** [read_json(json_file, print_file)] *)
Definition read_json (E : env) (json_file : pyval) (print_file : bool) : M pyval :=
  let! p := as_path json_file in
  let! c := Os.read_file p in
  let! data :=
    match c with
    | JsonText _ j => ret (decode E j)
    | _ => raise JSONDecodeError
    end in
  let! _ :=
    (if print_file then
       match encode CustomEncoder data with
       | Ok _ => log Debug "Configuration file %s contains:\n%s"
       | Err e => raise e
       end
     else ret tt) in
  ret data.

(* ===================================================================== *)
(** ** The vocabulary of the properties                                    *)
(* ===================================================================== *)

(** The exceptions that a computation can raise all satisfy [P]. *)
Definition raises {A} (P : exn -> Prop) (m : M A) : Prop :=
  forall st e st', m st = (Err e, st') -> P e.

Definition os_failure (e : exn) : Prop := is_OSError e = true.

(** [p] can be deleted: as a file it is not locked, as a directory it has
    no locked file below it. *)
Definition removable (f : gmap path node) (p : path) : bool :=
  match f !! p with
  | Some Dir => negb (locked_below f p)
  | Some (File locked _) => negb locked
  | None => true
  end.

(** What [copy] raises: the [IOError] it makes from an [OSError] that is
    not a [shutil.Error]. *)
Definition copy_error (e : exn) : Prop :=
  exists cause, e = OSError EnvironmentError "Copy error" (Some cause)
                /\ is_OSError cause = true /\ is_shutil_Error cause = false.

(** *** A concrete environment for the examples *)

(** Modelled from the spec: [path.get_filename] is in [sertit/path.py],
    which is not at hand.  A tar archive is extracted in a directory
    "named from the archive's base filename (without extension)": here the
    name up to its first dot. *)
Definition base_filename (p : path) : string :=
  List.hd "" (Str.split "." (PurePath.name p)).

(** An interpreter that iterates a set in the order [order], in docker or
    not, and reads dates like Python 3.7 to 3.10. *)
Definition python (docker : bool) (order : list string -> list string) : env :=
  Env docker base_filename order Iso.date_fromisoformat Iso.datetime_fromisoformat.

Definition bytes_of (s : string) : content := Raw (list_byte_of_string s).

(** A file system from a list of paths and nodes. *)
Definition disk (l : list (list string * node)) : gmap path node :=
  list_to_map (List.map (fun pn => (Path Disk pn.1, pn.2)) l).

Definition fresh (l : list (list string * node)) : state := State (disk l) [] 0.

(** *** JSON *)

(** A character that is no sign of a time zone. *)
Definition no_sign (c : ascii) : Prop :=
  Iso.is_char c "+" = false /\ Iso.is_char c "-" = false.

(** The items of a dict, encoded one after the other. *)
Fixpoint encode_items (cls : encoder) (l : list (string * pyval))
  : result (list (string * json)) :=
  match l with
  | [] => Ok []
  | (k, x) :: l' =>
      match encode cls x with
      | Ok j => match encode_items cls l' with Ok js => Ok ((k, j) :: js) | Err e => Err e end
      | Err e => Err e
      end
  end.

Fixpoint encode_list (cls : encoder) (l : list pyval) : result (list json) :=
  match l with
  | [] => Ok []
  | x :: l' =>
      match encode cls x with
      | Ok j => match encode_list cls l' with Ok js => Ok (j :: js) | Err e => Err e end
      | Err e => Err e
      end
  end.

Definition decode_items (E : env) (l : list (string * json)) : list (string * pyval) :=
  List.map (fun kj => (kj.1, decode E kj.2)) l.

(** What a value of a saved mapping is when the file is read again: it is
    encoded, and the decoder's hook sees what was written for it. *)
Definition reload (E : env) (v : pyval) : result pyval :=
  match encode CustomEncoder v with
  | Ok j => Ok (hook_value E (decode E j))
  | Err e => Err e
  end.

(** The parsers of the interpreter read back what [isoformat] writes:
    [date.fromisoformat] is the inverse of [date.isoformat] and
    [datetime.fromisoformat] the one of [datetime.isoformat], as their
    documentation has it for every version; and the text of a datetime,
    being longer than any date, is refused as a date. *)
Definition reads_isoformat (E : env) : Prop :=
  (forall d, Iso.valid_date d = true ->
             date_fromisoformat E (Iso.date_isoformat d) = Some d) /\
  (forall t, Iso.valid_datetime t = true ->
             date_fromisoformat E (Iso.datetime_isoformat t) = None /\
             datetime_fromisoformat E (Iso.datetime_isoformat t) = Some t).

Definition is_enum (v : pyval) : bool :=
  match v with VEnum _ _ => true | _ => false end.

(** The encoder of the module accepts the value. *)
Definition encodes (v : pyval) : Prop := exists j, encode CustomEncoder v = Ok j.

(** *** What a computation preserves *)

(** Every computation leaves the state in relation [R] with the one it
    started from, whether it returns or raises. *)
Definition keeps {A} (R : state -> state -> Prop) (m : M A) : Prop :=
  forall st, R st (m st).2.

(** The directories of [st] are directories of [st']. *)
Definition dirs_kept (st st' : state) : Prop :=
  forall p, fs st !! p = Some Dir -> fs st' !! p = Some Dir.

(** The same for the directories on the disk only. *)
Definition disk_dirs_kept (st st' : state) : Prop :=
  forall parts, fs st !! Path Disk parts = Some Dir -> fs st' !! Path Disk parts = Some Dir.

(** *** The errors of an extraction *)

(** An error of a library, as opposed to one that the module makes. *)
Definition library_error (e : exn) : Prop :=
  match e with
  | TypeError _ _ => False
  | _ => True
  end.

(** An error that the loop of [extract_file] can raise for an archive
    that is open: no [TypeError] but the one made from a
    [tarfile.ReadError], and a bare [tarfile.ReadError] only from the
    listing of a tar archive that cannot be read to its end. *)
Definition loop_error (arch : archive) (e : exn) : Prop :=
  match e with
  | ReadError => exists ms, arch = TarArchive (ms, false)
  | TypeError msg cause => msg = "Impossible to extract" /\ cause = Some ReadError
  | _ => True
  end.

(** The debug message of a target that is skipped. *)
Definition skip_note : event :=
  Log Debug "Already existing extracted %s. It won't be overwritten.".

(** The state after [n] targets were skipped: the same files, and [n]
    debug messages more in the trace. *)
Definition skipped (st : state) (n : nat) : state :=
  State (fs st) (trace st ++ replicate n skip_note) (next_tmp st).

(** What [extract_file] returns for its targets: the path if there is
    one, the list otherwise. *)
Definition returned (dirs : list path) : extracted :=
  match dirs with
  | [d] => OnePath d
  | _ => PathList dirs
  end.
(* ===================================================================== *)
(** ** More vocabulary: what a call leaves alone                           *)
(* ===================================================================== *)

(** Every node of [st] that is not at or below [dst] is a node of [st'],
    unchanged. *)
Definition kept_outside (dst : path) (st st' : state) : Prop :=
  forall q n, ~ PurePath.below dst q -> fs st !! q = Some n -> fs st' !! q = Some n.

(** A file can be written at [t]: no directory and no locked file is
    there. *)
Definition replaceable (f : gmap path node) (t : path) : bool :=
  match f !! t with
  | Some Dir | Some (File true _) => false
  | _ => true
  end.

(* ===================================================================== *)
(** ** More vocabulary: JSON                                               *)
(* ===================================================================== *)

(** The values that the JSON round trip gives back as they are.  [hooked]
    tells whether the value stands directly in a dict, where the decoder's
    hook sees it: a date or a datetime comes back only from there, and a
    string there must be one that neither parser of the interpreter
    reads. *)
Fixpoint plain (E : env) (hooked : bool) (v : pyval) : bool :=
  match v with
  | VNone | VBool _ | VInt _ => true
  | VStr s =>
      negb hooked ||
      match date_fromisoformat E s, datetime_fromisoformat E s with
      | None, None => true
      | _, _ => false
      end
  | VDate d => hooked && Iso.valid_date d
  | VDatetime t => hooked && Iso.valid_datetime t
  | VList l => forallb (plain E false) l
  | VDict items =>
      bool_decide (NoDup (List.map fst items)) &&
      forallb (fun kv => plain E true kv.2) items
  | VNpInt _ | VEnum _ _ | VSet _ | VPath _ | VObject _ => false
  end.

(** What the decoder makes of a document: behind the hook for a value
    that stands in a dict. *)
Definition back (E : env) (hooked : bool) (j : json) : pyval :=
  if hooked then hook_value E (decode E j) else decode E j.

(* ===================================================================== *)
(** ** [remove_by_pattern]                                                 *)
(* ===================================================================== *)

Module Glob.

(** [fnmatch] of a name against a pattern, case sensitive: [*] stands for
    any characters and [?] for any one character. *)
Fixpoint wild (pat : list ascii) : list ascii -> bool :=
  match pat with
  | [] => fun s => match s with [] => true | _ :: _ => false end
  | c :: pat' =>
      if Ascii.eqb c "*" then
        fix star (s : list ascii) : bool :=
          wild pat' s || match s with [] => false | _ :: s' => star s' end
      else if Ascii.eqb c "?" then
        fun s => match s with [] => false | _ :: s' => wild pat' s' end
      else
        fun s => match s with [] => false | d :: s' => Ascii.eqb c d && wild pat' s' end
  end.

Definition fnmatch (name pattern : string) : bool :=
  wild (list_ascii_of_string pattern) (list_ascii_of_string name).

(** The patterns of one component that are modelled: not empty, not [.]
    or [..], with no slash, no bracket and no [**]. *)
Definition simple (pattern : string) : bool :=
  negb (String.eqb pattern "") && negb (String.eqb pattern ".")
  && negb (String.eqb pattern "..")
  && negb (Str.contains "/" pattern) && negb (Str.contains "[" pattern)
  && negb (Str.contains "**" pattern).

(** The entries that are directly in [d]. *)
Definition children (f : gmap path node) (d : path) : list path :=
  List.map fst
    (List.filter (fun qn : path * node => bool_decide (PurePath.parent qn.1 = d /\ qn.1 <> d))
                 (map_to_list f)).

Section Glob.

(** What [Path.glob] does with the patterns that are not modelled. *)
Variable glob_other : gmap path node -> path -> string -> M (list path).

(** [directory.glob(pattern)]: for a pattern of one component, the
    entries of the directory whose name matches; none when [directory]
    is no directory. *)
Definition glob (f : gmap path node) (directory : path) (pattern : string)
  : M (list path) :=
  if simple pattern then
    ret (if is_dir f directory
         then List.filter (fun q => fnmatch (PurePath.name q) pattern) (children f directory)
         else [])
  else glob_other f directory pattern.

End Glob.

End Glob.

(** [if extension and not extension.startswith("."): extension = "." + extension] *)
Definition with_point (extension : string) : string :=
  if negb (String.eqb extension "") && negb (Str.startswith "." extension)
  then "." +:+ extension
  else extension.

(** [for file in file_list: remove(file)] *)
Fixpoint remove_each (file_list : list path) : M unit :=
  match file_list with
  | [] => ret tt
  | file :: rest => let! _ := remove file in remove_each rest
  end.

Section RemoveByPattern.

Variable glob_other : gmap path node -> path -> string -> M (list path).

(** [remove_by_pattern(directory, name_with_wildcard, extension)];
    [extension] is [None] when it is not given.  The message of the
    [TypeError] of [str + None] is given without its quotes. *)
Definition remove_by_pattern (directory : path) (name_with_wildcard : string)
           (extension : option string) : M unit :=
  let extension :=
    match extension with
    | Some e => Some (with_point e)
    | None => None
    end in
  let! pattern :=
    match extension with
    | Some e => ret (name_with_wildcard +:+ e)
    | None => raise (TypeError "can only concatenate str (not NoneType) to str" None)
    end in
  let! f := get_fs in
  let! file_list := Glob.glob glob_other f directory pattern in
  remove_each file_list.

End RemoveByPattern.

(** An entry of [directory] whose name matches the pattern. *)
Definition matching (f : gmap path node) (directory : path) (pattern : string)
           (c : path) : Prop :=
  PurePath.parent c = directory /\ c <> directory /\ exists_ f c = true
  /\ Glob.fnmatch (PurePath.name c) pattern = true.

(* ===================================================================== *)
(** ** More vocabulary: temporary directories                              *)
(* ===================================================================== *)

(** From [st] to [st'] only entries under the roots [R] were written or
    deleted, and no temporary directory was made. *)
Definition within (R : root -> Prop) (st st' : state) : Prop :=
  next_tmp st' = next_tmp st /\
  forall q, ~ R (p_root q) -> fs st' !! q = fs st !! q.

(** Nothing lies in a temporary directory that is still to be made. *)
Definition tidy (st : state) : Prop :=
  forall n parts, (next_tmp st <= n)%nat -> fs st !! Path (Scratch n) parts = None.

(** The temporary directories hold in [st'] what they held in [st]. *)
Definition scratch_kept (st st' : state) : Prop :=
  tidy st ->
  tidy st' /\
  forall n parts, fs st' !! Path (Scratch n) parts = fs st !! Path (Scratch n) parts.

(** The disk, and the temporary directory [p] lies in. *)
Definition disk_and (p : path) (r : root) : Prop := r = Disk \/ r = p_root p.

(* ===================================================================== *)
(** ** More vocabulary: what [add_to_zip] adds                             *)
(* ===================================================================== *)

(** The member that [zip_file.write] makes of the entry at [q], named
    from the directory that is added. *)
Definition member_of (f : gmap path node) (dir_to_add q : path) : option (string * entry) :=
  match f !! q with
  | Some Dir => Some (arcname dir_to_add q +:+ "/", EDir)
  | Some (File false d) => Some (arcname dir_to_add q, EFile d)
  | _ => None
  end.

(** The members that a walk adds: for each directory of the walk its own
    member, then those of its files. *)
Definition walk_members (f : gmap path node) (dir_to_add : path)
           (w : list (path * list string)) : members :=
  flat_map (fun rf : path * list string =>
              omap (member_of f dir_to_add) (rf.1 :: List.map (PurePath.joinpath rf.1) rf.2))
           w.

(** A name that is one component of a path: not empty, not [.], without
    a slash. *)
Definition proper_name (s : string) : Prop := PurePath.components s = [s].

(** What the walk of [d] reaches: the directories at and below [d], and
    the files that are in one of them. *)
Definition reached (f : gmap path node) (d q : path) : Prop :=
  PurePath.below d q /\
  match f !! q with
  | Some Dir => True
  | Some (File _ _) => is_dir f (PurePath.parent q) = true
  | None => False
  end.

(* ===================================================================== *)
(** ** More vocabulary: trees that an archive can hold                     *)
(* ===================================================================== *)

(** A name that an entry of a directory carries: not empty, not [.] or
    [..], without a slash. *)
Definition entry_name (s : string) : bool :=
  negb (String.eqb s "") && negb (String.eqb s ".") && negb (String.eqb s "..")
  && negb (Str.contains "/" s).

(** What lies at and below the directory [d] is a tree that can be read:
    no file in it is locked, every entry but [d] lies in a directory, and
    the components of the paths are names. *)
Definition sound_tree (f : gmap path node) (d : path) : Prop :=
  is_dir f d = true /\
  locked_below f d = false /\
  forall q, PurePath.below d q -> is_Some (f !! q) ->
            forallb entry_name (p_parts q) = true /\
            (q <> d -> is_dir f (PurePath.parent q) = true).

(** The tree of [d] as it is in [f0] is being put into the directory [out]
    under the name of [d]: no file stands above the place of [d], and
    what is at or below it in [f] is an entry of the tree at its place. *)
Definition unpacking (f0 : gmap path node) (d out : path) (f : gmap path node) : Prop :=
  let place := Shutil.rebase (PurePath.parent d) out in
  blocked f (place d) = false /\ is_dir f out = true /\
  forall t n, PurePath.below (place d) t -> f !! t = Some n ->
              exists q, PurePath.below d q /\ t = place q /\ f0 !! q = Some n.

(** The member that [tar.add] makes of the entry at [q], named from the
    directory that is archived. *)
Definition tar_member_of (f : gmap path node) (folder q : path) : option (string * entry) :=
  match f !! q with
  | Some Dir => Some (arcname folder q, EDir)
  | Some (File false d) => Some (arcname folder q, EFile d)
  | _ => None
  end.

(* ===================================================================== *)
(** ** [archive]                                                           *)
(* ===================================================================== *)

(** [archive] hands the folder to [shutil.make_archive], which is modelled
    here as Python 3.12 has it, for the formats that [shutil] registers. *)
Module Archiving.

(** The [fmt] argument: [zip], [tar], [gztar], [bztar] or [xztar]. *)
Inductive archive_format : Type := FZip | FTar | FGztar | FBztar | FXztar.

(** What [shutil] appends to the base name for a format. *)
Definition extension (fmt : archive_format) : string :=
  match fmt with
  | FZip => ".zip"
  | FTar => ".tar"
  | FGztar => ".tar.gz"
  | FBztar => ".tar.bz2"
  | FXztar => ".tar.xz"
  end.

(** [os.path.splitext(n)[0]] for a name: up to the last dot, when
    something else than dots stands before it. *)
Definition splitext_root (n : string) : string :=
  match Str.rfind "." n with
  | Some i =>
      if String.eqb (Str.lstrip "." (String.substring 0 i n)) "" then n
      else String.substring 0 i n
  | None => n
  end.

(** [os.path.splitext(p)[0]] for a path: the last component loses its
    extension. *)
Definition splitext_base (p : path) : path :=
  match p_parts p with
  | [] => p
  | l => Path (p_root p) (removelast l ++ [splitext_root (List.last l "")])
  end.

(** [AnyPath(base_name + ext)]: the extension goes to the string of the
    path, which is [/] for the root of the disk and [/tmp/tmpN] for a
    temporary directory itself. *)
Definition with_extension (base_name : path) (ext : string) : path :=
  match p_parts base_name, p_root base_name with
  | [], Disk => Path Disk [ext]
  | [], Scratch n => Path Disk ["tmp"; "tmp" +:+ pretty n +:+ ext]
  | l, r => Path r (removelast l ++ [List.last l "" +:+ ext])
  end.

(** The name of a member: [os.path.relpath(q, folder_path.parent)], where
    a temporary directory itself carries the name [tmpN]. *)
Definition member_name (folder q : path) : string :=
  match p_parts folder, p_root folder with
  | [], Scratch n => Str.join "/" (("tmp" +:+ pretty n) :: p_parts q)
  | _, _ => arcname folder q
  end.

(** [sorted(dirnames)]: the names of the directories that are directly in
    [d]. *)
Definition subdirs (f : gmap path node) (d : path) : list string :=
  merge_sort name_le
    (List.map (fun qn => PurePath.name qn.1)
       (List.filter (fun qn => bool_decide (PurePath.parent qn.1 = d /\ qn.1 <> d)
                               && match qn.2 with Dir => true | File _ _ => false end)
                    (map_to_list f))).

(** What [tar.add(folder)] visits from the top down, but for the archive
    itself, which it skips: the folder when it is there, and what lies
    below it when it is a directory. *)
Definition visited (f : gmap path node) (folder tar_path : path) : list path :=
  merge_sort visit_le
    (List.map fst
       (List.filter (fun qn : path * node =>
                       bool_decide (qn.1 <> tar_path)
                       && (bool_decide (qn.1 = folder)
                           || is_dir f folder && bool_decide (PurePath.below folder qn.1)))
                    (map_to_list f))).

Section MakeArchive.

(** What is read from a zip archive that is still being written. *)
Variable unfinished : members -> content.

(** [zf.write(src, arcname)] for the archive that is being made; [src]
    may be the archive itself. *)
Definition zip_add (zip_path src : path) (arcname : string) : M unit :=
  if decide (src = zip_path) then
    let! c := Os.read_file zip_path in
    match c with
    | Zip ms => Os.write_file zip_path (Zip (ms ++ [(arcname, EFile (unfinished ms))]))
    | _ => raise BadZipFile
    end
  else zip_write zip_path src arcname.

(** [for name in sorted(dirnames): zf.write(path, arcname)] *)
Fixpoint add_dirs (zip_path folder dirpath : path) (dirnames : list string) : M unit :=
  match dirnames with
  | [] => ret tt
  | name :: rest =>
      let p := PurePath.joinpath dirpath name in
      let! _ := zip_add zip_path p (member_name folder p) in
      add_dirs zip_path folder dirpath rest
  end.

(** [for name in filenames: if os.path.isfile(path): zf.write(path, arcname)] *)
Fixpoint add_files (zip_path folder dirpath : path) (filenames : list string) : M unit :=
  match filenames with
  | [] => ret tt
  | name :: rest =>
      let p := PurePath.joinpath dirpath name in
      let! f := get_fs in
      let! _ := (if is_file f p then zip_add zip_path p (member_name folder p) else ret tt) in
      add_files zip_path folder dirpath rest
  end.

(** [for dirpath, dirnames, filenames in os.walk(base_dir): ...], the
    directories being listed as they are in [f]. *)
Fixpoint add_walk (zip_path folder : path) (f : gmap path node)
         (w : list (path * list string)) : M unit :=
  match w with
  | [] => ret tt
  | (dirpath, filenames) :: rest =>
      let! _ := add_dirs zip_path folder dirpath (subdirs f dirpath) in
      let! _ := add_files zip_path folder dirpath filenames in
      add_walk zip_path folder f rest
  end.

(** [shutil._make_zipfile(base_name, base_dir, root_dir=root_dir)] *)
Definition make_zipfile (zip_path folder : path) : M path :=
  let! _ := upperdirs zip_path in
  let! _ := Os.write_file zip_path (Zip []) in
  let! _ := (if String.eqb (member_name folder folder) "" then ret tt
             else zip_add zip_path folder (member_name folder folder)) in
  let! f := get_fs in
  let! _ := add_walk zip_path folder f (Walk.walk f folder) in
  ret zip_path.

(** [tarinfo = tar.gettarinfo(src, arcname); tar.addfile(tarinfo, ...)] *)
Definition tar_write (tar_path src : path) (arcname : string) : M unit :=
  let! f := get_fs in
  let! m :=
    match f !! src with
    | Some Dir => ret (arcname, EDir)
    | Some (File false d) => ret (arcname, EFile d)
    | Some (File true _) => raise (os_error_of PermissionError)
    | None => raise (os_error_of FileNotFoundError)
    end in
  let! c := Os.read_file tar_path in
  match c with
  | Tar ms => Os.write_file tar_path (Tar (ms ++ [m]))
  | _ => raise ReadError
  end.

Fixpoint tar_add (tar_path folder : path) (entries : list path) : M unit :=
  match entries with
  | [] => ret tt
  | q :: rest =>
      let! _ := tar_write tar_path q (member_name folder q) in
      tar_add tar_path folder rest
  end.

(** [shutil._make_tarball(base_name, base_dir, compress, root_dir=root_dir)];
    [tar.add] raises [FileNotFoundError] for a folder that is not there. *)
Definition make_tarball (tar_path folder : path) : M path :=
  let! _ := upperdirs tar_path in
  let! _ := Os.write_file tar_path (Tar []) in
  let! f := get_fs in
  let! _ := (if exists_ f folder then tar_add tar_path folder (visited f folder tar_path)
             else raise (os_error_of FileNotFoundError)) in
  ret tar_path.

(** [shutil.make_archive(base_name, format, root_dir, base_dir)] for
    [root_dir] the parent of [folder] and [base_dir] its name: [root_dir]
    must be a directory, as [/tmp] is for a temporary directory. *)
Definition make_archive (base_name : path) (fmt : archive_format) (folder : path) : M path :=
  let root_dir := PurePath.parent folder in
  let in_tmp := match p_parts folder, p_root folder with
                | [], Scratch _ => true
                | _, _ => false
                end in
  let archive_name := with_extension base_name (extension fmt) in
  let! f := get_fs in
  if negb in_tmp && negb (exists_ f root_dir) then raise (os_error_of FileNotFoundError)
  else if negb in_tmp && negb (is_dir f root_dir) then raise (os_error_of NotADirectoryError)
  else
    match fmt with
    | FZip => make_zipfile archive_name folder
    | _ => make_tarball archive_name folder
    end.

(** [archive(folder_path, archive_path, fmt)] *)
Definition archive (folder_path archive_path : path) (fmt : archive_format) : M path :=
  let archive_base := splitext_base archive_path in
  make_archive archive_base fmt folder_path.

End MakeArchive.

End Archiving.

(* ===================================================================== *)
(** ** More vocabulary: what an extraction leaves alone                    *)
(* ===================================================================== *)

(** What is on the disk and not at or below [out] is in [st'] as it is
    in [st]. *)
Definition disk_kept (out : path) (st st' : state) : Prop :=
  forall q n, p_root q = Disk -> ~ PurePath.below out q ->
              fs st !! q = Some n -> fs st' !! q = Some n.

(** A temporary directory, not the disk. *)
Definition off_disk (r : root) : Prop := r <> Disk.

(* ===================================================================== *)
(** * sertit.logs: loggers and their handlers                              *)
(* ===================================================================== *)

(** The objects of [logging] that [sertit/logs.py] works on.  Handlers are
    objects that several loggers may hold: they live in a heap and are
    referred to by their address.  A logger is referred to by its name in
    the manager, or is the root logger. *)
Module Logs.

Inductive formatter : Type :=
| Formatter (fmt : string)                (* logging.Formatter(fmt) *)
| ColoredFormatter (fmt : string).        (* colorlog.ColoredFormatter(fmt, ...) *)

Inductive handler_kind : Type :=
| StreamHandler
| FileHandler (filename : path).

Record handler : Type := Handler {
  h_kind : handler_kind;
  h_level : Z;
  h_formatter : option formatter;
  h_closed : bool
}.

Record logger : Type := Logger {
  lg_level : Z;
  lg_handlers : list nat;                 (* addresses of handlers *)
  lg_propagate : bool;
  lg_disabled : bool;
  lg_filters : list nat
}.

(** What [manager.loggerDict] holds under a name. *)
Inductive slot : Type :=
| ALogger (l : logger)
| PlaceHolder.

Inductive ref : Type :=
| Root
| Named (name : string).

Record logging : Type := Logging {
  root_logger : logger;
  loggerDict : gmap string slot;
  heap : gmap nat handler;
  next_handler : nat;                     (* the next free address *)
  disable : Z;                            (* manager.disable *)
  disabled_attr : option Z;               (* manager.disabled, when it was assigned *)
  files : gmap path node
}.

Definition NOTSET : Z := 0.
Definition DEBUG : Z := 10.
Definition INFO : Z := 20.

(** [Logger(name)]: a new logger *)
Definition new_logger : logger := Logger NOTSET [] true false [].

(** *** Access to the objects *)

Definition get (s : logging) (l : ref) : option logger :=
  match l with
  | Root => Some (root_logger s)
  | Named n =>
      match loggerDict s !! n with
      | Some (ALogger lg) => Some lg
      | _ => None
      end
  end.

(** An assignment to attributes of a logger that is there. *)
Definition update (l : ref) (f : logger -> logger) (s : logging) : logging :=
  match l with
  | Root =>
      Logging (f (root_logger s)) (loggerDict s) (heap s) (next_handler s)
              (disable s) (disabled_attr s) (files s)
  | Named n =>
      match loggerDict s !! n with
      | Some (ALogger lg) =>
          Logging (root_logger s) (<[n := ALogger (f lg)]> (loggerDict s)) (heap s)
                  (next_handler s) (disable s) (disabled_attr s) (files s)
      | _ => s
      end
  end.

Definition update_handler (h : nat) (f : handler -> handler) (s : logging) : logging :=
  Logging (root_logger s) (loggerDict s) (alter f h (heap s)) (next_handler s)
          (disable s) (disabled_attr s) (files s).

Definition handlers_of (s : logging) (l : ref) : list nat :=
  match get s l with
  | Some lg => lg_handlers lg
  | None => []
  end.

(** *** Methods of [logging.Handler] *)

(** [handler.setLevel(level)] *)
Definition handler_setLevel (h : nat) (lvl : Z) : logging -> logging :=
  update_handler h (fun x => Handler (h_kind x) lvl (h_formatter x) (h_closed x)).

(** [handler.setFormatter(fmt)] *)
Definition handler_setFormatter (h : nat) (fmt : formatter) : logging -> logging :=
  update_handler h (fun x => Handler (h_kind x) (h_level x) (Some fmt) (h_closed x)).

(** [handler.flush()] followed by [handler.close()] *)
Definition handler_close (h : nat) : logging -> logging :=
  update_handler h (fun x => Handler (h_kind x) (h_level x) (h_formatter x) true).

(** A new handler object, at the next free address. *)
Definition allocate (k : handler_kind) (s : logging) : nat * logging :=
  (next_handler s,
   Logging (root_logger s) (loggerDict s)
           (<[next_handler s := Handler k NOTSET None false]> (heap s))
           (S (next_handler s)) (disable s) (disabled_attr s) (files s)).

(** [logging.StreamHandler()] *)
Definition new_StreamHandler : logging -> nat * logging := allocate StreamHandler.

(** [logging.FileHandler(filename)]: the file is opened for appending,
    which creates it when it is not there. *)
Definition new_FileHandler (filename : path) (s : logging) : result nat * logging :=
  match files s !! filename with
  | Some Dir => (Err (os_error_of IsADirectoryError), s)
  | Some (File true _) => (Err (os_error_of PermissionError), s)
  | Some (File false _) =>
      let '(h, s') := allocate (FileHandler filename) s in (Ok h, s')
  | None =>
      if is_dir (files s) (PurePath.parent filename) then
        let s1 := Logging (root_logger s) (loggerDict s) (heap s) (next_handler s)
                          (disable s) (disabled_attr s)
                          (<[filename := File false (Raw [])]> (files s)) in
        let '(h, s') := allocate (FileHandler filename) s1 in (Ok h, s')
      else if is_file (files s) (PurePath.parent filename) then
        (Err (os_error_of NotADirectoryError), s)
      else (Err (os_error_of FileNotFoundError), s)
  end.

(** *** Methods of [logging.Logger] *)

(** [logger.setLevel(level)] *)
Definition setLevel (l : ref) (lvl : Z) : logging -> logging :=
  update l (fun lg => Logger lvl (lg_handlers lg) (lg_propagate lg) (lg_disabled lg)
                             (lg_filters lg)).

Definition set_handlers (l : ref) (hs : list nat) : logging -> logging :=
  update l (fun lg => Logger (lg_level lg) hs (lg_propagate lg) (lg_disabled lg)
                             (lg_filters lg)).

(** [logger.addHandler(hdlr)]: a handler is held once. *)
Definition addHandler (l : ref) (h : nat) (s : logging) : logging :=
  let hs := handlers_of s l in
  if bool_decide (h ∈ hs) then s else set_handlers l (hs ++ [h]) s.

(** [list.remove(x)]: the first occurrence goes. *)
Fixpoint list_remove (h : nat) (hs : list nat) : list nat :=
  match hs with
  | [] => []
  | x :: hs' => if Nat.eqb x h then hs' else x :: list_remove h hs'
  end.

(** [logger.removeHandler(hdlr)] *)
Definition removeHandler (l : ref) (h : nat) (s : logging) : logging :=
  let hs := handlers_of s l in
  if bool_decide (h ∈ hs) then set_handlers l (list_remove h hs) s else s.

(** *** [logging.getLogger] *)

(** The ends of the names of the ancestors of a dotted name, the nearest
    first: [i = name.rfind(".")], then [i = name.rfind(".", 0, i - 1)]
    while [i > 0]. *)
Fixpoint parent_ends (fuel : nat) (name : string) (i : option nat) : list nat :=
  match fuel, i with
  | S fuel', Some (S i') =>
      S i' :: parent_ends fuel' name (Str.rfind "." (String.substring 0 i' name))
  | _, _ => []
  end.

(** [manager._fixupParents(alogger)], as far as [loggerDict] goes: a
    place holder is put under each ancestor name that is free, up to the
    first ancestor that is a logger. *)
Fixpoint fixup (name : string) (ends : list nat) (d : gmap string slot) : gmap string slot :=
  match ends with
  | [] => d
  | i :: rest =>
      let substr := String.substring 0 i name in
      match d !! substr with
      | None => fixup name rest (<[substr := PlaceHolder]> d)
      | Some (ALogger _) => d
      | Some PlaceHolder => fixup name rest d
      end
  end.

(** [logging.getLogger(name)]: the root logger for no name and for its
    own name; else the logger of that name, which is made when it is not
    there. *)
Definition getLogger (name : string) (s : logging) : ref * logging :=
  if String.eqb name "" || String.eqb name "root" then (Root, s)
  else
    match loggerDict s !! name with
    | Some (ALogger _) => (Named name, s)
    | _ =>
        let d := <[name := ALogger new_logger]> (loggerDict s) in
        let d := fixup name (parent_ends (String.length name) name (Str.rfind "." name)) d in
        (Named name,
         Logging (root_logger s) d (heap s) (next_handler s) (disable s)
                 (disabled_attr s) (files s))
    end.

(** *** The functions of [sertit/logs.py] *)

Definition LOGGING_FORMAT : string := "%(asctime)s - [%(levelname)s] - %(message)s".

(** [init_logger(curr_logger, log_lvl, log_format)] *)
Definition init_logger (curr_logger : ref) (log_lvl : Z) (log_format : string)
           (s : logging) : logging :=
  let s := setLevel curr_logger log_lvl s in
  let formatter := Formatter log_format in
  match handlers_of s curr_logger with
  | h0 :: _ =>
      let s := handler_setLevel h0 log_lvl s in
      handler_setFormatter h0 formatter s
  | [] =>
      let '(stream_handler, s) := new_StreamHandler s in
      let s := handler_setLevel stream_handler log_lvl s in
      let s := handler_setFormatter stream_handler formatter s in
      addHandler curr_logger stream_handler s
  end.

(** [for handler in logger.handlers: logger.removeHandler(handler)]: the
    loop runs over the list that [removeHandler] changes.  The iterator
    of a list keeps an index: it yields the item at the index as long as
    there is one, and moves on by one.  The list gets shorter in every
    round, so that as many rounds as it has items are enough. *)
Fixpoint remove_while_iterating (fuel i : nat) (l : ref) (s : logging) : logging :=
  match fuel with
  | 0 => s
  | S fuel' =>
      match handlers_of s l !! i with
      | Some handler => remove_while_iterating fuel' (S i) l (removeHandler l handler s)
      | None => s
      end
  end.

(** [for handler in list(logger.handlers): ...] of [shutdown_logger] *)
Fixpoint shutdown_each (l : ref) (hs : list nat) (s : logging) : logging :=
  match hs with
  | [] => s
  | handler :: rest =>
      let s := removeHandler l handler s in
      let s := handler_close handler s in
      shutdown_each l rest s
  end.

(** [shutdown_logger(logger)] *)
Definition shutdown_logger (l : ref) (s : logging) : logging :=
  shutdown_each l (handlers_of s l) s.

Section CreateLogger.

(** [datetime.today().replace(microsecond=0).strftime("%y%m%d_%H%M%S")] *)
Variable today : string.

(** The loop over [other_logger_names] *)
Fixpoint manage_others (names : list string) (stream_handler file_handler : nat)
         (s : logging) : logging :=
  match names with
  | [] => s
  | log_name :: rest =>
      let '(other_logger, s) := getLogger log_name s in
      let s := set_handlers other_logger [] s in
      let s := setLevel other_logger INFO s in
      let s := addHandler other_logger stream_handler s in
      let s := addHandler other_logger file_handler s in
      manage_others rest stream_handler file_handler s
  end.

(** [create_logger(logger, file_log_level, stream_log_level,
    output_folder, name, other_logger_names)] *)
Definition create_logger (l : ref) (file_log_level stream_log_level : Z)
           (output_folder : path) (name : string) (other_logger_names : list string)
           (s : logging) : result unit * logging :=
  let log_file_name := today +:+ "_" +:+ name +:+ "_log.txt" in
  let s := remove_while_iterating (length (handlers_of s l)) 0 l s in
  let color_fmt :=
    ColoredFormatter "%(asctime)s - [%(log_color)s%(levelname)s%(reset)s] - %(message_log_color)s%(message)s" in
  let '(stream_handler, s) := new_StreamHandler s in
  let s := handler_setLevel stream_handler stream_log_level s in
  let s := handler_setFormatter stream_handler color_fmt s in
  let s := addHandler l stream_handler s in
  let log_path := PurePath.joinpath output_folder log_file_name in
  match new_FileHandler log_path s with
  | (Err e, s) => (Err e, s)
  | (Ok file_handler, s) =>
      let s := handler_setLevel file_handler file_log_level s in
      let s := handler_setFormatter file_handler (Formatter LOGGING_FORMAT) s in
      let s := addHandler l file_handler s in
      (Ok tt, manage_others other_logger_names stream_handler file_handler s)
  end.

End CreateLogger.

(** The body of the loop of [reset_logging] for one logger. *)
Definition reset_logger (n : string) (s : logging) : logging :=
  let l := Named n in
  let s := setLevel l NOTSET s in
  let s := update l (fun lg => Logger (lg_level lg) (lg_handlers lg) true (lg_disabled lg)
                                      (lg_filters lg)) s in
  let s := update l (fun lg => Logger (lg_level lg) (lg_handlers lg) (lg_propagate lg) false
                                      (lg_filters lg)) s in
  let s := update l (fun lg => Logger (lg_level lg) (lg_handlers lg) (lg_propagate lg)
                                      (lg_disabled lg) []) s in
  foldl (fun s handler => removeHandler l handler (handler_close handler s))
        s (handlers_of s l).

(** [reset_logging()]: the assignment is to [manager.disabled]; the
    attribute that [logging.disable] sets is [manager.disable]. *)
Definition reset_logging (s : logging) : logging :=
  let s := Logging (root_logger s) (loggerDict s) (heap s) (next_handler s)
                   (disable s) (Some NOTSET) (files s) in
  foldl (fun s ne =>
           match ne.2 with
           | ALogger _ => reset_logger ne.1 s
           | PlaceHolder => s
           end)
        s (map_to_list (loggerDict s)).

End Logs.

(** [logging] as the interpreter starts it: the root logger at the level
    [WARNING], no other logger, no handler. *)
Definition fresh_logging (f : gmap path node) : Logs.logging :=
  Logs.Logging (Logs.Logger 30 [] true false []) ∅ ∅ 0 0 None f.

(** The items of a list that a loop over it passes over when each round
    removes the item it is at: the second, the fourth, and so on. *)
Fixpoint every_other (hs : list nat) : list nat :=
  match hs with
  | _ :: x :: rest => x :: every_other rest
  | _ => []
  end.

(** The logger that [logging.getLogger] gives for a name. *)
Definition logger_named (name : string) : Logs.ref :=
  if String.eqb name "" || String.eqb name "root" then Logs.Root else Logs.Named name.

(** A handler after [close()]. *)
Definition closed (x : Logs.handler) : Logs.handler :=
  Logs.Handler (Logs.h_kind x) (Logs.h_level x) (Logs.h_formatter x) true.

Global Instance logs_ref_eq_dec : EqDecision Logs.ref.
Proof. solve_decision. Defined.

(** A logger as the loop over [other_logger_names] leaves it. *)
Definition managed (sh fh : nat) (lg : Logs.logger) : Prop :=
  Logs.lg_handlers lg = [sh; fh] /\ Logs.lg_level lg = Logs.INFO.


(* ===================================================================== *)
(** * Properties                                                           *)
(* ===================================================================== *)

Ltac unfold_monad :=
  unfold bind, ret, raise, catch, get_fs, set_fs, log, emit in *.

(** ** The monad *)

Lemma bind_ok {A B} (m : M A) (k : A -> M B) st a st' :
  m st = (Ok a, st') -> bind m k st = k a st'.
Proof. intros H. unfold bind. by rewrite H. Qed.

Lemma bind_err {A B} (m : M A) (k : A -> M B) st e st' :
  m st = (Err e, st') -> bind m k st = (Err e, st').
Proof. intros H. unfold bind. by rewrite H. Qed.

Lemma bind_inv_ok {A B} (m : M A) (k : A -> M B) st b st' :
  bind m k st = (Ok b, st') ->
  exists a st1, m st = (Ok a, st1) /\ k a st1 = (Ok b, st').
Proof.
  unfold bind. destruct (m st) as [[a|e] st1]; intros H; [|discriminate].
  exists a, st1. auto.
Qed.

Lemma bind_inv_err {A B} (m : M A) (k : A -> M B) st e st' :
  bind m k st = (Err e, st') ->
  m st = (Err e, st') \/ exists a st1, m st = (Ok a, st1) /\ k a st1 = (Err e, st').
Proof.
  unfold bind. destruct (m st) as [[a|e1] st1]; intros H.
  - right. exists a, st1. auto.
  - left. by inversion H.
Qed.

(** A run is its result and its final state. *)
Lemma run_eq {A} (x : result A * state) (r : result A) : x.1 = r -> x = (r, x.2).
Proof. intros <-. by destruct x. Qed.

(** ** [add_to_zip] *)

(** C8. [add_to_zip] raises [FileNotFoundError] whenever the zip path is
    not an existing file, and then nothing has been written: the state,
    file system and trace, is the one before the call. *)
Theorem add_to_zip_requires_existing_zip
        (E : env) (zip_path : path) (dirs_to_add : path + list path) (st : state)
        (Hmissing : is_file (fs st) zip_path = false) :
  add_to_zip E zip_path dirs_to_add st
  = (Err (OSError FileNotFoundError "Non existing" None), st).
Proof.
  unfold add_to_zip, bind, get_fs. simpl. by rewrite Hmissing.
Qed.

(** ** [save_json] *)

(** C10. The call in the former order, [save_json(p, d)] with a dict as
    its second argument, enters the branch that is to swap the arguments,
    and the first thing it does there is to call
    [logs.deprecation_warning].  [sertit/logs.py] has no such function:
    the call raises [AttributeError], whatever the first argument is, and
    nothing has been written, the state is the one before the call. *)
Theorem save_json_legacy_order_raises
        (p : pyval) (d : list (string * pyval)) (kw : kwargs) (st : state) :
  save_json p (VDict d) kw st
  = (Err (AttributeError "module 'sertit.logs' has no attribute 'deprecation_warning'"), st).
Proof. reflexivity. Qed.

(** The same dict and path in the documented order: the file is written. *)
Lemma save_json_documented_order_writes :
  let st := fresh [([], Dir); (["d"], Dir)] in
  let d := [("A", VNpInt 1)] in
  let documented := save_json (VDict d) (VStr "d/o.json") (Kwargs None None) st in
  let legacy := save_json (VStr "d/o.json") (VDict d) (Kwargs None None) st in
  documented.1 = Ok tt /\
  fs documented.2 !! Path Disk ["d"; "o.json"]
  = Some (File false (JsonText 3 (JDict [("A", JInt 1)]))) /\
  fs legacy.2 !! Path Disk ["d"; "o.json"] = None.
Proof. vm_compute. repeat split; reflexivity. Qed.

(** ** Which exceptions a computation can raise *)

Lemma raises_ret {A} P (a : A) : raises P (ret a).
Proof. intros st e st' H. discriminate. Qed.

Lemma raises_raise {A} (P : exn -> Prop) e : P e -> raises P (@raise A e).
Proof. intros HP st e' st' H. by inversion H; subst. Qed.

Lemma raises_bind {A B} P (m : M A) (k : A -> M B) :
  raises P m -> (forall a, raises P (k a)) -> raises P (bind m k).
Proof.
  intros Hm Hk st e st' H.
  apply bind_inv_err in H as [H | (a & st1 & _ & H)].
  - eapply Hm, H.
  - eapply Hk, H.
Qed.

Lemma raises_catch {A} P Q (m : M A) (h : exn -> M A) :
  raises Q m -> (forall e, Q e -> raises P (h e)) -> raises P (catch m h).
Proof.
  intros Hm Hh st e st' H. unfold catch in H.
  destruct (m st) as [[a|e1] st1] eqn:Hrun; [discriminate|].
  eapply Hh; eauto.
Qed.

Lemma raises_weaken {A} (P Q : exn -> Prop) (m : M A) :
  raises P m -> (forall e, P e -> Q e) -> raises Q m.
Proof. intros Hm HPQ st e st' H. eapply HPQ, Hm, H. Qed.

Lemma raises_if {A} P (b : bool) (m1 m2 : M A) :
  raises P m1 -> raises P m2 -> raises P (if b then m1 else m2).
Proof. by destruct b. Qed.

Lemma raises_get_fs P : raises P get_fs.
Proof. intros st e st' H. discriminate. Qed.

Lemma raises_log P lvl msg : raises P (log lvl msg).
Proof. intros st e st' H. discriminate. Qed.

Create HintDb raises.

#[export] Hint Resolve raises_ret raises_get_fs raises_log : raises.

Ltac raises_step :=
  lazymatch goal with
  | |- raises _ (ret _) => apply raises_ret
  | |- raises _ get_fs => apply raises_get_fs
  | |- raises _ (log _ _) => apply raises_log
  | |- raises _ (bind _ _) => apply raises_bind; [|intros ?]
  | |- raises _ (if _ then _ else _) => apply raises_if
  | |- raises _ (raise _) => apply raises_raise
  | |- raises _ (match ?x with _ => _ end) => destruct x
  end.

Lemma raises_makedirs p : raises os_failure (Os.makedirs p).
Proof.
  intros st e st' H. unfold Os.makedirs in H.
  repeat case_match; simplify_eq; done.
Qed.

Lemma raises_mkdir p : raises os_failure (Os.mkdir p).
Proof.
  intros st e st' H. unfold Os.mkdir in H.
  repeat case_match; simplify_eq; done.
Qed.

Lemma raises_read_file p : raises os_failure (Os.read_file p).
Proof.
  intros st e st' H. unfold Os.read_file in H.
  repeat case_match; simplify_eq; done.
Qed.

Lemma raises_write_file p d : raises os_failure (Os.write_file p d).
Proof.
  intros st e st' H. unfold Os.write_file in H.
  repeat case_match; simplify_eq; done.
Qed.

Lemma raises_unlink p : raises os_failure (Os.unlink p).
Proof.
  intros st e st' H. unfold Os.unlink in H.
  repeat case_match; simplify_eq; done.
Qed.

Lemma raises_rmtree p : raises os_failure (Shutil.rmtree p).
Proof.
  intros st e st' H. unfold Shutil.rmtree in H.
  repeat case_match; simplify_eq; done.
Qed.

Lemma raises_copytree src dst : raises os_failure (Shutil.copytree src dst).
Proof.
  intros st e st' H. unfold Shutil.copytree in H.
  repeat case_match; simplify_eq; done.
Qed.

#[export] Hint Resolve raises_makedirs raises_mkdir raises_read_file raises_write_file
  raises_unlink raises_rmtree raises_copytree : raises.

Lemma raises_copy2 src dst : raises os_failure (Shutil.copy2 src dst).
Proof. unfold Shutil.copy2. repeat raises_step; auto with raises. Qed.

#[export] Hint Resolve raises_copy2 : raises.

Lemma raises_upperdirs t : raises os_failure (upperdirs t).
Proof. unfold upperdirs. repeat raises_step. apply raises_makedirs. Qed.

(** ** [remove] and [copy] *)

Lemma remove_returns p st : (remove p st).1 = Ok tt.
Proof.
  unfold remove, Shutil.rmtree, Os.unlink. unfold_monad. simpl.
  repeat (case_match; simpl in *; simplify_eq); done.
Qed.

Lemma lookup_prune (p q : path) (f : gmap path node) :
  prune p f !! q = if decide (PurePath.below p q) then None else f !! q.
Proof.
  unfold prune. destruct (decide (PurePath.below p q)) as [Hb|Hb].
  - apply map_lookup_filter_None. right. intros n _ Hn. by apply Hn.
  - destruct (f !! q) as [n|] eqn:Hq.
    + by apply map_lookup_filter_Some.
    + apply map_lookup_filter_None. by left.
Qed.

Lemma below_refl p : PurePath.below p p.
Proof. by split. Qed.

(** *** What [shutil.rmtree] deletes *)

Lemma elem_of_doomed f p q n :
  (q, n) ∈ Shutil.doomed f p <-> PurePath.below p q /\ f !! q = Some n.
Proof.
  unfold Shutil.doomed. rewrite merge_sort_Permutation.
  rewrite list_elem_of_In, filter_In, <- list_elem_of_In, elem_of_map_to_list. simpl.
  rewrite bool_decide_eq_true. tauto.
Qed.

Lemma unlink_each_gone l q :
  q ∈ (Shutil.unlink_each l).1 -> exists n, (q, n) ∈ l /\ is_locked n = false.
Proof.
  induction l as [|[q' n] l IH]; simpl; [by intros ?%elem_of_nil|].
  destruct (is_locked n) eqn:Hn; simpl; [by intros ?%elem_of_nil|].
  destruct (Shutil.unlink_each l) as [gone all]. simpl in *.
  intros [->|Hq]%elem_of_cons.
  - exists n. split; [left|done].
  - destruct (IH Hq) as (n' & Hin & Hl). exists n'. split; [by right|done].
Qed.

Lemma unlink_each_all l :
  Forall (fun qn => is_locked qn.2 = false) l ->
  Shutil.unlink_each l = (List.map fst l, true).
Proof.
  induction 1 as [|[q n] l Hn _ IH]; simpl in *; [done|]. by rewrite Hn, IH.
Qed.

Lemma unlink_each_stuck l :
  Exists (fun qn => is_locked qn.2 = true) l -> (Shutil.unlink_each l).2 = false.
Proof.
  induction 1 as [[q n] l Hn|[q n] l _ IH]; simpl in *.
  - by rewrite Hn.
  - destruct (is_locked n); [done|]. by destruct (Shutil.unlink_each l).
Qed.

Lemma lookup_delete_each (f : gmap path node) gone q :
  foldr delete f gone !! q = if decide (q ∈ gone) then None else f !! q.
Proof.
  induction gone as [|x gone IH]; simpl; [done|].
  destruct (decide (x = q)) as [->|Hne].
  - rewrite lookup_delete_eq. rewrite decide_True; [done|left].
  - rewrite lookup_delete_ne by done. rewrite IH.
    destruct (decide (q ∈ gone)) as [Hin|Hout].
    + rewrite decide_True; [done|by right].
    + rewrite decide_False; [done|]. intros [->|?]%elem_of_cons; done.
Qed.

Lemma locked_below_doomed f p :
  locked_below f p = true <->
  Exists (fun qn : path * node => is_locked qn.2 = true) (Shutil.doomed f p).
Proof.
  unfold locked_below. rewrite existsb_exists, Exists_exists. split.
  - intros ([q n] & Hin & Hb). simpl in Hb. apply andb_prop in Hb as [Hb Hl].
    apply bool_decide_eq_true in Hb. exists (q, n). split; [|done].
    apply elem_of_doomed. split; [done|].
    by apply elem_of_map_to_list, list_elem_of_In.
  - intros ([q n] & Hin & Hl). apply elem_of_doomed in Hin as [Hb Hq].
    exists (q, n). split.
    + by apply list_elem_of_In, elem_of_map_to_list.
    + simpl in *. by rewrite bool_decide_eq_true_2.
Qed.

(** Without a locked file below it, the directory is deleted whole. *)
Lemma rmtree_clean p st :
  is_dir (fs st) p = true -> locked_below (fs st) p = false ->
  Shutil.rmtree p st
  = (Ok tt, State (prune p (fs st)) (trace st ++ [FsRemove p]) (next_tmp st)).
Proof.
  intros Hd Hl. unfold Shutil.rmtree. rewrite Hd. cbn [negb].
  rewrite unlink_each_all.
  - do 2 f_equal. apply map_eq. intros q.
    rewrite lookup_delete_each, lookup_prune.
    destruct (decide (PurePath.below p q)) as [Hb|Hb].
    + destruct (fs st !! q) as [n|] eqn:Hq.
      * rewrite decide_True; [done|].
        apply list_elem_of_In, in_map_iff. exists (q, n). split; [done|].
        apply list_elem_of_In, elem_of_doomed. done.
      * by destruct (decide _).
    + rewrite decide_False; [done|].
      intros Hin. apply list_elem_of_In, in_map_iff in Hin as ([q' n] & <- & Hin).
      apply list_elem_of_In, elem_of_doomed in Hin as [? _]. done.
  - apply Forall_forall. intros qn Hin.
    destruct (is_locked qn.2) eqn:Hq; [|done].
    assert (locked_below (fs st) p = true); [|congruence].
    apply locked_below_doomed, Exists_exists. by exists qn.
Qed.

(** With one, it raises after it has deleted some of the entries, none
    of them locked; the others are as they were. *)
Lemma rmtree_stuck p st :
  is_dir (fs st) p = true -> locked_below (fs st) p = true ->
  exists gone,
    Shutil.rmtree p st
    = (Err (os_error_of PermissionError),
       State (foldr delete (fs st) gone) (trace st ++ List.map FsRemove gone) (next_tmp st)) /\
    forall q, q ∈ gone -> PurePath.below p q /\
                          exists n, fs st !! q = Some n /\ is_locked n = false.
Proof.
  intros Hd Hl. unfold Shutil.rmtree. rewrite Hd. cbn [negb].
  apply locked_below_doomed in Hl.
  pose proof (unlink_each_stuck _ Hl) as Hall.
  pose proof (unlink_each_gone (Shutil.doomed (fs st) p)) as Hgone.
  destruct (Shutil.unlink_each (Shutil.doomed (fs st) p)) as [gone all].
  simpl in Hall, Hgone. subst all. exists gone. split; [done|].
  intros q Hq. destruct (Hgone q Hq) as (n & Hin & Hn).
  apply elem_of_doomed in Hin as [Hb Hf]. split; [done|]. by exists n.
Qed.

(** Whatever [shutil.rmtree] does, a node is afterwards what it was, or it
    lay at or below the directory, was not locked, and is gone. *)
Lemma rmtree_only_deletes p st q :
  fs (Shutil.rmtree p st).2 !! q = fs st !! q \/
  (PurePath.below p q /\ fs (Shutil.rmtree p st).2 !! q = None /\
   exists n, fs st !! q = Some n /\ is_locked n = false).
Proof.
  destruct (is_dir (fs st) p) eqn:Hd.
  - destruct (locked_below (fs st) p) eqn:Hl.
    + destruct (rmtree_stuck p st Hd Hl) as (gone & -> & Hgone). cbn [snd fs].
      rewrite lookup_delete_each. destruct (decide (q ∈ gone)) as [Hin|]; [|by left].
      right. destruct (Hgone q Hin) as [Hb Hn]. done.
    + rewrite rmtree_clean by done. cbn [snd fs]. rewrite lookup_prune.
      destruct (decide _) as [Hb|]; [|by left].
      destruct (fs st !! q) as [n|] eqn:Hq; [|by left].
      right. split; [done|]. split; [done|]. exists n. split; [done|].
      destruct (is_locked n) eqn:Hn; [|done].
      assert (locked_below (fs st) p = true); [|congruence].
      unfold locked_below. apply existsb_exists. exists (q, n). split.
      * by apply list_elem_of_In, elem_of_map_to_list.
      * simpl. by rewrite bool_decide_eq_true_2.
  - unfold Shutil.rmtree. rewrite Hd. by left.
Qed.

Lemma rmtree_next_tmp p st : next_tmp (Shutil.rmtree p st).2 = next_tmp st.
Proof.
  unfold Shutil.rmtree. destruct (negb _); [done|].
  destruct (Shutil.unlink_each _) as [gone []]; done.
Qed.

Lemma rmtree_result p st :
  (Shutil.rmtree p st).1 = Ok tt \/ exists k, (Shutil.rmtree p st).1 = Err (os_error_of k).
Proof.
  unfold Shutil.rmtree. destruct (negb _); [right; by eexists|].
  destruct (Shutil.unlink_each _) as [gone []]; [by left | right; by eexists].
Qed.

(** What [remove] leaves of the files. *)
Lemma fs_remove p st :
  fs (remove p st).2
  = match fs st !! p with
    | Some Dir => fs (Shutil.rmtree p st).2
    | Some (File false _) => delete p (fs st)
    | _ => fs st
    end.
Proof.
  unfold remove. unfold_monad. unfold exists_, is_dir, is_file.
  destruct (fs st !! p) as [[|[] d]|] eqn:Hp; cbn [negb]; try done.
  - destruct (rmtree_result p st) as [Hr|[k Hr]];
      destruct (Shutil.rmtree p st) as [[[]|e] s1]; simpl in *; by simplify_eq.
  - unfold Os.unlink. by rewrite Hp.
  - unfold Os.unlink. by rewrite Hp.
Qed.

Lemma next_tmp_remove p st : next_tmp (remove p st).2 = next_tmp st.
Proof.
  unfold remove. unfold_monad. unfold exists_, is_dir, is_file.
  destruct (fs st !! p) as [[|[] d]|] eqn:Hp; cbn [negb]; try done.
  - pose proof (rmtree_next_tmp p st) as Hn.
    destruct (rmtree_result p st) as [Hr|[k Hr]];
      destruct (Shutil.rmtree p st) as [[[]|e] s1]; simpl in *; by simplify_eq.
  - unfold Os.unlink. by rewrite Hp.
  - unfold Os.unlink. by rewrite Hp.
Qed.

(** Whatever [remove] does, a node is afterwards what it was, or it lay at
    or below the path, was not locked, and is gone. *)
Lemma remove_gone_or_kept p st q :
  fs (remove p st).2 !! q = fs st !! q \/
  (PurePath.below p q /\ fs (remove p st).2 !! q = None /\
   exists n, fs st !! q = Some n /\ is_locked n = false).
Proof.
  rewrite fs_remove. destruct (fs st !! p) as [[|[] d]|] eqn:Hp; try by left.
  - apply rmtree_only_deletes.
  - destruct (decide (q = p)) as [->|Hne].
    + right. rewrite lookup_delete_eq. split; [apply below_refl|]. split; [done|].
      by exists (File false d).
    + left. by rewrite lookup_delete_ne.
Qed.

Lemma raises_copy src dst : raises copy_error (copy src dst).
Proof.
  unfold copy. eapply raises_catch with (Q := os_failure).
  - repeat raises_step; auto with raises.
  - intros e He. destruct (is_shutil_Error e) eqn:Hs.
    + repeat raises_step.
    + rewrite He. apply raises_raise. by exists e.
Qed.

(** C9, as amended. [remove] never raises.  It makes and changes nothing:
    a node is afterwards what it was, or it lay at or below the path, was
    not locked, and is gone.  A path that does not exist is left with a
    debug message.  When no file at or below the path is locked, the path
    is gone, a directory with all that was below it.  When one is, the
    [OSError] of the deletion is swallowed with a debug message, and what
    was deleted before it was raised stays deleted.

    [copy] only swallows [shutil.Error]: when [copytree] ends with it,
    [copy] logs a debug message and returns the source.  An [OSError] of
    [copytree] or [copy2] that is no [shutil.Error] is raised again as
    [IOError] ["Copy error"] with the error as its cause, and [copy]
    raises nothing else. *)
Theorem remove_swallows_copy_wraps (p src dst : path) (st : state) :
  (exists st', remove p st = (Ok tt, st') /\
     (forall q, fs st' !! q = fs st !! q \/
                (PurePath.below p q /\ fs st' !! q = None /\
                 exists n, fs st !! q = Some n /\ is_locked n = false)) /\
     (exists_ (fs st) p = false ->
      fs st' = fs st /\ trace st' = (trace st ++ [Log Debug "Non existing %s"])%list) /\
     (removable (fs st) p = true ->
      exists_ (fs st') p = false /\
      (is_dir (fs st) p = true -> forall q, PurePath.below p q -> fs st' !! q = None)) /\
     (removable (fs st) p = false ->
      exists gone msg,
        trace st' = (trace st ++ List.map FsRemove gone ++ [Log Debug msg])%list)) /\
  match (copy src dst st).1 with
  | Ok _ => True
  | Err e => copy_error e
  end /\
  match Shutil.copytree src dst st with
  | (Err e, st1) =>
      if is_dir (fs st) src && is_shutil_Error e then
        copy src dst st
        = (Ok (Some src),
           State (fs st1) (trace st1 ++ [Log Debug "Error in copy!"]) (next_tmp st1))
      else True
  | (Ok _, _) => True
  end /\
  (forall e st1,
     (is_dir (fs st) src = true /\ Shutil.copytree src dst st = (Err e, st1)) \/
     (is_dir (fs st) src = false /\ is_file (fs st) src = true /\
      Shutil.copy2 src dst st = (Err e, st1)) ->
     is_shutil_Error e = false ->
     copy src dst st = (Err (OSError EnvironmentError "Copy error" (Some e)), st1)).
Proof.
  split; [|split; [|split]].
  - unfold remove. unfold_monad. unfold exists_, is_dir, is_file, removable.
    destruct (fs st !! p) as [[|[] d]|] eqn:Hp; cbn [negb].
    + (* a directory *)
      assert (is_dir (fs st) p = true) as Hd by (unfold is_dir; by rewrite Hp).
      destruct (locked_below (fs st) p) eqn:Hl.
      * destruct (rmtree_stuck p st Hd Hl) as (gone & Hrun & Hgone).
        pose proof (rmtree_only_deletes p st) as Hdel. rewrite Hrun in *. cbn [snd fs] in Hdel.
        simpl. eexists. split; [done|]. cbn [fs trace].
        split; [exact Hdel|]. split; [done|]. split; [done|].
        intros _. exists gone. eexists. by rewrite <- app_assoc.
      * pose proof (rmtree_only_deletes p st) as Hdel.
        rewrite rmtree_clean in * by done. cbn [snd fs] in Hdel.
        simpl. eexists. split; [done|]. cbn [fs trace].
        split; [exact Hdel|]. split; [done|]. split; [|done].
        intros _. split.
        -- rewrite lookup_prune. rewrite decide_True; [done | apply below_refl].
        -- intros _ q Hq. rewrite lookup_prune. by rewrite decide_True.
    + (* a locked file *)
      unfold Os.unlink. rewrite Hp. simpl. eexists. split; [done|]. cbn [fs trace].
      split; [by left|]. split; [done|]. split; [done|].
      intros _. exists []. eexists. reflexivity.
    + (* a file *)
      unfold Os.unlink. rewrite Hp. simpl. eexists. split; [done|]. cbn [fs trace].
      split.
      { intros q. destruct (decide (q = p)) as [->|Hne].
        - right. rewrite lookup_delete_eq. split; [apply below_refl|]. split; [done|].
          by exists (File false d).
        - left. by rewrite lookup_delete_ne. }
      split; [done|]. split; [|done].
      intros _. by rewrite lookup_delete_eq.
    + (* nothing *)
      simpl. eexists. split; [done|]. cbn [fs trace].
      split; [by left|]. split; [done|]. split; [|done].
      intros _. by rewrite Hp.
  - destruct (copy src dst st) as [[o|e] st'] eqn:Hc; simpl; [done|].
    eapply raises_copy; eauto.
  - destruct (Shutil.copytree src dst st) as [[o|e] st1] eqn:Hct; [done|].
    destruct (is_dir (fs st) src) eqn:Hsrc; [|done].
    destruct (is_shutil_Error e) eqn:Hs; [|done]. simpl.
    unfold copy, catch, bind, get_fs. by rewrite Hsrc, Hct, Hs.
  - intros e st1 Hrun Hs.
    assert (is_OSError e = true) as Hos.
    { destruct Hrun as [[_ Hrun]|(_ & _ & Hrun)].
      - by apply raises_copytree in Hrun.
      - by apply raises_copy2 in Hrun. }
    unfold copy, catch, bind, get_fs.
    destruct Hrun as [[Hd Hrun]|(Hd & Hf & Hrun)].
    + by rewrite Hd, Hrun, Hs, Hos.
    + by rewrite Hd, Hf, Hrun, Hs, Hos.
Qed.

(** A directory with a locked file [c] among its entries, and a
    directory beside it: [remove] returns, the directory beside is as it
    was, and the trace ends with the debug message of the swallowed
    error. *)
Lemma remove_swallows_copy_wraps_witness :
  let st := fresh [([], Dir); (["t"], Dir); (["t"; "a"], File false (bytes_of "1"));
                   (["t"; "c"], File true (bytes_of "3")); (["u"], Dir)] in
  exists st',
    remove (Path Disk ["t"]) st = (Ok tt, st') /\
    fs st' !! Path Disk ["u"] = Some Dir /\
    exists gone msg,
      trace st' = (trace st ++ List.map FsRemove gone ++ [Log Debug msg])%list.
Proof.
  intros st.
  destruct (remove_swallows_copy_wraps (Path Disk ["t"]) (Path Disk ["t"]) (Path Disk ["u"]) st)
    as [(st' & Hrun & Hkept & _ & _ & Hstuck) _].
  exists st'. split; [exact Hrun|]. split.
  - destruct (Hkept (Path Disk ["u"])) as [->|[[_ [k Hk]] _]]; [|discriminate].
    vm_compute. reflexivity.
  - apply Hstuck. vm_compute. reflexivity.
Defined.

(** What is deleted before the locked file is reached stays deleted. *)
Lemma remove_stops_at_locked_file :
  let st := fresh [([], Dir); (["t"], Dir); (["t"; "a"], File false (bytes_of "1"));
                   (["t"; "c"], File true (bytes_of "3"));
                   (["t"; "d"], File false (bytes_of "4"))] in
  let st' := (remove (Path Disk ["t"]) st).2 in
  fs st' !! Path Disk ["t"; "a"] = None /\
  fs st' !! Path Disk ["t"; "c"] = Some (File true (bytes_of "3")) /\
  fs st' !! Path Disk ["t"; "d"] = Some (File false (bytes_of "4")) /\
  fs st' !! Path Disk ["t"] = Some Dir /\
  trace st' = [FsRemove (Path Disk ["t"; "a"]);
               Log Debug "Impossible to remove the directory %s"].
Proof. vm_compute. repeat split; reflexivity. Qed.

(** A directory with a locked file: the copy is made without the file,
    [shutil.Error] is swallowed and the source is returned. *)
Lemma copy_swallows_shutil_error :
  let st := fresh [([], Dir); (["a"], Dir); (["a"; "f"], File true (bytes_of "x"));
                   (["a"; "g"], File false (bytes_of "y"))] in
  let r := copy (Path Disk ["a"]) (Path Disk ["b"]) st in
  r.1 = Ok (Some (Path Disk ["a"])) /\
  fs r.2 !! Path Disk ["b"; "g"] = Some (File false (bytes_of "y")) /\
  fs r.2 !! Path Disk ["b"; "f"] = None /\
  trace r.2 = [FsWrite (Path Disk ["b"]); Log Debug "Error in copy!"].
Proof. vm_compute. repeat split; reflexivity. Qed.

(** The claim as stated fails: copying a directory to a destination that
    exists raises an [IOError]. *)
Lemma copy_failure_propagates :
  let st := fresh [([], Dir); (["a"], Dir); (["b"], Dir)] in
  (copy (Path Disk ["a"]) (Path Disk ["b"]) st).1
  = Err (OSError EnvironmentError "Copy error" (Some (OSError FileExistsError "" None))).
Proof. vm_compute. reflexivity. Qed.

(** ** [extract_file]: the cases that go wrong *)

(** C1, the case [overwrite=True]. The archive [/in/p.zip] holds [p/] and
    [p/x.txt], and [/out/p] exists with an old file. [extract_file] with
    [overwrite=True] removes [/out/p] and extracts nothing: the returned
    directory does not exist after the call. *)
Theorem extract_file_overwrite_only_removes (docker : bool) :
  let archive := Zip [("p/", EDir); ("p/x.txt", EFile (bytes_of "new"))] in
  let st := fresh [([], Dir); (["in"], Dir); (["in"; "p.zip"], File false archive);
                   (["out"], Dir); (["out"; "p"], Dir);
                   (["out"; "p"; "old.txt"], File false (bytes_of "old"))] in
  let r := extract_file (python docker id) (Path Disk ["in"; "p.zip"]) (Path Disk ["out"]) true st in
  r.1 = Ok (OnePath (Path Disk ["out"; "p"])) /\
  exists_ (fs r.2) (Path Disk ["out"; "p"]) = false /\
  fs r.2 !! Path Disk ["out"; "p"; "x.txt"] = None /\
  trace r.2 = [Log Debug "Already existing extracted %s. It will be overwritten as asked.";
               FsRemove (Path Disk ["out"; "p"])].
Proof. destruct docker; vm_compute; repeat split; reflexivity. Qed.

(** C2, the members of a target. The archive holds [a/b], [b/a], [a/y]
    and [b/z]; nothing is extracted yet. Out of docker, whichever of the
    two top-level entries comes first, two directories are returned and
    one of them lacks a member of its own: the members of the first entry
    are chosen by [extr_name in name], which takes a member of the other
    entry too and so creates the other directory, which is then skipped. *)
Theorem extract_file_zip_target_incomplete :
  let archive := Zip [("a/b", EFile (bytes_of "1")); ("b/a", EFile (bytes_of "2"));
                      ("a/y", EFile (bytes_of "3")); ("b/z", EFile (bytes_of "4"))] in
  let st := fresh [([], Dir); (["in"], Dir); (["in"; "x.zip"], File false archive)] in
  let r1 := extract_file (python false id) (Path Disk ["in"; "x.zip"]) (Path Disk ["out"]) false st in
  let r2 := extract_file (python false (@List.rev string)) (Path Disk ["in"; "x.zip"]) (Path Disk ["out"]) false st in
  (r1.1 = Ok (PathList [Path Disk ["out"; "a"]; Path Disk ["out"; "b"]]) /\
   fs r1.2 !! Path Disk ["out"; "b"; "a"] = Some (File false (bytes_of "2")) /\
   fs r1.2 !! Path Disk ["out"; "b"; "z"] = None) /\
  (r2.1 = Ok (PathList [Path Disk ["out"; "b"]; Path Disk ["out"; "a"]]) /\
   fs r2.2 !! Path Disk ["out"; "a"; "b"] = Some (File false (bytes_of "1")) /\
   fs r2.2 !! Path Disk ["out"; "a"; "y"] = None).
Proof. vm_compute. repeat split; reflexivity. Qed.


(** C7, the suffix [.tar.gz]. [/in/prod.v2.tar.gz] is a tar archive, and
    pathlib gives it the suffixes [.v2], [.tar], [.gz]: the test
    [file_path.suffixes == [".tar", ".gz"]] fails and [extract_file]
    raises the error for an unsupported format, in every environment. *)
Theorem extract_file_dotted_tar_gz_refused (E : env) (overwrite : bool) :
  let archive := Tar [("readme.txt", EFile (bytes_of "hello"))] in
  let st := fresh [([], Dir); (["in"], Dir); (["in"; "prod.v2.tar.gz"], File false archive)] in
  PurePath.suffixes (Path Disk ["in"; "prod.v2.tar.gz"]) = [".v2"; ".tar"; ".gz"] /\
  (extract_file E (Path Disk ["in"; "prod.v2.tar.gz"]) (Path Disk ["out"]) overwrite st).1
  = Err unsupported_format.
Proof. vm_compute. split; reflexivity. Qed.

(** ** [read_archived_file]: a directory as the first match *)

(** C6, the first matching member. [/in/x.tar] lists the directory [data]
    and then the file [data/a.txt]; the pattern [data.*] matches both.
    The first match is the directory, for which [extractfile] returns
    [None]: the call raises [AttributeError], and returns neither the
    bytes of a member nor [FileNotFoundError]. The same listing in a zip
    archive gives the empty bytes of the directory member. *)
Theorem read_archived_file_tar_directory :
  let listing := [("data", EDir); ("data/a.txt", EFile (bytes_of "A"))] in
  let ziplisting := [("data/", EDir); ("data/a.txt", EFile (bytes_of "A"))] in
  let st := fresh [([], Dir); (["in"], Dir); (["in"; "x.tar"], File false (Tar listing));
                   (["in"; "x.zip"], File false (Zip ziplisting))] in
  (read_archived_file (Path Disk ["in"; "x.tar"]) "data.*" st).1
  = Err (AttributeError "'NoneType' object has no attribute 'read'") /\
  (read_archived_file (Path Disk ["in"; "x.zip"]) "data.*" st).1 = Ok (Raw []).
Proof. vm_compute. split; reflexivity. Qed.

(** ** ISO format: what is printed is read back *)

Module IsoFacts.
Import Iso.
Local Open Scope Z_scope.

Lemma digit_val_digit k : 0 <= k <= 9 -> digit_val (digit k) = Some k.
Proof.
  intros H.
  assert (k = 0 \/ k = 1 \/ k = 2 \/ k = 3 \/ k = 4 \/ k = 5 \/ k = 6 \/ k = 7 \/
          k = 8 \/ k = 9) as Hk by lia.
  repeat (destruct Hk as [-> | Hk]; [reflexivity|]). by subst.
Qed.

Lemma digit_no_sign k : 0 <= k <= 9 -> no_sign (digit k).
Proof.
  intros H.
  assert (k = 0 \/ k = 1 \/ k = 2 \/ k = 3 \/ k = 4 \/ k = 5 \/ k = 6 \/ k = 7 \/
          k = 8 \/ k = 9) as Hk by lia.
  repeat (destruct Hk as [-> | Hk]; [by split|]). by subst.
Qed.

Lemma number_d2 n :
  0 <= n < 100 -> number 0 [digit (n / 10); digit (n mod 10)] = Some n.
Proof.
  intros H. unfold number.
  rewrite !digit_val_digit by (Z.div_mod_to_equations; lia).
  f_equal. Z.div_mod_to_equations. lia.
Qed.

Lemma number_d4 n :
  0 <= n < 10000 ->
  number 0 [digit (n / 1000); digit (n / 100 mod 10); digit (n / 10 mod 10);
            digit (n mod 10)] = Some n.
Proof.
  intros H. unfold number.
  rewrite !digit_val_digit by (Z.div_mod_to_equations; lia).
  f_equal. Z.div_mod_to_equations. lia.
Qed.

Lemma number_d6 n :
  0 <= n < 1000000 ->
  number 0 [digit (n / 100000); digit (n / 10000 mod 10); digit (n / 1000 mod 10);
            digit (n / 100 mod 10); digit (n / 10 mod 10); digit (n mod 10)] = Some n.
Proof.
  intros H. unfold number.
  rewrite !digit_val_digit by (Z.div_mod_to_equations; lia).
  f_equal. Z.div_mod_to_equations. lia.
Qed.

End IsoFacts.
Module IsoFacts2.
Import Iso IsoFacts.
Local Open Scope Z_scope.

Local Arguments number : simpl never.
Local Arguments digit : simpl never.
Local Arguments Z.div : simpl never.
Local Arguments Z.modulo : simpl never.

Lemma valid_date_ranges d :
  valid_date d = true ->
  0 <= year d < 10000 /\ 0 <= month d < 100 /\ 0 <= day d < 100.
Proof.
  unfold valid_date, days_in_month. intros H.
  repeat (apply andb_prop in H as [H ?]).
  assert (day d <= 31).
  { repeat case_match; lia. }
  lia.
Qed.

(** [date.fromisoformat(d.isoformat()) == d] *)
Lemma date_roundtrip d :
  valid_date d = true -> date_fromisoformat (date_isoformat d) = Some d.
Proof.
  intros Hv. destruct (valid_date_ranges d Hv) as (Hy & Hm & Hd).
  unfold date_fromisoformat, date_isoformat.
  rewrite list_ascii_of_string_of_list_ascii.
  unfold date_chars, d4, d2, parse_date. simpl app.
  cbv beta iota. change (is_char "-" "-") with true. simpl andb. cbv iota.
  rewrite number_d4, !number_d2 by done.
  destruct d as [y m dd]. simpl in *. by rewrite Hv.
Qed.

(** The text of a datetime is no date: it is longer. *)
Lemma date_of_datetime_text t :
  date_fromisoformat (datetime_isoformat t) = None.
Proof.
  unfold date_fromisoformat, datetime_isoformat.
  rewrite list_ascii_of_string_of_list_ascii.
  unfold date_chars, time_chars, d4, d2. reflexivity.
Qed.

Lemma split_sign_app l rest :
  Forall no_sign l ->
  split_sign (l ++ rest)%list = ((l ++ (split_sign rest).1)%list, (split_sign rest).2).
Proof.
  induction 1 as [|c l [H1 H2] _ IH]; simpl.
  - by destruct (split_sign rest).
  - rewrite H1, H2, IH. done.
Qed.

Lemma sep_no_sign : no_sign ":" /\ no_sign ".".
Proof. by repeat split. Qed.

Lemma d2_no_sign n : 0 <= n < 100 -> Forall no_sign (d2 n).
Proof.
  intros H. unfold d2.
  repeat constructor; apply digit_no_sign; Z.div_mod_to_equations; lia.
Qed.

Lemma d6_no_sign n : 0 <= n < 1000000 -> Forall no_sign (d6 n).
Proof.
  intros H. unfold d6.
  repeat constructor; apply digit_no_sign; Z.div_mod_to_equations; lia.
Qed.

Lemma valid_datetime_ranges t :
  valid_datetime t = true ->
  valid_date (dt_date t) = true /\
  0 <= hour t < 100 /\ 0 <= minute t < 100 /\ 0 <= second t < 100 /\
  0 <= microsecond t < 1000000 /\ valid_offset (utcoffset t) = true.
Proof.
  unfold valid_datetime. intros H.
  repeat (apply andb_prop in H as [H ?]).
  repeat split; try done; try lia.
  unfold valid_date. repeat (apply andb_true_intro; split); done.
Qed.

Lemma time_no_sign t :
  valid_datetime t = true -> Forall no_sign (time_chars t).
Proof.
  intros Hv. destruct (valid_datetime_ranges t Hv) as (_ & Hh & Hm & Hs & Hu & _).
  unfold time_chars.
  repeat (apply Forall_app; split); auto using d2_no_sign.
  - repeat constructor; apply sep_no_sign.
  - repeat constructor; apply sep_no_sign.
  - destruct (microsecond t =? 0); [constructor|].
    apply Forall_app; split; [repeat constructor; apply sep_no_sign | by apply d6_no_sign].
Qed.

Lemma parse_time_chars t :
  valid_datetime t = true ->
  parse_hh_mm_ss_ff (time_chars t)
  = Some (hour t, minute t, second t, microsecond t).
Proof.
  intros Hv. destruct (valid_datetime_ranges t Hv) as (_ & Hh & Hm & Hs & Hu & _).
  unfold time_chars, d2, parse_hh_mm_ss_ff, parse_after_mm. simpl app.
  repeat first
    [ rewrite number_d2 by done
    | progress cbv beta iota
    | progress change (is_char ":" ".") with false
    | progress change (is_char ":" ":") with true ].
  destruct (microsecond t =? 0) eqn:Hus.
  - apply Z.eqb_eq in Hus. rewrite Hus. reflexivity.
  - unfold parse_after_ss, d6, parse_fraction. simpl app.
    change (is_char "." "." || is_char "." ":")%bool with true. cbv iota.
    simpl length. cbv iota. by rewrite number_d6.
Qed.

Lemma parse_hm_chars h m :
  0 <= h < 100 -> 0 <= m < 100 ->
  parse_hh_mm_ss_ff (d2 h ++ [":"%char] ++ d2 m) = Some (h, m, 0, 0).
Proof.
  intros Hh Hm. unfold d2, parse_hh_mm_ss_ff, parse_after_mm. simpl app.
  repeat first
    [ rewrite number_d2 by done
    | progress cbv beta iota
    | progress change (is_char ":" ".") with false
    | progress change (is_char ":" ":") with true ].
  reflexivity.
Qed.

Lemma parse_hms_chars h m s f :
  0 <= h < 100 -> 0 <= m < 100 -> 0 <= s < 100 -> 0 <= f < 1000000 ->
  parse_hh_mm_ss_ff (d2 h ++ [":"%char] ++ d2 m ++ [":"%char] ++ d2 s ++
                     (if f =? 0 then [] else ["."%char] ++ d6 f))
  = Some (h, m, s, f).
Proof.
  intros Hh Hm Hs Hf. unfold d2, parse_hh_mm_ss_ff, parse_after_mm. simpl app.
  repeat first
    [ rewrite number_d2 by done
    | progress cbv beta iota
    | progress change (is_char ":" ".") with false
    | progress change (is_char ":" ":") with true ].
  destruct (f =? 0) eqn:Hus.
  - apply Z.eqb_eq in Hus. rewrite Hus. reflexivity.
  - unfold parse_after_ss, d6, parse_fraction. simpl app.
    change (is_char "." "." || is_char "." ":")%bool with true. cbv iota.
    simpl length. cbv iota. by rewrite number_d6.
Qed.

Lemma parse_offset_chars o :
  valid_offset o = true ->
  match snd (split_sign (offset_chars o)) with
  | None => o = None
  | Some (neg, zl) => exists z, o = Some z /\ parse_offset neg zl = Some z
  end /\ fst (split_sign (offset_chars o)) = [].
Proof.
  destruct o as [z|]; [|done].
  intros Hz. apply andb_prop in Hz as [H1 H2].
  apply Z.ltb_lt in H1, H2.
  unfold offset_chars. cbv zeta.
  set (a := Z.abs z).
  set (hh := a / 3600000000). set (mm := a / 60000000 mod 60).
  set (ss := a / 1000000 mod 60). set (us := a mod 1000000).
  assert (0 <= a < 86400000000) as Ha by (unfold a; lia).
  assert (0 <= hh < 100 /\ 0 <= mm < 100 /\ 0 <= ss < 100 /\ 0 <= us < 1000000 /\
          a = (3600 * hh + 60 * mm + ss) * 1000000 + us) as (Hh & Hm & Hs & Hu & Hsum).
  { unfold hh, mm, ss, us. Z.div_mod_to_equations. lia. }
  assert (z = if z <? 0 then - a else a) as Hza.
  { unfold a. destruct (z <? 0) eqn:Hneg; [apply Z.ltb_lt in Hneg | apply Z.ltb_ge in Hneg]; lia. }
  set (tail := (if (ss =? 0) && (us =? 0) then []
                else [":"%char] ++ d2 ss ++
                     (if us =? 0 then [] else ["."%char] ++ d6 us))%list).
  assert (parse_offset (z <? 0) (d2 hh ++ [":"%char] ++ d2 mm ++ tail)%list = Some z)
    as Hparse.
  { unfold parse_offset, tail.
    destruct ((ss =? 0) && (us =? 0))%bool eqn:Hzero.
    - apply andb_prop in Hzero as [Hs0 Hu0]. apply Z.eqb_eq in Hs0, Hu0.
      rewrite app_nil_r.
      change (length (d2 hh ++ [":"%char] ++ d2 mm)%list) with 5%nat. cbv iota.
      rewrite (app_assoc (d2 hh)), <- (app_assoc (d2 hh)), parse_hm_chars by done.
      f_equal. destruct (z <? 0); lia.
    - destruct (us =? 0) eqn:Hu0.
      + change (length (d2 hh ++ [":"%char] ++ d2 mm ++ [":"%char] ++ d2 ss ++ [])%list)
          with 8%nat. cbv iota.
        pose proof (parse_hms_chars hh mm ss us Hh Hm Hs Hu) as Hp. rewrite Hu0 in Hp.
        rewrite Hp. f_equal. try apply Z.eqb_eq in Hu0. destruct (z <? 0); lia.
      + change (length (d2 hh ++ [":"%char] ++ d2 mm ++ [":"%char] ++ d2 ss ++
                        ["."%char] ++ d6 us)%list) with 15%nat. cbv iota.
        pose proof (parse_hms_chars hh mm ss us Hh Hm Hs Hu) as Hp. rewrite Hu0 in Hp.
        rewrite Hp. f_equal. try apply Z.eqb_eq in Hu0. destruct (z <? 0); lia. }
  fold tail. clearbody tail.
  destruct (z <? 0) eqn:Hneg; simpl; (split; [|done]); exists z; (split; [done|]);
    exact Hparse.
Qed.

(** [datetime.fromisoformat(t.isoformat()) == t] *)
Lemma datetime_roundtrip t :
  valid_datetime t = true -> datetime_fromisoformat (datetime_isoformat t) = Some t.
Proof.
  intros Hv. pose proof (valid_datetime_ranges t Hv) as (Hd & _ & _ & _ & _ & Ho).
  pose proof (date_roundtrip _ Hd) as Hdate.
  unfold date_fromisoformat, date_isoformat in Hdate.
  rewrite list_ascii_of_string_of_list_ascii in Hdate.
  unfold datetime_fromisoformat, datetime_isoformat.
  rewrite list_ascii_of_string_of_list_ascii.
  assert (length (date_chars (dt_date t)) = 10%nat) as Hlen by reflexivity.
  rewrite firstn_app, Hlen, Nat.sub_diag, firstn_O, app_nil_r.
  rewrite firstn_all2 by (rewrite Hlen; lia).
  rewrite Hdate.
  rewrite skipn_app, Hlen, Nat.sub_diag, skipn_all2 by (rewrite Hlen; lia).
  cbn [app skipn].
  unfold parse_time. rewrite split_sign_app by by apply time_no_sign.
  destruct (parse_offset_chars _ Ho) as [Hoff Hnil].
  destruct (split_sign (offset_chars (utcoffset t))) as [pre z]. cbn [fst snd] in *.
  subst pre. rewrite app_nil_r. cbv beta iota zeta.
  rewrite parse_time_chars by done.
  destruct t as [d h m s us o]. simpl in *.
  destruct z as [[neg zl]|].
  - destruct Hoff as (z & -> & ->). by rewrite Hv.
  - subst o. by rewrite Hv.
Qed.

End IsoFacts2.

(** ** JSON: what is saved is read back *)

Lemma encode_dict cls items :
  encode cls (VDict items)
  = match encode_items cls items with Ok js => Ok (JDict js) | Err e => Err e end.
Proof.
  simpl. match goal with |- match ?a with _ => _ end = match ?b with _ => _ end =>
    assert (a = b) as ->; [|done] end.
  induction items as [|[k x] l IH]; [done|]. simpl. by rewrite IH.
Qed.

Lemma encode_vlist cls l :
  encode cls (VList l)
  = match encode_list cls l with Ok js => Ok (JList js) | Err e => Err e end.
Proof.
  simpl. match goal with |- match ?a with _ => _ end = match ?b with _ => _ end =>
    assert (a = b) as ->; [|done] end.
  induction l as [|x l IH]; [done|]. simpl. by rewrite IH.
Qed.

Lemma decode_dict E items :
  decode E (JDict items) = VDict (object_hook E (dict_of_pairs (decode_items E items))).
Proof.
  simpl. do 3 f_equal. unfold decode_items.
  induction items as [|[k x] l IH]; [done|]. simpl. by rewrite IH.
Qed.

(** Induction on JSON documents, with the hypothesis for the documents
    inside a list or an object. *)
Lemma json_nested_ind (P : json -> Prop) :
  P JNull -> (forall b, P (JBool b)) -> (forall z, P (JInt z)) -> (forall s, P (JStr s)) ->
  (forall l, Forall P l -> P (JList l)) ->
  (forall items, Forall (fun kj => P kj.2) items -> P (JDict items)) ->
  forall j, P j.
Proof.
  intros HN HB HI HS HL HD.
  fix IH 1. intros [| b | z | s | l | items].
  - exact HN.
  - apply HB.
  - apply HI.
  - apply HS.
  - apply HL. induction l as [|x l IHl]; constructor; [apply IH | exact IHl].
  - apply HD. induction items as [|[k x] l IHl]; constructor; [apply IH | exact IHl].
Qed.

Lemma encodes_hook_value E v : encodes v -> encodes (hook_value E v).
Proof.
  intros Hv. destruct v; try done. simpl.
  repeat case_match; by eexists.
Qed.

Lemma encodes_list l : Forall encodes l -> exists js, encode_list CustomEncoder l = Ok js.
Proof.
  induction 1 as [|x l [j Hj] _ [js IH]]; simpl; [by eexists|].
  rewrite Hj, IH. by eexists.
Qed.

Lemma encodes_items l :
  Forall (fun kv => encodes kv.2) l -> exists js, encode_items CustomEncoder l = Ok js.
Proof.
  induction 1 as [|[k x] l [j Hj] _ [js IH]]; simpl in *; [by eexists|].
  rewrite Hj, IH. by eexists.
Qed.

Lemma dict_set_values (Q : pyval -> Prop) k v d :
  Q v -> Forall (fun kv => Q kv.2) d -> Forall (fun kv => Q kv.2) (dict_set k v d).
Proof.
  intros Hv. induction 1 as [|[k' v'] d Hx Hd IH]; simpl.
  - by repeat constructor.
  - destruct (String.eqb k k'); constructor; auto.
Qed.

Lemma dict_of_pairs_values (Q : pyval -> Prop) l :
  Forall (fun kv => Q kv.2) l -> Forall (fun kv => Q kv.2) (dict_of_pairs l).
Proof.
  unfold dict_of_pairs. intros Hl.
  assert (Forall (fun kv : string * pyval => Q kv.2) []) as Hacc by constructor.
  revert Hacc. generalize (@nil (string * pyval)).
  induction Hl as [|[k v] l Hx Hl IH]; intros acc Hacc; simpl; [done|].
  apply IH. by apply dict_set_values.
Qed.

(** What the decoder returns can be encoded again: the debug message of
    [read_json] never fails. *)
Lemma decoded_encodes E j : encodes (decode E j).
Proof.
  induction j as [| b | z | s | l IH | items IH] using json_nested_ind;
    try (by eexists).
  - unfold encodes. simpl decode. rewrite encode_vlist.
    destruct (encodes_list (List.map (decode E) l)) as [js ->]; [|by eexists].
    apply Forall_map. done.
  - unfold encodes. rewrite decode_dict, encode_dict.
    destruct (encodes_items (object_hook E (dict_of_pairs (decode_items E items))))
      as [js ->]; [|by eexists].
    unfold object_hook. apply Forall_map. simpl.
    apply (dict_of_pairs_values (fun v => encodes (hook_value E v))).
    unfold decode_items. apply Forall_map. simpl.
    eapply Forall_impl; [exact IH|]. intros [k x] Hx. simpl in *.
    by apply encodes_hook_value.
Qed.

Lemma dict_set_fresh k v d :
  k ∉ List.map fst d -> dict_set k v d = (d ++ [(k, v)])%list.
Proof.
  induction d as [|[k' v'] d IH]; simpl; [done|].
  intros Hk. apply not_elem_of_cons in Hk as [Hne Hk].
  destruct (String.eqb_spec k k') as [->|_]; [done|]. by rewrite IH.
Qed.

Lemma dict_of_pairs_nodup l : NoDup (List.map fst l) -> dict_of_pairs l = l.
Proof.
  unfold dict_of_pairs.
  assert (forall acc, NoDup (List.map fst (acc ++ l)) ->
                      fold_left (fun d kv => dict_set kv.1 kv.2 d) l acc = (acc ++ l)%list)
    as H; [|intros Hl; by apply (H [])].
  induction l as [|[k v] l IH]; intros acc Hnd; simpl.
  - by rewrite app_nil_r.
  - rewrite dict_set_fresh.
    + rewrite IH; rewrite <- app_assoc; done.
    + rewrite map_app in Hnd. simpl in Hnd.
      apply NoDup_app in Hnd as (_ & Hd & _).
      intros Hin. apply (Hd k Hin). left.
Qed.

Lemma encode_items_keys cls m js :
  encode_items cls m = Ok js -> List.map fst js = List.map fst m.
Proof.
  revert js. induction m as [|[k v] m IH]; intros js H; simpl in *.
  - by inversion H.
  - destruct (encode cls v) as [j|]; [|discriminate].
    destruct (encode_items cls m) as [js'|]; [|discriminate].
    inversion H; subst. simpl. f_equal. by apply IH.
Qed.

Lemma decode_items_keys E js : List.map fst (decode_items E js) = List.map fst js.
Proof. unfold decode_items. rewrite map_map. done. Qed.

(** The value under a key, through the encoder and the decoder. *)
Lemma dict_get_reload E m js k v :
  encode_items CustomEncoder m = Ok js ->
  dict_get k m = Some v ->
  exists v', reload E v = Ok v' /\
             dict_get k (object_hook E (decode_items E js)) = Some v'.
Proof.
  revert js. induction m as [|[k' x] m IH]; intros js Henc Hget; simpl in *; [done|].
  destruct (encode CustomEncoder x) as [j|] eqn:Hx; [|discriminate].
  destruct (encode_items CustomEncoder m) as [js'|]; [|discriminate].
  inversion Henc; subst. simpl.
  destruct (String.eqb k k').
  - inversion Hget; subst. exists (hook_value E (decode E j)). unfold reload. by rewrite Hx.
  - by apply IH.
Qed.

Lemma reload_not_enum E v v' : reload E v = Ok v' -> is_enum v' = false.
Proof.
  unfold reload. destruct (encode CustomEncoder v) as [j|]; [|discriminate].
  intros H. inversion H; subst.
  destruct j; simpl; try done. by repeat case_match.
Qed.

(** The parsers of Python 3.7 to 3.10 read back what [isoformat]
    writes. *)
Lemma python_reads_isoformat docker order : reads_isoformat (python docker order).
Proof.
  split.
  - intros d Hd. by apply IsoFacts2.date_roundtrip.
  - intros t Ht. split.
    + apply IsoFacts2.date_of_datetime_text.
    + by apply IsoFacts2.datetime_roundtrip.
Qed.

Lemma reload_date E d :
  reads_isoformat E -> Iso.valid_date d = true -> reload E (VDate d) = Ok (VDate d).
Proof.
  intros [Hiso _] Hd. unfold reload.
  change (encode CustomEncoder (VDate d)) with (Ok (JStr (Iso.date_isoformat d))).
  unfold decode, hook_value. by rewrite Hiso.
Qed.

Lemma reload_datetime E t :
  reads_isoformat E -> Iso.valid_datetime t = true ->
  reload E (VDatetime t) = Ok (VDatetime t).
Proof.
  intros [_ Hiso] Ht. unfold reload. destruct (Hiso t Ht) as [Hno Hyes].
  change (encode CustomEncoder (VDatetime t)) with (Ok (JStr (Iso.datetime_isoformat t))).
  unfold decode, hook_value. by rewrite Hno, Hyes.
Qed.

Lemma reload_enum E name x : reload E (VEnum name x) = reload E x.
Proof. reflexivity. Qed.

(** What [save_json] leaves in the file when it returns. *)
Lemma save_json_file d p kw st st1 :
  save_json (VDict d) (VPath p) kw st = (Ok tt, st1) ->
  exists j, encode (kwargs_get (kw_cls kw) CustomEncoder) (VDict d) = Ok j /\
            fs st1 !! p = Some (File false (JsonText (kwargs_get (kw_indent kw) 3%nat) j)).
Proof.
  unfold save_json, json_dump, Os.write_file. unfold_monad. simpl.
  intros H.
  repeat (case_match; simpl in *; simplify_eq);
    eexists; (split; [done|]); simpl; by rewrite lookup_insert_eq.
Qed.

(** [read_json] on a file that [json.dump] wrote. *)
Lemma read_json_file E p print_file st indent j :
  fs st !! p = Some (File false (JsonText indent j)) ->
  exists st', read_json E (VPath p) print_file st = (Ok (decode E j), st').
Proof.
  intros Hfile. destruct (decoded_encodes E j) as [j' Hj'].
  unfold read_json, as_path, Os.read_file, bind, ret. rewrite Hfile.
  destruct print_file; [rewrite Hj'|]; by eexists.
Qed.




(** ** [extract_file]: the errors it raises *)

Lemma raises_remove P p : raises P (remove p).
Proof.
  intros st e st' H. pose proof (remove_returns p st) as Hr.
  rewrite H in Hr. discriminate.
Qed.

Lemma raises_with_tmpdir {A} P (body : path -> M A) :
  (forall p, raises P (body p)) -> raises P (Tempfile.with_tmpdir body).
Proof.
  intros Hb st e st' H. unfold Tempfile.with_tmpdir, Tempfile.mkdtemp in H.
  match type of H with context [body ?p ?s] => destruct (body p s) as [r s2] eqn:Hrun end.
  inversion H; subst. eapply Hb, Hrun.
Qed.

Lemma os_failure_library e : os_failure e -> library_error e.
Proof. by destruct e. Qed.

Lemma raises_zip_extract ms out name : raises library_error (ZipFile.extract ms out name).
Proof.
  unfold ZipFile.extract, ZipFile.getinfo.
  repeat raises_step; try done;
    try (eapply raises_weaken;
         [first [apply raises_upperdirs | apply raises_mkdir | apply raises_write_file]
         | apply os_failure_library]).
Qed.

Lemma raises_zip_extractall ms out names :
  raises library_error (ZipFile.extractall ms out names).
Proof.
  induction names as [|n l IH]; simpl; repeat raises_step; auto using raises_zip_extract.
Qed.

Lemma raises_tar_extract out m : raises library_error (TarFile.extract out m).
Proof.
  unfold TarFile.extract.
  repeat raises_step; try done;
    try (eapply raises_weaken;
         [first [apply raises_upperdirs | apply raises_mkdir | apply raises_write_file]
         | apply os_failure_library]).
Qed.

Lemma raises_tar_extractall out ms : raises library_error (TarFile.extractall out ms).
Proof.
  induction ms as [|m l IH]; simpl; repeat raises_step; auto using raises_tar_extract.
Qed.

Lemma raises_extractall arch out sel : raises library_error (extractall arch out sel).
Proof.
  destruct arch, sel; simpl;
    auto using raises_zip_extractall, raises_tar_extractall;
    by apply raises_raise.
Qed.

Lemma copy_error_loop arch e : copy_error e -> loop_error arch e.
Proof. by intros (c & -> & _). Qed.

Lemma raises_extract_one E arch names output overwrite file_path extr_dir :
  raises (loop_error arch) (extract_one E arch names output overwrite file_path extr_dir).
Proof.
  unfold extract_one.
  apply raises_bind; [apply raises_get_fs|intros f].
  destruct (is_dir f extr_dir).
  - destruct overwrite; repeat raises_step; apply raises_remove.
  - apply raises_bind; [apply raises_log|intros _].
    apply raises_with_tmpdir. intros tmp.
    apply raises_bind.
    { destruct (in_docker E); repeat raises_step.
      eapply raises_weaken; [apply raises_copy | apply copy_error_loop]. }
    intros [[fp out'] dir'].
    apply raises_bind.
    { destruct (Str.endswith ".zip" (PurePath.str fp)); repeat raises_step;
        destruct arch as [ms|[ms []]]; simpl; unfold TarFile.getmembers; simpl;
        repeat raises_step; try done.
      by exists ms. }
    intros [sel out''].
    apply raises_bind.
    { eapply raises_catch with (Q := library_error).
      - apply raises_bind; [|intros _; apply raises_extractall].
        eapply raises_weaken; [apply raises_makedirs | apply os_failure_library].
      - intros ex Hex. destruct ex; simpl; apply raises_raise; done. }
    intros _. apply raises_bind; [|intros _; apply raises_ret].
    destruct (in_docker E); repeat raises_step.
    eapply raises_weaken; [apply raises_copy | apply copy_error_loop].
Qed.

Lemma raises_extract_loop E arch names output overwrite file_path extr_dirs :
  raises (loop_error arch)
         (extract_loop E arch names output overwrite file_path extr_dirs).
Proof.
  revert file_path. induction extr_dirs as [|d l IH]; intros file_path; simpl.
  - apply raises_ret.
  - apply raises_bind; [apply raises_extract_one | intros fp; apply IH].
Qed.

Lemma open_zip_error p st e st' :
  ZipFile.open_r p st = (Err e, st') -> e <> ReadError /\ library_error e.
Proof.
  unfold ZipFile.open_r, Os.read_file, bind, raise, ret.
  intros H. repeat (case_match; simplify_eq); done.
Qed.

Lemma open_tar_error p st e st' :
  TarFile.open_r p st = (Err e, st') -> library_error e.
Proof.
  unfold TarFile.open_r, Os.read_file, bind, raise, ret.
  intros H. repeat (case_match; simplify_eq); done.
Qed.



(** A tar archive that opens and whose listing breaks off after its first
    member: [arch.getmembers()] is outside the [try], and its
    [tarfile.ReadError] reaches the caller as it is. *)
Lemma extract_file_broken_listing_unwrapped :
  let archive := TarCut [("readme.txt", EFile (bytes_of "hello"))] in
  let st := fresh [([], Dir); (["in"], Dir); (["in"; "bundle.tar"], File false archive)] in
  (extract_file (python false id) (Path Disk ["in"; "bundle.tar"])
                (Path Disk ["out"]) false st).1 = Err ReadError.
Proof. vm_compute. reflexivity. Qed.

(** A state without the zip: the call raises and the state is the same. *)
Lemma add_to_zip_requires_existing_zip_witness :
  let st := fresh [([], Dir); (["d"], Dir)] in
  is_file (fs st) (Path Disk ["d"; "a.zip"]) = false /\
  add_to_zip (python false id) (Path Disk ["d"; "a.zip"]) (inl (Path Disk ["d"])) st
  = (Err (OSError FileNotFoundError "Non existing" None), st).
Proof.
  split; [reflexivity|].
  apply (add_to_zip_requires_existing_zip (python false id) (Path Disk ["d"; "a.zip"])
           (inl (Path Disk ["d"])) (fresh [([], Dir); (["d"], Dir)])).
  reflexivity.
Defined.

(** ** What the calls keep: directories stay directories *)

Global Instance dirs_kept_refl : Reflexive dirs_kept.
Proof. by intros st p. Qed.

Global Instance dirs_kept_trans : Transitive dirs_kept.
Proof. intros s1 s2 s3 H1 H2 p Hp. by apply H2, H1. Qed.

Global Instance disk_dirs_kept_refl : Reflexive disk_dirs_kept.
Proof. by intros st p. Qed.

Global Instance disk_dirs_kept_trans : Transitive disk_dirs_kept.
Proof. intros s1 s2 s3 H1 H2 p Hp. by apply H2, H1. Qed.

Lemma dirs_kept_disk st st' : dirs_kept st st' -> disk_dirs_kept st st'.
Proof. intros H parts. apply H. Qed.

Section Keeps.

Context (R : state -> state -> Prop) `{!Reflexive R} `{!Transitive R}.

Lemma keeps_ret {A} (a : A) : keeps R (ret a).
Proof. intros st. reflexivity. Qed.

Lemma keeps_raise {A} e : keeps R (@raise A e).
Proof. intros st. reflexivity. Qed.

Lemma keeps_bind {A B} (m : M A) (k : A -> M B) :
  keeps R m -> (forall a, keeps R (k a)) -> keeps R (bind m k).
Proof.
  intros Hm Hk st. unfold bind. specialize (Hm st).
  destruct (m st) as [[a|e] st1]; simpl in *; [|done].
  etrans; [exact Hm | apply Hk].
Qed.

Lemma keeps_catch {A} (m : M A) (h : exn -> M A) :
  keeps R m -> (forall e, keeps R (h e)) -> keeps R (catch m h).
Proof.
  intros Hm Hh st. unfold catch. specialize (Hm st).
  destruct (m st) as [[a|e] st1]; simpl in *; [done|].
  etrans; [exact Hm | apply Hh].
Qed.

Lemma keeps_if {A} (b : bool) (m1 m2 : M A) :
  keeps R m1 -> keeps R m2 -> keeps R (if b then m1 else m2).
Proof. by destruct b. Qed.

Lemma keeps_get_fs : keeps R get_fs.
Proof. intros st. reflexivity. Qed.

End Keeps.

Ltac keeps_step :=
  lazymatch goal with
  | |- keeps _ (ret _) => apply keeps_ret; apply _
  | |- keeps _ (raise _) => apply keeps_raise; apply _
  | |- keeps _ get_fs => apply keeps_get_fs; apply _
  | |- keeps _ (bind _ _) => apply keeps_bind; [apply _ | | intros ?]
  | |- keeps _ (catch _ _) => apply keeps_catch; [apply _ | | intros ?]
  | |- keeps _ (if _ then _ else _) => apply keeps_if
  | |- keeps _ (match ?x with _ => _ end) => destruct x
  end.

Lemma keeps_weaken {A} (R1 R2 : state -> state -> Prop) (m : M A) :
  (forall s s', R1 s s' -> R2 s s') -> keeps R1 m -> keeps R2 m.
Proof. intros H Hm st. apply H, Hm. Qed.

Lemma keeps_log lvl msg : keeps dirs_kept (log lvl msg).
Proof. by intros st p. Qed.

Lemma plant_dirs p f q : f !! q = Some Dir -> plant p f !! q = Some Dir.
Proof.
  unfold plant. intros Hq. induction (lineage p) as [|a l IH]; simpl; [done|].
  destruct (decide (a = q)) as [->|Hne].
  - by rewrite lookup_insert_eq.
  - by rewrite lookup_insert_ne.
Qed.

Lemma plant_self p f : plant p f !! p = Some Dir.
Proof.
  unfold plant.
  assert (p ∈ lineage p) as Hin.
  { unfold lineage. apply list_elem_of_In, in_map_iff.
    exists (length (p_parts p)). split.
    - rewrite firstn_all. by destruct p.
    - apply in_seq. lia. }
  induction (lineage p) as [|a l IH]; [by apply elem_of_nil in Hin|]. simpl.
  destruct (decide (a = p)) as [->|Hne].
  - by rewrite lookup_insert_eq.
  - rewrite lookup_insert_ne by done. apply IH.
    apply elem_of_cons in Hin as [?|?]; [by subst|done].
Qed.

Lemma keeps_makedirs p : keeps dirs_kept (Os.makedirs p).
Proof.
  intros st q Hq. unfold Os.makedirs.
  repeat case_match; simpl; try done. by apply plant_dirs.
Qed.

Lemma keeps_mkdir p : keeps dirs_kept (Os.mkdir p).
Proof.
  intros st q Hq. unfold Os.mkdir.
  repeat case_match; simpl; try done.
  destruct (decide (p = q)) as [->|Hne];
    [by rewrite lookup_insert_eq | by rewrite lookup_insert_ne].
Qed.

Lemma keeps_read_file p : keeps dirs_kept (Os.read_file p).
Proof. intros st q Hq. unfold Os.read_file. by repeat case_match. Qed.

Lemma keeps_write_file p d : keeps dirs_kept (Os.write_file p d).
Proof.
  intros st q Hq. unfold Os.write_file.
  repeat case_match; simpl; try done;
    (destruct (decide (p = q)) as [->|Hne]; [congruence | by rewrite lookup_insert_ne]).
Qed.

Lemma graft_dirs t n acc q :
  acc.1 !! q = Some Dir -> (Shutil.graft t n acc).1 !! q = Some Dir.
Proof.
  intros Hq. unfold Shutil.graft.
  repeat case_match; simpl; try done;
    (destruct (decide (t = q)) as [->|Hne];
     [first [by rewrite lookup_insert_eq | congruence] | by rewrite lookup_insert_ne]).
Qed.

Lemma graft_all_dirs (g : path -> path) l acc q :
  acc.1 !! q = Some Dir ->
  (foldr (fun qn a => Shutil.graft (g qn.1) qn.2 a) acc l).1 !! q = Some Dir.
Proof. intros Hq. induction l as [|x l IH]; simpl; [done|]. by apply graft_dirs. Qed.

Lemma keeps_copytree src dst : keeps dirs_kept (Shutil.copytree src dst).
Proof.
  intros st q Hq. unfold Shutil.copytree.
  repeat case_match; simpl; try done;
    match goal with
    | H : foldr _ _ ?l = (?f', _) |- ?f' !! q = _ =>
        pose proof (graft_all_dirs (Shutil.rebase src dst) l (plant dst (fs st), true) q
                      (plant_dirs _ _ _ Hq)) as Hg;
        by rewrite H in Hg
    end.
Qed.

(** After [copytree], also when it ends in [shutil.Error], the
    destination is a directory. *)
Lemma copytree_destination src dst st r st' :
  Shutil.copytree src dst st = (r, st') ->
  r = Ok dst \/ r = Err (os_error_of ShutilError) ->
  is_dir (fs st') dst = true.
Proof.
  unfold Shutil.copytree. intros H Hr.
  repeat case_match; simplify_eq; try (by destruct Hr);
    match goal with
    | H : foldr _ _ ?l = (?f', _) |- _ =>
        pose proof (graft_all_dirs (Shutil.rebase src dst) l (plant dst (fs st), true) dst
                      (plant_self _ _)) as Hg;
        rewrite H in Hg; simpl in Hg; unfold is_dir; simpl; by rewrite Hg
    end.
Qed.

Lemma keeps_copy2 src dst : keeps dirs_kept (Shutil.copy2 src dst).
Proof.
  unfold Shutil.copy2.
  repeat keeps_step; auto using keeps_read_file, keeps_write_file.
Qed.

Lemma keeps_upperdirs t : keeps dirs_kept (upperdirs t).
Proof. unfold upperdirs. repeat keeps_step. apply keeps_makedirs. Qed.

Lemma keeps_copy src dst : keeps dirs_kept (copy src dst).
Proof.
  unfold copy.
  repeat keeps_step; auto using keeps_copytree, keeps_copy2, keeps_log.
Qed.

Lemma keeps_zip_extractall ms out names :
  keeps dirs_kept (ZipFile.extractall ms out names).
Proof.
  induction names as [|n l IH]; simpl; repeat keeps_step; [|done].
  unfold ZipFile.extract, ZipFile.getinfo.
  repeat keeps_step; auto using keeps_upperdirs, keeps_mkdir, keeps_write_file.
Qed.

Lemma keeps_tar_extractall out ms : keeps dirs_kept (TarFile.extractall out ms).
Proof.
  induction ms as [|m l IH]; simpl; repeat keeps_step; [|done].
  unfold TarFile.extract.
  repeat keeps_step; auto using keeps_upperdirs, keeps_mkdir, keeps_write_file.
Qed.

Lemma keeps_extractall arch out sel : keeps dirs_kept (extractall arch out sel).
Proof.
  destruct arch, sel; simpl;
    auto using keeps_zip_extractall, keeps_tar_extractall; by intros st q.
Qed.

(** ** [extract_file] twice *)

Lemma prune_scratch_disk n parts (f : gmap path node) :
  prune (Path (Scratch n) []) f !! Path Disk parts = f !! Path Disk parts.
Proof.
  rewrite lookup_prune. destruct (decide _) as [[Hr _]|]; [discriminate|done].
Qed.

Lemma keeps_with_tmpdir {A} (body : path -> M A) :
  (forall p, keeps disk_dirs_kept (body p)) ->
  keeps disk_dirs_kept (Tempfile.with_tmpdir body).
Proof.
  intros Hb st parts Hp. unfold Tempfile.with_tmpdir, Tempfile.mkdtemp, Tempfile.cleanup.
  match goal with |- context [body ?p ?s] =>
    specialize (Hb p s parts); destruct (body p s) as [r s2] end.
  simpl in *. rewrite prune_scratch_disk. apply Hb.
  by rewrite lookup_insert_ne.
Qed.

Lemma makedirs_ok p st st' :
  Os.makedirs p st = (Ok tt, st') -> is_dir (fs st') p = true.
Proof.
  unfold Os.makedirs. intros H.
  repeat case_match; simplify_eq; [done|].
  unfold is_dir. simpl. by rewrite plant_self.
Qed.

Lemma is_dir_kept st st' p :
  dirs_kept st st' -> is_dir (fs st) p = true -> is_dir (fs st') p = true.
Proof.
  unfold is_dir. intros H Hp.
  destruct (fs st !! p) as [[]|] eqn:Hl; try discriminate. by rewrite (H p Hl).
Qed.

Lemma is_dir_kept_disk st st' parts :
  disk_dirs_kept st st' ->
  is_dir (fs st) (Path Disk parts) = true -> is_dir (fs st') (Path Disk parts) = true.
Proof.
  unfold is_dir. intros H Hp.
  destruct (fs st !! Path Disk parts) as [[]|] eqn:Hl; try discriminate.
  by rewrite (H parts Hl).
Qed.

(** When [copy] of a directory returns, the destination is a directory. *)
Lemma copy_directory src dst st o st' :
  is_dir (fs st) src = true ->
  copy src dst st = (Ok o, st') ->
  is_dir (fs st') dst = true.
Proof.
  intros Hsrc. unfold copy, catch, bind, get_fs. rewrite Hsrc.
  destruct (Shutil.copytree src dst st) as [[out|e] st1] eqn:Hct; simpl.
  - intros H. inversion H; subst.
    pose proof (raises_copytree src dst) as _.
    eapply copytree_destination; [exact Hct|].
    left. f_equal.
    unfold Shutil.copytree in Hct. repeat case_match; simplify_eq; done.
  - destruct (is_shutil_Error e) eqn:Hs.
    + intros H. unfold log, emit, ret in H. simpl in H. inversion H; subst. simpl.
      eapply copytree_destination; [exact Hct|]. right.
      unfold Shutil.copytree in Hct. repeat case_match; simplify_eq; done.
    + destruct (is_OSError e); intros H; discriminate.
Qed.

(** The step of the loop that is inside [try]. *)
Lemma try_extract_ok arch dir out sel st st' :
  catch (let! _ := Os.makedirs dir in extractall arch out sel)
        (fun ex => if is_ReadError ex
                   then raise (TypeError "Impossible to extract" (Some ex))
                   else raise ex) st = (Ok tt, st') ->
  is_dir (fs st') dir = true.
Proof.
  unfold catch, bind. intros H.
  destruct (Os.makedirs dir st) as [[[]|e] st1] eqn:Hmk.
  - pose proof (keeps_extractall arch out sel st1) as Hk.
    destruct (extractall arch out sel st1) as [[[]|e] st2]; simpl in *.
    + inversion H; subst. eapply is_dir_kept; [exact Hk|]. by eapply makedirs_ok.
    + destruct (is_ReadError e); discriminate.
  - destruct (is_ReadError e); discriminate.
Qed.

Lemma keeps_extract_one E arch names output file_path extr_dir :
  keeps disk_dirs_kept (extract_one E arch names output false file_path extr_dir).
Proof.
  unfold extract_one.
  apply keeps_bind; [apply _ | apply keeps_get_fs; apply _ | intros f].
  destruct (is_dir f extr_dir).
  - repeat keeps_step. eapply keeps_weaken; [apply dirs_kept_disk | apply keeps_log].
  - apply keeps_bind; [apply _ | eapply keeps_weaken; [apply dirs_kept_disk | apply keeps_log] |].
    intros _. apply keeps_with_tmpdir. intros tmp.
    eapply keeps_weaken; [apply dirs_kept_disk|].
    apply keeps_bind; [apply _ | | intros [[fp out'] dir']].
    { destruct (in_docker E); repeat keeps_step. apply keeps_copy. }
    apply keeps_bind; [apply _ | | intros [sel out'']].
    { destruct (Str.endswith ".zip" (PurePath.str fp)); destruct arch; simpl;
        unfold TarFile.getmembers; repeat keeps_step. }
    repeat keeps_step; auto using keeps_makedirs, keeps_extractall, keeps_copy.
Qed.

Lemma keeps_extract_loop E arch names output file_path extr_dirs :
  keeps disk_dirs_kept (extract_loop E arch names output false file_path extr_dirs).
Proof.
  revert file_path. induction extr_dirs as [|d l IH]; intros file_path; simpl.
  - apply keeps_ret. apply _.
  - apply keeps_bind; [apply _ | apply keeps_extract_one | intros fp; apply IH].
Qed.

(** When the body of the loop returns, its target is a directory. *)
Lemma extract_one_target E arch names out_parts file_path parts st fp' st' :
  extract_one E arch names (Path Disk out_parts) false file_path (Path Disk parts) st
  = (Ok fp', st') ->
  is_dir (fs st') (Path Disk parts) = true.
Proof.
  unfold extract_one. intros H.
  apply bind_inv_ok in H as (f & s0 & Hget & H). inversion Hget; subst f s0; clear Hget.
  destruct (is_dir (fs st) (Path Disk parts)) eqn:Hdir.
  - unfold bind, log, emit, ret in H. inversion H; subst. done.
  - apply bind_inv_ok in H as ([] & s1 & _ & H).
    unfold Tempfile.with_tmpdir, Tempfile.mkdtemp in H.
    match type of H with context [bind ?m ?k ?s] =>
      destruct (bind m k s) as [r s2] eqn:Hbody end.
    inversion H; subst r st'; clear H. simpl.
    unfold is_dir. rewrite prune_scratch_disk. fold (is_dir (fs s2) (Path Disk parts)).
    apply bind_inv_ok in Hbody as ([[fp out'] dir'] & s3 & Hprep & Hbody).
    apply bind_inv_ok in Hbody as ([sel out''] & s4 & Hsel & Hbody).
    apply bind_inv_ok in Hbody as ([] & s5 & Htry & Hbody).
    apply bind_inv_ok in Hbody as ([] & s6 & Hback & Hret).
    inversion Hret; subst; clear Hret.
    apply try_extract_ok in Htry.
    destruct (in_docker E).
    + apply bind_inv_ok in Hprep as (o & s7 & _ & Hprep). inversion Hprep; subst; clear Hprep.
      apply bind_inv_ok in Hback as (o' & s8 & Hcopy & Hback). inversion Hback; subst.
      by eapply copy_directory.
    + inversion Hprep; subst. by inversion Hback; subst.
Qed.

Lemma joinpath_disk parts name :
  PurePath.joinpath (Path Disk parts) name
  = Path Disk (parts ++ PurePath.components name).
Proof. reflexivity. Qed.

(** When the loop returns, every target is a directory. *)
Lemma extract_loop_targets E arch names out_parts file_path targets st st' :
  extract_loop E arch names (Path Disk out_parts) false file_path
               (List.map (PurePath.joinpath (Path Disk out_parts)) targets) st
  = (Ok tt, st') ->
  Forall (fun d => is_dir (fs st') d = true)
         (List.map (PurePath.joinpath (Path Disk out_parts)) targets).
Proof.
  revert file_path st. induction targets as [|n l IH]; intros file_path st H; simpl in *.
  - constructor.
  - apply bind_inv_ok in H as (fp & s1 & Hone & Hrest).
    rewrite joinpath_disk in Hone. apply extract_one_target in Hone.
    constructor.
    + rewrite joinpath_disk.
      eapply is_dir_kept_disk; [|exact Hone].
      pose proof (keeps_extract_loop E arch names (Path Disk out_parts) fp
                    (List.map (PurePath.joinpath (Path Disk out_parts)) l) s1) as Hk.
      by rewrite Hrest in Hk.
    + by eapply IH.
Qed.

(** When every target is a directory, the loop only logs. *)
Lemma extract_loop_skips E arch names output file_path dirs st :
  Forall (fun d => is_dir (fs st) d = true) dirs ->
  extract_loop E arch names output false file_path dirs st
  = (Ok tt, skipped st (length dirs)).
Proof.
  revert st. induction dirs as [|d l IH]; intros st Hall; simpl.
  - unfold ret, skipped. simpl. rewrite app_nil_r. by destruct st.
  - inversion Hall as [|? ? Hd Hl]; subst.
    unfold extract_one. unfold bind at 1 2. unfold get_fs. rewrite Hd.
    unfold bind at 1. unfold log, emit, ret. simpl.
    rewrite IH by done. unfold skipped. simpl.
    by rewrite <- app_assoc.
Qed.

Lemma skipped_none st : skipped st 0 = st.
Proof. unfold skipped. simpl. rewrite app_nil_r. by destruct st. Qed.

Lemma open_zip_again p st ms st' s :
  ZipFile.open_r p st = (Ok ms, st') ->
  fs s !! p = fs st !! p ->
  st' = st /\ ZipFile.open_r p s = (Ok ms, s).
Proof.
  unfold ZipFile.open_r, Os.read_file, bind, ret, raise. intros H Hs. rewrite Hs.
  repeat (case_match; simplify_eq); done.
Qed.

Lemma open_tar_again p st ms st' s :
  TarFile.open_r p st = (Ok ms, st') ->
  fs s !! p = fs st !! p ->
  st' = st /\ TarFile.open_r p s = (Ok ms, s).
Proof.
  unfold TarFile.open_r, Os.read_file, bind, ret, raise. intros H Hs. rewrite Hs.
  repeat (case_match; simplify_eq); done.
Qed.

(** C3. [extract_file] with [overwrite=False] has returned [r] for an
    archive and an output directory, and the archive is still the file it
    was. The second call returns [r] again; the files after it are the
    files before it, and all it adds to the trace is debug messages, one
    for each target that it skips: it writes nothing. *)
Theorem extract_file_twice
        (E : env) (file_path : path) (out_parts : list string)
        (st st1 : state) (r : extracted)
        (Hfirst : extract_file E file_path (Path Disk out_parts) false st = (Ok r, st1))
        (Harchive : fs st1 !! file_path = fs st !! file_path) :
  exists n, extract_file E file_path (Path Disk out_parts) false st1
            = (Ok r, skipped st1 n).
Proof.
  unfold extract_file in *.
  apply bind_inv_ok in Hfirst as (f & s0 & Hget & Hfirst).
  inversion Hget; subst f s0; clear Hget.
  unfold bind at 1. unfold get_fs.
  assert (is_dir (fs st1) file_path = is_dir (fs st) file_path) as ->
    by (unfold is_dir; by rewrite Harchive).
  destruct (is_dir (fs st) file_path).
  { inversion Hfirst; subst. exists 0%nat. by rewrite skipped_none. }
  apply bind_inv_ok in Hfirst as ([arch names] & s1 & Hopen & Hfirst).
  apply bind_inv_ok in Hfirst as ([] & s2 & Hloop & Hret).
  assert (s2 = st1 /\
          r = match List.map (PurePath.joinpath (Path Disk out_parts)) names with
              | [d] => OnePath d
              | l => PathList l
              end) as [-> ->]
    by (repeat case_match; inversion Hret; by subst).
  clear Hret.
  assert (s1 = st /\
          (if String.eqb (PurePath.suffix file_path) ".zip"
           then let! ms := ZipFile.open_r file_path in
                ret (ZipArchive ms, top_level E (ZipFile.namelist ms))
           else if String.eqb (PurePath.suffix file_path) ".tar"
                   || bool_decide (PurePath.suffixes file_path = [".tar"; ".gz"])
                then let! ms := TarFile.open_r file_path in
                     ret (TarArchive ms, [get_filename E file_path])
                else raise (unsupported_format)) st1 = (Ok (arch, names), st1)) as [-> Hagain].
  { destruct (String.eqb (PurePath.suffix file_path) ".zip").
    - apply bind_inv_ok in Hopen as (ms & s & Hz & Hr). inversion Hr; subst.
      destruct (open_zip_again _ _ _ _ st1 Hz Harchive) as [-> Hz'].
      split; [done|]. unfold bind. by rewrite Hz'.
    - destruct (_ || _); [|discriminate].
      apply bind_inv_ok in Hopen as (ms & s & Hz & Hr). inversion Hr; subst.
      destruct (open_tar_again _ _ _ _ st1 Hz Harchive) as [-> Hz'].
      split; [done|]. unfold bind. by rewrite Hz'. }
  apply extract_loop_targets in Hloop.
  exists (length (List.map (PurePath.joinpath (Path Disk out_parts)) names)).
  unfold bind at 1. rewrite Hagain.
  unfold bind at 1. rewrite extract_loop_skips by done.
  repeat case_match; reflexivity.
Qed.

(** An archive with two top-level entries, extracted twice in [/out]. *)
Lemma extract_file_twice_witness :
  let archive := Zip [("a/", EDir); ("a/x.txt", EFile (bytes_of "1"));
                      ("b/y.txt", EFile (bytes_of "2"))] in
  let st := fresh [([], Dir); (["in"], Dir); (["in"; "x.zip"], File false archive)] in
  let first := extract_file (python false id) (Path Disk ["in"; "x.zip"])
                            (Path Disk ["out"]) false st in
  let r := PathList [Path Disk ["out"; "a"]; Path Disk ["out"; "b"]] in
  first.1 = Ok r /\
  fs first.2 !! Path Disk ["in"; "x.zip"] = fs st !! Path Disk ["in"; "x.zip"] /\
  exists n, extract_file (python false id) (Path Disk ["in"; "x.zip"])
                         (Path Disk ["out"]) false first.2
            = (Ok r, skipped first.2 n).
Proof.
  split; [vm_compute; reflexivity|].
  split; [vm_compute; reflexivity|].
  eapply (extract_file_twice (python false id) (Path Disk ["in"; "x.zip"]) ["out"]
            (fresh [([], Dir); (["in"], Dir);
                    (["in"; "x.zip"],
                     File false (Zip [("a/", EDir); ("a/x.txt", EFile (bytes_of "1"));
                                      ("b/y.txt", EFile (bytes_of "2"))]))])).
  - apply run_eq. vm_compute. reflexivity.
  - vm_compute. reflexivity.
Defined.

(** ** [extract_file]: the cases that go right *)

(** A directory is returned as it is: nothing is read, written or
    logged. *)
Lemma extract_file_directory_returned E file_path output overwrite st :
  is_dir (fs st) file_path = true ->
  extract_file E file_path output overwrite st = (Ok (OnePath file_path), st).
Proof. intros H. unfold extract_file, bind, get_fs. by rewrite H. Qed.

(** A file whose suffix is none of [.zip] and [.tar] and whose suffixes
    are not [.tar], [.gz] is refused, and nothing is written. *)
Lemma extract_file_unsupported_suffix E file_path output overwrite st :
  is_dir (fs st) file_path = false ->
  PurePath.suffix file_path <> ".zip" ->
  PurePath.suffix file_path <> ".tar" ->
  PurePath.suffixes file_path <> [".tar"; ".gz"] ->
  extract_file E file_path output overwrite st = (Err unsupported_format, st).
Proof.
  intros Hd Hz Ht Hg. unfold extract_file, bind, get_fs. rewrite Hd.
  destruct (String.eqb_spec (PurePath.suffix file_path) ".zip"); [done|].
  destruct (String.eqb_spec (PurePath.suffix file_path) ".tar"); [done|].
  rewrite bool_decide_eq_false_2 by done. reflexivity.
Qed.

(** With the suffix [.zip] or [.tar], or the suffixes [.tar], [.gz], the
    error for an unsupported format is not raised. *)
Lemma extract_file_supported_suffix E file_path output overwrite st :
  String.eqb (PurePath.suffix file_path) ".zip"
  || String.eqb (PurePath.suffix file_path) ".tar"
  || bool_decide (PurePath.suffixes file_path = [".tar"; ".gz"]) = true ->
  (extract_file E file_path output overwrite st).1 <> Err unsupported_format.
Proof.
  intros Hs Hr.
  destruct (extract_file E file_path output overwrite st) as [r st'] eqn:Hrun.
  simpl in Hr. subst r. unfold extract_file in Hrun.
  apply bind_inv_err in Hrun as [H | (f & st0 & Hget & Hrun)]; [discriminate|].
  inversion Hget; subst f st0; clear Hget.
  destruct (is_dir (fs st) file_path); [discriminate|].
  apply bind_inv_err in Hrun as [Hopen | ([arch names] & st1 & Hopen & Hloop)].
  - destruct (String.eqb (PurePath.suffix file_path) ".zip").
    + apply bind_inv_err in Hopen as [Hopen | (ms & s & _ & ?)]; [|discriminate].
      by apply open_zip_error in Hopen as [_ Hlib].
    + simpl in Hs. rewrite Hs in Hopen.
      apply bind_inv_err in Hopen as [Hopen | (ms & s & _ & ?)]; [|discriminate].
      by apply open_tar_error in Hopen.
  - apply bind_inv_err in Hloop as [Hloop | (u & s & _ & Hret)].
    + apply raises_extract_loop in Hloop. by destruct Hloop.
    + repeat case_match; discriminate.
Qed.

(** With [overwrite=False], when the targets of a zip archive exist
    already, nothing is extracted; the files are left as they are and one
    debug message is logged for each target. *)
Lemma extract_file_skips_existing_targets E file_path output st ms :
  is_dir (fs st) file_path = false ->
  PurePath.suffix file_path = ".zip" ->
  fs st !! file_path = Some (File false (Zip ms)) ->
  let dirs := List.map (PurePath.joinpath output) (top_level E (ZipFile.namelist ms)) in
  Forall (fun d => is_dir (fs st) d = true) dirs ->
  extract_file E file_path output false st
  = (Ok (returned dirs), skipped st (length dirs)).
Proof.
  intros Hd Hz Hf dirs Hall.
  assert (ZipFile.open_r file_path st = (Ok ms, st)) as Hopen.
  { unfold ZipFile.open_r, Os.read_file, bind. by rewrite Hf. }
  unfold extract_file.
  erewrite bind_ok by reflexivity. rewrite Hd, Hz.
  change (String.eqb ".zip" ".zip") with true. cbv iota.
  erewrite bind_ok; [|erewrite bind_ok by exact Hopen; reflexivity].
  cbv beta iota. fold dirs.
  erewrite bind_ok by (by apply extract_loop_skips).
  unfold returned. by repeat case_match.
Qed.

(** A zip archive with N top-level entries has N targets, all
    different, whatever the order of the set. *)
Lemma top_level_count E names :
  (forall l, set_order E l ≡ₚ l) ->
  let entries := remove_dups (List.map (fun p => List.hd "" (Str.split "/" p)) names) in
  length (top_level E names) = length entries /\ NoDup (top_level E names).
Proof.
  intros Hperm entries. unfold top_level, list_of_set. fold entries. split.
  - by rewrite Hperm.
  - rewrite Hperm. apply NoDup_remove_dups.
Qed.

(** ** Regular expressions: the test of [match] is anchored *)

Module ReFacts.
Import Re.

Lemma append_String c s t : String c s +:+ t = String c (s +:+ t).
Proof. reflexivity. Qed.

Lemma append_empty s1 s2 : s1 +:+ s2 = "" -> s1 = "" /\ s2 = "".
Proof. destruct s1; [done|]. rewrite append_String. discriminate. Qed.


Lemma append_cons s1 s2 c s :
  s1 +:+ s2 = String c s ->
  (s1 = "" /\ s2 = String c s) \/ exists s1', s1 = String c s1' /\ s = s1' +:+ s2.
Proof.
  destruct s1 as [|c' s1']; intros H.
  - by left.
  - right. rewrite append_String in H. inversion H; subst. by exists s1'.
Qed.

Lemma nullable_matches r : nullable r = true <-> matches r "".
Proof.
  split.
  - induction r; simpl; intros H; try discriminate.
    + constructor.
    + apply andb_prop in H as [H1 H2]. apply (matches_seq _ _ "" ""); auto.
    + apply orb_prop in H as [H|H]; [apply matches_alt_l | apply matches_alt_r]; auto.
    + constructor.
  - intros H. remember "" as s eqn:Hs.
    induction H; simpl; try discriminate; try done.
    + apply append_empty in Hs as [-> ->]. by rewrite IHmatches1, IHmatches2.
    + by rewrite IHmatches.
    + rewrite IHmatches by done. by rewrite orb_true_r.
Qed.

Lemma deriv_matches c r s : matches (deriv c r) s <-> matches r (String c s).
Proof.
  split.
  - revert s. induction r; simpl; intros s H.
    + inversion H.
    + inversion H.
    + destruct (Ascii.eqb_spec c c0) as [->|]; inversion H; subst. constructor.
    + destruct (Ascii.eqb_spec c newline); inversion H; subst. by constructor.
    + assert (forall t, matches (Seq (deriv c r1) r2) t -> matches (Seq r1 r2) (String c t))
        as Hseq.
      { intros t Ht. inversion Ht; subst.
        apply (matches_seq r1 r2 (String c s1) s2); auto. }
      destruct (nullable r1) eqn:Hn; [|by apply Hseq].
      inversion H; subst; [by apply Hseq|].
      apply (matches_seq r1 r2 "" (String c s)); [by apply nullable_matches | auto].
    + inversion H; subst; [apply matches_alt_l | apply matches_alt_r]; auto.
    + inversion H; subst.
      apply (matches_star_app r (String c s1) s2); auto.
  - intros H. remember (String c s) as t eqn:Ht. revert s Ht.
    induction H; intros t Ht; simpl; try discriminate.
    + inversion Ht; subst. rewrite Ascii.eqb_refl. constructor.
    + inversion Ht; subst.
      destruct (Ascii.eqb_spec c newline); [done|constructor].
    + apply append_cons in Ht as [[-> ->] | (s1' & -> & ->)].
      * apply nullable_matches in H. rewrite H. apply matches_alt_r. by apply IHmatches2.
      * destruct (nullable r1);
          [apply matches_alt_l|]; apply matches_seq; auto.
    + apply matches_alt_l. auto.
    + apply matches_alt_r. auto.
    + apply append_cons in Ht as [[-> ->] | (s1' & -> & ->)].
      * by apply IHmatches2.
      * apply matches_seq; auto.
Qed.

(** [fullmatch] tests that the pattern matches the whole string. *)
Lemma fullmatch_matches r s : fullmatch r s = true <-> matches r s.
Proof.
  revert r. induction s as [|c s IH]; intros r; simpl.
  - apply nullable_matches.
  - rewrite IH. apply deriv_matches.
Qed.

(** [match] tests that the pattern matches a prefix of the string: the
    match starts at position 0 and may end anywhere. *)
Lemma match_prefix r s :
  match_ r s = true <-> exists p q, s = p +:+ q /\ matches r p.
Proof.
  revert r. induction s as [|c s IH]; intros r; simpl.
  - rewrite orb_false_r, nullable_matches. split.
    + intros H. by exists "", "".
    + intros (p & q & Hs & H). symmetry in Hs. by apply append_empty in Hs as [-> _].
  - split.
    + intros H. apply orb_prop in H as [H|H].
      * exists "", (String c s). split; [done|]. by apply nullable_matches.
      * apply IH in H as (p & q & -> & H).
        exists (String c p), q. split; [done|]. by apply deriv_matches.
    + intros (p & q & Hs & H). symmetry in Hs.
      apply append_cons in Hs as [[-> _] | (p' & -> & ->)].
      * apply nullable_matches in H. by rewrite H.
      * apply orb_true_intro. right. apply IH. exists p', q.
        split; [done|]. by apply deriv_matches.
Qed.

(** [search] finds what [match] does not: the pattern [b] occurs in
    [a/b], but not at its start. *)
Lemma match_is_not_search :
  match_ (Chr "b") "a/b" = false /\ search (Chr "b") "a/b" = true.
Proof. by split. Qed.

End ReFacts.

(** ** [read_archived_file]: the first match *)

Lemma item0_filter {A} (f : A -> bool) (l : list A) :
  item0 (List.filter f l)
  = match List.find f l with Some x => ret x | None => raise IndexError end.
Proof.
  induction l as [|x l IH]; simpl; [done|]. by destruct (f x).
Qed.

Lemma zip_read_no_index_error ms name st st' :
  ZipFile.read ms name st <> (Err IndexError, st').
Proof.
  unfold ZipFile.read, ZipFile.getinfo, bind, ret, raise.
  repeat case_match; congruence.
Qed.

(** In a zip archive that opens, the member that is read is the first name
    of the listing that the pattern matches at its start; the bytes are
    those stored under that name. Without such a name the call raises
    [FileNotFoundError]. *)
Lemma read_archived_zip_first_match p pattern st ms r :
  PurePath.suffix p = ".zip" ->
  fs st !! p = Some (File false (Zip ms)) ->
  Re.parse (list_ascii_of_string pattern) None Re.Eps None = Some r ->
  read_archived_file p pattern st
  = match List.find (Re.match_ r) (List.map fst ms) with
    | Some name => ZipFile.read ms name st
    | None => (Err (OSError FileNotFoundError "Impossible to find file" None), st)
    end.
Proof.
  intros Hs Hf Hr. unfold read_archived_file, Re.compile. rewrite Hr, Hs.
  erewrite bind_ok by reflexivity.
  change (String.eqb ".zip" ".tar") with false.
  change (String.eqb ".zip" ".zip") with true. cbv iota.
  assert (ZipFile.open_r p st = (Ok ms, st)) as Hopen.
  { unfold ZipFile.open_r, Os.read_file, bind. by rewrite Hf. }
  unfold catch. erewrite bind_ok by exact Hopen.
  unfold ZipFile.namelist. rewrite item0_filter.
  destruct (List.find (Re.match_ r) (List.map fst ms)) as [name|].
  - erewrite bind_ok by reflexivity.
    pose proof (zip_read_no_index_error ms name st) as Hni.
    destruct (ZipFile.read ms name st) as [[d|e] st']; [done|].
    destruct e; try done. by destruct (Hni st').
  - reflexivity.
Qed.

(** In a tar archive that opens, the member that is read is the first
    member that carries the first matching name; its bytes are returned
    when it is a regular file that can be read. *)
Lemma read_archived_tar_first_match p pattern st ms r :
  PurePath.suffix p = ".tar" ->
  fs st !! p = Some (File false (Tar ms)) ->
  Re.parse (list_ascii_of_string pattern) None Re.Eps None = Some r ->
  read_archived_file p pattern st
  = match List.find (Re.match_ r) (List.map fst ms) with
    | Some name =>
        match first_named name ms with
        | Some (EFile d) => (Ok d, st)
        | Some EDir => (Err (AttributeError "'NoneType' object has no attribute 'read'"), st)
        | Some EDamaged => (Err ReadError, st)
        | None => (Err (OSError FileNotFoundError "Impossible to find file" None), st)
        end
    | None => (Err (OSError FileNotFoundError "Impossible to find file" None), st)
    end.
Proof.
  intros Hs Hf Hr. unfold read_archived_file, Re.compile. rewrite Hr, Hs.
  erewrite bind_ok by reflexivity.
  change (String.eqb ".tar" ".tar") with true. cbv iota.
  assert (TarFile.open_r p st = (Ok (ms, true), st)) as Hopen.
  { unfold TarFile.open_r, Os.read_file, bind. by rewrite Hf. }
  unfold catch. erewrite bind_ok by exact Hopen.
  change (TarFile.getmembers (ms, true)) with (@ret members ms).
  erewrite bind_ok by reflexivity.
  rewrite item0_filter.
  destruct (List.find (Re.match_ r) (List.map fst ms)) as [name|]; [|reflexivity].
  erewrite bind_ok by reflexivity. rewrite item0_filter. unfold first_named.
  destruct (List.find (fun m => String.eqb m.1 name) ms) as [[n e]|]; [|reflexivity].
  erewrite bind_ok by reflexivity. by destruct e.
Qed.

(** ** [extract_file] with [overwrite=True] on a target that exists *)

Lemma remove_only_deletes p st q n :
  fs (remove p st).2 !! q = Some n -> fs st !! q = Some n.
Proof.
  destruct (remove_gone_or_kept p st q) as [->|(_ & -> & _)]; done.
Qed.

(** The round of the loop for a target that is a directory, with
    [overwrite=True]: the round returns without extracting. Every file or
    directory that is there after it was there before it, unchanged. *)
Lemma extract_one_overwrite_only_removes E arch names output file_path extr_dir st :
  is_dir (fs st) extr_dir = true ->
  exists st', extract_one E arch names output true file_path extr_dir st = (Ok file_path, st')
              /\ forall q n, fs st' !! q = Some n -> fs st !! q = Some n.
Proof.
  intros Hd. unfold extract_one.
  erewrite bind_ok by reflexivity. rewrite Hd.
  erewrite bind_ok by reflexivity.
  pose proof (remove_returns extr_dir
                (State (fs st)
                   (trace st ++ [Log Debug "Already existing extracted %s. It will be overwritten as asked."])
                   (next_tmp st))) as Hr.
  match type of Hr with (remove ?p ?s).1 = _ =>
    pose proof (remove_only_deletes p s) as Hsub;
    destruct (remove p s) as [r st'] eqn:Hrun end.
  simpl in Hr. subst r. exists st'. split.
  - unfold log, emit in Hrun. erewrite bind_ok by exact Hrun. reflexivity.
  - intros q n Hq. by apply Hsub.
Qed.
(* ===================================================================== *)
(** * More properties of the module                                        *)
(* ===================================================================== *)

(** ** [remove]: what is deleted and what is not *)

Lemma remove_frame p st q :
  ~ PurePath.below p q -> fs (remove p st).2 !! q = fs st !! q.
Proof.
  intros Hq. by destruct (remove_gone_or_kept p st q) as [->|[? _]].
Qed.

Lemma remove_directory_gone p st q :
  is_dir (fs st) p = true -> locked_below (fs st) p = false ->
  PurePath.below p q -> fs (remove p st).2 !! q = None.
Proof.
  intros Hd Hl Hq. rewrite fs_remove. unfold is_dir in Hd.
  destruct (fs st !! p) as [[|]|] eqn:Hp; try done.
  rewrite rmtree_clean by (by unfold is_dir; rewrite ?Hp). cbn [snd fs].
  rewrite lookup_prune. by rewrite decide_True.
Qed.

Lemma remove_file_gone p st d :
  fs st !! p = Some (File false d) -> fs (remove p st).2 !! p = None.
Proof.
  intros Hp. unfold remove, Os.unlink. unfold_monad.
  unfold exists_, is_dir, is_file. rewrite Hp. cbn [negb]. rewrite Hp. cbn [snd fs].
  by rewrite lookup_delete_eq.
Qed.

(** X1. [remove] touches nothing outside its argument: every path that is
    not the argument or below it has after the call the node it had
    before.  When the argument is a directory with no locked file below
    it, nothing is left at or below it; when it is a file that is not
    locked, the file is gone. *)
Theorem remove_deletes_only_below (p : path) (st : state) :
  (forall q, ~ PurePath.below p q -> fs (remove p st).2 !! q = fs st !! q) /\
  (is_dir (fs st) p = true -> locked_below (fs st) p = false ->
   forall q, PurePath.below p q -> fs (remove p st).2 !! q = None) /\
  (forall d, fs st !! p = Some (File false d) -> fs (remove p st).2 !! p = None).
Proof.
  split; [|split].
  - intros q. apply remove_frame.
  - intros Hd Hl q. by apply remove_directory_gone.
  - intros d. apply remove_file_gone.
Qed.

Lemma remove_deletes_only_below_witness :
  let st := fresh [([], Dir); (["a"], Dir); (["a"; "f"], File false (bytes_of "x"));
                   (["b"], File false (bytes_of "y"))] in
  fs (remove (Path Disk ["a"]) st).2 !! Path Disk ["a"; "f"] = None /\
  fs (remove (Path Disk ["a"]) st).2 !! Path Disk ["b"] = Some (File false (bytes_of "y")).
Proof.
  intros st.
  destruct (remove_deletes_only_below (Path Disk ["a"]) st) as (Hframe & Hdir & _).
  split.
  - apply Hdir; [reflexivity | vm_compute; reflexivity |].
    split; [reflexivity|]. by exists ["f"].
  - rewrite Hframe; [vm_compute; reflexivity|].
    intros [_ [k Hk]]. discriminate.
Defined.

(** ** [copy]: what is written and where *)

Lemma plant_other p f q : q ∉ lineage p -> plant p f !! q = f !! q.
Proof.
  unfold plant. induction (lineage p) as [|a l IH]; simpl; [done|].
  intros Hq. apply not_elem_of_cons in Hq as [Hne Hq].
  rewrite lookup_insert_ne by done. by apply IH.
Qed.

Lemma lineage_ancestors p q : q ∈ lineage p -> q = p \/ q ∈ ancestors p.
Proof.
  unfold lineage, ancestors. rewrite !list_elem_of_In, !in_map_iff.
  intros (n & <- & Hn). apply in_seq in Hn.
  destruct (decide (n = length (p_parts p))) as [->|Hne].
  - left. rewrite firstn_all. by destruct p.
  - right. exists n. split; [done|]. apply in_seq. lia.
Qed.

Lemma ancestor_not_file f p q :
  blocked f p = false -> q ∈ ancestors p -> is_file f q = false.
Proof.
  unfold blocked. intros Hb Hq.
  destruct (is_file f q) eqn:Hf; [|done].
  assert (existsb (is_file f) (ancestors p) = true) as Hex; [|congruence].
  apply existsb_exists. exists q. split; [by apply list_elem_of_In|done].
Qed.

(** Planting the directories down to [p] changes no node that is there,
    when [p] is free and no file stands in the way. *)
Lemma plant_kept f p q n :
  blocked f p = false -> exists_ f p = false ->
  f !! q = Some n -> plant p f !! q = Some n.
Proof.
  intros Hb Hp Hq. destruct (decide (q ∈ lineage p)) as [Hin|Hout].
  - apply lineage_ancestors in Hin as [->|Hin].
    + unfold exists_ in Hp. by rewrite Hq in Hp.
    + pose proof (ancestor_not_file f p q Hb Hin) as Hf.
      unfold is_file in Hf. rewrite Hq in Hf. destruct n; [|done].
      by apply plant_dirs.
  - by rewrite plant_other.
Qed.

Lemma graft_other t n acc q :
  t <> q -> (Shutil.graft t n acc).1 !! q = acc.1 !! q.
Proof.
  intros Hne. unfold Shutil.graft.
  repeat case_match; simpl; try done; by rewrite lookup_insert_ne.
Qed.

Lemma rebase_below src dst q : PurePath.below dst (Shutil.rebase src dst q).
Proof. split; [done|]. simpl. by eexists. Qed.

Lemma graft_all_outside src dst l acc q :
  ~ PurePath.below dst q ->
  (foldr (fun qn a => Shutil.graft (Shutil.rebase src dst qn.1) qn.2 a) acc l).1 !! q
  = acc.1 !! q.
Proof.
  intros Hq. induction l as [|x l IH]; simpl; [done|].
  rewrite graft_other; [done|]. intros <-. apply Hq, rebase_below.
Qed.

Global Instance kept_outside_refl dst : Reflexive (kept_outside dst).
Proof. by intros st q n. Qed.

Global Instance kept_outside_trans dst : Transitive (kept_outside dst).
Proof. intros s1 s2 s3 H1 H2 q n Hq Hn. by apply H2, H1. Qed.

Lemma keeps_outside_copytree src dst : keeps (kept_outside dst) (Shutil.copytree src dst).
Proof.
  intros st q n Hq Hn. unfold Shutil.copytree.
  destruct (negb (is_dir (fs st) src)); [done|].
  destruct (exists_ (fs st) dst) eqn:Hex; [done|].
  destruct (blocked (fs st) dst) eqn:Hb; [done|].
  match goal with |- context [foldr ?g ?a ?l] =>
    pose proof (graft_all_outside src dst l a q Hq) as Hg;
    destruct (foldr g a l) as [f' clean] end.
  simpl in Hg. destruct clean; simpl; rewrite Hg; by apply plant_kept.
Qed.

Lemma joinpath_below p s : PurePath.below p (PurePath.joinpath p s).
Proof. split; [done|]. simpl. by eexists. Qed.

Lemma keeps_outside_write_file dst t d :
  PurePath.below dst t -> keeps (kept_outside dst) (Os.write_file t d).
Proof.
  intros Ht st q n Hq Hn. unfold Os.write_file.
  repeat case_match; simpl; try done;
    (rewrite lookup_insert_ne; [done|]; by intros <-).
Qed.

Lemma keeps_outside_copy2 src dst : keeps (kept_outside dst) (Shutil.copy2 src dst).
Proof.
  unfold Shutil.copy2. repeat keeps_step.
  - intros st q n Hq Hn. unfold Os.read_file. by repeat case_match.
  - apply keeps_outside_write_file. case_match; [apply joinpath_below | apply below_refl].
Qed.

(** X2. Whatever [copy] does, it changes and deletes nothing that lies
    outside the destination: a node that is there before the call and is
    not at or below [dst] is there after it, as it was. *)
Theorem copy_keeps_outside (src dst : path) (st : state) (q : path) (n : node) :
  ~ PurePath.below dst q ->
  fs st !! q = Some n ->
  fs (copy src dst st).2 !! q = Some n.
Proof.
  revert st q n. change (keeps (kept_outside dst) (copy src dst)).
  unfold copy. repeat keeps_step;
    auto using keeps_outside_copytree, keeps_outside_copy2.
  by intros st q n.
Qed.

Lemma copy_keeps_outside_witness :
  let st := fresh [([], Dir); (["a"], Dir); (["a"; "f"], File false (bytes_of "x"));
                   (["b"], Dir)] in
  fs (copy (Path Disk ["a"; "f"]) (Path Disk ["b"]) st).2 !! Path Disk ["a"; "f"]
  = Some (File false (bytes_of "x")).
Proof.
  intros st. apply copy_keeps_outside.
  - intros [_ [k Hk]]. discriminate.
  - vm_compute. reflexivity.
Defined.
(** ** [copy] of a file *)

(** X3. A file that can be read is copied with its bytes: into [dst] under
    its own name when [dst] is a directory, to [dst] itself otherwise.
    [copy] returns the path of the copy, the copy holds the bytes of the
    source, and the source is still there. *)
Theorem copy_file_content (src dst : path) (st : state) (d : content) :
  let target :=
    if is_dir (fs st) dst then PurePath.joinpath dst (PurePath.basename src) else dst in
  fs st !! src = Some (File false d) ->
  target <> src ->
  replaceable (fs st) target = true ->
  is_dir (fs st) (PurePath.parent target) = true ->
  exists st',
    copy src dst st = (Ok (Some target), st') /\
    Os.read_file target st' = (Ok d, st') /\
    Os.read_file src st' = (Ok d, st').
Proof.
  intros target Hsrc Hne Hnd Hpar.
  assert (is_dir (fs st) src = false) as Hsd by (unfold is_dir; by rewrite Hsrc).
  assert (is_file (fs st) src = true) as Hsf by (unfold is_file; by rewrite Hsrc).
  assert (exists st', Os.write_file target d st = (Ok tt, st') /\
                      fs st' = <[target := File false d]> (fs st)) as (st' & Hw & Hfs).
  { unfold Os.write_file. rewrite Hpar. unfold replaceable in Hnd.
    destruct (fs st !! target) as [[|[] d']|]; try done; eexists; split; reflexivity. }
  exists st'. split; [|split].
  - unfold copy, catch. erewrite bind_ok by reflexivity. rewrite Hsd, Hsf.
    erewrite bind_ok; [reflexivity|]. unfold Shutil.copy2.
    erewrite bind_ok by (unfold Os.read_file; by rewrite Hsrc).
    erewrite bind_ok by reflexivity. fold target.
    erewrite bind_ok by exact Hw. reflexivity.
  - unfold Os.read_file. rewrite Hfs. by rewrite lookup_insert_eq.
  - unfold Os.read_file. rewrite Hfs. rewrite lookup_insert_ne by done. by rewrite Hsrc.
Qed.

Lemma copy_file_content_witness :
  let st := fresh [([], Dir); (["a"], Dir); (["a"; "f.txt"], File false (bytes_of "x"));
                   (["b"], Dir)] in
  exists st',
    copy (Path Disk ["a"; "f.txt"]) (Path Disk ["b"]) st
    = (Ok (Some (Path Disk ["b"; "f.txt"])), st') /\
    Os.read_file (Path Disk ["b"; "f.txt"]) st' = (Ok (bytes_of "x"), st') /\
    Os.read_file (Path Disk ["a"; "f.txt"]) st' = (Ok (bytes_of "x"), st').
Proof.
  intros st.
  apply (copy_file_content (Path Disk ["a"; "f.txt"]) (Path Disk ["b"]) st (bytes_of "x"));
    try (vm_compute; reflexivity).
  discriminate.
Defined.
(** ** [copy] of a directory *)

Lemma rebase_inj src dst q1 q2 :
  PurePath.below src q1 -> PurePath.below src q2 ->
  Shutil.rebase src dst q1 = Shutil.rebase src dst q2 -> q1 = q2.
Proof.
  intros [Hr1 [k1 Hk1]] [Hr2 [k2 Hk2]] Heq.
  unfold Shutil.rebase in Heq. rewrite Hk1, Hk2 in Heq.
  rewrite !drop_app_length in Heq. inversion Heq as [Hk].
  apply app_inv_head in Hk. subst k2.
  destruct q1, q2; simpl in *. congruence.
Qed.

Lemma rebase_self src dst : Shutil.rebase src dst src = dst.
Proof. unfold Shutil.rebase. rewrite drop_all, app_nil_r. by destruct dst. Qed.

Lemma below_lineage p t : PurePath.below p t -> t ∈ lineage p -> t = p.
Proof.
  intros [Hr [k Hk]] Hin. apply lineage_ancestors in Hin as [|Hin]; [done|].
  unfold ancestors in Hin. apply list_elem_of_In, in_map_iff in Hin as (n & <- & Hn).
  apply in_seq in Hn. simpl in Hk.
  assert (length (take n (p_parts p)) = length (p_parts p ++ k)) as Hlen by by rewrite Hk.
  rewrite length_take, length_app in Hlen. lia.
Qed.

(** The entries of a tree with no locked file, copied one after the
    other to a place where nothing is: each one arrives, and none
    fails. *)
Lemma graft_all_arrive src dst (f : gmap path node) (l : list (path * node)) :
  is_dir f src = true ->
  (forall t, PurePath.below dst t -> f !! t = None) ->
  NoDup (List.map fst l) ->
  Forall (fun qn => PurePath.below src qn.1 /\ f !! qn.1 = Some qn.2
                    /\ is_locked qn.2 = false) l ->
  let r := foldr (fun qn a => Shutil.graft (Shutil.rebase src dst qn.1) qn.2 a)
                 (plant dst f, true) l in
  r.2 = true /\
  (forall qn, qn ∈ l -> r.1 !! Shutil.rebase src dst qn.1 = Some qn.2) /\
  (forall t, (forall qn, qn ∈ l -> t <> Shutil.rebase src dst qn.1) ->
             r.1 !! t = plant dst f !! t).
Proof.
  intros Hsrc Hfree Hnd Hall. induction l as [|[q n] l IH]; simpl.
  - split; [done|]. split; [|done]. intros qn Hin. by apply elem_of_nil in Hin.
  - apply NoDup_cons in Hnd as [Hq Hnd]. apply Forall_cons in Hall as [(Hb & Hf & Hl) Hall].
    destruct (IH Hnd Hall) as (Hclean & Hin & Hout). clear IH.
    set (r := foldr _ _ l) in *. simpl in *.
    set (t := Shutil.rebase src dst q).
    assert (r.1 !! t = plant dst f !! t) as Ht.
    { apply Hout. intros [q' n'] Hin' Heq. simpl in Heq.
      rewrite Forall_forall in Hall. destruct (Hall _ Hin') as (Hb' & _).
      apply rebase_inj in Heq; [|done..]. subst q'.
      apply Hq. apply list_elem_of_In, in_map_iff. exists (q, n'). split; [done|].
      by apply list_elem_of_In. }
    assert (plant dst f !! t = None \/ (plant dst f !! t = Some Dir /\ n = Dir)) as Hcase.
    { destruct (decide (t ∈ lineage dst)) as [Hlin|Hlin].
      - right. apply below_lineage in Hlin; [|apply rebase_below].
        rewrite Hlin. split; [apply plant_self|].
        assert (q = src) as ->.
        { apply (rebase_inj src dst); [done|apply below_refl|].
          fold t. by rewrite Hlin, rebase_self. }
        unfold is_dir in Hsrc. rewrite Hf in Hsrc. by destruct n.
      - left. rewrite plant_other by done. apply Hfree, rebase_below. }
    assert (Shutil.graft t n r = (<[t := n]> r.1, r.2)) as Hg.
    { unfold Shutil.graft. rewrite Ht.
      destruct Hcase as [->|[-> ->]]; [|done].
      destruct n as [|[] d]; try done. }
    rewrite Hg. simpl. split; [done|]. split.
    + intros [q' n'] Hin'. apply elem_of_cons in Hin' as [Heq|Hin'].
      * inversion Heq; subst. simpl. by rewrite lookup_insert_eq.
      * simpl. destruct (decide (t = Shutil.rebase src dst q')) as [Heq|Hne].
        -- exfalso. rewrite Forall_forall in Hall. destruct (Hall _ Hin') as (Hb' & _).
           apply rebase_inj in Heq; [|done..]. subst q'.
           apply Hq. apply list_elem_of_In, in_map_iff. exists (q, n'). split; [done|].
           by apply list_elem_of_In.
        -- rewrite lookup_insert_ne by done. by apply (Hin (q', n')).
    + intros t' Ht'. rewrite lookup_insert_ne.
      * apply Hout. intros qn Hqn. apply Ht'. by apply elem_of_cons; right.
      * intros Heq. apply (Ht' (q, n)); [by apply elem_of_cons; left|]. done.
Qed.
Lemma locked_below_false f p q n :
  locked_below f p = false -> PurePath.below p q -> f !! q = Some n -> is_locked n = false.
Proof.
  unfold locked_below. intros Hl Hb Hq.
  destruct (is_locked n) eqn:Hn; [|done].
  assert (existsb (fun qn : path * node => bool_decide (PurePath.below p qn.1) && is_locked qn.2)
                  (map_to_list f) = true) as Hex; [|congruence].
  apply existsb_exists. exists (q, n). split.
  - apply list_elem_of_In. by apply elem_of_map_to_list.
  - simpl. rewrite Hn. by rewrite bool_decide_eq_true_2.
Qed.

(** X4. A directory with no locked file below it is copied whole to a
    destination where nothing is yet: [copy] returns the destination, and
    every directory and every file at or below the source is found at the
    same place below the destination, the files with their bytes. *)
Theorem copy_directory_content (src dst : path) (st : state) :
  is_dir (fs st) src = true ->
  locked_below (fs st) src = false ->
  (forall t, PurePath.below dst t -> fs st !! t = None) ->
  blocked (fs st) dst = false ->
  ~ PurePath.below src dst ->
  exists st',
    copy src dst st = (Ok (Some dst), st') /\
    forall q n, PurePath.below src q -> fs st !! q = Some n ->
                fs st' !! Shutil.rebase src dst q = Some n.
Proof.
  intros Hsrc Hlock Hfree Hblock _.
  set (l := List.filter (fun qn : path * node => bool_decide (PurePath.below src qn.1))
                        (map_to_list (fs st))).
  assert (NoDup (List.map fst l)) as Hnd.
  { eapply sublist_NoDup; [apply (NoDup_fst_map_to_list (fs st))|].
    apply fmap_sublist. unfold l. clear. induction (map_to_list (fs st)) as [|x m IH]; simpl.
    - constructor.
    - destruct (bool_decide _); by constructor. }
  assert (forall qn, qn ∈ l <-> PurePath.below src qn.1 /\ fs st !! qn.1 = Some qn.2) as Hmem.
  { intros [q n]. unfold l. rewrite list_elem_of_In, filter_In, <- list_elem_of_In.
    rewrite elem_of_map_to_list. simpl. rewrite bool_decide_eq_true. tauto. }
  assert (Forall (fun qn => PurePath.below src qn.1 /\ fs st !! qn.1 = Some qn.2
                            /\ is_locked qn.2 = false) l) as Hall.
  { apply Forall_forall. intros qn Hqn. apply Hmem in Hqn as [Hb Hq].
    split; [done|]. split; [done|]. by eapply locked_below_false. }
  destruct (graft_all_arrive src dst (fs st) l Hsrc Hfree Hnd Hall) as (Hclean & Hin & _).
  assert (exists_ (fs st) dst = false) as Hex.
  { unfold exists_. by rewrite (Hfree dst (below_refl dst)). }
  assert (exists f', Shutil.copytree src dst st
                     = (Ok dst, State f' (trace st ++ [FsWrite dst]) (next_tmp st))
                     /\ forall qn, qn ∈ l -> f' !! Shutil.rebase src dst qn.1 = Some qn.2)
    as (f' & Hct & Hf').
  { unfold Shutil.copytree. rewrite Hsrc, Hex, Hblock. cbn [negb]. fold l.
    destruct (foldr _ _ l) as [f' clean]. simpl in *. subst clean. by exists f'. }
  eexists. split.
  - unfold copy, catch. erewrite bind_ok by reflexivity. rewrite Hsrc.
    erewrite bind_ok by exact Hct. reflexivity.
  - intros q n Hb Hq. apply (Hf' (q, n)). by apply Hmem.
Qed.

Lemma copy_directory_content_witness :
  let st := fresh [([], Dir); (["a"], Dir); (["a"; "s"], Dir);
                   (["a"; "s"; "f"], File false (bytes_of "x"))] in
  exists st',
    copy (Path Disk ["a"]) (Path Disk ["b"]) st = (Ok (Some (Path Disk ["b"])), st') /\
    fs st' !! Path Disk ["b"; "s"; "f"] = Some (File false (bytes_of "x")).
Proof.
  intros st.
  destruct (copy_directory_content (Path Disk ["a"]) (Path Disk ["b"]) st)
    as (st' & Hcopy & Hall).
  - reflexivity.
  - vm_compute. reflexivity.
  - intros [r t] [Hr [k Hk]]. simpl in Hr, Hk. subst r t.
    unfold st, fresh, disk. simpl.
    repeat (rewrite lookup_insert_ne by (intros ?; simplify_eq)). apply lookup_empty.
  - vm_compute. reflexivity.
  - intros [_ [k Hk]]. discriminate.
  - exists st'. split; [exact Hcopy|].
    apply (Hall (Path Disk ["a"; "s"; "f"])).
    + split; [reflexivity|]. by exists ["s"; "f"].
    + vm_compute. reflexivity.
Defined.
(** ** [read_archived_file]: nothing is written, and the message for [.tar.gz] *)

Lemma keeps_eq_read_file p : keeps eq (Os.read_file p).
Proof. intros st. unfold Os.read_file. repeat case_match; simplify_eq; done. Qed.

Lemma keeps_eq_item0 {A} (l : list A) : keeps eq (item0 l).
Proof. intros st. by destruct l. Qed.

Lemma keeps_eq_zip_read ms name : keeps eq (ZipFile.read ms name).
Proof.
  intros st. unfold ZipFile.read, ZipFile.getinfo. unfold_monad.
  repeat case_match; simplify_eq; done.
Qed.

(** X5. [read_archived_file] only reads: whatever it returns or raises,
    the files and the trace are after the call what they were before. *)
Theorem read_archived_file_reads_only (p : path) (pattern : string) (st : state) :
  (read_archived_file p pattern st).2 = st.
Proof.
  symmetry. revert st. change (keeps eq (read_archived_file p pattern)).
  unfold read_archived_file, Re.compile, TarFile.open_r, TarFile.getmembers,
    ZipFile.open_r, TarFile.read.
  repeat keeps_step;
    auto using keeps_eq_read_file, keeps_eq_item0, keeps_eq_zip_read.
Qed.

Lemma rfind_drop c s i :
  Str.rfind c s = Some i -> exists rest, Str.drop i s = String c rest /\ Str.rfind c rest = None.
Proof.
  revert i. induction s as [|a s IH]; intros i; simpl; [done|].
  destruct (Str.rfind c s) as [j|] eqn:Hj.
  - intros [= <-]. simpl. by apply IH.
  - destruct (Ascii.eqb_spec a c) as [->|]; [|done].
    intros [= <-]. simpl. by exists s.
Qed.

(** The suffix of a path holds one dot at most: it is never [.tar.gz]. *)
Lemma suffix_not_tar_gz p : PurePath.suffix p <> ".tar.gz".
Proof.
  unfold PurePath.suffix. destruct (Str.rfind "." (PurePath.name p)) as [i|] eqn:Hi; [|done].
  case_match; [|done]. apply rfind_drop in Hi as (rest & -> & Hrest).
  intros [= ->]. vm_compute in Hrest. discriminate.
Qed.

Lemma rfind_app c x y :
  Str.rfind c (x +:+ y)
  = match Str.rfind c y with
    | Some i => Some (String.length x + i)
    | None => Str.rfind c x
    end.
Proof.
  induction x as [|a x IH].
  - change ("" +:+ y) with y. by destruct (Str.rfind c y).
  - rewrite ReFacts.append_String. simpl. rewrite IH.
    destruct (Str.rfind c y); simpl; done.
Qed.

Lemma drop_app_length x y i : Str.drop (String.length x + i) (x +:+ y) = Str.drop i y.
Proof.
  induction x as [|a x IH]; [done|]. by rewrite ReFacts.append_String.
Qed.

Lemma length_append x y : String.length (x +:+ y) = String.length x + String.length y.
Proof.
  induction x as [|a x IH]; [done|]. rewrite ReFacts.append_String. simpl. by rewrite IH.
Qed.

(** For a name that ends in [.tar.gz], the suffix is [.gz]. *)
Lemma suffix_of_tar_gz p stem :
  PurePath.name p = stem +:+ ".tar.gz" -> PurePath.suffix p = ".gz".
Proof.
  intros Hn. unfold PurePath.suffix. rewrite Hn, rfind_app.
  change (Str.rfind "." ".tar.gz") with (Some 4).
  rewrite length_append, drop_app_length.
  assert (((0 <? String.length stem + 4)%nat
           && (String.length stem + 4 <? String.length stem + String.length ".tar.gz" - 1)%nat)
          = true) as ->; [|done].
  apply andb_true_intro. split; apply Nat.ltb_lt; simpl; lia.
Qed.

Lemma raises_item0 {A} (P : exn -> Prop) (l : list A) : P IndexError -> raises P (item0 l).
Proof. intros HP. destruct l; [by apply raises_raise | apply raises_ret]. Qed.

(** X6. [read_archived_file] never raises its error for [.tar.gz] files:
    the suffix that the test looks at holds one dot at most.  For a path
    whose name ends in [.tar.gz], and a pattern that [re] accepts, the
    error is the one for any other kind of file. *)
Theorem read_archived_file_tar_gz_message (p : path) (pattern : string) (st : state) :
  (read_archived_file p pattern st).1
  <> Err (TypeError ".tar.gz files are too slow to read from inside the archive. Please extract them instead." None) /\
  (forall stem r,
     PurePath.name p = stem +:+ ".tar.gz" ->
     Re.parse (list_ascii_of_string pattern) None Re.Eps None = Some r ->
     read_archived_file p pattern st
     = (Err (TypeError "Only .zip and .tar files can be read from inside its archive." None), st)).
Proof.
  split.
  - set (slow := TypeError _ None).
    assert (raises (fun e => e <> slow) (read_archived_file p pattern)) as Hr.
    { unfold read_archived_file, Re.compile. raises_step.
      { raises_step; [apply raises_ret | by apply raises_raise]. }
      apply raises_catch with (Q := fun e => e <> slow).
      - pose proof (suffix_not_tar_gz p) as Hs.
        destruct (String.eqb_spec (PurePath.suffix p) ".tar.gz") as [|_]; [done|].
        assert (forall q, raises (fun e => e <> slow) (Os.read_file q)) as Hread.
        { intros q. eapply raises_weaken; [apply raises_read_file|].
          intros e He ->. discriminate. }
        unfold TarFile.open_r, TarFile.getmembers, ZipFile.open_r, TarFile.read,
          ZipFile.read, ZipFile.getinfo.
        repeat raises_step; try done; auto using raises_item0.
      - intros e He. destruct (is_IndexError e); by apply raises_raise. }
    destruct (read_archived_file p pattern st) as [[d|e] st'] eqn:Hrun; [done|].
    simpl. intros [= ->]. by eapply Hr.
  - intros stem r Hn Hp. unfold read_archived_file, Re.compile. rewrite Hp.
    erewrite bind_ok by reflexivity. by rewrite (suffix_of_tar_gz p stem Hn).
Qed.

Lemma read_archived_file_tar_gz_message_witness :
  read_archived_file (Path Disk ["in"; "s2.tar.gz"]) ".*xml" (fresh [([], Dir)])
  = (Err (TypeError "Only .zip and .tar files can be read from inside its archive." None),
     fresh [([], Dir)]).
Proof.
  destruct (read_archived_file_tar_gz_message
              (Path Disk ["in"; "s2.tar.gz"]) ".*xml" (fresh [([], Dir)])) as [_ H].
  eapply (H "s2"); reflexivity.
Defined.
(** ** JSON: more on what is read back *)

(** X7. The flag [print_file] of [read_json] only adds a debug message:
    the call returns or raises the same with and without it, and the
    message is never the cause of a failure.  [read_json] changes no
    file. *)
Theorem read_json_print_only_logs (E : env) (json_file : pyval) (st : state) :
  (read_json E json_file false st).2 = st /\
  match (read_json E json_file false st).1 with
  | Ok data =>
      read_json E json_file true st
      = (Ok data,
         State (fs st) (trace st ++ [Log Debug "Configuration file %s contains:\n%s"])
               (next_tmp st))
  | Err e => read_json E json_file true st = (Err e, st)
  end.
Proof.
  unfold read_json, bind.
  destruct (as_path json_file st) as [[p|e] st0] eqn:Hp;
    (assert (st0 = st) as ->
       by (destruct json_file; unfold as_path, ret, raise in Hp; by simplify_eq));
    [|split; reflexivity].
  unfold Os.read_file.
  destruct (fs st !! p) as [[|[] c]|]; try (split; reflexivity).
  destruct c; try (split; reflexivity).
  unfold ret. destruct (decoded_encodes E doc) as [j' Hj']. rewrite Hj'.
  split; reflexivity.
Qed.
(** Induction on Python values, with the hypothesis for the values inside
    a list or a dict. *)
Lemma pyval_nested_ind (P : pyval -> Prop) :
  P VNone -> (forall b, P (VBool b)) -> (forall z, P (VInt z)) -> (forall z, P (VNpInt z)) ->
  (forall s, P (VStr s)) -> (forall d, P (VDate d)) -> (forall t, P (VDatetime t)) ->
  (forall m x, P x -> P (VEnum m x)) -> (forall s, P (VSet s)) -> (forall p, P (VPath p)) ->
  (forall l, Forall P l -> P (VList l)) ->
  (forall items, Forall (fun kv => P kv.2) items -> P (VDict items)) ->
  (forall c, P (VObject c)) ->
  forall v, P v.
Proof.
  intros HN HB HI HNp HS HD HT HE HSet HP HL HDict HO.
  fix IH 1. intros [| b | z | z | s | d | t | m x | s | p | l | items | c].
  - exact HN.
  - apply HB.
  - apply HI.
  - apply HNp.
  - apply HS.
  - apply HD.
  - apply HT.
  - apply HE, IH.
  - apply HSet.
  - apply HP.
  - apply HL. induction l as [|x l IHl]; constructor; [apply IH | exact IHl].
  - apply HDict. induction items as [|[k x] l IHl]; constructor; [apply IH | exact IHl].
  - apply HO.
Qed.

Lemma back_not_str E hooked j :
  (forall s, decode E j <> VStr s) -> back E hooked j = decode E j.
Proof.
  intros H. unfold back. destruct hooked; [|done].
  destruct (decode E j); try done. by destruct (H s).
Qed.

Lemma plain_back E v : reads_isoformat E -> forall hooked,
  plain E hooked v = true ->
  exists j, encode CustomEncoder v = Ok j /\ back E hooked j = v.
Proof.
  induction v as [| b | z | z | s | d | t | m x _ | s | p | l IH | items IH | c]
    using pyval_nested_ind; intros Hiso hooked Hv; try discriminate.
  - exists JNull. by destruct hooked.
  - exists (JBool b). by destruct hooked.
  - exists (JInt z). by destruct hooked.
  - exists (JStr s). split; [done|]. unfold back. destruct hooked; [|done].
    simpl in *. by repeat case_match.
  - simpl in Hv. apply andb_prop in Hv as [-> Hd].
    pose proof (reload_date E d Hiso Hd) as Hr. unfold reload in Hr.
    destruct (encode CustomEncoder (VDate d)) as [j|] eqn:Hj; [|discriminate].
    exists j. split; [done|]. unfold back. congruence.
  - simpl in Hv. apply andb_prop in Hv as [-> Hd].
    pose proof (reload_datetime E t Hiso Hd) as Hr. unfold reload in Hr.
    destruct (encode CustomEncoder (VDatetime t)) as [j|] eqn:Hj; [|discriminate].
    exists j. split; [done|]. unfold back. congruence.
  - simpl in Hv.
    assert (exists js, encode_list CustomEncoder l = Ok js /\ List.map (decode E) js = l)
      as (js & Hjs & Hback).
    { induction l as [|x l IHl]; [by exists []|].
      simpl in Hv. apply andb_prop in Hv as [Hx Hl].
      apply Forall_cons in IH as [IHx IH].
      destruct (IHx Hiso false Hx) as (j & Hj & Hb).
      destruct (IHl IH Hl) as (js & Hjs & Hbs).
      exists (j :: js). simpl. rewrite Hj, Hjs. split; [done|].
      unfold back in Hb. by rewrite Hb, Hbs. }
    exists (JList js). rewrite encode_vlist, Hjs. split; [done|].
    rewrite back_not_str by done. simpl. by rewrite Hback.
  - simpl in Hv. apply andb_prop in Hv as [Hnd Hall].
    apply bool_decide_eq_true in Hnd.
    assert (exists js, encode_items CustomEncoder items = Ok js
                       /\ object_hook E (decode_items E js) = items)
      as (js & Hjs & Hback).
    { clear Hnd. induction items as [|[k x] l IHl]; [by exists []|].
      simpl in Hall. apply andb_prop in Hall as [Hx Hl].
      apply Forall_cons in IH as [IHx IH]. simpl in IHx.
      destruct (IHx Hiso true Hx) as (j & Hj & Hb).
      destruct (IHl IH Hl) as (js & Hjs & Hbs).
      exists ((k, j) :: js). simpl. rewrite Hj, Hjs. split; [done|].
      unfold back in Hb. unfold object_hook, decode_items in *. simpl.
      by rewrite Hb, Hbs. }
    exists (JDict js). rewrite encode_dict, Hjs. split; [done|].
    rewrite back_not_str by (by rewrite decode_dict).
    rewrite decode_dict. rewrite dict_of_pairs_nodup; [by rewrite Hback|].
    rewrite decode_items_keys. by rewrite (encode_items_keys _ _ _ Hjs).
Qed.


Lemma encode_list_dates ds :
  encode_list CustomEncoder (List.map VDate ds)
  = Ok (List.map (fun d => JStr (Iso.date_isoformat d)) ds).
Proof. induction ds as [|d ds IH]; [done|]. simpl. by rewrite IH. Qed.

(** X9. The decoder's hook sees the values that stand directly in a dict
    and no others: dates in a list are saved as text and are read back
    as text, not as dates. *)
Theorem dates_in_list_read_back_as_text
  (E : env) (k : string) (ds : list Iso.date) (p : path) (kw : kwargs) (print_file : bool)
  (st st1 : state)
  (Hcls : kwargs_get (kw_cls kw) CustomEncoder = CustomEncoder)
  (Hsave : save_json (VDict [(k, VList (List.map VDate ds))]) (VPath p) kw st = (Ok tt, st1)) :
  exists st2,
    read_json E (VPath p) print_file st1
    = (Ok (VDict [(k, VList (List.map (fun d => VStr (Iso.date_isoformat d)) ds))]), st2).
Proof.
  apply save_json_file in Hsave as (j & Hj & Hfile). rewrite Hcls in Hj.
  rewrite encode_dict in Hj. cbn [encode_items] in Hj.
  rewrite encode_vlist, encode_list_dates in Hj. simplify_eq.
  destruct (read_json_file E p print_file st1 _ _ Hfile) as [st2 Hread].
  exists st2. rewrite Hread. do 2 f_equal.
  rewrite decode_dict. unfold decode_items, dict_of_pairs, object_hook. simpl.
  do 3 f_equal. rewrite map_map. done.
Qed.

Lemma dates_in_list_read_back_as_text_witness :
  let st := fresh [([], Dir); (["d"], Dir)] in
  let p := Path Disk ["d"; "o.json"] in
  let v := VDict [("days", VList (List.map VDate [Iso.Date 2021 3 2; Iso.Date 2021 3 3]))] in
  exists st2,
    read_json (python false id) (VPath p) false
              (save_json v (VPath p) (Kwargs None None) st).2
    = (Ok (VDict [("days", VList [VStr "2021-03-02"; VStr "2021-03-03"])]), st2).
Proof.
  intros st p v.
  apply (dates_in_list_read_back_as_text (python false id)
           "days" [Iso.Date 2021 3 2; Iso.Date 2021 3 3] p (Kwargs None None) false st).
  - reflexivity.
  - apply run_eq. vm_compute. reflexivity.
Defined.

(** X10. [save_json] opens the file before it encodes: when the encoder
    refuses the value, the error is raised with the file already
    replaced by the text written so far, which [read_json] cannot read.
    What the file held before is lost. *)
Theorem save_json_failure_leaves_broken_file
  (E : env) (v : pyval) (p : path) (kw : kwargs) (st : state) (e : exn)
  (Henc : encode (kwargs_get (kw_cls kw) CustomEncoder) v = Err e)
  (Hfile : replaceable (fs st) p = true)
  (Hparent : is_dir (fs st) (PurePath.parent p) = true) :
  exists st1,
    save_json v (VPath p) kw st = (Err e, st1) /\
    forall print_file, (read_json E (VPath p) print_file st1).1 = Err JSONDecodeError.
Proof.
  assert (p <> PurePath.parent p) as Hne.
  { intros Heq. rewrite <- Heq in Hparent. unfold is_dir in Hparent.
    unfold replaceable in Hfile. by destruct (fs st !! p) as [[|[]]|]. }
  set (st0 := State (<[p := File false (Raw [])]> (fs st)) (trace st ++ [FsWrite p])
                    (next_tmp st)).
  assert (Os.write_file p (Raw []) st = (Ok tt, st0)) as Hopen.
  { unfold Os.write_file. rewrite Hparent. unfold replaceable in Hfile.
    by destruct (fs st !! p) as [[|[]]|]. }
  set (cut := JsonCut (kwargs_get (kw_indent kw) 3%nat)
                      (kwargs_get (kw_cls kw) CustomEncoder) v).
  set (st1 := State (<[p := File false cut]> (fs st0)) (trace st0 ++ [FsWrite p])
                    (next_tmp st0)).
  assert (Os.write_file p cut st0 = (Ok tt, st1)) as Hcut.
  { unfold Os.write_file, is_dir. simpl. rewrite lookup_insert_eq.
    rewrite lookup_insert_ne by done. unfold is_dir in Hparent.
    by destruct (fs st !! PurePath.parent p) as [[]|]. }
  exists st1. split.
  - unfold save_json. cbn [is_dict]. erewrite bind_ok by reflexivity. cbn beta iota.
    erewrite bind_ok by reflexivity. erewrite bind_ok by exact Hopen.
    unfold json_dump. rewrite Henc. erewrite bind_ok by exact Hcut. reflexivity.
  - intros pf. unfold read_json. erewrite bind_ok by reflexivity.
    erewrite bind_ok; [|unfold Os.read_file; simpl; by rewrite lookup_insert_eq].
    reflexivity.
Qed.

Lemma save_json_failure_leaves_broken_file_witness :
  let st := fresh [([], Dir); (["d"], Dir);
                   (["d"; "o.json"], File false (JsonText 3 (JDict [("a", JInt 1)])))] in
  let p := Path Disk ["d"; "o.json"] in
  exists st1,
    save_json (VDict [("a", VInt 1); ("b", VObject "ndarray")]) (VPath p) (Kwargs None None) st
    = (Err not_serializable, st1) /\
    forall print_file,
      (read_json (python false id) (VPath p) print_file st1).1 = Err JSONDecodeError.
Proof.
  intros st p.
  apply (save_json_failure_leaves_broken_file (python false id)
           (VDict [("a", VInt 1); ("b", VObject "ndarray")]) p (Kwargs None None) st);
    vm_compute; reflexivity.
Defined.
(** ** [remove_by_pattern] *)

Lemma remove_each_returns l st : (remove_each l st).1 = Ok tt.
Proof.
  revert st. induction l as [|p l IH]; intros st; [done|]. simpl.
  pose proof (remove_returns p st) as Hr. unfold bind.
  destruct (remove p st) as [[[]|e] st1]; [apply IH | discriminate].
Qed.

(** X11. Without an extension, which is the default, [remove_by_pattern]
    raises [TypeError] and removes nothing: the pattern is made by
    [name_with_wildcard + extension], and the extension is [None].  With
    an extension and a pattern of one component it never raises. *)
Theorem remove_by_pattern_needs_extension
  (glob_other : gmap path node -> path -> string -> M (list path))
  (directory : path) (name_with_wildcard : string) (st : state) :
  remove_by_pattern glob_other directory name_with_wildcard None st
  = (Err (TypeError "can only concatenate str (not NoneType) to str" None), st) /\
  forall extension,
    Glob.simple (name_with_wildcard +:+ with_point extension) = true ->
    (remove_by_pattern glob_other directory name_with_wildcard (Some extension) st).1 = Ok tt.
Proof.
  split; [reflexivity|]. intros extension Hs.
  unfold remove_by_pattern. do 2 (erewrite bind_ok by reflexivity).
  unfold Glob.glob. rewrite Hs. erewrite bind_ok by reflexivity.
  apply remove_each_returns.
Qed.


Lemma remove_by_pattern_needs_extension_witness :
  let st := fresh [([], Dir); (["d"], Dir); (["d"; "a.txt"], File false (bytes_of "x"))] in
  Glob.simple ("*" +:+ with_point "txt") = true /\
  (remove_by_pattern (fun _ _ _ => ret []) (Path Disk ["d"]) "*" (Some "txt") st).1 = Ok tt.
Proof.
  intros st. split; [reflexivity|].
  apply (remove_by_pattern_needs_extension (fun _ _ _ => ret []) (Path Disk ["d"]) "*" st).
  reflexivity.
Defined.
Lemma locked_below_true f p :
  locked_below f p = true <->
  exists q n, PurePath.below p q /\ f !! q = Some n /\ is_locked n = true.
Proof.
  unfold locked_below. rewrite existsb_exists. split.
  - intros ([q n] & Hin & Hb). simpl in Hb. apply andb_prop in Hb as [Hb Hl].
    apply bool_decide_eq_true in Hb. exists q, n.
    split; [done|]. split; [|done]. by apply elem_of_map_to_list, list_elem_of_In.
  - intros (q & n & Hb & Hq & Hl). exists (q, n). split.
    + by apply list_elem_of_In, elem_of_map_to_list.
    + simpl. rewrite Hl. by rewrite bool_decide_eq_true_2.
Qed.

Lemma locked_below_ext f1 f2 p :
  (forall q, PurePath.below p q -> f1 !! q = f2 !! q) ->
  locked_below f1 p = locked_below f2 p.
Proof.
  intros H. apply eq_true_iff_eq. rewrite !locked_below_true.
  split; intros (q & n & Hb & Hq & Hl); exists q, n; (split; [done|]); (split; [|done]).
  - by rewrite <- H.
  - by rewrite H.
Qed.

Lemma child_length d c :
  PurePath.parent c = d -> c <> d -> length (p_parts c) = S (length (p_parts d)).
Proof.
  intros <- Hne. destruct c as [r l]. unfold PurePath.parent in *. simpl in *.
  rewrite removelast_firstn_len, length_take.
  destruct l; [done|]. simpl. lia.
Qed.

(** Two entries of one directory: nothing lies below both. *)
Lemma siblings_apart d c p q :
  PurePath.parent c = d -> c <> d -> PurePath.parent p = d -> p <> d ->
  PurePath.below c q -> PurePath.below p q -> p = c.
Proof.
  intros Hc Hcd Hp Hpd [Hrc [kc Hkc]] [Hrp [kp Hkp]].
  pose proof (child_length d c Hc Hcd) as Hlc.
  pose proof (child_length d p Hp Hpd) as Hlp.
  destruct c as [rc lc], p as [rp lp]. simpl in *. f_equal; [congruence|].
  assert (take (length lp) (p_parts q) = take (length lc) (p_parts q)) as Ht by congruence.
  rewrite Hkp in Ht at 1. rewrite Hkc in Ht. by rewrite !take_app_length in Ht.
Qed.

Lemma children_spec f d c :
  c ∈ Glob.children f d <-> exists_ f c = true /\ PurePath.parent c = d /\ c <> d.
Proof.
  unfold Glob.children. rewrite list_elem_of_In, in_map_iff. split.
  - intros ([q n] & <- & Hin). apply filter_In in Hin as [Hin Hb].
    apply bool_decide_eq_true in Hb. simpl in *.
    apply list_elem_of_In, elem_of_map_to_list in Hin. unfold exists_. by rewrite Hin.
  - intros (Hex & Hp & Hne). unfold exists_ in Hex.
    destruct (f !! c) as [n|] eqn:Hc; [|done]. exists (c, n). split; [done|].
    apply filter_In. split.
    + by apply list_elem_of_In, elem_of_map_to_list.
    + by apply bool_decide_eq_true.
Qed.

Lemma remove_each_frame l st q :
  (forall p, p ∈ l -> ~ PurePath.below p q) ->
  fs (remove_each l st).2 !! q = fs st !! q.
Proof.
  revert st. induction l as [|p l IH]; intros st Hq; [done|]. simpl. unfold bind.
  pose proof (remove_frame p st q) as Hf.
  destruct (remove p st) as [[[]|e] st1]; simpl in *.
  - rewrite IH; [apply Hf, Hq; left|]. intros p' Hp'. apply Hq. by right.
  - apply Hf, Hq. left.
Qed.

Lemma remove_each_only_deletes l st q n :
  fs (remove_each l st).2 !! q = Some n -> fs st !! q = Some n.
Proof.
  revert st. induction l as [|p l IH]; intros st; [done|]. simpl. unfold bind.
  pose proof (remove_only_deletes p st q n) as Hd.
  destruct (remove p st) as [[[]|e] st1]; simpl in *; [|done].
  intros H. by apply Hd, IH.
Qed.

Lemma remove_each_gone l st q :
  fs st !! q = None -> fs (remove_each l st).2 !! q = None.
Proof.
  intros Hq. destruct (fs (remove_each l st).2 !! q) as [n|] eqn:H; [|done].
  apply remove_each_only_deletes in H. congruence.
Qed.

(** Every entry of the list that is a directory with no locked file is
    gone after the loop, with all below it, when the entries are entries
    of one directory. *)
Lemma remove_each_directory d l st c q :
  (forall p, p ∈ l -> PurePath.parent p = d /\ p <> d) ->
  c ∈ l ->
  is_dir (fs st) c = true -> locked_below (fs st) c = false ->
  PurePath.below c q ->
  fs (remove_each l st).2 !! q = None.
Proof.
  revert st. induction l as [|p l IH]; intros st Hl Hc Hd Hlock Hq.
  { by apply elem_of_nil in Hc. }
  simpl. unfold bind.
  destruct (decide (p = c)) as [->|Hne].
  - pose proof (remove_directory_gone c st q Hd Hlock Hq) as Hg.
    pose proof (remove_returns c st) as Hr.
    destruct (remove c st) as [[[]|e] st1]; [|discriminate]. by apply remove_each_gone.
  - apply elem_of_cons in Hc as [->|Hc]; [done|].
    assert (forall q', PurePath.below c q' -> fs (remove p st).2 !! q' = fs st !! q') as Hsame.
    { intros q' Hcq. apply remove_frame. intros Hpq.
      destruct (Hl p) as [Hp Hpd]; [left|]. destruct (Hl c) as [Hcp Hcd]; [by right|].
      apply Hne. by apply (siblings_apart d c p q'). }
    pose proof (remove_returns p st) as Hr.
    destruct (remove p st) as [[[]|e] st1]; [|discriminate]. simpl in Hsame.
    apply IH; try done.
    + intros p' Hp'. apply Hl. by right.
    + unfold is_dir in *. by rewrite Hsame by apply below_refl.
    + rewrite <- Hlock. by apply locked_below_ext.
Qed.

Lemma remove_each_file d l st c data :
  (forall p, p ∈ l -> PurePath.parent p = d /\ p <> d) ->
  c ∈ l ->
  fs st !! c = Some (File false data) ->
  fs (remove_each l st).2 !! c = None.
Proof.
  revert st. induction l as [|p l IH]; intros st Hl Hc Hf.
  { by apply elem_of_nil in Hc. }
  simpl. unfold bind.
  destruct (decide (p = c)) as [->|Hne].
  - pose proof (remove_file_gone c st data Hf) as Hg.
    pose proof (remove_returns c st) as Hr.
    destruct (remove c st) as [[[]|e] st1]; [|discriminate]. by apply remove_each_gone.
  - apply elem_of_cons in Hc as [->|Hc]; [done|].
    assert (fs (remove p st).2 !! c = fs st !! c) as Hsame.
    { apply remove_frame. intros Hpq.
      destruct (Hl p) as [Hp Hpd]; [left|]. destruct (Hl c) as [Hcp Hcd]; [by right|].
      apply Hne. apply (siblings_apart d c p c); try done; apply below_refl. }
    pose proof (remove_returns p st) as Hr.
    destruct (remove p st) as [[[]|e] st1]; [|discriminate]. simpl in Hsame.
    apply (IH st1); try done.
    + intros p' Hp'. apply Hl. by right.
    + by rewrite Hsame.
Qed.

Lemma glob_matching f directory pattern c :
  is_dir f directory = true ->
  c ∈ List.filter (fun q => Glob.fnmatch (PurePath.name q) pattern) (Glob.children f directory)
  <-> matching f directory pattern c.
Proof.
  intros Hd. rewrite list_elem_of_In, filter_In, <- list_elem_of_In, children_spec.
  unfold matching. tauto.
Qed.

(** X12. With an extension and a pattern of one component,
    [remove_by_pattern] removes the entries of the directory whose name
    matches [name_with_wildcard + extension], the extension with its
    point, and nothing else: a path that is not at or below such an
    entry keeps its node; a matching directory with no locked file is
    gone with all below it, and a matching file that is not locked is
    gone. *)
Theorem remove_by_pattern_removes_matches
  (glob_other : gmap path node -> path -> string -> M (list path))
  (directory : path) (name_with_wildcard extension : string) (st : state) :
  let pattern := name_with_wildcard +:+ with_point extension in
  let st' := (remove_by_pattern glob_other directory name_with_wildcard
                                (Some extension) st).2 in
  Glob.simple pattern = true ->
  is_dir (fs st) directory = true ->
  (forall q, (forall c, matching (fs st) directory pattern c -> ~ PurePath.below c q) ->
             fs st' !! q = fs st !! q) /\
  (forall c q, matching (fs st) directory pattern c ->
               is_dir (fs st) c = true -> locked_below (fs st) c = false ->
               PurePath.below c q -> fs st' !! q = None) /\
  (forall c data, matching (fs st) directory pattern c ->
                  fs st !! c = Some (File false data) -> fs st' !! c = None).
Proof.
  intros pattern st' Hs Hd.
  set (l := List.filter (fun q => Glob.fnmatch (PurePath.name q) pattern)
                        (Glob.children (fs st) directory)).
  assert (st' = (remove_each l st).2) as ->.
  { unfold st', remove_by_pattern. do 2 (erewrite bind_ok by reflexivity).
    unfold Glob.glob. fold pattern. rewrite Hs, Hd. by erewrite bind_ok by reflexivity. }
  assert (forall p, p ∈ l -> PurePath.parent p = directory /\ p <> directory) as Hl.
  { intros p Hp. apply (glob_matching _ _ _ _ Hd) in Hp. unfold matching in Hp. tauto. }
  split; [|split].
  - intros q Hq. apply remove_each_frame. intros p Hp. apply Hq. by apply glob_matching.
  - intros c q Hc Hcd Hlock Hq. apply (remove_each_directory directory l st c q); try done.
    by apply glob_matching.
  - intros c data Hc Hf. apply (remove_each_file directory l st c data); try done.
    by apply glob_matching.
Qed.

Lemma remove_by_pattern_removes_matches_witness :
  let st := fresh [([], Dir); (["d"], Dir); (["d"; "a.txt"], File false (bytes_of "x"));
                   (["d"; "b.txt"], Dir); (["d"; "b.txt"; "in"], File false (bytes_of "y"));
                   (["d"; "c.tif"], File false (bytes_of "z"))] in
  let st' := (remove_by_pattern (fun _ _ _ => ret []) (Path Disk ["d"]) "*" (Some "txt") st).2 in
  fs st' !! Path Disk ["d"; "a.txt"] = None /\
  fs st' !! Path Disk ["d"; "b.txt"; "in"] = None.
Proof.
  intros st st'.
  destruct (remove_by_pattern_removes_matches
              (fun _ _ _ => ret []) (Path Disk ["d"]) "*" "txt" st) as (_ & Hdir & Hfile);
    [reflexivity | reflexivity |].
  split.
  - apply (Hfile (Path Disk ["d"; "a.txt"]) (bytes_of "x")).
    + repeat split; try done. 
    + vm_compute. reflexivity.
  - apply (Hdir (Path Disk ["d"; "b.txt"])).
    + repeat split; try done.
    + reflexivity.
    + vm_compute. reflexivity.
    + split; [reflexivity|]. by exists ["in"].
Defined.
(** ** [extract_file] leaves no temporary directory behind *)

Global Instance within_refl R : Reflexive (within R).
Proof. by intros st. Qed.

Global Instance within_trans R : Transitive (within R).
Proof.
  intros s1 s2 s3 [Hn1 H1] [Hn2 H2]. split; [congruence|].
  intros q Hq. by rewrite H2, H1.
Qed.

Global Instance scratch_kept_refl : Reflexive scratch_kept.
Proof. by intros st Ht. Qed.

Global Instance scratch_kept_trans : Transitive scratch_kept.
Proof.
  intros s1 s2 s3 H1 H2 Ht. destruct (H1 Ht) as [Ht2 Hs2]. destruct (H2 Ht2) as [Ht3 Hs3].
  split; [done|]. intros n parts. by rewrite Hs3, Hs2.
Qed.

Lemma within_scratch_kept st st' : within (eq Disk) st st' -> scratch_kept st st'.
Proof.
  intros [Hn H] Ht. split.
  - intros n parts Hle. rewrite H by done. apply Ht. lia.
  - intros n parts. by apply H.
Qed.

(** The result of the first computation is known to satisfy [P]. *)
Lemma keeps_bind_with {A B} (R : state -> state -> Prop) `{!Transitive R}
      (P : A -> Prop) (m : M A) (k : A -> M B) :
  keeps R m -> (forall st a st', m st = (Ok a, st') -> P a) ->
  (forall a, P a -> keeps R (k a)) -> keeps R (bind m k).
Proof.
  intros Hm HP Hk st. unfold bind. specialize (Hm st). specialize (HP st).
  destruct (m st) as [[a|e] st1]; simpl in *; [|done].
  etrans; [exact Hm | by eapply Hk, HP].
Qed.

Section Within.

Variable R : root -> Prop.

Lemma within_log lvl msg : keeps (within R) (log lvl msg).
Proof. by intros st. Qed.

Lemma within_read_file p : keeps (within R) (Os.read_file p).
Proof. intros st. unfold Os.read_file. by repeat case_match. Qed.

Lemma within_insert st p n tr :
  R (p_root p) -> within R st (State (<[p := n]> (fs st)) tr (next_tmp st)).
Proof.
  intros Hp. split; [done|]. intros q Hq. simpl.
  rewrite lookup_insert_ne; [done|]. by intros ->.
Qed.

Lemma within_plant st p tr :
  R (p_root p) -> within R st (State (plant p (fs st)) tr (next_tmp st)).
Proof.
  intros Hp. split; [done|]. intros q Hq. simpl. apply plant_other.
  unfold lineage. rewrite list_elem_of_In, in_map_iff. intros (n & <- & _). done.
Qed.

Lemma within_prune st p tr :
  R (p_root p) -> within R st (State (prune p (fs st)) tr (next_tmp st)).
Proof.
  intros Hp. split; [done|]. intros q Hq. simpl. rewrite lookup_prune.
  destruct (decide _) as [[Hr _]|]; [|done]. by rewrite Hr in Hp.
Qed.

Lemma within_makedirs p : R (p_root p) -> keeps (within R) (Os.makedirs p).
Proof.
  intros Hp st. unfold Os.makedirs. repeat case_match; try done. by apply within_plant.
Qed.

Lemma within_mkdir p : R (p_root p) -> keeps (within R) (Os.mkdir p).
Proof.
  intros Hp st. unfold Os.mkdir. repeat case_match; try done. by apply within_insert.
Qed.

Lemma within_write_file p d : R (p_root p) -> keeps (within R) (Os.write_file p d).
Proof.
  intros Hp st. unfold Os.write_file. repeat case_match; try done; by apply within_insert.
Qed.

Lemma within_remove p : R (p_root p) -> keeps (within R) (remove p).
Proof.
  intros Hp st. split; [apply next_tmp_remove|].
  intros q Hq. apply remove_frame. intros [Hr _]. by rewrite Hr in Hp.
Qed.

Lemma within_copytree src dst : R (p_root dst) -> keeps (within R) (Shutil.copytree src dst).
Proof.
  intros Hp st. unfold Shutil.copytree.
  destruct (negb (is_dir (fs st) src)); [done|].
  destruct (exists_ (fs st) dst); [done|].
  destruct (blocked (fs st) dst); [done|].
  match goal with |- context [foldr ?g ?a ?l] =>
    assert (forall q, ~ R (p_root q) -> (foldr g a l).1 !! q = fs st !! q) as Hg;
    [|destruct (foldr g a l) as [f' clean]] end.
  { intros q Hq.
    match goal with |- context [foldr _ _ ?l] => induction l as [|x entries IH] end.
    - simpl. apply plant_other. unfold lineage. rewrite list_elem_of_In, in_map_iff.
      intros (n & <- & _). done.
    - simpl. rewrite graft_other; [done|]. by intros <-. }
  simpl in Hg. by destruct clean.
Qed.

Lemma within_copy2 src dst : R (p_root dst) -> keeps (within R) (Shutil.copy2 src dst).
Proof.
  intros Hp. unfold Shutil.copy2. repeat keeps_step.
  - apply within_read_file.
  - apply within_write_file. by case_match.
Qed.

Lemma within_copy src dst : R (p_root dst) -> keeps (within R) (copy src dst).
Proof.
  intros Hp. unfold copy.
  repeat keeps_step; auto using within_copytree, within_copy2, within_log.
Qed.

Lemma within_upperdirs t : R (p_root t) -> keeps (within R) (upperdirs t).
Proof. intros Hp. unfold upperdirs. repeat keeps_step. by apply within_makedirs. Qed.

Lemma within_zip_extractall ms out names :
  R (p_root out) -> keeps (within R) (ZipFile.extractall ms out names).
Proof.
  intros Hp. induction names as [|n l IH]; simpl; repeat keeps_step; [|done].
  unfold ZipFile.extract, ZipFile.getinfo.
  repeat keeps_step; auto using within_upperdirs, within_mkdir, within_write_file.
Qed.

Lemma within_tar_extractall out ms :
  R (p_root out) -> keeps (within R) (TarFile.extractall out ms).
Proof.
  intros Hp. induction ms as [|m l IH]; simpl; repeat keeps_step; [|done].
  unfold TarFile.extract.
  repeat keeps_step; auto using within_upperdirs, within_mkdir, within_write_file.
Qed.

Lemma within_extractall arch out sel :
  R (p_root out) -> keeps (within R) (extractall arch out sel).
Proof.
  intros Hp. destruct arch, sel; simpl;
    auto using within_zip_extractall, within_tar_extractall; by intros st.
Qed.

End Within.
(** A block with a temporary directory, whose body writes on the disk
    and in that directory only, leaves the temporary directories as they
    were: its own is made and removed. *)
Lemma scratch_kept_with_tmpdir {A} (body : path -> M A) :
  (forall p, keeps (within (disk_and p)) (body p)) ->
  keeps scratch_kept (Tempfile.with_tmpdir body).
Proof.
  intros Hb st Ht. unfold Tempfile.with_tmpdir, Tempfile.mkdtemp, Tempfile.cleanup.
  match goal with |- context [body ?p ?s] =>
    destruct (Hb p s) as [Hn Hsame]; destruct (body p s) as [r s2] end.
  simpl in *.
  assert (forall n parts,
             prune (Path (Scratch (next_tmp st)) []) (fs s2) !! Path (Scratch n) parts
             = fs st !! Path (Scratch n) parts) as Hscratch.
  { intros n parts. rewrite lookup_prune.
    destruct (decide _) as [[Hr _]|Hnb].
    - simpl in Hr. injection Hr as <-. symmetry. by apply Ht.
    - rewrite Hsame.
      + rewrite lookup_insert_ne; [done|]. intros Heq. apply Hnb.
        injection Heq as <- <-. apply below_refl.
      + intros [Hd|Hs]; [done|]. simpl in Hs. apply Hnb. split; [by simpl|].
        simpl. apply prefix_nil. }
  split; [|done].
  intros n parts Hle. rewrite Hscratch. apply Ht. simpl in Hle. lia.
Qed.

Lemma within_disk_scratch_kept {A} (m : M A) :
  keeps (within (eq Disk)) m -> keeps scratch_kept m.
Proof. apply keeps_weaken. apply within_scratch_kept. Qed.

Lemma scratch_kept_extract_one E arch names out_parts overwrite file_path parts :
  keeps scratch_kept
        (extract_one E arch names (Path Disk out_parts) overwrite file_path (Path Disk parts)).
Proof.
  unfold extract_one.
  apply keeps_bind; [apply _ | apply keeps_get_fs; apply _ | intros f].
  destruct (is_dir f (Path Disk parts)).
  - apply within_disk_scratch_kept.
    destruct overwrite; repeat keeps_step; auto using within_log, within_remove.
  - apply keeps_bind; [apply _ | apply within_disk_scratch_kept, within_log |].
    intros _. apply scratch_kept_with_tmpdir. intros tmp.
    set (R := disk_and tmp).
    assert (R Disk) as HD by by left.
    assert (R (p_root tmp)) as HT by by right.
    apply (keeps_bind_with _ (fun a : path * path * path => R (p_root a.1.2) /\ R (p_root a.2))).
    { destruct (in_docker E); repeat keeps_step. by apply within_copy. }
    { intros st [[fp out'] dir'] st' H. simpl.
      destruct (in_docker E).
      - apply bind_inv_ok in H as (o & s & _ & H). by inversion H; subst.
      - by inversion H; subst. }
    intros [[fp out'] dir'] [Hout Hdir]. simpl in Hout, Hdir.
    apply (keeps_bind_with _ (fun a : selection * path => R (p_root a.2))).
    { destruct (Str.endswith ".zip" (PurePath.str fp)); destruct arch; simpl;
        unfold TarFile.getmembers; repeat keeps_step. }
    { intros st [sel out''] st' H. simpl.
      destruct (Str.endswith ".zip" (PurePath.str fp)); destruct arch; simpl in H;
        unfold TarFile.getmembers, bind, ret, raise in H;
        repeat case_match; by inversion H; subst. }
    intros [sel out''] Hout''. simpl in Hout''.
    repeat keeps_step; auto using within_makedirs, within_extractall, within_copy.
Qed.

Lemma scratch_kept_extract_loop E arch names out_parts overwrite file_path extr_names :
  keeps scratch_kept
        (extract_loop E arch names (Path Disk out_parts) overwrite file_path
                      (List.map (PurePath.joinpath (Path Disk out_parts)) extr_names)).
Proof.
  revert file_path. induction extr_names as [|d l IH]; intros file_path; simpl.
  - apply keeps_ret. apply _.
  - apply keeps_bind; [apply _ | apply scratch_kept_extract_one | intros fp; apply IH].
Qed.

(** X13. [extract_file] to a directory on the disk leaves no temporary
    directory behind, also when it raises: after the call the temporary
    directories hold what they held before it, and the one made for each
    target is removed with all that was put in it. *)
Theorem extract_file_cleans_temporary_directories
  (E : env) (file_path : path) (out_parts : list string) (overwrite : bool) (st : state)
  (Htidy : tidy st) :
  let st' := (extract_file E file_path (Path Disk out_parts) overwrite st).2 in
  tidy st' /\
  forall n parts, fs st' !! Path (Scratch n) parts = fs st !! Path (Scratch n) parts.
Proof.
  revert st Htidy. change (keeps scratch_kept (extract_file E file_path (Path Disk out_parts) overwrite)).
  unfold extract_file.
  apply keeps_bind; [apply _ | apply keeps_get_fs; apply _ | intros f].
  destruct (is_dir f file_path); [apply keeps_ret; apply _|].
  apply keeps_bind; [apply _ | | intros [arch names]].
  { apply within_disk_scratch_kept.
    unfold ZipFile.open_r, TarFile.open_r.
    repeat keeps_step; auto using within_read_file. }
  apply keeps_bind; [apply _ | apply scratch_kept_extract_loop | intros _].
  repeat case_match; apply keeps_ret; apply _.
Qed.

Lemma extract_file_cleans_temporary_directories_witness :
  let archive := Zip [("p/", EDir); ("p/x.txt", EFile (bytes_of "new"))] in
  let st := fresh [([], Dir); (["in"], Dir); (["in"; "p.zip"], File false archive);
                   (["out"], Dir)] in
  let st' := (extract_file (python true id) (Path Disk ["in"; "p.zip"])
                           (Path Disk ["out"]) false st).2 in
  tidy st' /\
  forall n parts, fs st' !! Path (Scratch n) parts = fs st !! Path (Scratch n) parts.
Proof.
  intros archive st.
  apply (extract_file_cleans_temporary_directories
           (python true id) (Path Disk ["in"; "p.zip"]) ["out"] false st).
  intros n parts _. unfold st, fresh, disk. simpl.
  repeat (rewrite lookup_insert_ne by (intros ?; simplify_eq)). apply lookup_empty.
Defined.
(** ** [add_to_zip]: the members that are added *)

Lemma member_of_insert f zip n d q :
  q <> zip -> member_of (<[zip := n]> f) d q = member_of f d q.
Proof. intros Hne. unfold member_of. by rewrite lookup_insert_ne. Qed.

Lemma omap_member_of_insert f zip n d qs :
  Forall (fun q => q <> zip) qs ->
  omap (member_of (<[zip := n]> f) d) qs = omap (member_of f d) qs.
Proof.
  induction 1 as [|q qs Hq _ IH]; [done|]. simpl.
  rewrite member_of_insert by done. unfold omap in IH. by rewrite IH.
Qed.

Lemma zip_write_ok zip d src s ms m :
  fs s !! zip = Some (File false (Zip ms)) ->
  is_dir (fs s) (PurePath.parent zip) = true ->
  member_of (fs s) d src = Some m ->
  zip_write zip src (arcname d src) s
  = (Ok tt, State (<[zip := File false (Zip (ms ++ [m]))]> (fs s))
                  (trace s ++ [FsWrite zip]) (next_tmp s)).
Proof.
  intros Hz Hp Hm. unfold zip_write, member_of in *.
  erewrite bind_ok by reflexivity.
  destruct (fs s !! src) as [[|[] c]|]; try done; simplify_eq;
    (erewrite bind_ok by reflexivity);
    (erewrite bind_ok by (unfold Os.read_file; by rewrite Hz));
    unfold Os.write_file; by rewrite Hz, Hp.
Qed.

Lemma parent_of_file_differs f p l c :
  f !! p = Some (File l c) -> is_dir f (PurePath.parent p) = true -> PurePath.parent p <> p.
Proof. intros Hp Hd Heq. rewrite Heq in Hd. unfold is_dir in Hd. by rewrite Hp in Hd. Qed.

Lemma write_files_ok zip d root files : forall s ms,
  fs s !! zip = Some (File false (Zip ms)) ->
  is_dir (fs s) (PurePath.parent zip) = true ->
  Forall (fun file => is_Some (member_of (fs s) d (PurePath.joinpath root file))
                      /\ PurePath.joinpath root file <> zip) files ->
  exists s',
    write_files zip d root files s = (Ok tt, s') /\
    fs s' = <[zip := File false
                (Zip (ms ++ omap (member_of (fs s) d)
                                 (List.map (PurePath.joinpath root) files)))]> (fs s) /\
    next_tmp s' = next_tmp s.
Proof.
  induction files as [|file files IH]; intros s ms Hz Hp Hall.
  - exists s. split; [done|]. split; [|done]. simpl. rewrite app_nil_r.
    by rewrite insert_id.
  - apply Forall_cons in Hall as [[[m Hm] Hne] Hall]. simpl.
    erewrite bind_ok by (by eapply zip_write_ok).
    set (s1 := State _ _ _).
    assert (PurePath.parent zip <> zip) as Hpz by (by eapply parent_of_file_differs).
    destruct (IH s1 (ms ++ [m])%list) as (s' & Hrun & Hfs & Hn).
    + simpl. by rewrite lookup_insert_eq.
    + unfold is_dir in *. simpl. by rewrite lookup_insert_ne.
    + eapply Forall_impl; [exact Hall|]. intros f' [Hs Hne']. simpl.
      by rewrite member_of_insert.
    + exists s'. split; [done|]. split; [|done]. rewrite Hfs. simpl.
      rewrite insert_insert_eq. rewrite Hm. rewrite <- app_assoc. simpl.
      rewrite omap_member_of_insert; [done|].
      apply Forall_map. eapply Forall_impl; [exact Hall|]. by intros f' [_ ?].
Qed.

Lemma write_walk_ok zip d w : forall s ms,
  fs s !! zip = Some (File false (Zip ms)) ->
  is_dir (fs s) (PurePath.parent zip) = true ->
  Forall (fun rf : path * list string =>
            Forall (fun q => is_Some (member_of (fs s) d q) /\ q <> zip)
                   (rf.1 :: List.map (PurePath.joinpath rf.1) rf.2)) w ->
  exists s',
    write_walk zip d w s = (Ok tt, s') /\
    fs s' = <[zip := File false (Zip (ms ++ walk_members (fs s) d w))]> (fs s) /\
    next_tmp s' = next_tmp s.
Proof.
  induction w as [|[root files] w IH]; intros s ms Hz Hp Hall.
  - exists s. split; [done|]. split; [|done]. simpl. rewrite app_nil_r.
    by rewrite insert_id.
  - apply Forall_cons in Hall as [Hrf Hall]. simpl in Hrf.
    apply Forall_cons in Hrf as [[[m Hm] Hne] Hfiles].
    assert (PurePath.parent zip <> zip) as Hpz by (by eapply parent_of_file_differs).
    simpl. erewrite bind_ok by (by eapply zip_write_ok).
    set (s1 := State _ _ _).
    destruct (write_files_ok zip d root files s1 (ms ++ [m])%list) as (s2 & Hrun2 & Hfs2 & Hn2).
    { simpl. by rewrite lookup_insert_eq. }
    { unfold is_dir in *. simpl. by rewrite lookup_insert_ne. }
    { apply Forall_map in Hfiles. eapply Forall_impl; [exact Hfiles|].
      intros f' [Hs Hne']. simpl. simpl in Hs, Hne'. by rewrite member_of_insert. }
    erewrite bind_ok by exact Hrun2.
    assert (forall q, q <> zip -> member_of (fs s2) d q = member_of (fs s) d q) as Hsame.
    { intros q Hq. rewrite Hfs2. simpl. by rewrite !member_of_insert. }
    destruct (IH s2 (ms ++ [m] ++ omap (member_of (fs s) d)
                                       (List.map (PurePath.joinpath root) files))%list)
      as (s' & Hrun & Hfs & Hn).
    + rewrite Hfs2. simpl. rewrite lookup_insert_eq. do 3 f_equal.
      rewrite <- app_assoc. f_equal. simpl. f_equal.
      apply omap_member_of_insert. eapply Forall_impl; [exact Hfiles|]. by intros q [_ ?].
    + unfold is_dir in *. rewrite Hfs2. simpl. by rewrite !lookup_insert_ne.
    + eapply Forall_impl; [exact Hall|]. intros rf Hrf. simpl in *.
      eapply Forall_impl; [exact Hrf|]. intros q [Hs Hq]. simpl in *. by rewrite Hsame.
    + exists s'. split; [done|]. split; [|by rewrite Hn, Hn2].
      assert (walk_members (fs s2) d w = walk_members (fs s) d w) as Hw.
      { unfold walk_members. clear -Hall Hsame.
        induction Hall as [|rf w' Hrf _ IHw]; [done|]. cbn [flat_map]. rewrite IHw. f_equal.
        assert (Forall (fun q => member_of (fs s2) d q = member_of (fs s) d q)
                       (rf.1 :: List.map (PurePath.joinpath rf.1) rf.2)) as Heq.
        { eapply Forall_impl; [exact Hrf|]. intros q [_ Hq]. by apply Hsame. }
        clear -Heq. induction Heq as [|q qs Hq _ IHq]; [done|]. simpl.
        rewrite Hq. unfold omap in IHq. by rewrite IHq. }
      rewrite Hfs, Hw, Hfs2. simpl. rewrite !insert_insert_eq. do 3 f_equal.
      rewrite Hm. rewrite <- !app_assoc. simpl. done.
Qed.
Lemma walk_dirs_spec f top r :
  r ∈ Walk.dirs f top <-> PurePath.below top r /\ f !! r = Some Dir.
Proof.
  unfold Walk.dirs. rewrite merge_sort_Permutation.
  rewrite list_elem_of_In, in_map_iff. split.
  - intros ([q n] & <- & Hin). apply filter_In in Hin as [Hin Hb]. simpl in *.
    apply andb_prop in Hb as [Hb Hn]. apply bool_decide_eq_true in Hb.
    apply list_elem_of_In, elem_of_map_to_list in Hin. by destruct n.
  - intros [Hb Hr]. exists (r, Dir). split; [done|]. apply filter_In. split.
    + by apply list_elem_of_In, elem_of_map_to_list.
    + simpl. by rewrite bool_decide_eq_true_2.
Qed.

Lemma walk_files_spec f d file :
  file ∈ Walk.files f d <->
  exists q l c, PurePath.name q = file /\ PurePath.parent q = d /\ q <> d
                /\ f !! q = Some (File l c).
Proof.
  unfold Walk.files. rewrite merge_sort_Permutation.
  rewrite list_elem_of_In, in_map_iff. split.
  - intros ([q n] & <- & Hin). apply filter_In in Hin as [Hin Hb]. simpl in *.
    apply andb_prop in Hb as [Hb Hn]. apply bool_decide_eq_true in Hb as [Hp Hne].
    apply list_elem_of_In, elem_of_map_to_list in Hin.
    destruct n as [|l c]; [done|]. by exists q, l, c.
  - intros (q & l & c & Hn & Hp & Hne & Hq). exists (q, File l c). split; [done|].
    apply filter_In. split.
    + by apply list_elem_of_In, elem_of_map_to_list.
    + simpl. by rewrite bool_decide_eq_true_2.
Qed.

Lemma joinpath_name r q :
  PurePath.parent q = r -> q <> r -> proper_name (PurePath.name q) ->
  PurePath.joinpath r (PurePath.name q) = q.
Proof.
  intros <- Hne Hn. unfold PurePath.joinpath. rewrite Hn.
  destruct q as [rt l]. unfold PurePath.parent, PurePath.name in *. simpl in *. f_equal.
  destruct (decide (l = [])) as [->|Hl]; [done|].
  symmetry. by apply app_removelast_last.
Qed.

Lemma parent_below d q :
  PurePath.below d q -> q <> d -> PurePath.below d (PurePath.parent q).
Proof.
  intros [Hr [k Hk]] Hne. split; [done|]. simpl. rewrite Hk.
  destruct k as [|x k] using rev_ind.
  - exfalso. apply Hne. rewrite app_nil_r in Hk. destruct q, d; simpl in *; congruence.
  - rewrite app_assoc, removelast_last. by eexists.
Qed.

Lemma child_below d r q :
  PurePath.below d r -> PurePath.parent q = r -> PurePath.below d q.
Proof.
  intros [Hr [k Hk]] <-. simpl in *. split; [done|].
  destruct (p_parts q) as [|x l] using rev_ind.
  - simpl in Hk. symmetry in Hk. apply app_eq_nil in Hk as [-> _]. apply prefix_nil.
  - rewrite removelast_last in Hk. rewrite Hk, <- app_assoc. by eexists.
Qed.

Lemma NoDup_flat_map {A B} (g : A -> list B) (l : list A) :
  NoDup l -> (forall x, x ∈ l -> NoDup (g x)) ->
  (forall x1 x2 y, x1 ∈ l -> x2 ∈ l -> y ∈ g x1 -> y ∈ g x2 -> x1 = x2) ->
  NoDup (flat_map g l).
Proof.
  induction 1 as [|x l Hx Hl IH]; intros Hg Hdis; simpl; [constructor|].
  apply NoDup_app. split; [apply Hg; left|]. split.
  - intros y Hy Hin. apply list_elem_of_In, in_flat_map in Hin as (x' & Hx' & Hy').
    apply list_elem_of_In in Hx', Hy'.
    assert (x = x') as <-; [|done].
    apply (Hdis x x' y); [left | by right | done | done].
  - apply IH.
    + intros x' Hx'. apply Hg. by right.
    + intros x1 x2 y H1 H2. apply Hdis; by right.
Qed.

Lemma NoDup_filter_keys (f : gmap path node) (P : path * node -> bool) :
  NoDup (List.map fst (List.filter P (map_to_list f))).
Proof.
  pose proof (NoDup_fst_map_to_list f) as Hnd. revert Hnd.
  generalize (map_to_list f). intros l. induction l as [|x l IH]; simpl; [constructor|].
  intros Hnd. apply NoDup_cons in Hnd as [Hx Hl].
  destruct (P x); simpl; [|by apply IH].
  apply NoDup_cons. split; [|by apply IH].
  intros Hin. apply Hx. apply list_elem_of_In, in_map_iff in Hin as (y & Hy & Hin).
  apply filter_In in Hin as [Hin _].
  apply list_elem_of_In, in_map_iff. by exists y.
Qed.

Lemma walk_dirs_nodup f top : NoDup (Walk.dirs f top).
Proof.
  unfold Walk.dirs. rewrite merge_sort_Permutation. apply NoDup_filter_keys.
Qed.

(** The files of a directory, as paths: each one once. *)
Lemma walk_files_nodup f r :
  (forall q l c, PurePath.parent q = r -> q <> r -> f !! q = Some (File l c) ->
                 proper_name (PurePath.name q)) ->
  NoDup (List.map (PurePath.joinpath r) (Walk.files f r)).
Proof.
  intros Hnames. unfold Walk.files.
  match goal with |- NoDup (List.map ?g (merge_sort ?R ?l)) =>
    assert (Permutation (List.map g (merge_sort R l)) (List.map g l)) as ->
      by apply Permutation_map, merge_sort_Permutation end.
  rewrite map_map.
  erewrite map_ext_in; [apply NoDup_filter_keys|].
  intros [q n] Hin. apply filter_In in Hin as [Hin Hb]. simpl in *.
    apply andb_prop in Hb as [Hb Hn]. apply bool_decide_eq_true in Hb as [Hp Hne].
    apply list_elem_of_In, elem_of_map_to_list in Hin.
    destruct n as [|l c]; [done|]. apply joinpath_name; eauto.
Qed.

Lemma omap_all {A B} (g g' : A -> option B) (l : list A) :
  Forall (fun x => is_Some (g x) /\ g' x = g x) l ->
  Forall2 (fun x y => g' x = Some y) l (omap g l).
Proof.
  induction 1 as [|x l [[y Hy] Heq] _ IH]; simpl; [constructor|].
  rewrite Hy. constructor; [congruence | done].
Qed.

Lemma NoDup_map_inj {A B} (g : A -> B) (l : list A) :
  (forall x y, g x = g y -> x = y) -> NoDup l -> NoDup (List.map g l).
Proof.
  intros Hinj. induction 1 as [|x l Hx _ IH]; simpl; constructor; [|done].
  intros Hin. apply list_elem_of_In, in_map_iff in Hin as (y & Heq & Hy).
  apply Hinj in Heq as ->. by apply Hx, list_elem_of_In.
Qed.

(** The paths that a walk writes, in its order: each directory, then the
    files in it. *)
Lemma walk_members_all f f' d w :
  Forall (fun rf : path * list string =>
            Forall (fun q => is_Some (member_of f d q)
                             /\ member_of f' d q = member_of f d q)
                   (rf.1 :: List.map (PurePath.joinpath rf.1) rf.2)) w ->
  Forall2 (fun q m => member_of f' d q = Some m)
          (flat_map (fun rf : path * list string =>
                       rf.1 :: List.map (PurePath.joinpath rf.1) rf.2) w)
          (walk_members f d w).
Proof.
  unfold walk_members. induction 1 as [|rf w Hrf _ IH]; [constructor|].
  cbn [flat_map]. apply Forall2_app; [|exact IH]. by apply omap_all.
Qed.

(** X14. A directory is added to a zip archive that is not inside it: the
    members that the archive had stay as they are, in front; after them
    comes exactly one member for each directory at or below the directory
    added and one for each file in them, the files with their bytes, and
    no other member: the members added are those of a list without
    repetition of these directories and files, one for one and in its
    order.  Nothing else on the disk is changed. *)
Theorem add_to_zip_appends_directory
  (E : env) (zparts dparts : list string) (ms0 : members) (st : state) :
  let zip_path := Path Disk zparts in
  let d := Path Disk dparts in
  fs st !! zip_path = Some (File false (Zip ms0)) ->
  is_dir (fs st) (PurePath.parent zip_path) = true ->
  is_dir (fs st) d = true ->
  ~ PurePath.below d zip_path ->
  locked_below (fs st) d = false ->
  (forall q l c, PurePath.below d q -> fs st !! q = Some (File l c) ->
                 proper_name (PurePath.name q)) ->
  exists added st',
    add_to_zip E zip_path (inl d) st = (Ok zip_path, st') /\
    fs st' !! zip_path = Some (File false (Zip (ms0 ++ added))) /\
    (forall parts, Path Disk parts <> zip_path ->
                   fs st' !! Path Disk parts = fs st !! Path Disk parts) /\
    (forall m, m ∈ added <->
               exists q, reached (fs st) d q /\ member_of (fs st) d q = Some m) /\
    (exists qs, NoDup qs /\ (forall q, q ∈ qs <-> reached (fs st) d q) /\
                Forall2 (fun q m => member_of (fs st) d q = Some m) qs added).
Proof.
  intros zip_path d Hzip Hzpar Hd Hout Hlock Hnames.
  set (tmp := Path (Scratch (next_tmp st)) []).
  set (s0 := State (<[tmp := Dir]> (fs st)) (trace st ++ [FsWrite tmp]) (S (next_tmp st))).
  assert (forall parts, fs s0 !! Path Disk parts = fs st !! Path Disk parts) as Hdisk.
  { intros parts. simpl. by rewrite lookup_insert_ne. }
  assert (forall q, PurePath.below d q -> fs s0 !! q = fs st !! q) as Hbelow.
  { intros [r parts] [Hr _]. simpl in Hr. subst r. apply Hdisk. }
  set (w := Walk.walk (fs s0) d).
  set (block := fun rf : path * list string =>
                  rf.1 :: List.map (PurePath.joinpath rf.1) rf.2).
  assert (is_dir (fs s0) d = true) as Hd0.
  { unfold is_dir in *. rewrite Hbelow; [done|apply below_refl]. }
  assert (forall rf, rf ∈ w <->
            rf.2 = Walk.files (fs s0) rf.1 /\ PurePath.below d rf.1
            /\ fs st !! rf.1 = Some Dir) as Hw.
  { intros [r files]. unfold w, Walk.walk. rewrite Hd0.
    rewrite list_elem_of_In, in_map_iff. simpl. split.
    - intros (r' & Heq & Hin). inversion Heq; subst.
      apply list_elem_of_In, walk_dirs_spec in Hin as [Hb Hr]. by rewrite <- Hbelow.
    - intros (-> & Hb & Hr). exists r. split; [done|].
      apply list_elem_of_In, walk_dirs_spec. by rewrite Hbelow. }
  assert (forall r file, PurePath.below d r -> file ∈ Walk.files (fs s0) r ->
            exists q c, PurePath.joinpath r file = q /\ PurePath.parent q = r /\ q <> r
                        /\ PurePath.below d q /\ fs st !! q = Some (File false c)) as Hfile.
  { intros r file Hb Hin. apply walk_files_spec in Hin as (q & l & c & Hn & Hp & Hne & Hq).
    assert (PurePath.below d q) as Hbq by (by eapply child_below).
    rewrite Hbelow in Hq by done.
    pose proof (locked_below_false _ _ _ _ Hlock Hbq Hq) as Hl. simpl in Hl.
    destruct l; [done|]. exists q, c. subst file.
    rewrite joinpath_name; eauto. }
  (* what a block of the walk holds *)
  assert (forall rf q, rf ∈ w -> q ∈ block rf ->
            PurePath.below d q /\
            ((q = rf.1 /\ fs st !! q = Some Dir) \/
             (exists c, fs st !! q = Some (File false c) /\ PurePath.parent q = rf.1
                        /\ q <> rf.1))) as Hblock.
  { intros rf q Hrf Hq. apply Hw in Hrf as (Hfiles & Hb & Hr).
    apply elem_of_cons in Hq as [->|Hq].
    - split; [done|]. by left.
    - apply list_elem_of_In, in_map_iff in Hq as (file & <- & Hin).
      apply list_elem_of_In in Hin. rewrite Hfiles in Hin.
      destruct (Hfile _ _ Hb Hin) as (q & c & -> & Hp & Hne & Hbq & Hq).
      split; [done|]. right. by exists c. }
  assert (forall rf q, rf ∈ w -> q ∈ block rf ->
            is_Some (member_of (fs st) d q) /\ q <> zip_path) as Hsome.
  { intros rf q Hrf Hq. destruct (Hblock rf q Hrf Hq) as [Hb [[_ Hn]|(c & Hn & _)]].
    - split; [unfold member_of; by rewrite Hn|]. intros ->. by apply Hout.
    - split; [unfold member_of; by rewrite Hn|]. intros ->. by apply Hout. }
  assert (forall q, PurePath.below d q -> member_of (fs s0) d q = member_of (fs st) d q)
    as Hmem.
  { intros q Hq. unfold member_of. by rewrite Hbelow. }
  assert (fs s0 !! zip_path = Some (File false (Zip ms0))) as Hzip0.
  { unfold zip_path. by rewrite Hdisk. }
  assert (is_dir (fs s0) (PurePath.parent zip_path) = true) as Hzpar0.
  { unfold is_dir in *. unfold PurePath.parent in *. simpl in *. by rewrite lookup_insert_ne. }
  destruct (write_walk_ok zip_path d w s0 ms0 Hzip0 Hzpar0) as (s1 & Hrun & Hfs1 & Hn1).
  { apply Forall_forall. intros rf Hrf. apply Forall_forall. intros q Hq.
    destruct (Hsome rf q Hrf Hq) as [Hs Hne]. destruct (Hblock rf q Hrf Hq) as [Hb _].
    split; [|done]. by rewrite Hmem. }
  set (added := walk_members (fs s0) d w) in *.
  set (st' := State (prune tmp (fs s1)) (trace s1 ++ [FsRemove tmp]) (next_tmp s1)).
  assert (forall parts, fs st' !! Path Disk parts
                        = <[zip_path := File false (Zip (ms0 ++ added))]> (fs st)
                          !! Path Disk parts) as Hfinal.
  { intros parts. unfold st'. simpl. rewrite lookup_prune.
    destruct (decide _) as [[Hr _]|_]; [done|]. rewrite Hfs1.
    destruct (decide (Path Disk parts = zip_path)) as [->|Hne].
    - by rewrite !lookup_insert_eq.
    - rewrite !lookup_insert_ne by done. apply Hdisk. }
  (* the paths that are written *)
  assert (forall q, q ∈ flat_map block w <-> reached (fs st) d q) as Hqs.
  { intros q. rewrite list_elem_of_In, in_flat_map. split.
    - intros (rf & Hrf & Hq). apply list_elem_of_In in Hrf, Hq.
      destruct (Hblock rf q Hrf Hq) as [Hb [[_ Hn]|(c & Hn & Hp & _)]].
      + split; [done|]. by rewrite Hn.
      + split; [done|]. rewrite Hn. apply Hw in Hrf as (_ & _ & Hr).
        unfold is_dir. by rewrite Hp, Hr.
    - intros [Hbq Hreach].
      destruct (fs st !! q) as [[|l c]|] eqn:Hq; [| |done].
      + exists (q, Walk.files (fs s0) q). split.
        * apply list_elem_of_In, Hw. by simpl.
        * by left.
      + set (r := PurePath.parent q).
        assert (q <> d) as Hqd.
        { intros ->. unfold is_dir in Hd. by rewrite Hq in Hd. }
        assert (q <> r) as Hqr.
        { intros Heq. unfold is_dir in Hreach. fold r in Hreach. rewrite <- Heq in Hreach.
          by rewrite Hq in Hreach. }
        assert (PurePath.below d r) as Hbr by (by apply parent_below).
        exists (r, Walk.files (fs s0) r). split.
        * apply list_elem_of_In, Hw. simpl. split; [done|]. split; [done|].
          unfold is_dir in Hreach. fold r in Hreach.
          by destruct (fs st !! r) as [[]|].
        * right. apply in_map_iff. exists (PurePath.name q). split.
          -- apply joinpath_name; eauto.
          -- apply list_elem_of_In, walk_files_spec. exists q, l, c.
             rewrite Hbelow by done. done. }
  assert (Forall2 (fun q m => member_of (fs st) d q = Some m) (flat_map block w) added)
    as Hone.
  { apply walk_members_all. apply Forall_forall. intros rf Hrf.
    apply Forall_forall. intros q Hq.
    destruct (Hsome rf q Hrf Hq) as [Hs _]. destruct (Hblock rf q Hrf Hq) as [Hb _].
    rewrite Hmem by done. done. }
  exists added, st'. split; [|split; [|split; [|split]]].
  - unfold add_to_zip. erewrite bind_ok by reflexivity.
    assert (is_file (fs st) zip_path = true) as -> by (unfold is_file; by rewrite Hzip).
    cbn [negb]. erewrite bind_ok.
    2: { unfold zip_open_append. erewrite bind_ok; [|unfold Os.read_file; by rewrite Hzip].
         reflexivity. }
    erewrite bind_ok; [reflexivity|].
    cbn [add_all]. erewrite bind_ok; [reflexivity|]. unfold add_one.
    erewrite bind_ok by reflexivity. fold tmp. fold s0.
    erewrite bind_ok by reflexivity.
    assert (is_file (fs s0) d = false) as ->.
    { unfold is_file, is_dir in *. rewrite Hbelow by apply below_refl.
      by destruct (fs st !! d) as [[]|]. }
    erewrite bind_ok by reflexivity. erewrite bind_ok by reflexivity.
    fold w. erewrite bind_ok by exact Hrun. reflexivity.
  - unfold zip_path. rewrite Hfinal. by rewrite lookup_insert_eq.
  - intros parts Hne. rewrite Hfinal. by rewrite lookup_insert_ne.
  - intros m. split.
    + intros Hm. apply list_elem_of_lookup in Hm as [i Hi].
      destruct (Forall2_lookup_r _ _ _ _ _ Hone Hi) as (q & Hq & Hqm).
      exists q. split; [|done]. apply Hqs. by eapply list_elem_of_lookup_2.
    + intros (q & Hq & Hm). apply Hqs, list_elem_of_lookup in Hq as [i Hi].
      destruct (Forall2_lookup_l _ _ _ _ _ Hone Hi) as (m' & Hm' & Hqm).
      assert (m' = m) as -> by congruence. by eapply list_elem_of_lookup_2.
  - exists (flat_map block w). split; [|split; [exact Hqs | exact Hone]].
    apply NoDup_flat_map.
    + unfold w, Walk.walk. rewrite Hd0. apply NoDup_map_inj; [|apply walk_dirs_nodup].
      intros x y Heq. by inversion Heq.
    + intros rf Hrf. unfold block. apply NoDup_cons. split.
      * intros Hin.
        assert (rf.1 ∈ block rf) as Hhead by (unfold block; by right).
        apply list_elem_of_In, in_map_iff in Hin as (file & Heq & Hin).
        apply list_elem_of_In in Hin. pose proof Hrf as Hrf'.
        apply Hw in Hrf' as (Hfiles & Hb & Hr). rewrite Hfiles in Hin.
        destruct (Hfile _ _ Hb Hin) as (q & c & Hq & _ & Hne & _). congruence.
      * pose proof Hrf as Hrf'. apply Hw in Hrf' as (-> & Hb & Hr).
        apply walk_files_nodup. intros q l c Hp Hne Hq. eapply (Hnames q l c).
        -- by eapply child_below.
        -- rewrite <- Hbelow; [done|]. by eapply child_below.
    + intros rf1 rf2 q H1 H2 Hq1 Hq2.
      destruct (Hblock rf1 q H1 Hq1) as [_ Ho1]. destruct (Hblock rf2 q H2 Hq2) as [_ Ho2].
      assert (rf1.1 = rf2.1) as Heq.
      { destruct Ho1 as [[E1 N1]|(c1 & N1 & P1 & _)];
          destruct Ho2 as [[E2 N2]|(c2 & N2 & P2 & _)]; congruence. }
      apply Hw in H1 as (F1 & _). apply Hw in H2 as (F2 & _).
      destruct rf1, rf2. simpl in *. congruence.
Qed.

Lemma add_to_zip_appends_directory_witness :
  let st := fresh [([], Dir); (["z"], Dir);
                   (["z"; "a.zip"], File false (Zip [("old.txt", EFile (bytes_of "o"))]));
                   (["d"], Dir); (["d"; "f.txt"], File false (bytes_of "x"));
                   (["d"; "s"], Dir); (["d"; "s"; "g.txt"], File false (bytes_of "y"))] in
  exists added st',
    add_to_zip (python false id) (Path Disk ["z"; "a.zip"]) (inl (Path Disk ["d"])) st
    = (Ok (Path Disk ["z"; "a.zip"]), st') /\
    fs st' !! Path Disk ["z"; "a.zip"]
    = Some (File false (Zip ([("old.txt", EFile (bytes_of "o"))] ++ added))) /\
    ("d/s/g.txt", EFile (bytes_of "y")) ∈ added.
Proof.
  intros st.
  destruct (add_to_zip_appends_directory
              (python false id) ["z"; "a.zip"] ["d"] [("old.txt", EFile (bytes_of "o"))] st)
    as (added & st' & Hrun & Hzip & _ & Hadded & _).
  - vm_compute. reflexivity.
  - vm_compute. reflexivity.
  - vm_compute. reflexivity.
  - intros [_ [k Hk]]. discriminate.
  - vm_compute. reflexivity.
  - intros q l c _ Hq. apply elem_of_list_to_map_2 in Hq. simpl in Hq.
    repeat (apply elem_of_cons in Hq as [Hq|Hq]; [inversion Hq; subst; reflexivity|]).
    by apply elem_of_nil in Hq.
  - exists added, st'. split; [exact Hrun|]. split; [exact Hzip|].
    apply Hadded. exists (Path Disk ["d"; "s"; "g.txt"]). split.
    + split; [split; [reflexivity | by exists ["s"; "g.txt"]]|]. vm_compute. reflexivity.
    + vm_compute. reflexivity.
Defined.
(** ** Names, and the paths that are made of them *)

Lemma prefix_slash c s : String.prefix "/" (String c s) = Ascii.eqb c "/".
Proof.
  change (String.prefix "/" (String c s))
    with (if ascii_dec "/" c then String.prefix "" s else false).
  destruct (Ascii.eqb_spec c "/") as [->|Hne];
    destruct (ascii_dec "/" _) as [Heq|Hne']; try done.
  by destruct s.
Qed.

Lemma split_no_slash s : Str.contains "/" s = false -> Str.split "/" s = [s].
Proof.
  induction s as [|c s IH]; [done|].
  cbn [Str.contains]. rewrite prefix_slash. intros H.
  apply orb_false_elim in H as [Hc Hs]. simpl. rewrite Hc, IH; done.
Qed.

Lemma split_app_slash x r :
  Str.contains "/" x = false ->
  Str.split "/" (x +:+ String "/" r) = x :: Str.split "/" r.
Proof.
  induction x as [|c x IH]; intros H.
  - done.
  - cbn [Str.contains] in H. rewrite prefix_slash in H.
    apply orb_false_elim in H as [Hc Hs].
    rewrite ReFacts.append_String. simpl. rewrite Hc, IH; done.
Qed.

Lemma join_cons x y l : Str.join "/" (x :: y :: l) = x +:+ String "/" (Str.join "/" (y :: l)).
Proof. done. Qed.

Lemma split_join l :
  l <> [] -> Forall (fun s => Str.contains "/" s = false) l ->
  Str.split "/" (Str.join "/" l) = l.
Proof.
  intros Hl Hall. induction Hall as [|x l Hx Hall IH]; [done|].
  destruct l as [|y l].
  - by apply split_no_slash.
  - rewrite join_cons, split_app_slash by done. f_equal. by apply IH.
Qed.

Lemma join_snoc l : l <> [] -> Str.join "/" l +:+ "/" = Str.join "/" (l ++ [""]).
Proof.
  induction l as [|x l IH]; [done|]. intros _.
  destruct l as [|y l].
  - done.
  - change ((x :: y :: l) ++ [""])%list with (x :: y :: (l ++ [""]))%list.
    rewrite !join_cons.
    change (y :: (l ++ [""]))%list with ((y :: l) ++ [""])%list. rewrite <- IH by done.
    generalize (Str.join "/" (y :: l)). intros r.
    induction x as [|c x IHx]; [done|]. rewrite !ReFacts.append_String. by rewrite IHx.
Qed.

Lemma entry_name_no_slash s : entry_name s = true -> Str.contains "/" s = false.
Proof. unfold entry_name. intros H. repeat (apply andb_prop in H as [H ?]). by apply negb_true_iff. Qed.

Lemma entry_names_no_slash l :
  forallb entry_name l = true -> Forall (fun s => Str.contains "/" s = false) l.
Proof.
  intros H. apply Forall_forall. intros s Hs. apply entry_name_no_slash.
  rewrite forallb_forall in H. by apply H, list_elem_of_In.
Qed.

Lemma entry_name_proper s : entry_name s = true -> proper_name s.
Proof.
  intros H. unfold proper_name, PurePath.components.
  rewrite split_no_slash by (by apply entry_name_no_slash).
  unfold entry_name in H. repeat (apply andb_prop in H as [H ?]).
  simpl. apply negb_true_iff in H. rewrite H.
  match goal with Hd : negb (String.eqb s ".") = true |- _ => apply negb_true_iff in Hd; rewrite Hd end.
  done.
Qed.

(** ** Paths: what lies above a path *)

Lemma elem_lineage a p : a ∈ lineage p <-> PurePath.below a p.
Proof.
  unfold lineage, PurePath.below. rewrite list_elem_of_In, in_map_iff. split.
  - intros (n & <- & _). simpl. split; [done|].
    exists (drop n (p_parts p)). by rewrite take_drop.
  - intros [Hr [k Hk]]. exists (length (p_parts a)). split.
    + rewrite Hk, take_app_length. rewrite <- Hr. by destruct a.
    + apply in_seq. rewrite Hk, length_app. lia.
Qed.

Lemma elem_ancestors a p : a ∈ ancestors p <-> PurePath.below a p /\ a <> p.
Proof.
  split.
  - intros Hin. assert (a ∈ lineage p) as Hl.
    { unfold ancestors, lineage in *. apply list_elem_of_In, in_map_iff in Hin as (n & <- & Hn).
      apply list_elem_of_In, in_map_iff. exists n. split; [done|].
      apply in_seq in Hn. apply in_seq. lia. }
    split; [by apply elem_lineage|]. intros ->.
    unfold ancestors in Hin. apply list_elem_of_In, in_map_iff in Hin as (n & Heq & Hn).
    apply in_seq in Hn. apply (f_equal p_parts) in Heq. simpl in Heq.
    apply (f_equal length) in Heq. rewrite length_take in Heq. lia.
  - intros [Hb Hne]. apply elem_lineage, lineage_ancestors in Hb as [?|?]; done.
Qed.

Lemma lookup_plant p f a :
  plant p f !! a = if decide (PurePath.below a p) then Some Dir else f !! a.
Proof.
  destruct (decide _) as [Hb|Hb].
  - apply elem_lineage in Hb. unfold plant.
    induction (lineage p) as [|x l IH]; [by apply elem_of_nil in Hb|]. simpl.
    destruct (decide (x = a)) as [->|Hne]; [by rewrite lookup_insert_eq|].
    rewrite lookup_insert_ne by done. apply IH.
    apply elem_of_cons in Hb as [?|?]; [by subst|done].
  - apply plant_other. by rewrite elem_lineage.
Qed.

Lemma blocked_false f p :
  blocked f p = false <-> forall a, PurePath.below a p -> a <> p -> is_file f a = false.
Proof.
  split.
  - intros Hb a Ha Hne. eapply ancestor_not_file; [exact Hb|]. by apply elem_ancestors.
  - intros H. unfold blocked. destruct (existsb _ _) eqn:Hex; [|done].
    apply existsb_exists in Hex as (a & Ha & Hf).
    apply list_elem_of_In, elem_ancestors in Ha as [Ha Hne]. by rewrite H in Hf.
Qed.

Lemma below_trans p q r : PurePath.below p q -> PurePath.below q r -> PurePath.below p r.
Proof.
  intros [H1 P1] [H2 P2]. split; [congruence|]. by etrans.
Qed.

Lemma below_antisym p q : PurePath.below p q -> PurePath.below q p -> p = q.
Proof.
  intros [H1 P1] [H2 P2]. destruct p, q; simpl in *. f_equal; [done|].
  by apply (anti_symm prefix).
Qed.

(** Two paths above one path lie one above the other. *)
Lemma below_chain a b t :
  PurePath.below a t -> PurePath.below b t -> PurePath.below a b \/ PurePath.below b a.
Proof.
  intros [Ha Pa] [Hb Pb].
  destruct (prefix_weak_total _ _ _ Pa Pb) as [H|H]; [left|right]; split; congruence || done.
Qed.

Lemma parent_above p : PurePath.below (PurePath.parent p) p.
Proof.
  split; [done|]. simpl. destruct (p_parts p) as [|x l] using rev_ind.
  - done.
  - rewrite removelast_last. by eexists.
Qed.

Lemma parent_differs p : p_parts p <> [] -> PurePath.parent p <> p.
Proof.
  intros Hp Heq. apply (f_equal p_parts) in Heq. simpl in Heq.
  destruct (p_parts p) as [|x l] using rev_ind; [done|].
  rewrite removelast_last in Heq. apply (f_equal length) in Heq.
  rewrite length_app in Heq. simpl in Heq. lia.
Qed.

(** What lies strictly above [p] lies above its parent. *)
Lemma above_parent a p : PurePath.below a p -> a <> p -> PurePath.below a (PurePath.parent p).
Proof.
  intros [Hr [k Hk]] Hne. split; [done|]. simpl. rewrite Hk.
  destruct k as [|x k] using rev_ind.
  - exfalso. apply Hne. rewrite app_nil_r in Hk. destruct a, p; simpl in *; congruence.
  - rewrite app_assoc, removelast_last. by eexists.
Qed.

(** ** The entries of a tree, and where an archive puts them *)

(** An entry at or below [d]: its place below the parent of [d], and
    where it goes when the tree is put into [out]. *)
Lemma rebase_tree d out q :
  p_parts d <> [] -> PurePath.below d q ->
  exists k,
    p_parts q = (p_parts (PurePath.parent d) ++ PurePath.name d :: k)%list /\
    drop (length (p_parts d) - 1) (p_parts q) = PurePath.name d :: k /\
    Shutil.rebase (PurePath.parent d) out q
    = Path (p_root out) (p_parts out ++ PurePath.name d :: k).
Proof.
  intros Hd [Hr [k Hk]]. exists k.
  assert (p_parts d = (removelast (p_parts d) ++ [PurePath.name d])%list) as Hsplit.
  { unfold PurePath.name. by apply app_removelast_last. }
  assert (length (removelast (p_parts d)) = length (p_parts d) - 1) as Hlen.
  { rewrite Hsplit at 2. rewrite length_app. simpl. lia. }
  assert (p_parts q = (removelast (p_parts d) ++ PurePath.name d :: k)%list) as Hq.
  { rewrite Hk. rewrite Hsplit at 1. by rewrite <- app_assoc. }
  split; [exact Hq|]. split.
  - rewrite Hq, <- Hlen. by rewrite list.drop_app_length.
  - unfold Shutil.rebase. simpl. rewrite Hq. by rewrite list.drop_app_length.
Qed.

Lemma tree_place d out :
  p_parts d <> [] ->
  Shutil.rebase (PurePath.parent d) out d
  = Path (p_root out) (p_parts out ++ [PurePath.name d]).
Proof.
  intros Hd. destruct (rebase_tree d out d Hd (below_refl d)) as (k & Hq & _ & Hr).
  rewrite Hr. do 2 f_equal.
  assert (p_parts d = (removelast (p_parts d) ++ [PurePath.name d])%list) as Hsplit.
  { unfold PurePath.name. by apply app_removelast_last. }
  simpl in Hq. rewrite Hsplit in Hq at 1. apply app_inv_head in Hq. congruence.
Qed.

Lemma rebase_tree_below d out q :
  p_parts d <> [] -> PurePath.below d q ->
  PurePath.below (Shutil.rebase (PurePath.parent d) out d)
                 (Shutil.rebase (PurePath.parent d) out q).
Proof.
  intros Hd Hq. rewrite tree_place by done.
  destruct (rebase_tree d out q Hd Hq) as (k & _ & _ & ->).
  split; [done|]. simpl. exists k. by rewrite <- app_assoc.
Qed.

(** What lies between the place of the tree and the place of an entry
    is the place of an entry above it. *)
Lemma rebase_between d out q x :
  p_parts d <> [] -> PurePath.below d q ->
  PurePath.below (Shutil.rebase (PurePath.parent d) out d) x ->
  PurePath.below x (Shutil.rebase (PurePath.parent d) out q) ->
  exists q', PurePath.below d q' /\ PurePath.below q' q
             /\ x = Shutil.rebase (PurePath.parent d) out q'.
Proof.
  intros Hd Hq HT Hx.
  destruct (rebase_tree d out q Hd Hq) as (k & Hparts & _ & Hr).
  rewrite tree_place in HT by done. rewrite Hr in Hx.
  destruct HT as [HTr [k1 Hk1]]. destruct Hx as [Hxr [k2 Hk2]]. simpl in *.
  rewrite Hk1, <- !app_assoc in Hk2. apply app_inv_head in Hk2. simpl in Hk2.
  injection Hk2 as Hk2.
  assert (p_parts d = (removelast (p_parts d) ++ [PurePath.name d])%list) as Hsplit.
  { unfold PurePath.name. by apply app_removelast_last. }
  set (q' := Path (p_root q) (p_parts d ++ k1)).
  assert (PurePath.below d q') as Hq'.
  { split; [apply Hq|]. by exists k1. }
  exists q'. split; [done|]. split.
  - split; [done|]. simpl. exists k2. rewrite Hparts, Hk2.
    rewrite Hsplit at 2. by rewrite <- !app_assoc.
  - destruct (rebase_tree d out q' Hd Hq') as (k' & Hparts' & _ & ->).
    simpl in Hparts'. rewrite Hsplit in Hparts' at 1. rewrite <- app_assoc in Hparts'.
    apply app_inv_head in Hparts'. simpl in Hparts'. injection Hparts' as <-.
    destruct x as [rx px]. simpl in *. subst. by rewrite <- app_assoc.
Qed.

(** In a sound tree, what lies above an entry is a directory. *)
Lemma sound_tree_above f d q' q :
  sound_tree f d -> PurePath.below d q' -> PurePath.below q' q -> q' <> q ->
  is_Some (f !! q) -> f !! q' = Some Dir.
Proof.
  intros (_ & _ & Hsound) Hd.
  remember (length (p_parts q)) as n eqn:Hn. revert q Hn.
  induction n as [n IH] using lt_wf_ind. intros q Hn Hb Hne Hq.
  assert (PurePath.below d q) as Hdq by (by eapply below_trans).
  assert (q <> d) as Hqd.
  { intros ->. apply Hne. by apply below_antisym. }
  destruct (Hsound q Hdq Hq) as [_ Hpar]. specialize (Hpar Hqd).
  assert (f !! PurePath.parent q = Some Dir) as Hp.
  { unfold is_dir in Hpar. by destruct (f !! PurePath.parent q) as [[]|]. }
  destruct (decide (q' = PurePath.parent q)) as [->|Hne']; [done|].
  assert (p_parts q <> []) as Hparts.
  { intros Hnil. apply Hne. destruct Hb as [Hr [k Hk]]. rewrite Hnil in Hk.
    symmetry in Hk. apply app_eq_nil in Hk as [Hk _].
    destruct q, q'; simpl in *; congruence. }
  apply (IH (length (p_parts (PurePath.parent q)))) with (q := PurePath.parent q);
    [|done|by apply above_parent|done|by rewrite Hp].
  subst n. simpl. destruct (p_parts q) as [|x l] using rev_ind; [done|].
  rewrite removelast_last, length_app. simpl. lia.
Qed.

Lemma sound_tree_names f d q :
  sound_tree f d -> PurePath.below d q -> is_Some (f !! q) ->
  forallb entry_name (p_parts q) = true.
Proof. intros (_ & _ & Hsound) Hd Hq. by apply Hsound. Qed.

Lemma sound_tree_node f d q n :
  sound_tree f d -> PurePath.below d q -> f !! q = Some n ->
  n = Dir \/ exists c, n = File false c.
Proof.
  intros (_ & Hlock & _) Hd Hq.
  pose proof (locked_below_false _ _ _ _ Hlock Hd Hq) as Hl.
  destruct n as [|[] c]; [by left|done|right; by eexists].
Qed.

Lemma place_inj d out q1 q2 :
  PurePath.below d q1 -> PurePath.below d q2 ->
  Shutil.rebase (PurePath.parent d) out q1 = Shutil.rebase (PurePath.parent d) out q2 ->
  q1 = q2.
Proof.
  intros H1 H2. apply rebase_inj; (eapply below_trans; [apply parent_above|done]).
Qed.

(** ** The names of the members of an archive *)

Lemma append_assoc x y z : (x +:+ y) +:+ z = x +:+ (y +:+ z).
Proof.
  induction x as [|c x IH]; [done|]. rewrite !ReFacts.append_String. by rewrite IH.
Qed.

Lemma join_app_last l s : l <> [] -> Str.join "/" (l ++ [s]) = Str.join "/" l +:+ String "/" s.
Proof.
  induction l as [|x l IH]; [done|]. intros _.
  destruct l as [|y l]; [done|].
  change ((x :: y :: l) ++ [s])%list with (x :: y :: (l ++ [s]))%list.
  rewrite !join_cons.
  change (y :: (l ++ [s]))%list with ((y :: l) ++ [s])%list. rewrite IH by done.
  rewrite append_assoc. by rewrite ReFacts.append_String.
Qed.

Lemma rev_acc_app s acc : Str.rev_acc s acc = Str.rev_acc s "" +:+ acc.
Proof.
  revert acc. induction s as [|c s IH]; intros acc; [done|]. simpl.
  rewrite (IH (String c acc)), (IH (String c "")). by rewrite append_assoc.
Qed.

Lemma rev_snoc x c : Str.rev (x +:+ String c "") = String c (Str.rev x).
Proof.
  unfold Str.rev.
  assert (forall acc, Str.rev_acc (x +:+ String c "") acc = String c (Str.rev_acc x acc)) as H;
    [|apply H].
  induction x as [|a x IH]; intros acc; [done|].
  rewrite ReFacts.append_String. simpl. by rewrite IH.
Qed.

Lemma endswith_slash_snoc x c : Str.endswith "/" (x +:+ String c "") = Ascii.eqb c "/".
Proof. unfold Str.endswith. rewrite rev_snoc. apply prefix_slash. Qed.

Lemma string_snoc s : s <> "" -> exists x c, s = x +:+ String c "".
Proof.
  induction s as [|a s IH]; [done|]. intros _.
  destruct s as [|b s].
  - by exists "", a.
  - destruct IH as (x & c & Hx); [done|]. exists (String a x), c.
    rewrite ReFacts.append_String. by rewrite <- Hx.
Qed.

Lemma contains_slash_app x y :
  Str.contains "/" (x +:+ y) = false -> Str.contains "/" y = false.
Proof.
  induction x as [|c x IH]; [done|]. rewrite ReFacts.append_String.
  cbn [Str.contains]. rewrite prefix_slash. intros H.
  apply orb_false_elim in H as [_ H]. by apply IH.
Qed.

Lemma endswith_slash_name pre s :
  entry_name s = true -> Str.endswith "/" (pre +:+ s) = false.
Proof.
  intros Hs. destruct (string_snoc s) as (x & c & ->).
  { intros ->. done. }
  rewrite <- append_assoc, endswith_slash_snoc.
  apply entry_name_no_slash, contains_slash_app in Hs.
  cbn [Str.contains] in Hs. rewrite prefix_slash in Hs.
  by apply orb_false_elim in Hs as [-> _].
Qed.

(** The name of a file in an archive does not end in a slash. *)
Lemma endswith_slash_join l :
  l <> [] -> forallb entry_name l = true -> Str.endswith "/" (Str.join "/" l) = false.
Proof.
  intros Hl Hall. destruct l as [|s l] using rev_ind; [done|]. clear IHl.
  rewrite forallb_app in Hall. apply andb_prop in Hall as [_ Hs]. simpl in Hs.
  rewrite andb_true_r in Hs.
  destruct l as [|y l].
  - apply (endswith_slash_name "" s Hs).
  - rewrite join_app_last by done.
    change (String "/" s) with ("/" +:+ s). rewrite <- append_assoc.
    by apply endswith_slash_name.
Qed.

Lemma endswith_slash_dir x : Str.endswith "/" (x +:+ "/") = true.
Proof. by rewrite endswith_slash_snoc. Qed.

Lemma filter_entry_names l :
  forallb entry_name l = true ->
  List.filter (fun c => negb (String.eqb c "" || String.eqb c "." || String.eqb c "..")) l = l.
Proof.
  induction l as [|s l IH]; [done|]. simpl. intros H.
  apply andb_prop in H as [Hs Hl]. rewrite IH by done.
  unfold entry_name in Hs. repeat (apply andb_prop in Hs as [Hs ?]).
  repeat match goal with H : negb _ = true |- _ => apply negb_true_iff in H end.
  by rewrite Hs, H1, H0.
Qed.

(** Where a zip archive puts a member that is named by the components
    [l], a file and a directory. *)
Lemma zip_target_file out l :
  l <> [] -> forallb entry_name l = true ->
  ZipFile.target out (Str.join "/" l) = Path (p_root out) (p_parts out ++ l).
Proof.
  intros Hl Hall. unfold ZipFile.target.
  rewrite split_join by (done || by apply entry_names_no_slash).
  by rewrite filter_entry_names.
Qed.

Lemma zip_target_dir out l :
  l <> [] -> forallb entry_name l = true ->
  ZipFile.target out (Str.join "/" l +:+ "/") = Path (p_root out) (p_parts out ++ l).
Proof.
  intros Hl Hall. unfold ZipFile.target.
  rewrite join_snoc by done. rewrite split_join.
  - rewrite List.filter_app, filter_entry_names by done. simpl. by rewrite app_nil_r.
  - by destruct l.
  - apply Forall_app. split; [by apply entry_names_no_slash|]. by apply Forall_singleton.
Qed.

Lemma last_named_elem name ms e : last_named name ms = Some e -> (name, e) ∈ ms.
Proof.
  unfold last_named. destruct (List.find _ _) as [[n e']|] eqn:Hf; [|done].
  intros [= <-]. apply find_some in Hf as [Hin Heq]. simpl in Heq.
  apply String.eqb_eq in Heq as ->. apply list_elem_of_In. by apply in_rev.
Qed.

Lemma last_named_some name ms : name ∈ List.map fst ms -> is_Some (last_named name ms).
Proof.
  intros Hin. apply list_elem_of_In, in_map_iff in Hin as ([n e] & <- & Hin).
  unfold last_named. destruct (List.find _ _) as [m|] eqn:Hf; [by eexists|].
  exfalso. pose proof (find_none _ _ Hf (n, e)) as Hnone. simpl in Hnone.
  rewrite String.eqb_refl in Hnone. discriminate Hnone. by apply in_rev in Hin.
Qed.

(** ** A tree is put into a directory, entry by entry *)

Lemma place_differs d out q :
  p_parts d <> [] -> PurePath.below d q ->
  PurePath.parent (Shutil.rebase (PurePath.parent d) out q)
  <> Shutil.rebase (PurePath.parent d) out q.
Proof.
  intros Hd Hq. apply parent_differs.
  destruct (rebase_tree d out q Hd Hq) as (k & _ & _ & ->). simpl.
  by destruct (p_parts out).
Qed.

(** What is there above the place of an entry, inside the place of the
    tree, is a directory. *)
Lemma unpacking_above f0 d out f q a n :
  sound_tree f0 d -> p_parts d <> [] -> unpacking f0 d out f ->
  PurePath.below d q -> is_Some (f0 !! q) ->
  PurePath.below (Shutil.rebase (PurePath.parent d) out d) a ->
  PurePath.below a (Shutil.rebase (PurePath.parent d) out q) ->
  a <> Shutil.rebase (PurePath.parent d) out q ->
  f !! a = Some n -> n = Dir.
Proof.
  intros Hsound Hd Hinv Hq Hsome HT Ha Hne Hlook.
  unfold unpacking in Hinv. cbv zeta in Hinv. destruct Hinv as (_ & _ & Hinv).
  destruct (Hinv a n HT Hlook) as (q1 & Hq1 & Heq1 & Hn).
  destruct (rebase_between d out q a Hd Hq HT Ha) as (q' & Hq' & Habove & Heq').
  assert (q1 = q') as -> by (apply (place_inj d out); [done|done|congruence]).
  assert (q' <> q) as Hneq by (intros ->; done).
  pose proof (sound_tree_above f0 d q' q Hsound Hq' Habove Hneq Hsome). congruence.
Qed.

Lemma unpacking_insert f0 d out f q n :
  sound_tree f0 d -> p_parts d <> [] -> unpacking f0 d out f ->
  PurePath.below d q -> f0 !! q = Some n ->
  unpacking f0 d out (<[Shutil.rebase (PurePath.parent d) out q := n]> f).
Proof.
  intros Hsound Hd Hinv Hq Hn.
  unfold unpacking in *. cbv zeta in *. destruct Hinv as (Hblocked & Hdir & Hinv).
  pose proof (rebase_tree_below d out q Hd Hq) as Hbelow.
  split; [|split].
  - apply blocked_false. intros a Ha Hne.
    rewrite blocked_false in Hblocked. specialize (Hblocked a Ha Hne).
    unfold is_file in *. rewrite lookup_insert_ne; [done|].
    intros <-. apply Hne. by apply below_antisym.
  - unfold is_dir in *. rewrite lookup_insert_ne; [done|].
    destruct (rebase_tree d out q Hd Hq) as (k & _ & _ & ->).
    destruct out as [ro po]. simpl. intros [= Heq].
    apply (f_equal length) in Heq. rewrite length_app in Heq. simpl in Heq. lia.
  - intros t n' Ht Hlook. cbv zeta in *.
    destruct (decide (Shutil.rebase (PurePath.parent d) out q = t)) as [<-|Hne].
    + rewrite lookup_insert_eq in Hlook. injection Hlook as <-. by exists q.
    + rewrite lookup_insert_ne in Hlook by done. by apply Hinv.
Qed.

(** [upperdirs] for the place of an entry: the directories above it are
    made where they are missing, as the directories of the tree. *)
Lemma upperdirs_unpacking f0 d out q s :
  sound_tree f0 d -> p_parts d <> [] -> unpacking f0 d out (fs s) ->
  PurePath.below d q -> is_Some (f0 !! q) ->
  let t := Shutil.rebase (PurePath.parent d) out q in
  exists s',
    upperdirs t s = (Ok tt, s') /\
    unpacking f0 d out (fs s') /\
    next_tmp s' = next_tmp s /\
    (forall x n, PurePath.below (Shutil.rebase (PurePath.parent d) out d) x ->
                 fs s !! x = Some n -> fs s' !! x = Some n) /\
    is_dir (fs s') (PurePath.parent t) = true /\
    fs s' !! t = fs s !! t /\
    (forall x, p_root x <> p_root out -> fs s' !! x = fs s !! x) /\
    (forall x, ~ PurePath.below x t -> fs s' !! x = fs s !! x).
Proof.
  intros Hsound Hd Hinv Hq Hsome t.
  pose proof Hinv as Hinv0.
  unfold unpacking in Hinv |- *. cbv zeta in Hinv |- *.
  set (T := Shutil.rebase (PurePath.parent d) out d) in *.
  pose proof (rebase_tree_below d out q Hd Hq) as HTt. fold T t in HTt.
  pose proof (place_differs d out q Hd Hq) as Hpar. fold t in Hpar.
  assert (q <> d -> PurePath.below T (PurePath.parent t)) as HTpar.
  { intros Hne. apply above_parent; [done|]. intros Heq. apply Hne.
    symmetry. apply (place_inj d out); [apply below_refl|done|exact Heq]. }
  assert (forall a n, PurePath.below T a -> PurePath.below a t -> a <> t ->
                      fs s !! a = Some n -> n = Dir) as Habove.
  { intros a n. by apply (unpacking_above f0 d out (fs s) q a n). }
  clear Hinv0.
  unfold upperdirs. erewrite bind_ok by reflexivity.
  destruct (exists_ (fs s) (PurePath.parent t)) eqn:Hex.
  - exists s. split; [done|]. split; [done|]. split; [done|]. split; [done|].
    split; [|done].
    destruct (decide (q = d)) as [->|Hne].
    + destruct Hinv as (_ & Hdout & _). unfold t. rewrite tree_place by done.
      unfold PurePath.parent. simpl. rewrite removelast_last. by destruct out.
    + unfold exists_, is_dir in *.
      destruct (fs s !! PurePath.parent t) as [n|] eqn:Hp; [|done].
      rewrite (Habove (PurePath.parent t) n); auto using parent_above.
  - assert (forall a, PurePath.below a t -> a <> t -> is_file (fs s) a = false) as Hfree.
    { intros a Ha Hne. unfold is_file.
      destruct (fs s !! a) as [n|] eqn:Hlook; [|done].
      destruct (below_chain a T t Ha HTt) as [HaT|HTa].
      - destruct (decide (a = T)) as [->|HneT].
        + by rewrite (Habove T n (below_refl T) Ha Hne Hlook).
        + destruct Hinv as (Hb & _ & _). fold T in Hb. rewrite blocked_false in Hb.
          specialize (Hb a HaT HneT). unfold is_file in Hb. by rewrite Hlook in Hb.
      - by rewrite (Habove a n HTa Ha Hne Hlook). }
    assert (blocked (fs s) (PurePath.parent t) = false) as Hnb.
    { apply blocked_false. intros a Ha Hne. apply Hfree.
      - eapply below_trans; [exact Ha|apply parent_above].
      - intros ->. apply Hpar. apply below_antisym; [apply parent_above|done]. }
    assert (is_file (fs s) (PurePath.parent t) = false) as Hnf.
    { apply Hfree; [apply parent_above|done]. }
    assert (is_dir (fs s) (PurePath.parent t) = false) as Hnd.
    { unfold is_dir, exists_ in *. by destruct (fs s !! PurePath.parent t). }
    unfold Os.makedirs. rewrite Hnb, Hnf, Hnd.
    eexists. split; [reflexivity|]. simpl.
    assert (forall x, PurePath.below x (PurePath.parent t) ->
                      PurePath.below x t /\ x <> t) as Hup.
    { intros x Hx. split.
      - eapply below_trans; [exact Hx|apply parent_above].
      - intros ->. apply Hpar. apply below_antisym; [apply parent_above|done]. }
    split; [|split; [done|split; [|split; [|split; [|split]]]]].
    + destruct Hinv as (Hb & Hdir & Hinv). fold T in Hb, Hdir, Hinv.
      split; [|split]; fold T.
      * apply blocked_false. intros a Ha Hne. rewrite blocked_false in Hb.
        unfold is_file. rewrite lookup_plant. destruct (decide _); [done|].
        by apply Hb.
      * unfold is_dir in *. destruct (fs s !! out) as [[]|] eqn:HT; try done.
        by erewrite plant_dirs.
      * intros x n Hx Hlook. rewrite lookup_plant in Hlook.
        destruct (decide _) as [Hbx|Hbx]; [|by apply Hinv].
        injection Hlook as <-. destruct (Hup x Hbx) as [Hxt Hne].
        destruct (rebase_between d out q x Hd Hq Hx Hxt) as (q' & Hq' & Habv & ->).
        exists q'. split; [done|]. split; [done|].
        apply (sound_tree_above f0 d q' q); try done. by intros ->.
    + intros x n Hx Hlook. rewrite lookup_plant.
      destruct (decide _) as [Hbx|Hbx]; [|done].
      destruct (Hup x Hbx) as [Hxt Hne]. by rewrite (Habove x n Hx Hxt Hne Hlook).
    + unfold is_dir. by rewrite plant_self.
    + rewrite lookup_plant. destruct (decide _) as [Hbx|Hbx]; [|done].
      exfalso. apply Hpar. apply below_antisym; [apply parent_above|done].
    + intros x Hroot. rewrite lookup_plant. destruct (decide _) as [Hbx|Hbx]; [|done].
      exfalso. apply Hroot. destruct Hbx as [Hr _]. by rewrite Hr.
    + intros x Hx. rewrite lookup_plant. destruct (decide _) as [Hbx|Hbx]; [|done].
      exfalso. apply Hx. by apply Hup.
Qed.

(** ** A zip archive that holds a tree is extracted *)

(** The member that stands for an entry of the tree: where it is
    extracted, and what tells a directory from a file. *)
Lemma member_of_tree f0 d out q m :
  sound_tree f0 d -> p_parts d <> [] -> PurePath.below d q ->
  member_of f0 d q = Some m ->
  ZipFile.target out m.1 = Shutil.rebase (PurePath.parent d) out q /\
  ((f0 !! q = Some Dir /\ m.2 = EDir /\ Str.endswith "/" m.1 = true) \/
   (exists c, f0 !! q = Some (File false c) /\ m.2 = EFile c
              /\ Str.endswith "/" m.1 = false)).
Proof.
  intros Hsound Hd Hq Hm.
  destruct (rebase_tree d out q Hd Hq) as (k & Hparts & Hdrop & Hplace).
  assert (is_Some (f0 !! q)) as Hsome.
  { unfold member_of in Hm. destruct (f0 !! q); [by eexists|done]. }
  pose proof (sound_tree_names f0 d q Hsound Hq Hsome) as Hnames.
  rewrite Hparts, forallb_app in Hnames. apply andb_prop in Hnames as [_ Hnames].
  assert (arcname d q = Str.join "/" (PurePath.name d :: k)) as Harc.
  { unfold arcname. by rewrite <- Hdrop. }
  unfold member_of in Hm. rewrite Harc in Hm. rewrite Hplace.
  assert (PurePath.name d :: k <> []) as Hne by done.
  revert Hm Hnames Hne. generalize (PurePath.name d :: k). intros l Hm Hnames Hne.
  destruct (f0 !! q) as [[|[] c]|]; try done; injection Hm as <-; cbn [fst snd].
  - split; [by apply zip_target_dir|]. left. by rewrite endswith_slash_dir.
  - split; [by apply zip_target_file|]. right. exists c.
    by rewrite endswith_slash_join.
Qed.

(** One member of the archive is extracted. *)
Lemma zip_extract_unpacking f0 d out ms q m s :
  sound_tree f0 d -> p_parts d <> [] ->
  (forall m', m' ∈ ms -> exists q', PurePath.below d q' /\ member_of f0 d q' = Some m') ->
  PurePath.below d q -> member_of f0 d q = Some m -> m ∈ ms ->
  unpacking f0 d out (fs s) ->
  exists s',
    ZipFile.extract ms out m.1 s = (Ok tt, s') /\
    unpacking f0 d out (fs s') /\
    next_tmp s' = next_tmp s /\
    (forall x n, PurePath.below (Shutil.rebase (PurePath.parent d) out d) x ->
                 fs s !! x = Some n -> fs s' !! x = Some n) /\
    fs s' !! Shutil.rebase (PurePath.parent d) out q = f0 !! q /\
    (forall x, p_root x <> p_root out -> fs s' !! x = fs s !! x).
Proof.
  intros Hsound Hd Hms Hq Hm Hin Hinv.
  destruct (member_of_tree f0 d out q m Hsound Hd Hq Hm) as [Htarget Hkind].
  assert (is_Some (f0 !! q)) as Hsome.
  { unfold member_of in Hm. destruct (f0 !! q); [by eexists|done]. }
  (* the entry that is found under the name *)
  assert (last_named m.1 ms = Some m.2) as Hlast.
  { destruct (last_named_some m.1 ms) as [e He].
    { apply list_elem_of_In, in_map_iff. exists m. split; [done|by apply list_elem_of_In]. }
    rewrite He. f_equal. apply last_named_elem in He.
    destruct (Hms _ He) as (q' & Hq' & Hm').
    destruct (member_of_tree f0 d out q' _ Hsound Hd Hq' Hm') as [Htarget' _].
    simpl in Htarget'. rewrite Htarget in Htarget'.
    assert (q = q') as <- by (by apply (place_inj d out)).
    rewrite Hm in Hm'. by injection Hm' as ->. }
  set (t := Shutil.rebase (PurePath.parent d) out q) in *.
  set (T := Shutil.rebase (PurePath.parent d) out d).
  destruct (upperdirs_unpacking f0 d out q s Hsound Hd Hinv Hq Hsome)
    as (s1 & Hup & Hinv1 & Htmp1 & Hmono1 & Hpar1 & Hsame1 & Hframe1 & _).
  fold t T in Hup, Hmono1, Hpar1, Hsame1.
  assert (forall x, p_root x <> p_root out -> x <> t) as Hroot.
  { intros x Hx ->. by apply Hx. }
  assert (forall n, fs s1 !! t = Some n -> f0 !! q = Some n) as Hthere.
  { intros n Hn. destruct Hinv1 as (_ & _ & Hinv1). cbv zeta in Hinv1.
    destruct (Hinv1 t n) as (q' & Hq' & Heq & Hn'); [by apply rebase_tree_below|done|].
    assert (q = q') as <- by (by apply (place_inj d out)). done. }
  unfold ZipFile.extract, ZipFile.getinfo. rewrite Hlast.
  erewrite bind_ok by reflexivity. rewrite Htarget.
  erewrite bind_ok by exact Hup.
  destruct Hkind as [(Hnode & He & Hends)|(c & Hnode & He & Hends)]; rewrite Hends.
  - erewrite bind_ok by reflexivity.
    destruct (is_dir (fs s1) t) eqn:Hdir.
    + exists s1. split; [done|]. split; [done|]. split; [done|]. split; [done|].
      split; [|done].
      unfold is_dir in Hdir. rewrite Hnode.
      by destruct (fs s1 !! t) as [[]|].
    + assert (fs s1 !! t = None) as Hnone.
      { destruct (fs s1 !! t) as [n|] eqn:Hn; [|done].
        pose proof (Hthere n eq_refl) as Hn'. rewrite Hnode in Hn'. injection Hn' as <-.
        unfold is_dir in Hdir. by rewrite Hn in Hdir. }
      unfold Os.mkdir, exists_. rewrite Hnone, Hpar1.
      eexists. split; [reflexivity|]. simpl.
      split; [by apply unpacking_insert|]. split; [done|]. split; [|split].
      * intros x n Hx Hlook. destruct (decide (x = t)) as [->|Hnet].
        -- rewrite Hsame1 in Hnone. congruence.
        -- rewrite lookup_insert_ne by done. by apply Hmono1.
      * by rewrite lookup_insert_eq.
      * intros x Hx. rewrite lookup_insert_ne by (by apply not_eq_sym, Hroot).
        by apply Hframe1.
  - rewrite He.
    unfold Os.write_file. rewrite Hpar1.
    assert (fs s1 !! t = None \/ fs s1 !! t = Some (File false c)) as Hcur.
    { destruct (fs s1 !! t) as [n|] eqn:Hn; [|by left].
      right. rewrite <- Hnode. symmetry. by apply Hthere. }
    assert (unpacking f0 d out (<[t := File false c]> (fs s1))) as Hinv2
      by (by apply unpacking_insert).
    assert (forall x n, PurePath.below T x -> fs s !! x = Some n ->
                        <[t := File false c]> (fs s1) !! x = Some n) as Hmono2.
    { intros x n Hx Hlook. destruct (decide (x = t)) as [->|Hnet].
      - rewrite lookup_insert_eq. rewrite <- Hsame1 in Hlook.
        apply Hthere in Hlook. congruence.
      - rewrite lookup_insert_ne by done. by apply Hmono1. }
    destruct Hcur as [Hcur|Hcur]; rewrite Hcur;
      (eexists; split; [reflexivity|]; simpl;
       split; [done|]; split; [done|]; split; [done|];
       split; [by rewrite lookup_insert_eq|];
       intros x Hx; rewrite lookup_insert_ne by (by apply not_eq_sym, Hroot);
       by apply Hframe1).
Qed.

(** The members named are extracted one after the other. *)
Lemma zip_extractall_unpacking f0 d out ms names : forall s,
  sound_tree f0 d -> p_parts d <> [] ->
  (forall m', m' ∈ ms -> exists q', PurePath.below d q' /\ member_of f0 d q' = Some m') ->
  Forall (fun name => name ∈ List.map fst ms) names ->
  unpacking f0 d out (fs s) ->
  exists s',
    ZipFile.extractall ms out names s = (Ok tt, s') /\
    unpacking f0 d out (fs s') /\
    next_tmp s' = next_tmp s /\
    (forall x n, PurePath.below (Shutil.rebase (PurePath.parent d) out d) x ->
                 fs s !! x = Some n -> fs s' !! x = Some n) /\
    (forall q m, PurePath.below d q -> member_of f0 d q = Some m -> m.1 ∈ names ->
                 fs s' !! Shutil.rebase (PurePath.parent d) out q = f0 !! q) /\
    (forall x, p_root x <> p_root out -> fs s' !! x = fs s !! x).
Proof.
  intros s Hsound Hd Hms Hnames. revert s.
  induction Hnames as [|name names Hname _ IH]; intros s Hinv.
  - exists s. split; [done|]. split; [done|]. split; [done|]. split; [done|].
    split; [|done]. intros q m _ _ Hin. by apply elem_of_nil in Hin.
  - apply list_elem_of_In, in_map_iff in Hname as (m0 & Hname & Hin0).
    apply list_elem_of_In in Hin0.
    destruct (Hms _ Hin0) as (q0 & Hq0 & Hm0).
    destruct (zip_extract_unpacking f0 d out ms q0 m0 s Hsound Hd Hms Hq0 Hm0 Hin0 Hinv)
      as (s1 & Hrun1 & Hinv1 & Htmp1 & Hmono1 & Hput1 & Hframe1).
    destruct (IH s1 Hinv1) as (s' & Hrun & Hinv' & Htmp & Hmono & Hput & Hframe).
    exists s'. split.
    { cbn [ZipFile.extractall]. rewrite <- Hname. erewrite bind_ok by exact Hrun1. exact Hrun. }
    split; [done|]. split; [congruence|]. split.
    { intros x n Hx Hlook. apply Hmono; [done|]. by apply Hmono1. }
    split; [|intros x Hx; rewrite Hframe by done; by apply Hframe1].
    intros q m Hq Hm Hin. apply elem_of_cons in Hin as [Heq|Hin]; [|by eapply Hput].
    assert (q = q0) as ->.
    { apply (place_inj d out); [done|done|].
      destruct (member_of_tree f0 d out q m Hsound Hd Hq Hm) as [<- _].
      destruct (member_of_tree f0 d out q0 m0 Hsound Hd Hq0 Hm0) as [<- _].
      congruence. }
    assert (is_Some (f0 !! q0)) as [n Hn].
    { unfold member_of in Hm0. destruct (f0 !! q0); [by eexists|done]. }
    rewrite Hn. apply Hmono; [by apply rebase_tree_below|]. by rewrite Hput1.
Qed.

(** ** [archive]: the zip archive of a tree *)

Section MakeZip.
Import Archiving.

Variable unfinished : members -> content.

Lemma member_name_arcname d q : p_parts d <> [] -> member_name d q = arcname d q.
Proof. intros Hd. unfold member_name. by destruct (p_parts d). Qed.

Lemma zip_add_write zip d src s :
  p_parts d <> [] -> src <> zip ->
  zip_add unfinished zip src (member_name d src) s = zip_write zip src (arcname d src) s.
Proof.
  intros Hd Hne. unfold zip_add. rewrite decide_False by done.
  by rewrite member_name_arcname.
Qed.

Lemma zip_write_inv zip src a s s1 :
  zip_write zip src a s = (Ok tt, s1) ->
  exists c, fs s1 = <[zip := File false c]> (fs s).
Proof.
  unfold zip_write, bind, get_fs, Os.read_file, Os.write_file, ret, raise.
  intros H. repeat case_match; simplify_eq; by eexists.
Qed.

Lemma add_dirs_write_files zip d r names s :
  p_parts d <> [] -> Forall (fun name => PurePath.joinpath r name <> zip) names ->
  add_dirs unfinished zip d r names s = write_files zip d r names s.
Proof.
  intros Hd Hall. revert s. induction Hall as [|name names Hne _ IH]; intros s; [done|].
  cbn [add_dirs write_files]. unfold bind. rewrite zip_add_write by done.
  destruct (zip_write _ _ _ s) as [[[]|e] s1]; [apply IH|done].
Qed.

Lemma add_files_write_files zip d r names : forall s,
  p_parts d <> [] ->
  Forall (fun name => PurePath.joinpath r name <> zip
                      /\ is_file (fs s) (PurePath.joinpath r name) = true) names ->
  add_files unfinished zip d r names s = write_files zip d r names s.
Proof.
  induction names as [|name names IH]; intros s Hd Hall; [done|].
  apply Forall_cons in Hall as [[Hne Hfile] Hall].
  cbn [add_files write_files]. erewrite bind_ok by reflexivity. rewrite Hfile.
  unfold bind. rewrite zip_add_write by done.
  destruct (zip_write _ _ _ s) as [[[]|e] s1] eqn:Hrun; [|done].
  apply IH; [done|]. apply zip_write_inv in Hrun as [c Hfs].
  eapply Forall_impl; [exact Hall|]. intros n [Hn Hf]. split; [done|].
  unfold is_file in *. rewrite Hfs. by rewrite lookup_insert_ne.
Qed.

Lemma subdirs_spec f d name :
  name ∈ subdirs f d <->
  exists q, PurePath.name q = name /\ PurePath.parent q = d /\ q <> d /\ f !! q = Some Dir.
Proof.
  unfold subdirs. rewrite merge_sort_Permutation.
  rewrite list_elem_of_In, in_map_iff. split.
  - intros ([q n] & <- & Hin). apply filter_In in Hin as [Hin Hb]. simpl in *.
    apply andb_prop in Hb as [Hb Hn]. apply bool_decide_eq_true in Hb as [Hp Hne].
    apply list_elem_of_In, elem_of_map_to_list in Hin.
    destruct n as [|l c]; [|done]. by exists q.
  - intros (q & Hn & Hp & Hne & Hq). exists (q, Dir). split; [done|].
    apply filter_In. split.
    + by apply list_elem_of_In, elem_of_map_to_list.
    + simpl. by rewrite bool_decide_eq_true_2.
Qed.

(** The members that the walk of [shutil] adds for the directories [w]:
    for each one, those of its directories, then those of its files. *)
Lemma add_walk_ok zip d f w : forall s ms,
  p_parts d <> [] ->
  fs s !! zip = Some (File false (Zip ms)) ->
  is_dir (fs s) (PurePath.parent zip) = true ->
  Forall (fun rf : path * list string =>
            Forall (fun q => is_Some (member_of (fs s) d q) /\ q <> zip)
                   (List.map (PurePath.joinpath rf.1) (subdirs f rf.1)) /\
            Forall (fun q => is_Some (member_of (fs s) d q) /\ q <> zip
                             /\ is_file (fs s) q = true)
                   (List.map (PurePath.joinpath rf.1) rf.2)) w ->
  exists s',
    add_walk unfinished zip d f w s = (Ok tt, s') /\
    fs s' = <[zip := File false
                (Zip (ms ++ flat_map
                        (fun rf : path * list string =>
                           omap (member_of (fs s) d)
                                (List.map (PurePath.joinpath rf.1) (subdirs f rf.1 ++ rf.2)))
                        w))]> (fs s) /\
    next_tmp s' = next_tmp s.
Proof.
  induction w as [|[r files] w IH]; intros s ms Hd Hz Hp Hall.
  - exists s. split; [done|]. split; [|done]. simpl. rewrite app_nil_r.
    by rewrite insert_id.
  - apply Forall_cons in Hall as [[Hdirs Hfiles] Hall]. simpl in Hdirs, Hfiles.
    assert (PurePath.parent zip <> zip) as Hpz by (by eapply parent_of_file_differs).
    cbn [add_walk].
    destruct (write_files_ok zip d r (subdirs f r) s ms Hz Hp) as (s1 & Hrun1 & Hfs1 & Hn1).
    { apply Forall_map in Hdirs. exact Hdirs. }
    erewrite bind_ok.
    2: { rewrite add_dirs_write_files; [exact Hrun1|done|].
         apply Forall_map in Hdirs. eapply Forall_impl; [exact Hdirs|]. by intros n [_ ?]. }
    assert (forall q, q <> zip -> fs s1 !! q = fs s !! q) as Hsame1.
    { intros q Hq. rewrite Hfs1. by rewrite lookup_insert_ne. }
    assert (forall q, q <> zip -> member_of (fs s1) d q = member_of (fs s) d q) as Hmem1.
    { intros q Hq. unfold member_of. by rewrite Hsame1. }
    assert (add_files unfinished zip d r files s1 = write_files zip d r files s1) as Hfw.
    { apply add_files_write_files; [done|].
      apply Forall_map in Hfiles. eapply Forall_impl; [exact Hfiles|].
      intros n (_ & Hne & Hf). simpl in *. split; [done|].
      unfold is_file in *. by rewrite Hsame1. }
    destruct (write_files_ok zip d r files s1
                (ms ++ omap (member_of (fs s) d)
                            (List.map (PurePath.joinpath r) (subdirs f r)))%list)
      as (s2 & Hrun2 & Hfs2 & Hn2).
    { rewrite Hfs1. by rewrite lookup_insert_eq. }
    { unfold is_dir in *. by rewrite Hsame1. }
    { apply Forall_map in Hfiles. eapply Forall_impl; [exact Hfiles|].
      intros n (Hs & Hne & _). simpl in *. by rewrite Hmem1. }
    erewrite bind_ok by (rewrite Hfw; exact Hrun2).
    assert (forall q, q <> zip -> fs s2 !! q = fs s !! q) as Hsame2.
    { intros q Hq. rewrite Hfs2. rewrite lookup_insert_ne by done. by apply Hsame1. }
    assert (forall q, q <> zip -> member_of (fs s2) d q = member_of (fs s) d q) as Hmem2.
    { intros q Hq. unfold member_of. by rewrite Hsame2. }
    assert (forall qs, Forall (fun q => q <> zip) qs ->
              omap (member_of (fs s1) d) qs = omap (member_of (fs s) d) qs) as Homap1.
    { intros qs Hqs. induction Hqs as [|q qs Hq _ IHq]; [done|]. simpl.
      rewrite Hmem1 by done. unfold omap in IHq. by rewrite IHq. }
    assert (forall qs, Forall (fun q => q <> zip) qs ->
              omap (member_of (fs s2) d) qs = omap (member_of (fs s) d) qs) as Homap2.
    { intros qs Hqs. induction Hqs as [|q qs Hq _ IHq]; [done|]. simpl.
      rewrite Hmem2 by done. unfold omap in IHq. by rewrite IHq. }
    destruct (IH s2 (ms ++ omap (member_of (fs s) d)
                                (List.map (PurePath.joinpath r) (subdirs f r ++ files)))%list)
      as (s' & Hrun & Hfs & Hn); [done| | | |].
    + rewrite Hfs2, lookup_insert_eq. do 3 f_equal.
      rewrite <- app_assoc. f_equal. rewrite List.map_app, omap_app. f_equal.
      apply Homap1. eapply Forall_impl; [exact Hfiles|]. by intros q (_ & ? & _).
    + unfold is_dir in *. by rewrite Hsame2.
    + eapply Forall_impl; [exact Hall|]. intros rf [H1 H2]. split.
      * eapply Forall_impl; [exact H1|]. intros q [Hs Hq]. simpl in *. by rewrite Hmem2.
      * eapply Forall_impl; [exact H2|]. intros q (Hs & Hq & Hf). simpl in *.
        rewrite Hmem2 by done. unfold is_file in *. by rewrite Hsame2.
    + exists s'. split; [done|]. split; [|congruence].
      assert (flat_map (fun rf : path * list string =>
                          omap (member_of (fs s2) d)
                               (List.map (PurePath.joinpath rf.1) (subdirs f rf.1 ++ rf.2))) w
              = flat_map (fun rf : path * list string =>
                          omap (member_of (fs s) d)
                               (List.map (PurePath.joinpath rf.1) (subdirs f rf.1 ++ rf.2))) w)
        as Hw.
      { clear -Hall Homap2. induction Hall as [|rf w' [H1 H2] _ IHw]; [done|].
        cbn [flat_map]. rewrite IHw. f_equal. apply Homap2.
        rewrite List.map_app. apply Forall_app. split.
        - eapply Forall_impl; [exact H1|]. by intros q [_ ?].
        - eapply Forall_impl; [exact H2|]. by intros q (_ & ? & _). }
      rewrite Hfs, Hw, Hfs2, Hfs1. rewrite !insert_insert_eq. do 3 f_equal.
      rewrite <- app_assoc. f_equal.
Qed.

End MakeZip.

Lemma arcname_self d : p_parts d <> [] -> arcname d d = PurePath.name d.
Proof.
  intros Hd. unfold arcname, PurePath.name.
  rewrite (app_removelast_last "" Hd) at 2.
  assert (length (removelast (p_parts d)) = length (p_parts d) - 1) as <-.
  { rewrite (app_removelast_last "" Hd) at 2. rewrite length_app. simpl. lia. }
  by rewrite list.drop_app_length.
Qed.

Lemma name_entry q :
  forallb entry_name (p_parts q) = true -> p_parts q <> [] ->
  entry_name (PurePath.name q) = true.
Proof.
  intros Hall Hq. unfold PurePath.name. rewrite forallb_forall in Hall.
  apply Hall. destruct (p_parts q) as [|x l] using rev_ind; [done|].
  rewrite last_last. apply in_or_app. right. by left.
Qed.

Lemma below_parts d q : p_parts d <> [] -> PurePath.below d q -> p_parts q <> [].
Proof. intros Hd [_ [k Hk]] Hq. rewrite Hq in Hk. by destruct (p_parts d). Qed.

(** An entry of a directory of a sound tree: it is in the tree, and its
    path is the directory joined with its name. *)
Lemma sound_tree_child f d r q :
  sound_tree f d -> p_parts d <> [] ->
  PurePath.below d r -> PurePath.parent q = r -> q <> r -> is_Some (f !! q) ->
  PurePath.below d q /\ PurePath.joinpath r (PurePath.name q) = q.
Proof.
  intros Hsound Hd Hr Hp Hne Hq.
  assert (PurePath.below d q) as Hdq by (by eapply child_below).
  split; [done|]. apply joinpath_name; [done|done|].
  apply entry_name_proper, name_entry.
  - by eapply sound_tree_names.
  - by eapply below_parts.
Qed.

(** [shutil._make_zipfile] for a sound tree and an archive outside it:
    the archive holds one member for each entry of the tree, and no
    other. *)
Lemma make_zipfile_tree (unfinished : members -> content) zip d st :
  sound_tree (fs st) d -> p_parts d <> [] ->
  ~ PurePath.below d zip ->
  replaceable (fs st) zip = true ->
  is_dir (fs st) (PurePath.parent zip) = true ->
  exists ms st1,
    Archiving.make_zipfile unfinished zip d st = (Ok zip, st1) /\
    fs st1 = <[zip := File false (Zip ms)]> (fs st) /\
    next_tmp st1 = next_tmp st /\
    (forall m, m ∈ ms -> exists q, PurePath.below d q /\ member_of (fs st) d q = Some m) /\
    (forall q, PurePath.below d q -> is_Some (fs st !! q) ->
               exists m, m ∈ ms /\ member_of (fs st) d q = Some m).
Proof.
  intros Hsound Hd Hout Hrep Hpar.
  set (f0 := fs st) in *.
  assert (forall q, PurePath.below d q -> q <> zip) as Hnz by (by intros q Hq ->).
  assert (forall q n, PurePath.below d q -> f0 !! q = Some n ->
                      is_Some (member_of f0 d q)) as Hmember.
  { intros q n Hq Hn. unfold member_of. rewrite Hn.
    destruct (sound_tree_node f0 d q n Hsound Hq Hn) as [->|[c ->]]; by eexists. }
  assert (f0 !! d = Some Dir) as Hdir.
  { destruct Hsound as (Hdd & _). unfold is_dir in Hdd. by destruct (f0 !! d) as [[]|]. }
  destruct (Hmember d Dir (below_refl d) Hdir) as [md Hmd].
  set (s1 := State (<[zip := File false (Zip [])]> f0) (trace st ++ [FsWrite zip]) (next_tmp st)).
  set (s2 := State (<[zip := File false (Zip ([] ++ [md]))]> (fs s1))
                   (trace s1 ++ [FsWrite zip]) (next_tmp s1)).
  assert (forall q, q <> zip -> fs s2 !! q = f0 !! q) as Hsame.
  { intros q Hq. simpl. by rewrite !lookup_insert_ne. }
  assert (forall q, q <> zip -> member_of (fs s2) d q = member_of f0 d q) as Hmem.
  { intros q Hq. unfold member_of. by rewrite Hsame. }
  assert (PurePath.parent zip <> zip) as Hpz.
  { intros Heq. rewrite Heq in Hpar. unfold replaceable, is_dir in *.
    by destruct (f0 !! zip) as [[]|]. }
  assert (is_dir (fs s2) d = true) as Hd2.
  { unfold is_dir. rewrite Hsame by (apply Hnz, below_refl). by rewrite Hdir. }
  (* the entries that the walk lists *)
  assert (forall r q, PurePath.below d r -> PurePath.parent q = r -> q <> r ->
                      is_Some (fs s2 !! q) ->
                      PurePath.below d q /\ PurePath.joinpath r (PurePath.name q) = q
                      /\ q <> zip /\ fs s2 !! q = f0 !! q) as Hchild.
  { intros r q Hr Hp Hne Hq.
    assert (PurePath.below d q) as Hdq by (by eapply child_below).
    pose proof (Hnz q Hdq) as Hqz. rewrite Hsame in Hq by done.
    destruct (sound_tree_child f0 d r q Hsound Hd Hr Hp Hne Hq) as [_ Hj].
    by rewrite Hsame. }
  set (w := Walk.walk (fs s2) d).
  assert (forall rf, rf ∈ w <->
            rf.2 = Walk.files (fs s2) rf.1 /\ PurePath.below d rf.1
            /\ f0 !! rf.1 = Some Dir) as Hw.
  { intros [r files]. unfold w, Walk.walk. rewrite Hd2.
    rewrite list_elem_of_In, in_map_iff. simpl. split.
    - intros (r' & Heq & Hin). inversion Heq; subst.
      apply list_elem_of_In, walk_dirs_spec in Hin as [Hb Hr].
      rewrite Hsame in Hr by (by apply Hnz). done.
    - intros (-> & Hb & Hr). exists r. split; [done|].
      apply list_elem_of_In, walk_dirs_spec. rewrite Hsame by (by apply Hnz). done. }
  destruct (add_walk_ok unfinished zip d (fs s2) w s2 ([] ++ [md])%list Hd)
    as (s3 & Hrun3 & Hfs3 & Hn3).
  { simpl. by rewrite lookup_insert_eq. }
  { unfold is_dir in *. rewrite Hsame by done. exact Hpar. }
  { apply Forall_forall. intros rf Hrf. apply Hw in Hrf as (Hfiles & Hb & Hr). split.
    - apply Forall_map, Forall_forall. intros name Hin.
      apply subdirs_spec in Hin as (q & <- & Hp & Hne & Hq).
      destruct (Hchild _ q Hb Hp Hne) as (Hdq & Hj & Hqz & Hfq); [by rewrite Hq|].
      rewrite Hj. split; [|done]. rewrite Hmem by done.
      apply (Hmember q Dir); [done|congruence].
    - rewrite Hfiles. apply Forall_map, Forall_forall. intros name Hin.
      apply walk_files_spec in Hin as (q & l & c & <- & Hp & Hne & Hq).
      destruct (Hchild _ q Hb Hp Hne) as (Hdq & Hj & Hqz & Hfq); [by rewrite Hq|].
      rewrite Hj. split; [|split; [done|]].
      + rewrite Hmem by done. apply (Hmember q (File l c)); [done|congruence].
      + unfold is_file. by rewrite Hq. }
  set (added := flat_map _ w) in Hfs3.
  exists ([md] ++ added)%list, s3. split; [|split; [|split; [|split]]].
  - unfold Archiving.make_zipfile.
    erewrite bind_ok.
    2: { unfold upperdirs. erewrite bind_ok by reflexivity.
         assert (exists_ (fs st) (PurePath.parent zip) = true) as ->; [|reflexivity].
         unfold exists_, is_dir in *. fold f0. by destruct (f0 !! PurePath.parent zip). }
    erewrite bind_ok.
    2: { unfold Os.write_file. fold f0. rewrite Hpar. unfold replaceable in Hrep.
         instantiate (1 := s1). instantiate (1 := tt).
         by destruct (f0 !! zip) as [[|[] c]|]. }
    rewrite member_name_arcname, arcname_self by done.
    assert (String.eqb (PurePath.name d) "" = false) as ->.
    { apply String.eqb_neq. intros Heq.
      assert (entry_name (PurePath.name d) = true) as Hn.
      { apply name_entry; [|done]. eapply sound_tree_names; [exact Hsound|apply below_refl|].
        by rewrite Hdir. }
      by rewrite Heq in Hn. }
    erewrite bind_ok.
    2: { rewrite <- (arcname_self d Hd), <- (member_name_arcname d d Hd).
         rewrite zip_add_write; [|done|apply Hnz, below_refl].
         apply (zip_write_ok zip d d s1 [] md).
         - simpl. by rewrite lookup_insert_eq.
         - unfold is_dir in *. simpl. by rewrite lookup_insert_ne.
         - unfold member_of in *. simpl. rewrite lookup_insert_ne; [done|].
           intros Heq. by apply (Hnz d (below_refl d)). }
    fold s2. erewrite bind_ok by reflexivity. fold w.
    erewrite bind_ok by exact Hrun3. reflexivity.
  - rewrite Hfs3. simpl. by rewrite !insert_insert_eq.
  - rewrite Hn3. reflexivity.
  - intros m Hm. apply elem_of_app in Hm as [Hm|Hm].
    + apply list_elem_of_singleton in Hm as ->. exists d. split; [apply below_refl|done].
    + unfold added in Hm. apply list_elem_of_In, in_flat_map in Hm as (rf & Hrf & Hm).
      apply list_elem_of_In, Hw in Hrf as (Hfiles & Hb & Hr).
      apply list_elem_of_In, list_elem_of_omap in Hm as (q & Hq & Hm).
      assert (exists q', PurePath.parent q' = rf.1 /\ q' <> rf.1 /\ is_Some (fs s2 !! q')
                         /\ q = PurePath.joinpath rf.1 (PurePath.name q')) as (q' & Hp & Hne & Hs & ->).
      { apply list_elem_of_In, in_map_iff in Hq as (name & <- & Hin).
        apply in_app_or in Hin as [Hin|Hin].
        - apply list_elem_of_In, subdirs_spec in Hin as (q' & <- & Hp & Hne & Hq').
          exists q'. by rewrite Hq'.
        - rewrite Hfiles in Hin.
          apply list_elem_of_In, walk_files_spec in Hin as (q' & l & c & <- & Hp & Hne & Hq').
          exists q'. by rewrite Hq'. }
      destruct (Hchild _ q' Hb Hp Hne Hs) as (Hdq & Hj & Hqz & Hfq).
      rewrite Hj in Hm. exists q'. split; [done|]. by rewrite <- Hmem.
  - intros q Hq [n Hn]. destruct (decide (q = d)) as [->|Hne].
    + exists md. split; [|done]. apply elem_of_app. left. by apply list_elem_of_singleton.
    + destruct (Hmember q n Hq Hn) as [m Hm]. exists m. split; [|done].
      apply elem_of_app. right.
      set (r := PurePath.parent q).
      assert (PurePath.below d r) as Hr by (by apply parent_below).
      assert (f0 !! r = Some Dir) as Hrd.
      { destruct Hsound as (_ & _ & Hs). destruct (Hs q Hq) as [_ Hp]; [by rewrite Hn|].
        specialize (Hp Hne). unfold is_dir in Hp. fold r in Hp.
        by destruct (f0 !! r) as [[]|]. }
      assert (q <> r) as Hqr.
      { intros Heq. symmetry in Heq. revert Heq. apply parent_differs.
        by eapply below_parts. }
      pose proof (Hnz q Hq) as Hqz.
      destruct (Hchild r q Hr eq_refl Hqr) as (_ & Hj & _ & _).
      { rewrite Hsame by done. by rewrite Hn. }
      unfold added. apply list_elem_of_In, in_flat_map.
      exists (r, Walk.files (fs s2) r). split.
      { apply list_elem_of_In, Hw. by simpl. }
      apply list_elem_of_In, list_elem_of_omap. exists q. split; [|by rewrite Hmem].
      apply list_elem_of_In, in_map_iff. exists (PurePath.name q). split; [done|].
      apply in_or_app. simpl.
      destruct (sound_tree_node f0 d q n Hsound Hq Hn) as [->|[c ->]].
      * left. apply list_elem_of_In, subdirs_spec. exists q. by rewrite Hsame.
      * right. apply list_elem_of_In, walk_files_spec. exists q, false, c. by rewrite Hsame.
Qed.

(** ** [extract_file] on the zip archive of a tree *)

Lemma catch_ok {A} (m : M A) (h : exn -> M A) st a st' :
  m st = (Ok a, st') -> catch m h st = (Ok a, st').
Proof. intros H. unfold catch. by rewrite H. Qed.

Lemma prefix_append a b : String.prefix a (a +:+ b) = true.
Proof.
  induction a as [|c a IH]; [by destruct b|].
  rewrite ReFacts.append_String. cbn [String.prefix].
  destruct (ascii_dec c c); [done|done].
Qed.

Lemma append_nil_r s : s +:+ "" = s.
Proof. induction s as [|c s IH]; [done|]. rewrite ReFacts.append_String. by rewrite IH. Qed.

Lemma contains_prefix a s : String.prefix a s = true -> Str.contains a s = true.
Proof. intros H. destruct s; simpl in *; by rewrite H. Qed.

Lemma rev_app x y : Str.rev (x +:+ y) = Str.rev y +:+ Str.rev x.
Proof.
  unfold Str.rev.
  assert (forall acc, Str.rev_acc (x +:+ y) acc = Str.rev_acc y (Str.rev_acc x acc)) as H.
  { induction x as [|a x IH]; intros acc; [done|].
    rewrite ReFacts.append_String. simpl. by rewrite IH. }
  rewrite H. apply rev_acc_app.
Qed.

Lemma endswith_append x ext : Str.endswith ext (x +:+ ext) = true.
Proof. unfold Str.endswith. rewrite rev_app. apply prefix_append. Qed.

Lemma remove_dups_same (a : string) l :
  l <> [] -> Forall (fun x => x = a) l -> remove_dups l = [a].
Proof.
  intros Hl Hall. induction Hall as [|x l -> Hall IH]; [done|].
  destruct l as [|y l]; [done|].
  change (remove_dups (a :: y :: l))
    with (if decide_rel elem_of a (y :: l) then remove_dups (y :: l)
          else a :: remove_dups (y :: l)).
  destruct (decide_rel elem_of a (y :: l)) as [_|Hn]; [by apply IH|].
  exfalso. apply Hn. apply Forall_cons in Hall as [-> _]. by left.
Qed.

(** The name of a member begins with the name of the directory that was
    archived. *)
Lemma member_first f0 d q m :
  sound_tree f0 d -> p_parts d <> [] -> PurePath.below d q ->
  member_of f0 d q = Some m ->
  List.hd "" (Str.split "/" m.1) = PurePath.name d /\
  Str.contains (PurePath.name d) m.1 = true.
Proof.
  intros Hsound Hd Hq Hm.
  destruct (rebase_tree d d q Hd Hq) as (k & Hparts & Hdrop & _).
  assert (is_Some (f0 !! q)) as Hsome.
  { unfold member_of in Hm. destruct (f0 !! q); [by eexists|done]. }
  pose proof (sound_tree_names f0 d q Hsound Hq Hsome) as Hnames.
  rewrite Hparts, forallb_app in Hnames. apply andb_prop in Hnames as [_ Hnames].
  assert (arcname d q = Str.join "/" (PurePath.name d :: k)) as Harc.
  { unfold arcname. by rewrite <- Hdrop. }
  assert (exists rest, Str.join "/" (PurePath.name d :: k) = PurePath.name d +:+ rest)
    as [rest Hrest].
  { destruct k as [|y k].
    - exists "". by rewrite append_nil_r.
    - exists (String "/" (Str.join "/" (y :: k))). apply join_cons. }
  pose proof (entry_names_no_slash _ Hnames) as Hns.
  unfold member_of in Hm. rewrite Harc in Hm.
  remember (Str.join "/" (PurePath.name d :: k)) as j eqn:Hj.
  destruct (f0 !! q) as [[|[] c]|]; try done; injection Hm as <-; cbn [fst snd]; subst j.
  - split.
    + rewrite join_snoc by done. rewrite split_join; [done|done|].
      apply Forall_app. split; [done|]. by apply Forall_singleton.
    + apply contains_prefix. rewrite Hrest, append_assoc. apply prefix_append.
  - split.
    + by rewrite split_join.
    + apply contains_prefix. rewrite Hrest. apply prefix_append.
Qed.

Lemma name_joinpath out nm :
  entry_name nm = true -> PurePath.name (PurePath.joinpath out nm) = nm.
Proof.
  intros Hn. unfold PurePath.name, PurePath.joinpath. simpl.
  rewrite (entry_name_proper nm Hn). apply last_last.
Qed.

Lemma tree_place_joinpath d out :
  p_parts d <> [] -> entry_name (PurePath.name d) = true ->
  Shutil.rebase (PurePath.parent d) out d = PurePath.joinpath out (PurePath.name d).
Proof.
  intros Hd Hn. rewrite tree_place by done. unfold PurePath.joinpath.
  by rewrite (entry_name_proper _ Hn).
Qed.

Lemma with_tmpdir_run {A} (body : path -> M A) st r s' :
  let tmp := Path (Scratch (next_tmp st)) [] in
  body tmp (State (<[tmp := Dir]> (fs st)) (trace st ++ [FsWrite tmp]) (S (next_tmp st)))
  = (r, s') ->
  Tempfile.with_tmpdir body st
  = (r, State (prune tmp (fs s')) (trace s' ++ [FsRemove tmp]) (next_tmp s')).
Proof.
  intros tmp Hbody. unfold Tempfile.with_tmpdir, Tempfile.mkdtemp. fold tmp.
  by rewrite Hbody.
Qed.

Lemma filter_all {A} (p : A -> bool) l :
  Forall (fun x => p x = true) l -> List.filter p l = l.
Proof. induction 1 as [|x l Hx _ IH]; [done|]. simpl. by rewrite Hx, IH. Qed.

(** The top-level entries of the archive of a tree: the name of the
    tree. *)
Lemma top_level_tree E f0 d ms :
  sound_tree f0 d -> p_parts d <> [] -> ms <> [] ->
  (forall m, m ∈ ms -> exists q, PurePath.below d q /\ member_of f0 d q = Some m) ->
  set_order E [PurePath.name d] = [PurePath.name d] ->
  top_level E (ZipFile.namelist ms) = [PurePath.name d].
Proof.
  intros Hsound Hd Hne Hms Hset. unfold top_level, list_of_set, ZipFile.namelist.
  rewrite (remove_dups_same (PurePath.name d)); [done|by destruct ms|].
  apply Forall_map, Forall_map, Forall_forall. intros m Hm.
  destruct (Hms m Hm) as (q & Hq & Hmq).
  by destruct (member_first f0 d q m Hsound Hd Hq Hmq) as [-> _].
Qed.

(** The place of the tree is made ready in a directory where nothing
    is yet. *)
Lemma makedirs_unpacking f0 d out s :
  sound_tree f0 d -> p_parts d <> [] ->
  let T := PurePath.joinpath out (PurePath.name d) in
  (forall t, PurePath.below T t -> fs s !! t = None) ->
  blocked (fs s) T = false ->
  exists s',
    Os.makedirs T s = (Ok tt, s') /\ unpacking f0 d out (fs s') /\
    is_dir (fs s') T = true /\
    next_tmp s' = next_tmp s /\
    (forall t, p_root t <> p_root out -> fs s' !! t = fs s !! t).
Proof.
  intros Hsound Hd T Hfree Hblocked.
  assert (f0 !! d = Some Dir) as Hdir.
  { destruct Hsound as (Hdd & _). unfold is_dir in Hdd. by destruct (f0 !! d) as [[]|]. }
  assert (entry_name (PurePath.name d) = true) as Hname.
  { apply name_entry; [|done]. eapply sound_tree_names; [exact Hsound|apply below_refl|].
    by rewrite Hdir. }
  pose proof (tree_place_joinpath d out Hd Hname) as Hplace. fold T in Hplace.
  pose proof (Hfree T (below_refl T)) as HT.
  unfold Os.makedirs. rewrite Hblocked.
  unfold is_file, is_dir. rewrite HT.
  eexists. split; [reflexivity|]. simpl. split; [|split; [|split; [done|]]].
  - unfold unpacking. cbv zeta. rewrite Hplace. split; [|split].
    + apply blocked_false. intros a Ha Hne. unfold is_file. rewrite lookup_plant.
      by rewrite decide_True.
    + unfold is_dir. rewrite lookup_plant. rewrite decide_True; [done|].
      apply joinpath_below.
    + intros t n Ht Hlook. rewrite lookup_plant in Hlook.
      destruct (decide _) as [Hb|Hb].
      * injection Hlook as <-. exists d. split; [apply below_refl|].
        split; [|done]. rewrite Hplace. by apply below_antisym.
      * rewrite Hfree in Hlook by done. done.
  - unfold is_dir. by rewrite plant_self.
  - intros t Hroot. rewrite lookup_plant. destruct (decide _) as [Hb|Hb]; [|done].
    exfalso. apply Hroot. destruct Hb as [Hr _]. by rewrite Hr.
Qed.

(** Out of docker, [extract_file] puts the tree that a zip archive holds
    into the output directory. *)
Lemma extract_zip_tree_plain E zip d f0 ms oparts overwrite st :
  in_docker E = false ->
  set_order E [PurePath.name d] = [PurePath.name d] ->
  sound_tree f0 d -> p_parts d <> [] ->
  fs st !! zip = Some (File false (Zip ms)) -> ms <> [] ->
  (forall m, m ∈ ms -> exists q, PurePath.below d q /\ member_of f0 d q = Some m) ->
  PurePath.suffix zip = ".zip" ->
  Str.endswith ".zip" (PurePath.str zip) = true ->
  let out := Path Disk oparts in
  let T := PurePath.joinpath out (PurePath.name d) in
  (forall t, PurePath.below T t -> fs st !! t = None) ->
  blocked (fs st) T = false ->
  exists st',
    extract_file E zip out overwrite st = (Ok (OnePath T), st') /\
    forall q m, PurePath.below d q -> member_of f0 d q = Some m -> m ∈ ms ->
                fs st' !! Shutil.rebase (PurePath.parent d) out q = f0 !! q.
Proof.
  intros Hdocker Hset Hsound Hd Hzip Hne Hms Hsuffix Hends out T Hfree Hblocked.
  assert (f0 !! d = Some Dir) as Hdir.
  { destruct Hsound as (Hdd & _). unfold is_dir in Hdd. by destruct (f0 !! d) as [[]|]. }
  assert (entry_name (PurePath.name d) = true) as Hname.
  { apply name_entry; [|done]. eapply sound_tree_names; [exact Hsound|apply below_refl|].
    by rewrite Hdir. }
  set (names := ZipFile.namelist ms).
  set (s0 := State (fs st) (trace st ++ [Log Info "Extracting %s"]) (next_tmp st)).
  set (tmp := Path (Scratch (next_tmp s0)) []).
  set (s1 := State (<[tmp := Dir]> (fs s0)) (trace s0 ++ [FsWrite tmp]) (S (next_tmp s0))).
  assert (forall t, p_root t = Disk -> fs s1 !! t = fs st !! t) as Hdisk1.
  { intros t Ht. simpl. rewrite lookup_insert_ne; [done|]. intros <-. done. }
  destruct (makedirs_unpacking f0 d out s1 Hsound Hd)
    as (s2 & Hrun2 & Hinv2 & HdirT2 & Hn2 & Hrest2).
  { intros t Ht. rewrite Hdisk1; [by apply Hfree|]. by destruct Ht as [<- _]. }
  { apply blocked_false. intros a Ha Hnea. unfold is_file. rewrite Hdisk1.
    - rewrite blocked_false in Hblocked. by apply (Hblocked a Ha Hnea).
    - by destruct Ha as [-> _]. }
  destruct (zip_extractall_unpacking f0 d out ms names s2 Hsound Hd Hms)
    as (s3 & Hrun3 & Hinv3 & Hn3 & Hmono3 & Hput3 & Hframe3); [|done|].
  { apply Forall_forall. by intros name Hin. }
  set (st' := State (prune tmp (fs s3)) (trace s3 ++ [FsRemove tmp]) (next_tmp s3)).
  exists st'. split.
  - unfold extract_file. erewrite bind_ok by reflexivity.
    assert (is_dir (fs st) zip = false) as -> by (unfold is_dir; by rewrite Hzip).
    rewrite Hsuffix. change (String.eqb ".zip" ".zip") with true. cbv iota.
    erewrite bind_ok.
    2: { erewrite bind_ok; [reflexivity|]. unfold ZipFile.open_r.
         erewrite bind_ok by (unfold Os.read_file; by rewrite Hzip). reflexivity. }
    cbv beta iota zeta.
    rewrite (top_level_tree E f0 d ms) by done.
    cbn [List.map extract_loop]. fold out T.
    erewrite bind_ok; [reflexivity|].
    erewrite bind_ok; [reflexivity|].
    assert (PurePath.name T = PurePath.name d) as HnT by (by apply name_joinpath).
    unfold extract_one. rewrite HnT.
    erewrite bind_ok by reflexivity.
    assert (is_dir (fs st) T = false) as ->.
    { unfold is_dir. by rewrite (Hfree T (below_refl T)). }
    erewrite bind_ok by reflexivity. fold s0.
    apply with_tmpdir_run. fold tmp s1.
    rewrite Hdocker. erewrite bind_ok by reflexivity. cbv beta iota zeta.
    rewrite Hends. erewrite bind_ok.
    2: { erewrite bind_ok by reflexivity. reflexivity. }
    cbv beta iota zeta. fold names.
    rewrite filter_all.
    2: { apply Forall_forall. intros name Hin.
         apply list_elem_of_In, in_map_iff in Hin as (m & <- & Hm).
         apply list_elem_of_In in Hm. destruct (Hms m Hm) as (q & Hq & Hmq).
         by destruct (member_first f0 d q m Hsound Hd Hq Hmq) as [_ ->]. }
    erewrite bind_ok.
    2: { apply catch_ok. erewrite bind_ok by exact Hrun2. exact Hrun3. }
    erewrite bind_ok by reflexivity. reflexivity.
  - intros q m Hq Hm Hin. unfold st'. simpl. rewrite lookup_prune.
    rewrite decide_False by (by intros [Hr _]).
    apply (Hput3 q m Hq Hm). unfold names, ZipFile.namelist.
    apply list_elem_of_In, in_map. by apply list_elem_of_In.
Qed.

(** A tree with no locked file is copied to a place where nothing is. *)
Lemma copy_tree src dst st :
  is_dir (fs st) src = true ->
  (forall q n, PurePath.below src q -> fs st !! q = Some n -> is_locked n = false) ->
  (forall t, PurePath.below dst t -> fs st !! t = None) ->
  blocked (fs st) dst = false ->
  exists st',
    copy src dst st = (Ok (Some dst), st') /\
    next_tmp st' = next_tmp st /\
    forall q n, PurePath.below src q -> fs st !! q = Some n ->
                fs st' !! Shutil.rebase src dst q = Some n.
Proof.
  intros Hsrc Hlock Hfree Hblock.
  set (l := List.filter (fun qn : path * node => bool_decide (PurePath.below src qn.1))
                        (map_to_list (fs st))).
  assert (NoDup (List.map fst l)) as Hnd.
  { eapply sublist_NoDup; [apply (NoDup_fst_map_to_list (fs st))|].
    apply fmap_sublist. unfold l. clear. induction (map_to_list (fs st)) as [|x m IH]; simpl.
    - constructor.
    - destruct (bool_decide _); by constructor. }
  assert (forall qn, qn ∈ l <-> PurePath.below src qn.1 /\ fs st !! qn.1 = Some qn.2) as Hmem.
  { intros [q n]. unfold l. rewrite list_elem_of_In, filter_In, <- list_elem_of_In.
    rewrite elem_of_map_to_list. simpl. rewrite bool_decide_eq_true. tauto. }
  assert (Forall (fun qn => PurePath.below src qn.1 /\ fs st !! qn.1 = Some qn.2
                            /\ is_locked qn.2 = false) l) as Hall.
  { apply Forall_forall. intros qn Hqn. apply Hmem in Hqn as [Hb Hq].
    split; [done|]. split; [done|]. by eapply Hlock. }
  destruct (graft_all_arrive src dst (fs st) l Hsrc Hfree Hnd Hall) as (Hclean & Hin & _).
  assert (exists_ (fs st) dst = false) as Hex.
  { unfold exists_. by rewrite (Hfree dst (below_refl dst)). }
  assert (exists f', Shutil.copytree src dst st
                     = (Ok dst, State f' (trace st ++ [FsWrite dst]) (next_tmp st))
                     /\ forall qn, qn ∈ l -> f' !! Shutil.rebase src dst qn.1 = Some qn.2)
    as (f' & Hct & Hf').
  { unfold Shutil.copytree. rewrite Hsrc, Hex, Hblock. cbn [negb]. fold l.
    destruct (foldr _ _ l) as [f' clean]. simpl in *. subst clean. by exists f'. }
  eexists. split; [|split].
  - unfold copy, catch. erewrite bind_ok by reflexivity. rewrite Hsrc.
    erewrite bind_ok by exact Hct. reflexivity.
  - done.
  - intros q n Hb Hq. apply (Hf' (q, n)). by apply Hmem.
Qed.

(** From the temporary directory to the output: the place of an entry. *)
Lemma rebase_place d tmp out q :
  p_parts d <> [] -> PurePath.below d q ->
  Shutil.rebase (Shutil.rebase (PurePath.parent d) tmp d)
                (Shutil.rebase (PurePath.parent d) out d)
                (Shutil.rebase (PurePath.parent d) tmp q)
  = Shutil.rebase (PurePath.parent d) out q.
Proof.
  intros Hd Hq. rewrite !tree_place by done.
  destruct (rebase_tree d tmp q Hd Hq) as (k & Hparts & _ & ->).
  destruct (rebase_tree d out q Hd Hq) as (k' & Hparts' & _ & ->).
  rewrite Hparts in Hparts'. apply app_inv_head in Hparts'. injection Hparts' as <-.
  unfold Shutil.rebase. simpl. f_equal.
  rewrite <- app_assoc. f_equal. simpl.
  change (PurePath.name d :: k)%list with ([PurePath.name d] ++ k)%list.
  rewrite (app_assoc (p_parts tmp)).
  by rewrite list.drop_app_length.
Qed.

(** A file is copied into a new temporary directory. *)
Lemma copy_into_tmpdir p c st :
  tidy st -> fs st !! p = Some (File false c) ->
  entry_name (PurePath.name p) = true ->
  let tmp := Path (Scratch (next_tmp st)) [] in
  let s1 := State (<[tmp := Dir]> (fs st)) (trace st ++ [FsWrite tmp]) (S (next_tmp st)) in
  let pc := PurePath.joinpath tmp (PurePath.basename p) in
  pc = Path (Scratch (next_tmp st)) [PurePath.name p] /\
  copy p tmp s1
  = (Ok (Some pc),
     State (<[pc := File false c]> (fs s1)) (trace s1 ++ [FsWrite pc]) (next_tmp s1)).
Proof.
  intros Htidy Hp Hname tmp s1 pc.
  assert (pc = Path (Scratch (next_tmp st)) [PurePath.name p]) as Hpc.
  { unfold pc, PurePath.joinpath, PurePath.basename. simpl.
    by rewrite (entry_name_proper _ Hname). }
  split; [done|].
  assert (p <> tmp) as Hne.
  { intros ->. unfold tmp in Hp. rewrite Htidy in Hp by lia. done. }
  assert (fs s1 !! p = Some (File false c)) as Hp1.
  { simpl. by rewrite lookup_insert_ne. }
  unfold copy. erewrite catch_ok; [reflexivity|].
  erewrite bind_ok by reflexivity.
  assert (is_dir (fs s1) p = false) as -> by (unfold is_dir; by rewrite Hp1).
  assert (is_file (fs s1) p = true) as -> by (unfold is_file; by rewrite Hp1).
  erewrite bind_ok; [reflexivity|].
  unfold Shutil.copy2.
  erewrite bind_ok by (unfold Os.read_file; by rewrite Hp1).
  erewrite bind_ok by reflexivity.
  assert (is_dir (fs s1) tmp = true) as ->.
  { unfold is_dir. simpl. by rewrite lookup_insert_eq. }
  fold pc. erewrite bind_ok; [reflexivity|].
  unfold Os.write_file.
  assert (fs s1 !! pc = None) as ->.
  { simpl. rewrite Hpc. rewrite lookup_insert_ne by done. apply Htidy. lia. }
  assert (is_dir (fs s1) (PurePath.parent pc) = true) as ->; [|done].
  rewrite Hpc. unfold is_dir, PurePath.parent. simpl. by rewrite lookup_insert_eq.
Qed.

Lemma endswith_scratch_str n nm stem ext :
  nm = stem +:+ ext ->
  Str.endswith ext (PurePath.str (Path (Scratch n) [nm])) = true.
Proof.
  intros ->. unfold PurePath.str. cbn [p_root p_parts].
  change (Str.join "/" [stem +:+ ext]) with (stem +:+ ext).
  rewrite <- !append_assoc. apply endswith_append.
Qed.

(** In docker, [extract_file] copies the archive to a temporary
    directory, extracts it there and copies the tree to the output
    directory. *)
Lemma extract_zip_tree_docker E zip d f0 ms oparts overwrite st stem :
  in_docker E = true ->
  set_order E [PurePath.name d] = [PurePath.name d] ->
  sound_tree f0 d -> p_parts d <> [] ->
  fs st !! zip = Some (File false (Zip ms)) -> ms <> [] ->
  (forall m, m ∈ ms -> exists q, PurePath.below d q /\ member_of f0 d q = Some m) ->
  PurePath.suffix zip = ".zip" ->
  PurePath.name zip = stem +:+ ".zip" ->
  entry_name (PurePath.name zip) = true ->
  PurePath.name zip <> PurePath.name d ->
  tidy st ->
  let out := Path Disk oparts in
  let T := PurePath.joinpath out (PurePath.name d) in
  (forall t, PurePath.below T t -> fs st !! t = None) ->
  blocked (fs st) T = false ->
  exists st',
    extract_file E zip out overwrite st = (Ok (OnePath T), st') /\
    forall q m, PurePath.below d q -> member_of f0 d q = Some m -> m ∈ ms ->
                fs st' !! Shutil.rebase (PurePath.parent d) out q = f0 !! q.
Proof.
  intros Hdocker Hset Hsound Hd Hzip Hne Hms Hsuffix Hstem Hzname Hdiff Htidy out T
         Hfree Hblocked.
  assert (f0 !! d = Some Dir) as Hdir.
  { destruct Hsound as (Hdd & _). unfold is_dir in Hdd. by destruct (f0 !! d) as [[]|]. }
  assert (entry_name (PurePath.name d) = true) as Hname.
  { apply name_entry; [|done]. eapply sound_tree_names; [exact Hsound|apply below_refl|].
    by rewrite Hdir. }
  set (names := ZipFile.namelist ms).
  set (s0 := State (fs st) (trace st ++ [Log Info "Extracting %s"]) (next_tmp st)).
  assert (tidy s0) as Htidy0 by done.
  set (tmp := Path (Scratch (next_tmp s0)) []).
  set (s1 := State (<[tmp := Dir]> (fs s0)) (trace s0 ++ [FsWrite tmp]) (S (next_tmp s0))).
  destruct (copy_into_tmpdir zip (Zip ms) s0 Htidy0 Hzip Hzname) as [Hzc Hcopy].
  fold tmp s1 in Hzc, Hcopy.
  set (zc := PurePath.joinpath tmp (PurePath.basename zip)) in *.
  set (s1c := State (<[zc := File false (Zip ms)]> (fs s1)) (trace s1 ++ [FsWrite zc])
                    (next_tmp s1)) in *.
  set (Tt := PurePath.joinpath tmp (PurePath.name d)).
  assert (Tt = Path (Scratch (next_tmp st)) [PurePath.name d]) as HTt.
  { unfold Tt, PurePath.joinpath. simpl. by rewrite (entry_name_proper _ Hname). }
  assert (forall t, p_root t = Disk -> fs s1c !! t = fs st !! t) as Hdisk1.
  { intros t Ht. simpl. rewrite !lookup_insert_ne; [done| |].
    - intros <-. done.
    - rewrite Hzc. intros <-. done. }
  destruct (makedirs_unpacking f0 d tmp s1c Hsound Hd)
    as (s2 & Hrun2 & Hinv2 & HdirT2 & Hn2 & Hrest2).
  { fold Tt. intros t Ht. rewrite HTt in Ht. destruct Ht as [Hr [k Hk]]. simpl in Hr, Hk.
    destruct t as [rt pt]. simpl in *. subst rt pt.
    rewrite lookup_insert_ne.
    2: { rewrite Hzc. intros [= Heq]. by apply Hdiff. }
    rewrite lookup_insert_ne by done. apply Htidy. simpl. lia. }
  { fold Tt. apply blocked_false. intros a Ha Hnea. rewrite HTt in Ha, Hnea.
    destruct Ha as [Hr [k Hk]]. destruct a as [ra pa]. simpl in Hr, Hk. subst ra.
    destruct pa as [|x pa].
    - unfold is_file. simpl. rewrite lookup_insert_ne by (by rewrite Hzc).
      fold tmp. by rewrite lookup_insert_eq.
    - exfalso. apply Hnea. injection Hk as <- Hk. destruct pa; [done|discriminate]. }
  destruct (zip_extractall_unpacking f0 d tmp ms names s2 Hsound Hd Hms)
    as (s3 & Hrun3 & Hinv3 & Hn3 & Hmono3 & Hput3 & Hframe3); [|done|].
  { apply Forall_forall. by intros name Hin. }
  assert (forall t, p_root t = Disk -> fs s3 !! t = fs st !! t) as Hdisk3.
  { intros t Ht. rewrite Hframe3, Hrest2 by (by rewrite Ht). by apply Hdisk1. }
  pose proof (tree_place_joinpath d tmp Hd Hname) as Hplace_tmp. fold Tt in Hplace_tmp.
  pose proof (tree_place_joinpath d out Hd Hname) as Hplace_out. fold T in Hplace_out.
  destruct (copy_tree Tt T s3) as (s4 & Hrun4 & Hn4 & Hput4).
  { fold Tt in HdirT2. unfold is_dir in *.
    destruct (fs s2 !! Tt) as [[]|] eqn:HTt2; try done.
    rewrite (Hmono3 Tt Dir); [done| |done]. rewrite Hplace_tmp. apply below_refl. }
  { intros x n Hx Hlook. destruct Hinv3 as (_ & _ & Hinv3). cbv zeta in Hinv3.
    rewrite Hplace_tmp in Hinv3. destruct (Hinv3 x n Hx Hlook) as (q & Hq & _ & Hn).
    by destruct (sound_tree_node f0 d q n Hsound Hq Hn) as [->|[c ->]]. }
  { intros t Ht. rewrite Hdisk3; [by apply Hfree|]. by destruct Ht as [<- _]. }
  { apply blocked_false. intros a Ha Hnea. unfold is_file. rewrite Hdisk3.
    - rewrite blocked_false in Hblocked. by apply (Hblocked a Ha Hnea).
    - by destruct Ha as [-> _]. }
  set (st' := State (prune tmp (fs s4)) (trace s4 ++ [FsRemove tmp]) (next_tmp s4)).
  exists st'. split.
  - unfold extract_file. erewrite bind_ok by reflexivity.
    assert (is_dir (fs st) zip = false) as -> by (unfold is_dir; by rewrite Hzip).
    rewrite Hsuffix. change (String.eqb ".zip" ".zip") with true. cbv iota.
    erewrite bind_ok.
    2: { erewrite bind_ok; [reflexivity|]. unfold ZipFile.open_r.
         erewrite bind_ok by (unfold Os.read_file; by rewrite Hzip). reflexivity. }
    cbv beta iota zeta.
    rewrite (top_level_tree E f0 d ms) by done.
    cbn [List.map extract_loop]. fold out T.
    erewrite bind_ok; [reflexivity|].
    erewrite bind_ok; [reflexivity|].
    assert (PurePath.name T = PurePath.name d) as HnT by (by apply name_joinpath).
    unfold extract_one. rewrite HnT.
    erewrite bind_ok by reflexivity.
    assert (is_dir (fs st) T = false) as ->.
    { unfold is_dir. by rewrite (Hfree T (below_refl T)). }
    erewrite bind_ok by reflexivity. fold s0.
    apply with_tmpdir_run. fold tmp s1.
    rewrite Hdocker. erewrite bind_ok.
    2: { erewrite bind_ok by exact Hcopy. reflexivity. }
    cbv beta iota zeta. fold zc Tt.
    assert (Str.endswith ".zip" (PurePath.str zc) = true) as ->.
    { rewrite Hzc. by apply (endswith_scratch_str _ _ stem). }
    erewrite bind_ok.
    2: { erewrite bind_ok by reflexivity. reflexivity. }
    cbv beta iota zeta. fold names.
    rewrite filter_all.
    2: { apply Forall_forall. intros name Hin.
         apply list_elem_of_In, in_map_iff in Hin as (m & <- & Hm).
         apply list_elem_of_In in Hm. destruct (Hms m Hm) as (q & Hq & Hmq).
         by destruct (member_first f0 d q m Hsound Hd Hq Hmq) as [_ ->]. }
    erewrite bind_ok.
    2: { apply catch_ok. erewrite bind_ok by exact Hrun2. exact Hrun3. }
    erewrite bind_ok.
    2: { erewrite bind_ok by exact Hrun4. reflexivity. }
    reflexivity.
  - intros q m Hq Hm Hin. unfold st'. simpl. rewrite lookup_prune.
    rewrite decide_False by (by intros [Hr _]).
    assert (is_Some (f0 !! q)) as [n Hn].
    { unfold member_of in Hm. destruct (f0 !! q); [by eexists|done]. }
    rewrite Hn. rewrite <- (rebase_place d tmp out q Hd Hq).
    rewrite Hplace_tmp, Hplace_out. apply Hput4.
    + rewrite <- Hplace_tmp. by apply rebase_tree_below.
    + rewrite <- Hn. apply (Hput3 q m Hq Hm). unfold names, ZipFile.namelist.
      apply list_elem_of_In, in_map. by apply list_elem_of_In.
Qed.

(** ** [archive]: the name of the archive *)

Lemma substring_no_slash i s :
  Str.contains "/" s = false -> Str.contains "/" (String.substring 0 i s) = false.
Proof.
  revert i. induction s as [|c s IH]; intros i Hs; [by destruct i|].
  destruct i as [|i]; [done|].
  cbn [Str.contains] in Hs. rewrite prefix_slash in Hs.
  apply orb_false_elim in Hs as [Hc Hs].
  cbn [String.substring Str.contains]. rewrite prefix_slash, Hc. by apply IH.
Qed.

Lemma contains_slash_append x y :
  Str.contains "/" x = false -> Str.contains "/" y = false ->
  Str.contains "/" (x +:+ y) = false.
Proof.
  intros Hx Hy. induction x as [|c x IH]; [done|].
  cbn [Str.contains] in Hx. rewrite prefix_slash in Hx.
  apply orb_false_elim in Hx as [Hc Hx].
  rewrite ReFacts.append_String. cbn [Str.contains]. rewrite prefix_slash, Hc.
  by apply IH.
Qed.

(** What [os.path.splitext] leaves of a name is a name. *)
Lemma splitext_root_name nm :
  entry_name nm = true ->
  Archiving.splitext_root nm <> "" /\ Str.contains "/" (Archiving.splitext_root nm) = false.
Proof.
  intros Hn. pose proof (entry_name_no_slash _ Hn) as Hns.
  assert (nm <> "") as Hne by (by intros ->).
  unfold Archiving.splitext_root. destruct (Str.rfind "." nm) as [i|]; [|done].
  destruct (String.eqb_spec (Str.lstrip "." (String.substring 0 i nm)) "") as [Heq|Hneq];
    [done|].
  split; [|by apply substring_no_slash].
  intros Heq. by rewrite Heq in Hneq.
Qed.

Lemma entry_name_zip stem :
  stem <> "" -> Str.contains "/" stem = false -> entry_name (stem +:+ ".zip") = true.
Proof.
  intros Hne Hns. unfold entry_name.
  rewrite contains_slash_append by done.
  destruct stem as [|a stem]; [done|]. rewrite ReFacts.append_String.
  destruct stem as [|b stem]; [by destruct a as [[] [] [] [] [] [] [] []]|].
  rewrite ReFacts.append_String.
  destruct stem as [|c stem].
  - cbn. rewrite !andb_true_r.
    destruct (Ascii.eqb a "."); [|done]. cbn. by destruct (Ascii.eqb b ".").
  - rewrite ReFacts.append_String. cbn. rewrite !andb_true_r.
    destruct (Ascii.eqb a "."); [|done]. cbn. by destruct (Ascii.eqb b ".").
Qed.

Lemma suffix_of_zip p stem :
  PurePath.name p = stem +:+ ".zip" -> stem <> "" -> PurePath.suffix p = ".zip".
Proof.
  intros Hn Hne. unfold PurePath.suffix. rewrite Hn, rfind_app.
  change (Str.rfind "." ".zip") with (Some 0).
  rewrite length_append, drop_app_length.
  assert (((0 <? String.length stem + 0)%nat
           && (String.length stem + 0 <? String.length stem + String.length ".zip" - 1)%nat)
          = true) as ->; [|done].
  assert (0 < String.length stem) by (destruct stem; [done|simpl; lia]).
  apply andb_true_intro. split; apply Nat.ltb_lt; simpl; lia.
Qed.

Lemma join_last l : l <> [] -> exists pre, Str.join "/" l = pre +:+ List.last l "".
Proof.
  intros Hl. destruct l as [|s l] using rev_ind; [done|]. clear IHl.
  rewrite last_last. destruct l as [|y l].
  - by exists "".
  - rewrite join_app_last by done. exists (Str.join "/" (y :: l) +:+ "/").
    rewrite append_assoc. done.
Qed.

Lemma endswith_disk_str l stem ext :
  l <> [] -> List.last l "" = stem +:+ ext ->
  Str.endswith ext (PurePath.str (Path Disk l)) = true.
Proof.
  intros Hl Hlast. unfold PurePath.str. cbn [p_root p_parts].
  destruct (join_last l Hl) as [pre ->]. rewrite Hlast.
  rewrite <- !append_assoc. apply endswith_append.
Qed.

Lemma archive_file_name r l ext :
  l <> [] ->
  Archiving.with_extension (Archiving.splitext_base (Path r l)) ext
  = Path r (removelast l ++ [Archiving.splitext_root (List.last l "") +:+ ext]).
Proof.
  intros Hl. unfold Archiving.splitext_base. cbn [p_parts p_root].
  destruct l as [|x l]; [done|]. set (l0 := removelast (x :: l)).
  set (s := Archiving.splitext_root (List.last (x :: l) "")).
  unfold Archiving.with_extension. cbn [p_parts p_root].
  destruct (l0 ++ [s])%list as [|y l1] eqn:Heq.
  { by apply app_eq_nil in Heq as [_ ?]. }
  rewrite <- Heq. rewrite removelast_last, last_last. by destruct r.
Qed.

(** [archive] with the format [zip], for a sound tree and an archive
    outside it. *)
Lemma archive_zip_tree (unfinished : members -> content) folder r aparts st :
  let archive_path := Path r aparts in
  let zip := Archiving.with_extension (Archiving.splitext_base archive_path) ".zip" in
  sound_tree (fs st) folder -> p_parts folder <> [] ->
  is_dir (fs st) (PurePath.parent folder) = true ->
  aparts <> [] ->
  ~ PurePath.below folder zip ->
  replaceable (fs st) zip = true ->
  is_dir (fs st) (PurePath.parent archive_path) = true ->
  exists ms st1,
    Archiving.archive unfinished folder archive_path Archiving.FZip st = (Ok zip, st1) /\
    fs st1 = <[zip := File false (Zip ms)]> (fs st) /\
    next_tmp st1 = next_tmp st /\
    (forall m, m ∈ ms -> exists q, PurePath.below folder q
                                   /\ member_of (fs st) folder q = Some m) /\
    (forall q, PurePath.below folder q -> is_Some (fs st !! q) ->
               exists m, m ∈ ms /\ member_of (fs st) folder q = Some m).
Proof.
  intros archive_path zip Hsound Hd Hroot Ha Hout Hrep Hpar.
  assert (PurePath.parent zip = PurePath.parent archive_path) as Hpz.
  { unfold zip, archive_path. rewrite archive_file_name by done.
    unfold PurePath.parent. simpl. by rewrite removelast_last. }
  destruct (make_zipfile_tree unfinished zip folder st Hsound Hd Hout Hrep)
    as (ms & st1 & Hrun & Hrest); [by rewrite Hpz|].
  exists ms, st1. split; [|done].
  unfold Archiving.archive, Archiving.make_archive.
  erewrite bind_ok by reflexivity.
  assert (match p_parts folder, p_root folder with
          | [], Scratch _ => true
          | _, _ => false
          end = false) as ->.
  { destruct (p_parts folder); [done|]. by destruct (p_root folder). }
  assert (exists_ (fs st) (PurePath.parent folder) = true) as ->.
  { unfold exists_, is_dir in *. by destruct (fs st !! PurePath.parent folder). }
  rewrite Hroot. cbn [negb andb]. exact Hrun.
Qed.

(** X20. A directory that is archived as a zip and extracted again is
    found whole in the output directory, under its own name: every
    directory and every file of it, the files with their bytes.  The
    archive goes to [archive_path] with its extension replaced by [.zip];
    in docker, the archive must not carry the name of the directory. *)
Theorem archive_zip_extract_round_trip
  (E : env) (unfinished : members -> content) (folder : path)
  (aparts oparts : list string) (overwrite : bool) (st : state) :
  let archive_path := Path Disk aparts in
  let zip := Archiving.with_extension (Archiving.splitext_base archive_path) ".zip" in
  let output := Path Disk oparts in
  let target := PurePath.joinpath output (PurePath.name folder) in
  sound_tree (fs st) folder -> p_parts folder <> [] ->
  is_dir (fs st) (PurePath.parent folder) = true ->
  forallb entry_name aparts = true -> aparts <> [] ->
  is_dir (fs st) (PurePath.parent archive_path) = true ->
  replaceable (fs st) zip = true ->
  ~ PurePath.below folder zip ->
  ~ PurePath.below target zip -> ~ PurePath.below zip target ->
  (forall t, PurePath.below target t -> fs st !! t = None) ->
  blocked (fs st) target = false ->
  tidy st ->
  set_order E [PurePath.name folder] = [PurePath.name folder] ->
  (in_docker E = true -> PurePath.name zip <> PurePath.name folder) ->
  exists st1 st2,
    Archiving.archive unfinished folder archive_path Archiving.FZip st = (Ok zip, st1) /\
    extract_file E zip output overwrite st1 = (Ok (OnePath target), st2) /\
    forall q n, PurePath.below folder q -> fs st !! q = Some n ->
                fs st2 !! Shutil.rebase (PurePath.parent folder) output q = Some n.
Proof.
  intros archive_path zip output target Hsound Hd Hroot Hanames Ha Hpar Hrep Hout HoutT
         Habove Hfree Hblocked Htidy Hset Hdocker.
  destruct (archive_zip_tree unfinished folder Disk aparts st Hsound Hd Hroot Ha Hout Hrep Hpar)
    as (ms & st1 & Hrun & Hfs1 & Hn1 & Hms & Hall).
  fold archive_path zip in Hrun, Hfs1.
  set (stem := Archiving.splitext_root (List.last aparts "")).
  assert (entry_name (List.last aparts "") = true) as Hlast.
  { rewrite forallb_forall in Hanames. apply Hanames.
    destruct aparts as [|x l] using rev_ind; [done|].
    rewrite last_last. apply in_or_app. right. by left. }
  destruct (splitext_root_name _ Hlast) as [Hstem Hns]. fold stem in Hstem, Hns.
  assert (zip = Path Disk (removelast aparts ++ [stem +:+ ".zip"])) as Hzip.
  { unfold zip, archive_path. by rewrite archive_file_name. }
  assert (PurePath.name zip = stem +:+ ".zip") as Hname.
  { rewrite Hzip. unfold PurePath.name. simpl. by rewrite last_last. }
  assert (fs st1 !! zip = Some (File false (Zip ms))) as Hlook.
  { rewrite Hfs1. by rewrite lookup_insert_eq. }
  assert (ms <> []) as Hne.
  { destruct (Hall folder (below_refl folder)) as (m & Hm & _).
    - destruct Hsound as (Hdd & _). unfold is_dir in Hdd.
      by destruct (fs st !! folder).
    - intros ->. by apply elem_of_nil in Hm. }
  assert (forall t, PurePath.below target t -> fs st1 !! t = None) as Hfree1.
  { intros t Ht. rewrite Hfs1. rewrite lookup_insert_ne; [by apply Hfree|].
    by intros <-. }
  assert (blocked (fs st1) target = false) as Hblocked1.
  { apply blocked_false. intros a Ha' Hnea. rewrite blocked_false in Hblocked.
    specialize (Hblocked a Ha' Hnea). unfold is_file in *. rewrite Hfs1.
    rewrite lookup_insert_ne; [done|]. by intros <-. }
  assert (tidy st1) as Htidy1.
  { intros n parts Hn. rewrite Hfs1, lookup_insert_ne; [|by rewrite Hzip].
    apply Htidy. by rewrite <- Hn1. }
  assert (exists st2,
            extract_file E zip output overwrite st1 = (Ok (OnePath target), st2) /\
            forall q m, PurePath.below folder q -> member_of (fs st) folder q = Some m ->
                        m ∈ ms ->
                        fs st2 !! Shutil.rebase (PurePath.parent folder) output q
                        = fs st !! q) as (st2 & Hrun2 & Hput).
  { destruct (in_docker E) eqn:Hdock.
    - apply (extract_zip_tree_docker E zip folder (fs st) ms oparts overwrite st1 stem);
        try done.
      + by apply (suffix_of_zip _ stem).
      + rewrite Hname. by apply entry_name_zip.
      + by apply Hdocker.
    - apply (extract_zip_tree_plain E zip folder (fs st) ms oparts overwrite st1);
        try done.
      + by apply (suffix_of_zip _ stem).
      + rewrite Hzip. apply (endswith_disk_str _ stem); [by destruct (removelast aparts)|].
        by rewrite last_last. }
  exists st1, st2. split; [done|]. split; [done|].
  intros q n Hq Hn. destruct (Hall q Hq) as (m & Hm & Hmq); [by rewrite Hn|].
  rewrite <- Hn. by apply (Hput q m).
Qed.

Lemma archive_zip_extract_round_trip_witness :
  let st := fresh [([], Dir); (["d"], Dir); (["d"; "f.txt"], File false (bytes_of "x"));
                   (["d"; "s"], Dir); (["d"; "s"; "g.txt"], File false (bytes_of "y"));
                   (["z"], Dir); (["out"], Dir)] in
  exists st1 st2,
    Archiving.archive (fun _ => Raw []) (Path Disk ["d"]) (Path Disk ["z"; "a.zip"])
                      Archiving.FZip st
    = (Ok (Path Disk ["z"; "a.zip"]), st1) /\
    extract_file (python true id) (Path Disk ["z"; "a.zip"]) (Path Disk ["out"]) false st1
    = (Ok (OnePath (Path Disk ["out"; "d"])), st2) /\
    fs st2 !! Path Disk ["out"; "d"; "s"; "g.txt"] = Some (File false (bytes_of "y")).
Proof.
  intros st.
  destruct (archive_zip_extract_round_trip
              (python true id) (fun _ => Raw []) (Path Disk ["d"]) ["z"; "a.zip"] ["out"]
              false st)
    as (st1 & st2 & Hrun1 & Hrun2 & Hall).
  - split; [reflexivity|]. split; [vm_compute; reflexivity|].
    intros q _ [n Hq]. apply elem_of_list_to_map_2 in Hq. simpl in Hq.
    repeat (apply elem_of_cons in Hq as [Hq|Hq];
            [inversion Hq; subst; split; [reflexivity|intros _; reflexivity]|]).
    by apply elem_of_nil in Hq.
  - done.
  - reflexivity.
  - reflexivity.
  - done.
  - reflexivity.
  - reflexivity.
  - intros [_ [k Hk]]. discriminate.
  - intros [_ [k Hk]]. discriminate.
  - intros [_ [k Hk]]. vm_compute in Hk. destruct k; discriminate.
  - intros [r t] [Hr [k Hk]]. simpl in Hr, Hk. subst r t.
    unfold st, fresh, disk. simpl.
    repeat (rewrite lookup_insert_ne by (intros ?; simplify_eq)). apply lookup_empty.
  - vm_compute. reflexivity.
  - intros n parts _. unfold st, fresh, disk. simpl.
    repeat (rewrite lookup_insert_ne by (intros ?; simplify_eq)). apply lookup_empty.
  - reflexivity.
  - intros _ H. vm_compute in H. discriminate.
  - exists st1, st2. split; [exact Hrun1|]. split; [exact Hrun2|].
    apply (Hall (Path Disk ["d"; "s"; "g.txt"])).
    + split; [reflexivity|]. by exists ["s"; "g.txt"].
    + vm_compute. reflexivity.
Defined.

(** ** A tar archive that holds a tree is extracted *)

Lemma resolve_names l : forall parts,
  forallb entry_name l = true -> TarFile.resolve parts l = (parts ++ l)%list.
Proof.
  unfold TarFile.resolve. induction l as [|s l IH]; intros parts Hall.
  - by rewrite app_nil_r.
  - simpl in Hall. apply andb_prop in Hall as [Hs Hl]. cbn [fold_left].
    unfold entry_name in Hs. repeat (apply andb_prop in Hs as [Hs ?]).
    repeat match goal with H : negb _ = true |- _ => apply negb_true_iff in H end.
    rewrite Hs, H1, H0. cbn [orb]. rewrite IH by done. by rewrite <- app_assoc.
Qed.

Lemma tar_target out l :
  l <> [] -> forallb entry_name l = true ->
  TarFile.target out (Str.join "/" l) = Path (p_root out) (p_parts out ++ l).
Proof.
  intros Hl Hall. unfold TarFile.target.
  rewrite split_join by (done || by apply entry_names_no_slash).
  by rewrite resolve_names.
Qed.

Lemma tar_member_of_tree f0 d out q m :
  sound_tree f0 d -> p_parts d <> [] -> PurePath.below d q ->
  tar_member_of f0 d q = Some m ->
  TarFile.target out m.1 = Shutil.rebase (PurePath.parent d) out q /\
  ((f0 !! q = Some Dir /\ m.2 = EDir) \/
   (exists c, f0 !! q = Some (File false c) /\ m.2 = EFile c)).
Proof.
  intros Hsound Hd Hq Hm.
  destruct (rebase_tree d out q Hd Hq) as (k & Hparts & Hdrop & Hplace).
  assert (is_Some (f0 !! q)) as Hsome.
  { unfold tar_member_of in Hm. destruct (f0 !! q); [by eexists|done]. }
  pose proof (sound_tree_names f0 d q Hsound Hq Hsome) as Hnames.
  rewrite Hparts, forallb_app in Hnames. apply andb_prop in Hnames as [_ Hnames].
  assert (arcname d q = Str.join "/" (PurePath.name d :: k)) as Harc.
  { unfold arcname. by rewrite <- Hdrop. }
  unfold tar_member_of in Hm. rewrite Harc in Hm. rewrite Hplace.
  assert (PurePath.name d :: k <> []) as Hne by done.
  revert Hm Hnames Hne. generalize (PurePath.name d :: k). intros l Hm Hnames Hne.
  destruct (f0 !! q) as [[|[] c]|]; try done; injection Hm as <-; cbn [fst snd].
  - split; [by apply tar_target|]. by left.
  - split; [by apply tar_target|]. right. by exists c.
Qed.

(** One member of the archive is extracted. *)
Lemma tar_extract_unpacking f0 d out q m s :
  sound_tree f0 d -> p_parts d <> [] ->
  PurePath.below d q -> tar_member_of f0 d q = Some m ->
  unpacking f0 d out (fs s) ->
  exists s',
    TarFile.extract out m s = (Ok tt, s') /\
    unpacking f0 d out (fs s') /\
    next_tmp s' = next_tmp s /\
    (forall x n, PurePath.below (Shutil.rebase (PurePath.parent d) out d) x ->
                 fs s !! x = Some n -> fs s' !! x = Some n) /\
    fs s' !! Shutil.rebase (PurePath.parent d) out q = f0 !! q /\
    (forall x, ~ PurePath.below (Shutil.rebase (PurePath.parent d) out d) x ->
               ~ PurePath.below x (Shutil.rebase (PurePath.parent d) out d) ->
               fs s' !! x = fs s !! x).
Proof.
  intros Hsound Hd Hq Hm Hinv.
  destruct (tar_member_of_tree f0 d out q m Hsound Hd Hq Hm) as [Htarget Hkind].
  assert (is_Some (f0 !! q)) as Hsome.
  { unfold tar_member_of in Hm. destruct (f0 !! q); [by eexists|done]. }
  set (t := Shutil.rebase (PurePath.parent d) out q) in *.
  set (T := Shutil.rebase (PurePath.parent d) out d).
  pose proof (rebase_tree_below d out q Hd Hq) as HTt. fold T t in HTt.
  destruct (upperdirs_unpacking f0 d out q s Hsound Hd Hinv Hq Hsome)
    as (s1 & Hup & Hinv1 & Htmp1 & Hmono1 & Hpar1 & Hsame1 & _ & Hframe1).
  fold t T in Hup, Hmono1, Hpar1, Hsame1, Hframe1.
  assert (forall x, ~ PurePath.below T x -> ~ PurePath.below x T ->
                    fs s1 !! x = fs s !! x /\ x <> t) as Hout.
  { intros x Hx1 Hx2. split.
    - apply Hframe1. intros Hxt. destruct (below_chain x T t Hxt HTt); done.
    - by intros ->. }
  assert (forall n, fs s1 !! t = Some n -> f0 !! q = Some n) as Hthere.
  { intros n Hn. destruct Hinv1 as (_ & _ & Hinv1). cbv zeta in Hinv1.
    destruct (Hinv1 t n) as (q' & Hq' & Heq & Hn'); [done|done|].
    assert (q = q') as <- by (by apply (place_inj d out)). done. }
  unfold TarFile.extract. rewrite Htarget.
  erewrite bind_ok by exact Hup.
  destruct Hkind as [(Hnode & He)|(c & Hnode & He)]; rewrite He.
  - erewrite bind_ok by reflexivity.
    destruct (exists_ (fs s1) t) eqn:Hex.
    + exists s1. split; [done|]. split; [done|]. split; [done|]. split; [done|].
      split; [|intros x Hx1 Hx2; by apply Hout].
      unfold exists_ in Hex. destruct (fs s1 !! t) as [n|] eqn:Hn; [|done].
      rewrite Hnode. f_equal. pose proof (Hthere n eq_refl) as Hn'. congruence.
    + assert (fs s1 !! t = None) as Hnone.
      { unfold exists_ in Hex. by destruct (fs s1 !! t). }
      unfold Os.mkdir. rewrite Hex, Hpar1.
      eexists. split; [reflexivity|]. simpl.
      split; [by apply unpacking_insert|]. split; [done|]. split; [|split].
      * intros x n Hx Hlook. destruct (decide (x = t)) as [->|Hnet].
        -- rewrite Hsame1 in Hnone. congruence.
        -- rewrite lookup_insert_ne by done. by apply Hmono1.
      * by rewrite lookup_insert_eq.
      * intros x Hx1 Hx2. destruct (Hout x Hx1 Hx2) as [Hx Hne].
        by rewrite lookup_insert_ne.
  - unfold Os.write_file. rewrite Hpar1.
    assert (fs s1 !! t = None \/ fs s1 !! t = Some (File false c)) as Hcur.
    { destruct (fs s1 !! t) as [n|] eqn:Hn; [|by left].
      right. rewrite <- Hnode. symmetry. by apply Hthere. }
    assert (unpacking f0 d out (<[t := File false c]> (fs s1))) as Hinv2
      by (by apply unpacking_insert).
    assert (forall x n, PurePath.below T x -> fs s !! x = Some n ->
                        <[t := File false c]> (fs s1) !! x = Some n) as Hmono2.
    { intros x n Hx Hlook. destruct (decide (x = t)) as [->|Hnet].
      - rewrite lookup_insert_eq. rewrite <- Hsame1 in Hlook.
        apply Hthere in Hlook. congruence.
      - rewrite lookup_insert_ne by done. by apply Hmono1. }
    destruct Hcur as [Hcur|Hcur]; rewrite Hcur;
      (eexists; split; [reflexivity|]; simpl;
       split; [done|]; split; [done|]; split; [done|];
       split; [by rewrite lookup_insert_eq|];
       intros x Hx1 Hx2; destruct (Hout x Hx1 Hx2) as [Hx Hne];
       by rewrite lookup_insert_ne).
Qed.

(** The members are extracted one after the other. *)
Lemma tar_extractall_unpacking f0 d out ms : forall s,
  sound_tree f0 d -> p_parts d <> [] ->
  Forall (fun m => exists q, PurePath.below d q /\ tar_member_of f0 d q = Some m) ms ->
  unpacking f0 d out (fs s) ->
  exists s',
    TarFile.extractall out ms s = (Ok tt, s') /\
    unpacking f0 d out (fs s') /\
    next_tmp s' = next_tmp s /\
    (forall x n, PurePath.below (Shutil.rebase (PurePath.parent d) out d) x ->
                 fs s !! x = Some n -> fs s' !! x = Some n) /\
    (forall q m, PurePath.below d q -> tar_member_of f0 d q = Some m -> m ∈ ms ->
                 fs s' !! Shutil.rebase (PurePath.parent d) out q = f0 !! q) /\
    (forall x, ~ PurePath.below (Shutil.rebase (PurePath.parent d) out d) x ->
               ~ PurePath.below x (Shutil.rebase (PurePath.parent d) out d) ->
               fs s' !! x = fs s !! x).
Proof.
  intros s Hsound Hd Hms. revert s.
  induction Hms as [|m0 ms (q0 & Hq0 & Hm0) _ IH]; intros s Hinv.
  - exists s. split; [done|]. split; [done|]. split; [done|]. split; [done|].
    split; [|done]. intros q m _ _ Hin. by apply elem_of_nil in Hin.
  - destruct (tar_extract_unpacking f0 d out q0 m0 s Hsound Hd Hq0 Hm0 Hinv)
      as (s1 & Hrun1 & Hinv1 & Htmp1 & Hmono1 & Hput1 & Hframe1).
    destruct (IH s1 Hinv1) as (s' & Hrun & Hinv' & Htmp & Hmono & Hput & Hframe).
    exists s'. split.
    { cbn [TarFile.extractall]. erewrite bind_ok by exact Hrun1. exact Hrun. }
    split; [done|]. split; [congruence|]. split.
    { intros x n Hx Hlook. apply Hmono; [done|]. by apply Hmono1. }
    split; [|intros x Hx1 Hx2; rewrite Hframe by done; by apply Hframe1].
    intros q m Hq Hm Hin. apply elem_of_cons in Hin as [->|Hin]; [|by eapply Hput].
    assert (q = q0) as ->.
    { apply (place_inj d out); [done|done|].
      destruct (tar_member_of_tree f0 d out q m0 Hsound Hd Hq Hm) as [<- _].
      by destruct (tar_member_of_tree f0 d out q0 m0 Hsound Hd Hq0 Hm0) as [<- _]. }
    assert (is_Some (f0 !! q0)) as [n Hn].
    { unfold tar_member_of in Hm0. destruct (f0 !! q0); [by eexists|done]. }
    rewrite Hn. apply Hmono; [by apply rebase_tree_below|]. by rewrite Hput1.
Qed.

(** ** [archive]: the tar archive of a tree *)

Lemma visited_spec f d tar q :
  q ∈ Archiving.visited f d tar <->
  q <> tar /\ is_Some (f !! q) /\ (q = d \/ (is_dir f d = true /\ PurePath.below d q)).
Proof.
  unfold Archiving.visited. rewrite merge_sort_Permutation.
  rewrite list_elem_of_In, in_map_iff. split.
  - intros ([q' n] & <- & Hin). apply filter_In in Hin as [Hin Hb]. simpl in *.
    apply list_elem_of_In, elem_of_map_to_list in Hin.
    apply andb_prop in Hb as [Hne Hb]. apply bool_decide_eq_true in Hne.
    split; [done|]. split; [by eexists|].
    apply orb_prop in Hb as [Hb|Hb].
    + left. by apply bool_decide_eq_true in Hb.
    + right. apply andb_prop in Hb as [Hd Hb]. by apply bool_decide_eq_true in Hb.
  - intros (Hne & [n Hn] & Hcase). exists (q, n). split; [done|].
    apply filter_In. split; [by apply list_elem_of_In, elem_of_map_to_list|]. simpl.
    rewrite (bool_decide_eq_true_2 _ Hne). simpl.
    destruct Hcase as [->|[Hd Hb]].
    + by rewrite bool_decide_eq_true_2.
    + rewrite Hd, (bool_decide_eq_true_2 _ Hb). apply orb_true_r.
Qed.

Lemma tar_write_ok tar d src s ms m :
  fs s !! tar = Some (File false (Tar ms)) ->
  is_dir (fs s) (PurePath.parent tar) = true ->
  tar_member_of (fs s) d src = Some m ->
  Archiving.tar_write tar src (arcname d src) s
  = (Ok tt, State (<[tar := File false (Tar (ms ++ [m]))]> (fs s))
                  (trace s ++ [FsWrite tar]) (next_tmp s)).
Proof.
  intros Hz Hp Hm. unfold Archiving.tar_write, tar_member_of in *.
  erewrite bind_ok by reflexivity.
  destruct (fs s !! src) as [[|[] c]|]; try done; simplify_eq;
    (erewrite bind_ok by reflexivity);
    (erewrite bind_ok by (unfold Os.read_file; by rewrite Hz));
    unfold Os.write_file; by rewrite Hz, Hp.
Qed.

Lemma tar_add_ok tar d qs : forall s ms,
  p_parts d <> [] ->
  fs s !! tar = Some (File false (Tar ms)) ->
  is_dir (fs s) (PurePath.parent tar) = true ->
  Forall (fun q => is_Some (tar_member_of (fs s) d q) /\ q <> tar) qs ->
  exists s',
    Archiving.tar_add tar d qs s = (Ok tt, s') /\
    fs s' = <[tar := File false (Tar (ms ++ omap (tar_member_of (fs s) d) qs))]> (fs s) /\
    next_tmp s' = next_tmp s.
Proof.
  induction qs as [|q qs IH]; intros s ms Hd Hz Hp Hall.
  - exists s. split; [done|]. split; [|done]. simpl. rewrite app_nil_r.
    by rewrite insert_id.
  - apply Forall_cons in Hall as [[[m Hm] Hne] Hall].
    assert (PurePath.parent tar <> tar) as Hpz by (by eapply parent_of_file_differs).
    cbn [Archiving.tar_add]. rewrite member_name_arcname by done.
    erewrite bind_ok by (by eapply tar_write_ok).
    set (s1 := State _ _ _).
    assert (forall q', q' <> tar -> tar_member_of (fs s1) d q' = tar_member_of (fs s) d q')
      as Hsame.
    { intros q' Hq'. unfold tar_member_of. simpl. by rewrite lookup_insert_ne. }
    destruct (IH s1 (ms ++ [m])%list Hd) as (s' & Hrun & Hfs & Hn).
    + simpl. by rewrite lookup_insert_eq.
    + unfold is_dir in *. simpl. by rewrite lookup_insert_ne.
    + eapply Forall_impl; [exact Hall|]. intros q' [Hs Hne']. by rewrite Hsame.
    + exists s'. split; [done|]. split; [|done].
      assert (omap (tar_member_of (fs s1) d) qs = omap (tar_member_of (fs s) d) qs) as Homap.
      { clear -Hall Hsame. clearbody s1.
        induction Hall as [|q' qs' [_ Hq'] _ IHq]; [done|]. simpl.
        rewrite Hsame by done. unfold omap in IHq. by rewrite IHq. }
      rewrite Hfs, Homap. simpl.
      rewrite insert_insert_eq. rewrite Hm. by rewrite <- app_assoc.
Qed.

(** [shutil._make_tarball] for a sound tree and an archive outside it:
    the archive holds one member for each entry of the tree, and no
    other. *)
Lemma make_tarball_tree tar d st :
  sound_tree (fs st) d -> p_parts d <> [] ->
  ~ PurePath.below d tar ->
  replaceable (fs st) tar = true ->
  is_dir (fs st) (PurePath.parent tar) = true ->
  exists ms st1,
    Archiving.make_tarball tar d st = (Ok tar, st1) /\
    fs st1 = <[tar := File false (Tar ms)]> (fs st) /\
    next_tmp st1 = next_tmp st /\
    Forall (fun m => exists q, PurePath.below d q /\ tar_member_of (fs st) d q = Some m) ms /\
    (forall q, PurePath.below d q -> is_Some (fs st !! q) ->
               exists m, m ∈ ms /\ tar_member_of (fs st) d q = Some m).
Proof.
  intros Hsound Hd Hout Hrep Hpar.
  set (f0 := fs st) in *.
  assert (forall q, PurePath.below d q -> q <> tar) as Hnz by (by intros q Hq ->).
  assert (forall q n, PurePath.below d q -> f0 !! q = Some n ->
                      is_Some (tar_member_of f0 d q)) as Hmember.
  { intros q n Hq Hn. unfold tar_member_of. rewrite Hn.
    destruct (sound_tree_node f0 d q n Hsound Hq Hn) as [->|[c ->]]; by eexists. }
  assert (f0 !! d = Some Dir) as Hdir.
  { destruct Hsound as (Hdd & _). unfold is_dir in Hdd. by destruct (f0 !! d) as [[]|]. }
  set (s1 := State (<[tar := File false (Tar [])]> f0) (trace st ++ [FsWrite tar]) (next_tmp st)).
  assert (forall q, q <> tar -> fs s1 !! q = f0 !! q) as Hsame.
  { intros q Hq. simpl. by rewrite lookup_insert_ne. }
  assert (forall q, q <> tar -> tar_member_of (fs s1) d q = tar_member_of f0 d q) as Hmem.
  { intros q Hq. unfold tar_member_of. by rewrite Hsame. }
  assert (PurePath.parent tar <> tar) as Hpz.
  { intros Heq. rewrite Heq in Hpar. unfold replaceable, is_dir in *.
    by destruct (f0 !! tar) as [[]|]. }
  assert (is_dir (fs s1) d = true) as Hd1.
  { unfold is_dir. rewrite Hsame by (apply Hnz, below_refl). by rewrite Hdir. }
  set (qs := Archiving.visited (fs s1) d tar).
  assert (forall q, q ∈ qs <-> PurePath.below d q /\ is_Some (f0 !! q)) as Hqs.
  { intros q. unfold qs. rewrite visited_spec. rewrite Hd1. split.
    - intros (Hne & Hs & Hcase). rewrite Hsame in Hs by done. split; [|done].
      destruct Hcase as [->|[_ ?]]; [apply below_refl|done].
    - intros [Hq Hs]. pose proof (Hnz q Hq). rewrite Hsame by done. auto. }
  destruct (tar_add_ok tar d qs s1 [] Hd) as (s2 & Hrun2 & Hfs2 & Hn2).
  { simpl. by rewrite lookup_insert_eq. }
  { unfold is_dir in *. rewrite Hsame by done. exact Hpar. }
  { apply Forall_forall. intros q Hq. apply Hqs in Hq as [Hq [n Hn]].
    pose proof (Hnz q Hq). split; [|done]. rewrite Hmem by done. by eapply Hmember. }
  set (ms := omap (tar_member_of (fs s1) d) qs) in *.
  exists ms, s2. split; [|split; [|split; [|split]]].
  - unfold Archiving.make_tarball.
    erewrite bind_ok.
    2: { unfold upperdirs. erewrite bind_ok by reflexivity.
         assert (exists_ (fs st) (PurePath.parent tar) = true) as ->; [|reflexivity].
         unfold exists_, is_dir in *. fold f0. by destruct (f0 !! PurePath.parent tar). }
    erewrite bind_ok.
    2: { unfold Os.write_file. fold f0. rewrite Hpar. unfold replaceable in Hrep.
         instantiate (1 := s1). instantiate (1 := tt).
         by destruct (f0 !! tar) as [[|[] c]|]. }
    erewrite bind_ok by reflexivity.
    assert (exists_ (fs s1) d = true) as ->.
    { unfold exists_, is_dir in *. by destruct (fs s1 !! d). }
    fold qs. erewrite bind_ok by exact Hrun2. reflexivity.
  - rewrite Hfs2. simpl. by rewrite insert_insert_eq.
  - rewrite Hn2. reflexivity.
  - apply Forall_forall. intros m Hm. unfold ms in Hm.
    apply list_elem_of_omap in Hm as (q & Hq & Hm).
    apply Hqs in Hq as [Hq _]. exists q. split; [done|].
    rewrite <- Hmem; [done|by apply Hnz].
  - intros q Hq [n Hn]. destruct (Hmember q n Hq Hn) as [m Hm]. exists m. split; [|done].
    unfold ms. apply list_elem_of_omap. exists q. split.
    + apply Hqs. split; [done|by eexists].
    + rewrite Hmem; [done|by apply Hnz].
Qed.

(** ** [extract_file] on the tar archive of a tree *)

Lemma rebase_rebase p a b q :
  Shutil.rebase a b (Shutil.rebase p a q) = Shutil.rebase p b q.
Proof. unfold Shutil.rebase. simpl. by rewrite list.drop_app_length. Qed.

Lemma str_name p : p_parts p <> [] -> exists pre, PurePath.str p = pre +:+ PurePath.name p.
Proof.
  intros Hp. destruct (join_last _ Hp) as [pre Hpre]. unfold PurePath.str, PurePath.name.
  destruct (p_root p) as [|n].
  - exists ("/" +:+ pre). by rewrite Hpre, append_assoc.
  - destruct (p_parts p) as [|x l] eqn:Hl; [done|]. rewrite <- Hl in *.
    exists ("/tmp/tmp" +:+ pretty n +:+ "/" +:+ pre). rewrite Hpre.
    by rewrite !append_assoc.
Qed.

(** The directory of a tar archive is made ready where nothing is
    yet. *)
Lemma makedirs_unpacking_in f0 d T s :
  p_parts d <> [] ->
  (forall t, PurePath.below T t -> fs s !! t = None) ->
  blocked (fs s) T = false ->
  exists s',
    Os.makedirs T s = (Ok tt, s') /\ unpacking f0 d T (fs s') /\
    next_tmp s' = next_tmp s /\
    (forall t, p_root t <> p_root T -> fs s' !! t = fs s !! t) /\
    (forall t, PurePath.below T t -> t <> T -> fs s' !! t = None).
Proof.
  intros Hd Hfree Hblocked.
  pose proof (Hfree T (below_refl T)) as HT.
  unfold Os.makedirs. rewrite Hblocked.
  unfold is_file, is_dir. rewrite HT.
  eexists. split; [reflexivity|]. simpl.
  assert (forall t, PurePath.below T t -> t <> T -> plant T (fs s) !! t = None) as Hbelow.
  { intros t Ht Hne. rewrite lookup_plant. destruct (decide _) as [Hb|Hb]; [|by apply Hfree].
    exfalso. apply Hne. by apply below_antisym. }
  assert (PurePath.parent (Shutil.rebase (PurePath.parent d) T d) = T) as Hpar.
  { rewrite tree_place by done. unfold PurePath.parent. simpl.
    rewrite removelast_last. by destruct T. }
  split; [|split; [done|split; [|done]]].
  - unfold unpacking. cbv zeta. split; [|split].
    + apply blocked_false. intros a Ha Hne. unfold is_file. rewrite lookup_plant.
      rewrite decide_True; [done|]. rewrite <- Hpar. by apply above_parent.
    + unfold is_dir. by rewrite plant_self.
    + intros t n Ht Hlook. rewrite Hbelow in Hlook; [done| |].
      * eapply below_trans; [|exact Ht]. rewrite <- Hpar at 1. apply parent_above.
      * intros ->. rewrite <- Hpar in Ht at 2.
        apply (parent_differs (Shutil.rebase (PurePath.parent d) T d)).
        { rewrite tree_place by done. simpl. by destruct (p_parts T). }
        apply below_antisym; [apply parent_above|done].
  - intros t Hroot. rewrite lookup_plant. destruct (decide _) as [Hb|Hb]; [|done].
    exfalso. apply Hroot. destruct Hb as [Hr _]. by rewrite Hr.
Qed.

(** Out of docker, [extract_file] puts the tree that a tar archive holds
    into the directory that it makes for the archive. *)
Lemma extract_tar_tree_plain E tar d f0 ms oparts overwrite st :
  in_docker E = false ->
  sound_tree f0 d -> p_parts d <> [] ->
  fs st !! tar = Some (File false (Tar ms)) ->
  Forall (fun m => exists q, PurePath.below d q /\ tar_member_of f0 d q = Some m) ms ->
  String.eqb (PurePath.suffix tar) ".zip" = false ->
  (String.eqb (PurePath.suffix tar) ".tar"
   || bool_decide (PurePath.suffixes tar = [".tar"; ".gz"])) = true ->
  Str.endswith ".zip" (PurePath.str tar) = false ->
  entry_name (get_filename E tar) = true ->
  let out := Path Disk oparts in
  let T := PurePath.joinpath out (get_filename E tar) in
  (forall t, PurePath.below T t -> fs st !! t = None) ->
  blocked (fs st) T = false ->
  exists st',
    extract_file E tar out overwrite st = (Ok (OnePath T), st') /\
    forall q m, PurePath.below d q -> tar_member_of f0 d q = Some m -> m ∈ ms ->
                fs st' !! Shutil.rebase (PurePath.parent d) T q = f0 !! q.
Proof.
  intros Hdocker Hsound Hd Htar Hms Hnozip Hsuffix Hends Hen out T Hfree Hblocked.
  assert (p_root T = Disk) as HrT by done.
  set (s0 := State (fs st) (trace st ++ [Log Info "Extracting %s"]) (next_tmp st)).
  set (tmp := Path (Scratch (next_tmp s0)) []).
  set (s1 := State (<[tmp := Dir]> (fs s0)) (trace s0 ++ [FsWrite tmp]) (S (next_tmp s0))).
  assert (forall t, p_root t = Disk -> fs s1 !! t = fs st !! t) as Hdisk1.
  { intros t Ht. simpl. rewrite lookup_insert_ne; [done|]. intros <-. done. }
  destruct (makedirs_unpacking_in f0 d T s1 Hd) as (s2 & Hrun2 & Hinv2 & Hn2 & Hrest2 & _).
  { intros t Ht. rewrite Hdisk1; [by apply Hfree|]. by destruct Ht as [<- _]. }
  { apply blocked_false. intros a Ha Hnea. unfold is_file. rewrite Hdisk1.
    - rewrite blocked_false in Hblocked. by apply (Hblocked a Ha Hnea).
    - by destruct Ha as [-> _]. }
  destruct (tar_extractall_unpacking f0 d T ms s2 Hsound Hd Hms Hinv2)
    as (s3 & Hrun3 & Hinv3 & Hn3 & Hmono3 & Hput3 & Hframe3).
  set (st' := State (prune tmp (fs s3)) (trace s3 ++ [FsRemove tmp]) (next_tmp s3)).
  exists st'. split.
  - unfold extract_file. erewrite bind_ok by reflexivity.
    assert (is_dir (fs st) tar = false) as -> by (unfold is_dir; by rewrite Htar).
    rewrite Hnozip, Hsuffix. cbv iota.
    erewrite bind_ok.
    2: { erewrite bind_ok; [reflexivity|]. unfold TarFile.open_r.
         erewrite bind_ok by (unfold Os.read_file; by rewrite Htar). reflexivity. }
    cbv beta iota zeta.
    cbn [List.map extract_loop]. fold out T.
    erewrite bind_ok; [reflexivity|].
    erewrite bind_ok; [reflexivity|].
    assert (PurePath.name T = get_filename E tar) as HnT by (by apply name_joinpath).
    unfold extract_one. rewrite HnT.
    erewrite bind_ok by reflexivity.
    assert (is_dir (fs st) T = false) as ->.
    { unfold is_dir. by rewrite (Hfree T (below_refl T)). }
    erewrite bind_ok by reflexivity. fold s0.
    apply with_tmpdir_run. fold tmp s1.
    rewrite Hdocker. erewrite bind_ok by reflexivity. cbv beta iota zeta.
    rewrite Hends. erewrite bind_ok.
    2: { erewrite bind_ok by reflexivity. reflexivity. }
    cbv beta iota zeta.
    erewrite bind_ok.
    2: { apply catch_ok. erewrite bind_ok by exact Hrun2. exact Hrun3. }
    erewrite bind_ok by reflexivity. reflexivity.
  - intros q m Hq Hm Hin. unfold st'. simpl. rewrite lookup_prune.
    rewrite decide_False by (by intros [Hr _]).
    by apply (Hput3 q m Hq Hm).
Qed.

(** In docker, the archive is copied to a temporary directory and
    extracted there, and its directory is copied to the output. *)
Lemma extract_tar_tree_docker E tar d f0 ms oparts overwrite st :
  in_docker E = true ->
  sound_tree f0 d -> p_parts d <> [] ->
  fs st !! tar = Some (File false (Tar ms)) ->
  Forall (fun m => exists q, PurePath.below d q /\ tar_member_of f0 d q = Some m) ms ->
  String.eqb (PurePath.suffix tar) ".zip" = false ->
  (String.eqb (PurePath.suffix tar) ".tar"
   || bool_decide (PurePath.suffixes tar = [".tar"; ".gz"])) = true ->
  (forall pre, Str.endswith ".zip" (pre +:+ PurePath.name tar) = false) ->
  entry_name (get_filename E tar) = true ->
  entry_name (PurePath.name tar) = true ->
  PurePath.name tar <> get_filename E tar ->
  tidy st ->
  let out := Path Disk oparts in
  let T := PurePath.joinpath out (get_filename E tar) in
  (forall t, PurePath.below T t -> fs st !! t = None) ->
  blocked (fs st) T = false ->
  exists st',
    extract_file E tar out overwrite st = (Ok (OnePath T), st') /\
    forall q m, PurePath.below d q -> tar_member_of f0 d q = Some m -> m ∈ ms ->
                fs st' !! Shutil.rebase (PurePath.parent d) T q = f0 !! q.
Proof.
  intros Hdocker Hsound Hd Htar Hms Hnozip Hsuffix Hends Hen Htname Hdiff Htidy out T
         Hfree Hblocked.
  assert (p_root T = Disk) as HrT by done.
  set (en := get_filename E tar) in *.
  set (s0 := State (fs st) (trace st ++ [Log Info "Extracting %s"]) (next_tmp st)).
  assert (tidy s0) as Htidy0 by done.
  set (tmp := Path (Scratch (next_tmp s0)) []).
  set (s1 := State (<[tmp := Dir]> (fs s0)) (trace s0 ++ [FsWrite tmp]) (S (next_tmp s0))).
  destruct (copy_into_tmpdir tar (Tar ms) s0 Htidy0 Htar Htname) as [Htc Hcopy].
  fold tmp s1 in Htc, Hcopy.
  set (tc := PurePath.joinpath tmp (PurePath.basename tar)) in *.
  set (s1c := State (<[tc := File false (Tar ms)]> (fs s1)) (trace s1 ++ [FsWrite tc])
                    (next_tmp s1)) in *.
  set (Tt := PurePath.joinpath tmp en).
  assert (Tt = Path (Scratch (next_tmp st)) [en]) as HTt.
  { unfold Tt, PurePath.joinpath. simpl. by rewrite (entry_name_proper _ Hen). }
  assert (forall t, p_root t = Disk -> fs s1c !! t = fs st !! t) as Hdisk1.
  { intros t Ht. simpl. rewrite !lookup_insert_ne; [done| |].
    - intros <-. done.
    - rewrite Htc. intros <-. done. }
  assert (forall t, PurePath.below Tt t -> fs s1c !! t = None) as Hfree1.
  { intros t Ht. rewrite HTt in Ht. destruct Ht as [Hr [k Hk]]. simpl in Hr, Hk.
    destruct t as [rt pt]. simpl in *. subst rt pt.
    rewrite lookup_insert_ne.
    2: { rewrite Htc. intros [= Heq]. by apply Hdiff. }
    rewrite lookup_insert_ne by done. apply Htidy. simpl. lia. }
  destruct (makedirs_unpacking_in f0 d Tt s1c Hd Hfree1)
    as (s2 & Hrun2 & Hinv2 & Hn2 & Hrest2 & Hbelow2).
  { apply blocked_false. intros a Ha Hnea. rewrite HTt in Ha, Hnea.
    destruct Ha as [Hr [k Hk]]. destruct a as [ra pa]. simpl in Hr, Hk. subst ra.
    destruct pa as [|x pa].
    - unfold is_file. simpl. rewrite lookup_insert_ne by (by rewrite Htc).
      fold tmp. by rewrite lookup_insert_eq.
    - exfalso. apply Hnea. injection Hk as <- Hk. destruct pa; [done|discriminate]. }
  destruct (tar_extractall_unpacking f0 d Tt ms s2 Hsound Hd Hms Hinv2)
    as (s3 & Hrun3 & Hinv3 & Hn3 & Hmono3 & Hput3 & Hframe3).
  assert (forall t, p_root t = Disk -> fs s3 !! t = fs st !! t) as Hdisk3.
  { intros t Ht. rewrite Hframe3.
    - rewrite Hrest2; [by apply Hdisk1|]. rewrite HTt, Ht. done.
    - intros [Hr _]. rewrite HTt in Hr. simpl in Hr. congruence.
    - intros [Hr _]. rewrite HTt in Hr. simpl in Hr. congruence. }
  set (P := Shutil.rebase (PurePath.parent d) Tt d) in *.
  assert (PurePath.parent P = Tt) as HparP.
  { unfold P. rewrite tree_place by done. rewrite HTt. unfold PurePath.parent.
    cbn [p_parts p_root]. by rewrite removelast_last. }
  destruct (copy_tree Tt T s3) as (s4 & Hrun4 & Hn4 & Hput4).
  { by destruct Hinv3 as (_ & Hd3 & _). }
  { intros x n Hx Hlook.
    destruct (decide (PurePath.below P x)) as [HPx|HPx].
    - destruct Hinv3 as (_ & _ & Hinv3). cbv zeta in Hinv3. fold P in Hinv3.
      destruct (Hinv3 x n HPx Hlook) as (q & Hq & _ & Hn).
      by destruct (sound_tree_node f0 d q n Hsound Hq Hn) as [->|[c ->]].
    - destruct (decide (x = Tt)) as [->|Hne].
      + destruct Hinv3 as (_ & Hd3 & _). unfold is_dir in Hd3. rewrite Hlook in Hd3.
        by destruct n.
      + rewrite Hframe3 in Hlook; [|done|].
        * rewrite Hbelow2 in Hlook; done.
        * intros HxP. apply Hne. apply below_antisym; [|done].
          rewrite <- HparP. apply above_parent; [done|]. by intros ->. }
  { intros t Ht. rewrite Hdisk3; [by apply Hfree|]. by destruct Ht as [<- _]. }
  { apply blocked_false. intros a Ha Hnea. unfold is_file. rewrite Hdisk3.
    - rewrite blocked_false in Hblocked. by apply (Hblocked a Ha Hnea).
    - by destruct Ha as [-> _]. }
  set (st' := State (prune tmp (fs s4)) (trace s4 ++ [FsRemove tmp]) (next_tmp s4)).
  exists st'. split.
  - unfold extract_file. erewrite bind_ok by reflexivity.
    assert (is_dir (fs st) tar = false) as -> by (unfold is_dir; by rewrite Htar).
    rewrite Hnozip, Hsuffix. cbv iota.
    erewrite bind_ok.
    2: { erewrite bind_ok; [reflexivity|]. unfold TarFile.open_r.
         erewrite bind_ok by (unfold Os.read_file; by rewrite Htar). reflexivity. }
    cbv beta iota zeta.
    cbn [List.map extract_loop]. fold en out T.
    erewrite bind_ok; [reflexivity|].
    erewrite bind_ok; [reflexivity|].
    assert (PurePath.name T = en) as HnT by (by apply name_joinpath).
    unfold extract_one. rewrite HnT.
    erewrite bind_ok by reflexivity.
    assert (is_dir (fs st) T = false) as ->.
    { unfold is_dir. by rewrite (Hfree T (below_refl T)). }
    erewrite bind_ok by reflexivity. fold s0.
    apply with_tmpdir_run. fold tmp s1.
    rewrite Hdocker. erewrite bind_ok.
    2: { erewrite bind_ok by exact Hcopy. reflexivity. }
    cbv beta iota zeta. fold tc Tt.
    assert (Str.endswith ".zip" (PurePath.str tc) = false) as ->.
    { destruct (str_name tc) as [pre Hpre]; [by rewrite Htc|].
      rewrite Hpre, Htc. apply Hends. }
    erewrite bind_ok.
    2: { erewrite bind_ok by reflexivity. reflexivity. }
    cbv beta iota zeta.
    erewrite bind_ok.
    2: { apply catch_ok. erewrite bind_ok by exact Hrun2. exact Hrun3. }
    erewrite bind_ok.
    2: { erewrite bind_ok by exact Hrun4. reflexivity. }
    reflexivity.
  - intros q m Hq Hm Hin. unfold st'. simpl. rewrite lookup_prune.
    rewrite decide_False by (by intros [Hr _]).
    assert (is_Some (f0 !! q)) as [n Hn].
    { unfold tar_member_of in Hm. destruct (f0 !! q); [by eexists|done]. }
    rewrite Hn. rewrite <- (rebase_rebase (PurePath.parent d) Tt T q).
    apply Hput4.
    + eapply below_trans; [|by apply rebase_tree_below]. fold P.
      rewrite <- HparP. apply parent_above.
    + rewrite <- Hn. by apply (Hput3 q m Hq Hm).
Qed.

(** ** [archive] and [extract_file]: the name of a tar archive *)

Lemma suffix_of_tar p stem :
  PurePath.name p = stem +:+ ".tar" -> stem <> "" -> PurePath.suffix p = ".tar".
Proof.
  intros Hn Hne. unfold PurePath.suffix. rewrite Hn, rfind_app.
  change (Str.rfind "." ".tar") with (Some 0).
  rewrite length_append, drop_app_length.
  assert (((0 <? String.length stem + 0)%nat
           && (String.length stem + 0 <? String.length stem + String.length ".tar" - 1)%nat)
          = true) as ->; [|done].
  assert (0 < String.length stem) by (destruct stem; [done|simpl; lia]).
  apply andb_true_intro. split; apply Nat.ltb_lt; simpl; lia.
Qed.

Lemma endswith_zip_tar x : Str.endswith ".zip" (x +:+ ".tar") = false.
Proof.
  unfold Str.endswith. rewrite rev_app.
  change (Str.rev ".tar") with "rat.". change (Str.rev ".zip") with "piz.".
  rewrite ReFacts.append_String. cbn [String.prefix].
  by destruct (ascii_dec "p" "r").
Qed.

Lemma endswith_zip_gz x : Str.endswith ".zip" (x +:+ ".tar.gz") = false.
Proof.
  unfold Str.endswith. rewrite rev_app.
  change (Str.rev ".tar.gz") with "zg.rat.". change (Str.rev ".zip") with "piz.".
  rewrite ReFacts.append_String. cbn [String.prefix].
  by destruct (ascii_dec "p" "z").
Qed.

Lemma entry_name_long s :
  2 < String.length s -> Str.contains "/" s = false -> entry_name s = true.
Proof.
  intros Hlen Hns. unfold entry_name. rewrite Hns.
  destruct s as [|a [|b [|c s]]]; simpl in Hlen; try lia.
  cbn. rewrite !andb_true_r.
  destruct (Ascii.eqb a "."); [|done]. cbn. by destruct (Ascii.eqb b ".").
Qed.

Lemma entry_name_with_extension stem fmt :
  stem <> "" -> Str.contains "/" stem = false ->
  entry_name (stem +:+ Archiving.extension fmt) = true.
Proof.
  intros Hne Hns. apply entry_name_long.
  - rewrite length_append. destruct stem; [done|]. destruct fmt; simpl; lia.
  - apply contains_slash_append; [done|]. by destruct fmt.
Qed.

(** [archive] with a tar format, for a sound tree and an archive outside
    it. *)
Lemma archive_tar_tree (unfinished : members -> content) folder r aparts fmt st :
  let archive_path := Path r aparts in
  let tar := Archiving.with_extension (Archiving.splitext_base archive_path)
                                      (Archiving.extension fmt) in
  fmt <> Archiving.FZip ->
  sound_tree (fs st) folder -> p_parts folder <> [] ->
  is_dir (fs st) (PurePath.parent folder) = true ->
  aparts <> [] ->
  ~ PurePath.below folder tar ->
  replaceable (fs st) tar = true ->
  is_dir (fs st) (PurePath.parent archive_path) = true ->
  exists ms st1,
    Archiving.archive unfinished folder archive_path fmt st = (Ok tar, st1) /\
    fs st1 = <[tar := File false (Tar ms)]> (fs st) /\
    next_tmp st1 = next_tmp st /\
    Forall (fun m => exists q, PurePath.below folder q
                               /\ tar_member_of (fs st) folder q = Some m) ms /\
    (forall q, PurePath.below folder q -> is_Some (fs st !! q) ->
               exists m, m ∈ ms /\ tar_member_of (fs st) folder q = Some m).
Proof.
  intros archive_path tar Hfmt Hsound Hd Hroot Ha Hout Hrep Hpar.
  assert (PurePath.parent tar = PurePath.parent archive_path) as Hpz.
  { unfold tar, archive_path. rewrite archive_file_name by done.
    unfold PurePath.parent. simpl. by rewrite removelast_last. }
  destruct (make_tarball_tree tar folder st Hsound Hd Hout Hrep)
    as (ms & st1 & Hrun & Hrest); [by rewrite Hpz|].
  exists ms, st1. split; [|done].
  unfold Archiving.archive, Archiving.make_archive.
  erewrite bind_ok by reflexivity.
  assert (match p_parts folder, p_root folder with
          | [], Scratch _ => true
          | _, _ => false
          end = false) as ->.
  { destruct (p_parts folder); [done|]. by destruct (p_root folder). }
  assert (exists_ (fs st) (PurePath.parent folder) = true) as ->.
  { unfold exists_, is_dir in *. by destruct (fs st !! PurePath.parent folder). }
  rewrite Hroot. cbn [negb andb]. fold archive_path tar. by destruct fmt.
Qed.

(** X21. A directory that is archived as a tar ([tar], or [gztar] when
    the name of the archive has no other dot) and extracted again is
    found whole in the directory that [extract_file] makes for the
    archive, under its own name: every directory and every file of it,
    the files with their bytes.  In docker, the archive must not carry
    the name of that directory. *)
Theorem archive_tar_extract_round_trip
  (E : env) (unfinished : members -> content) (folder : path)
  (aparts oparts : list string) (fmt : Archiving.archive_format)
  (overwrite : bool) (st : state) :
  let archive_path := Path Disk aparts in
  let tar := Archiving.with_extension (Archiving.splitext_base archive_path)
                                      (Archiving.extension fmt) in
  let output := Path Disk oparts in
  let target := PurePath.joinpath output (get_filename E tar) in
  fmt = Archiving.FTar
  \/ (fmt = Archiving.FGztar /\ PurePath.suffixes tar = [".tar"; ".gz"]) ->
  sound_tree (fs st) folder -> p_parts folder <> [] ->
  is_dir (fs st) (PurePath.parent folder) = true ->
  forallb entry_name aparts = true -> aparts <> [] ->
  is_dir (fs st) (PurePath.parent archive_path) = true ->
  replaceable (fs st) tar = true ->
  ~ PurePath.below folder tar ->
  ~ PurePath.below target tar -> ~ PurePath.below tar target ->
  (forall t, PurePath.below target t -> fs st !! t = None) ->
  blocked (fs st) target = false ->
  tidy st ->
  entry_name (get_filename E tar) = true ->
  (in_docker E = true -> PurePath.name tar <> get_filename E tar) ->
  exists st1 st2,
    Archiving.archive unfinished folder archive_path fmt st = (Ok tar, st1) /\
    extract_file E tar output overwrite st1 = (Ok (OnePath target), st2) /\
    forall q n, PurePath.below folder q -> fs st !! q = Some n ->
                fs st2 !! Shutil.rebase (PurePath.parent folder) target q = Some n.
Proof.
  intros archive_path tar output target Hfmt Hsound Hd Hroot Hanames Ha Hpar Hrep Hout
         HoutT Habove Hfree Hblocked Htidy Hen Hdocker.
  assert (fmt <> Archiving.FZip) as Hnz by (by destruct Hfmt as [->|[-> _]]).
  destruct (archive_tar_tree unfinished folder Disk aparts fmt st Hnz Hsound Hd Hroot Ha
                             Hout Hrep Hpar)
    as (ms & st1 & Hrun & Hfs1 & Hn1 & Hms & Hall).
  fold archive_path tar in Hrun, Hfs1.
  set (stem := Archiving.splitext_root (List.last aparts "")).
  assert (entry_name (List.last aparts "") = true) as Hlast.
  { rewrite forallb_forall in Hanames. apply Hanames.
    destruct aparts as [|x l] using rev_ind; [done|].
    rewrite last_last. apply in_or_app. right. by left. }
  destruct (splitext_root_name _ Hlast) as [Hstem Hns]. fold stem in Hstem, Hns.
  assert (tar = Path Disk (removelast aparts ++ [stem +:+ Archiving.extension fmt])) as Htar.
  { unfold tar, archive_path. by rewrite archive_file_name. }
  assert (PurePath.name tar = stem +:+ Archiving.extension fmt) as Hname.
  { rewrite Htar. unfold PurePath.name. simpl. by rewrite last_last. }
  assert (fs st1 !! tar = Some (File false (Tar ms))) as Hlook.
  { rewrite Hfs1. by rewrite lookup_insert_eq. }
  assert (forall t, PurePath.below target t -> fs st1 !! t = None) as Hfree1.
  { intros t Ht. rewrite Hfs1. rewrite lookup_insert_ne; [by apply Hfree|].
    by intros <-. }
  assert (blocked (fs st1) target = false) as Hblocked1.
  { apply blocked_false. intros a Ha' Hnea. rewrite blocked_false in Hblocked.
    specialize (Hblocked a Ha' Hnea). unfold is_file in *. rewrite Hfs1.
    rewrite lookup_insert_ne; [done|]. by intros <-. }
  assert (tidy st1) as Htidy1.
  { intros n parts Hn. rewrite Hfs1, lookup_insert_ne; [|by rewrite Htar].
    apply Htidy. by rewrite <- Hn1. }
  assert (String.eqb (PurePath.suffix tar) ".zip" = false
          /\ (String.eqb (PurePath.suffix tar) ".tar"
              || bool_decide (PurePath.suffixes tar = [".tar"; ".gz"])) = true
          /\ forall pre, Str.endswith ".zip" (pre +:+ PurePath.name tar) = false)
    as (Hnozip & Hsuffix & Hends).
  { destruct Hfmt as [Hf|[Hf Hsuf]]; rewrite Hf in Hname; simpl in Hname.
    - rewrite (suffix_of_tar _ stem) by done. split; [done|]. split; [done|].
      intros pre. rewrite Hname, <- append_assoc. apply endswith_zip_tar.
    - rewrite (suffix_of_tar_gz _ stem) by done. split; [done|]. split.
      + by rewrite bool_decide_eq_true_2.
      + intros pre. rewrite Hname, <- append_assoc. apply endswith_zip_gz. }
  assert (exists st2,
            extract_file E tar output overwrite st1 = (Ok (OnePath target), st2) /\
            forall q m, PurePath.below folder q -> tar_member_of (fs st) folder q = Some m ->
                        m ∈ ms ->
                        fs st2 !! Shutil.rebase (PurePath.parent folder) target q
                        = fs st !! q) as (st2 & Hrun2 & Hput).
  { destruct (in_docker E) eqn:Hdock.
    - apply (extract_tar_tree_docker E tar folder (fs st) ms oparts overwrite st1);
        try done.
      + rewrite Hname. by apply entry_name_with_extension.
      + by apply Hdocker.
    - apply (extract_tar_tree_plain E tar folder (fs st) ms oparts overwrite st1);
        try done.
      destruct (str_name tar) as [pre ->]; [|apply Hends].
      rewrite Htar. simpl. by destruct (removelast aparts). }
  exists st1, st2. split; [done|]. split; [done|].
  intros q n Hq Hn. destruct (Hall q Hq) as (m & Hm & Hmq); [by rewrite Hn|].
  rewrite <- Hn. by apply (Hput q m).
Qed.

Lemma archive_tar_extract_round_trip_witness :
  let st := fresh [([], Dir); (["d"], Dir); (["d"; "f.txt"], File false (bytes_of "x"));
                   (["d"; "s"], Dir); (["d"; "s"; "g.txt"], File false (bytes_of "y"));
                   (["z"], Dir); (["out"], Dir)] in
  exists st1 st2,
    Archiving.archive (fun _ => Raw []) (Path Disk ["d"]) (Path Disk ["z"; "a"])
                      Archiving.FGztar st
    = (Ok (Path Disk ["z"; "a.tar.gz"]), st1) /\
    extract_file (python true id) (Path Disk ["z"; "a.tar.gz"]) (Path Disk ["out"]) false st1
    = (Ok (OnePath (Path Disk ["out"; "a"])), st2) /\
    fs st2 !! Path Disk ["out"; "a"; "d"; "s"; "g.txt"] = Some (File false (bytes_of "y")).
Proof.
  intros st.
  destruct (archive_tar_extract_round_trip
              (python true id) (fun _ => Raw []) (Path Disk ["d"]) ["z"; "a"] ["out"]
              Archiving.FGztar false st)
    as (st1 & st2 & Hrun1 & Hrun2 & Hall).
  - right. split; reflexivity.
  - split; [reflexivity|]. split; [vm_compute; reflexivity|].
    intros q _ [n Hq]. apply elem_of_list_to_map_2 in Hq. simpl in Hq.
    repeat (apply elem_of_cons in Hq as [Hq|Hq];
            [inversion Hq; subst; split; [reflexivity|intros _; reflexivity]|]).
    by apply elem_of_nil in Hq.
  - done.
  - reflexivity.
  - reflexivity.
  - done.
  - reflexivity.
  - reflexivity.
  - intros [_ [k Hk]]. discriminate.
  - intros [_ [k Hk]]. discriminate.
  - intros [_ [k Hk]]. vm_compute in Hk. destruct k; discriminate.
  - intros [r t] [Hr [k Hk]]. simpl in Hr, Hk. subst r t.
    unfold st, fresh, disk. simpl.
    repeat (rewrite lookup_insert_ne by (intros ?; simplify_eq)). apply lookup_empty.
  - vm_compute. reflexivity.
  - intros n parts _. unfold st, fresh, disk. simpl.
    repeat (rewrite lookup_insert_ne by (intros ?; simplify_eq)). apply lookup_empty.
  - reflexivity.
  - intros _ H. vm_compute in H. discriminate.
  - exists st1, st2. split; [exact Hrun1|]. split; [exact Hrun2|].
    apply (Hall (Path Disk ["d"; "s"; "g.txt"])).
    + split; [reflexivity|]. by exists ["s"; "g.txt"].
    + vm_compute. reflexivity.
Defined.

(** ** [archive]: an archive path that carries two extensions *)

Lemma split_nonempty c s : Str.split c s <> [].
Proof.
  destruct s as [|a s]; [done|]. simpl.
  destruct (Ascii.eqb a c); [done|]. by destruct (Str.split c s).
Qed.

Lemma split_length_app c x y :
  length (Str.split c (x +:+ String c y))
  = length (Str.split c x) + length (Str.split c y).
Proof.
  induction x as [|a x IH].
  - change ("" +:+ String c y) with (String c y). simpl. by rewrite Ascii.eqb_refl.
  - rewrite ReFacts.append_String. simpl. destruct (Ascii.eqb a c); simpl.
    + by rewrite IH.
    + pose proof (split_nonempty c (x +:+ String c y)) as H1.
      pose proof (split_nonempty c x) as H2.
      destruct (Str.split c (x +:+ String c y)); [done|].
      destruct (Str.split c x); [done|]. simpl in *. lia.
Qed.

Lemma lstrip_app x y :
  Str.lstrip "." x <> "" -> Str.lstrip "." (x +:+ y) = Str.lstrip "." x +:+ y.
Proof.
  induction x as [|a x IH]; [done|]. rewrite ReFacts.append_String. simpl.
  destruct (Ascii.eqb a "."); [exact IH|]. intros _. by rewrite ReFacts.append_String.
Qed.

Lemma substring_app x y n :
  String.substring 0 (String.length x + n) (x +:+ y) = x +:+ String.substring 0 n y.
Proof.
  induction x as [|a x IH]; [done|]. rewrite !ReFacts.append_String. simpl.
  by rewrite IH.
Qed.

(** [os.path.splitext] takes the last extension only. *)
Lemma splitext_root_tar_gz stem :
  Str.lstrip "." stem <> "" ->
  Archiving.splitext_root (stem +:+ ".tar.gz") = stem +:+ ".tar".
Proof.
  intros Hstem. unfold Archiving.splitext_root. rewrite rfind_app.
  change (Str.rfind "." ".tar.gz") with (Some 4). cbv beta iota. rewrite substring_app.
  change (String.substring 0 4 ".tar.gz") with ".tar".
  rewrite lstrip_app by done.
  destruct (String.eqb_spec (Str.lstrip "." stem +:+ ".tar") "") as [Heq|]; [|done].
  exfalso. destruct (Str.lstrip "." stem); [done|].
  rewrite ReFacts.append_String in Heq. discriminate.
Qed.

(** The suffixes of a name with a stem and three extensions. *)
Lemma suffixes_three_extensions p stem :
  Str.lstrip "." stem <> "" ->
  PurePath.name p = stem +:+ ".tar.tar.gz" ->
  PurePath.suffixes p <> [".tar"; ".gz"].
Proof.
  intros Hstem Hn. unfold PurePath.suffixes. rewrite Hn.
  destruct (Str.endswith "." _); [done|].
  rewrite lstrip_app by done. intros Heq.
  apply (f_equal length) in Heq. rewrite length_map in Heq.
  change (Str.lstrip "." stem +:+ ".tar.tar.gz")
    with (Str.lstrip "." stem +:+ String "." "tar.tar.gz") in Heq.
  pose proof (split_length_app "." (Str.lstrip "." stem) "tar.tar.gz") as Hlen.
  pose proof (split_nonempty "." (Str.lstrip "." stem)) as Hne.
  change (length (Str.split "." "tar.tar.gz")) with 3 in Hlen.
  destruct (Str.split "." (Str.lstrip "." stem +:+ String "." "tar.tar.gz")) as [|h t];
    simpl in *; destruct (Str.split "." (Str.lstrip "." stem)); simpl in *; try done; lia.
Qed.

Lemma tar_write_file tar src a s s' :
  Archiving.tar_write tar src a s = (Ok tt, s') -> is_file (fs s') tar = true.
Proof.
  unfold Archiving.tar_write, bind, get_fs, Os.read_file, Os.write_file, ret, raise.
  intros H. repeat case_match; simplify_eq; unfold is_file; simpl;
    by rewrite lookup_insert_eq.
Qed.

Lemma tar_add_file tar d qs : forall s s',
  is_file (fs s) tar = true ->
  Archiving.tar_add tar d qs s = (Ok tt, s') -> is_file (fs s') tar = true.
Proof.
  induction qs as [|q qs IH]; intros s s' Hfile Hrun.
  - cbn [Archiving.tar_add] in Hrun. unfold ret in Hrun. by simplify_eq.
  - cbn [Archiving.tar_add] in Hrun.
    apply bind_inv_ok in Hrun as ([] & s1 & Hw & Hrun).
    apply tar_write_file in Hw. by eapply IH.
Qed.

(** When [archive] returns with a tar format, the archive is a file. *)
Lemma archive_tar_returns unfinished folder archive_path fmt st p st1 :
  fmt <> Archiving.FZip ->
  Archiving.archive unfinished folder archive_path fmt st = (Ok p, st1) ->
  p = Archiving.with_extension (Archiving.splitext_base archive_path)
                               (Archiving.extension fmt)
  /\ is_file (fs st1) p = true.
Proof.
  intros Hfmt Hrun. unfold Archiving.archive, Archiving.make_archive in Hrun.
  set (tar := Archiving.with_extension _ _) in *.
  apply bind_inv_ok in Hrun as (f & s0 & Hget & Hrun). inversion Hget; subst f s0.
  destruct (_ && negb (exists_ _ _)); [discriminate|].
  destruct (_ && negb (is_dir _ _)); [discriminate|].
  assert (Archiving.make_tarball tar folder st = (Ok p, st1)) as Hmk by (by destruct fmt).
  clear Hrun. unfold Archiving.make_tarball in Hmk.
  apply bind_inv_ok in Hmk as ([] & s1 & _ & Hmk).
  apply bind_inv_ok in Hmk as ([] & s2 & Hw & Hmk).
  apply bind_inv_ok in Hmk as (f & s3 & Hget2 & Hmk). inversion Hget2; subst f s3.
  apply bind_inv_ok in Hmk as ([] & s4 & Hadd & Hret). inversion Hret; subst p st1.
  split; [done|].
  assert (is_file (fs s2) tar = true) as Hfile.
  { revert Hw. unfold Os.write_file.
    intros H. repeat case_match; simplify_eq; unfold is_file; simpl;
      by rewrite lookup_insert_eq. }
  destruct (exists_ (fs s2) folder); [|discriminate].
  by eapply tar_add_file.
Qed.

(** X22. The extension that [archive] takes off the archive path is the
    last one only: for a path that ends in [.tar.gz] and the format
    [gztar], the archive is written to a name that ends in
    [.tar.tar.gz], and [extract_file] refuses it for its format. *)
Theorem archive_tar_gz_path_not_extractable
  (E : env) (unfinished : members -> content) (folder output : path)
  (r : root) (aparts : list string) (stem : string) (overwrite : bool)
  (st st1 : state) (p : path) :
  aparts <> [] ->
  List.last aparts "" = stem +:+ ".tar.gz" ->
  Str.lstrip "." stem <> "" ->
  Archiving.archive unfinished folder (Path r aparts) Archiving.FGztar st = (Ok p, st1) ->
  p = Path r (removelast aparts ++ [stem +:+ ".tar.tar.gz"]) /\
  extract_file E p output overwrite st1 = (Err unsupported_format, st1).
Proof.
  intros Ha Hlast Hstem Hrun.
  destruct (archive_tar_returns unfinished folder (Path r aparts) Archiving.FGztar st p st1)
    as [Hp Hfile]; [done|done|].
  rewrite archive_file_name in Hp by done.
  rewrite Hlast, splitext_root_tar_gz in Hp by done.
  rewrite append_assoc in Hp. change (".tar" +:+ Archiving.extension Archiving.FGztar)
    with ".tar.tar.gz" in Hp.
  split; [done|].
  assert (PurePath.name p = (stem +:+ ".tar") +:+ ".tar.gz") as Hname.
  { rewrite Hp. unfold PurePath.name. simpl. rewrite last_last. by rewrite append_assoc. }
  apply extract_file_unsupported_suffix.
  - unfold is_file, is_dir in *. by destruct (fs st1 !! p) as [[]|].
  - by rewrite (suffix_of_tar_gz _ _ Hname).
  - by rewrite (suffix_of_tar_gz _ _ Hname).
  - apply (suffixes_three_extensions p stem Hstem). by rewrite Hname, append_assoc.
Qed.

Lemma archive_tar_gz_path_not_extractable_witness :
  let st := fresh [([], Dir); (["d"], Dir); (["d"; "f.txt"], File false (bytes_of "x"));
                   (["z"], Dir); (["out"], Dir)] in
  exists st1,
    Archiving.archive (fun _ => Raw []) (Path Disk ["d"]) (Path Disk ["z"; "a.tar.gz"])
                      Archiving.FGztar st
    = (Ok (Path Disk ["z"; "a.tar.tar.gz"]), st1) /\
    extract_file (python false id) (Path Disk ["z"; "a.tar.tar.gz"]) (Path Disk ["out"])
                 false st1
    = (Err unsupported_format, st1).
Proof.
  intros st.
  destruct (Archiving.archive (fun _ => Raw []) (Path Disk ["d"]) (Path Disk ["z"; "a.tar.gz"])
                              Archiving.FGztar st) as [res st1] eqn:Hrun.
  assert (res = Ok (Path Disk ["z"; "a.tar.tar.gz"])) as ->.
  { apply (f_equal fst) in Hrun. vm_compute in Hrun. by subst res. }
  exists st1. split; [reflexivity|].
  apply (archive_tar_gz_path_not_extractable
           (python false id) (fun _ => Raw []) (Path Disk ["d"]) (Path Disk ["out"])
           Disk ["z"; "a.tar.gz"] "a" false st st1 (Path Disk ["z"; "a.tar.tar.gz"])).
  - done.
  - reflexivity.
  - done.
  - exact Hrun.
Defined.

(** ** [archive], then [read_archived_file] *)

Lemma first_named_elem name ms e : first_named name ms = Some e -> (name, e) ∈ ms.
Proof.
  unfold first_named. destruct (List.find _ _) as [[n e']|] eqn:Hf; [|done].
  intros [= <-]. apply find_some in Hf as [Hin Heq]. simpl in Heq.
  apply String.eqb_eq in Heq as ->. by apply list_elem_of_In.
Qed.

Lemma first_named_some name ms : name ∈ List.map fst ms -> is_Some (first_named name ms).
Proof.
  intros Hin. apply list_elem_of_In, in_map_iff in Hin as ([n e] & <- & Hin).
  unfold first_named. destruct (List.find _ _) as [m|] eqn:Hf; [by eexists|].
  exfalso. pose proof (find_none _ _ Hf (n, e) Hin) as Hnone. simpl in Hnone.
  rewrite String.eqb_refl in Hnone. discriminate Hnone.
Qed.

(** The first name that matches is the name of the one entry that the
    pattern matches. *)
Lemma find_only (p : string -> bool) (names : list string) (n : string) :
  n ∈ names -> p n = true ->
  (forall n', n' ∈ names -> p n' = true -> n' = n) ->
  List.find p names = Some n.
Proof.
  intros Hin Hp Honly. destruct (List.find p names) as [n'|] eqn:Hf.
  - apply find_some in Hf as [Hin' Hp']. f_equal. apply Honly; [|done].
    by apply list_elem_of_In.
  - exfalso. apply list_elem_of_In in Hin.
    pose proof (find_none _ _ Hf n Hin) as Hn. congruence.
Qed.

(** X23. A file of a directory that was archived as a zip or as a tar is
    read from inside the archive by [read_archived_file], with its
    bytes, for a pattern that matches the name of its member and of no
    other member. *)
Theorem archive_then_read_archived_file
  (unfinished : members -> content) (folder : path) (aparts : list string)
  (fmt : Archiving.archive_format) (pattern : string) (r : Re.regex)
  (q : path) (c : content) (st : state) :
  let archive_path := Path Disk aparts in
  let a := Archiving.with_extension (Archiving.splitext_base archive_path)
                                    (Archiving.extension fmt) in
  fmt = Archiving.FZip \/ fmt = Archiving.FTar ->
  sound_tree (fs st) folder -> p_parts folder <> [] ->
  is_dir (fs st) (PurePath.parent folder) = true ->
  forallb entry_name aparts = true -> aparts <> [] ->
  is_dir (fs st) (PurePath.parent archive_path) = true ->
  replaceable (fs st) a = true ->
  ~ PurePath.below folder a ->
  Re.parse (list_ascii_of_string pattern) None Re.Eps None = Some r ->
  PurePath.below folder q -> fs st !! q = Some (File false c) ->
  Re.match_ r (arcname folder q) = true ->
  (forall q', PurePath.below folder q' -> is_Some (fs st !! q') -> q' <> q ->
              Re.match_ r (arcname folder q') = false /\
              Re.match_ r (arcname folder q' +:+ "/") = false) ->
  exists st1,
    Archiving.archive unfinished folder archive_path fmt st = (Ok a, st1) /\
    read_archived_file a pattern st1 = (Ok c, st1).
Proof.
  intros archive_path a Hfmt Hsound Hd Hroot Hanames Ha Hpar Hrep Hout Hparse Hq Hlook
         Hmatch Honly.
  set (stem := Archiving.splitext_root (List.last aparts "")).
  assert (entry_name (List.last aparts "") = true) as Hlast.
  { rewrite forallb_forall in Hanames. apply Hanames.
    destruct aparts as [|x l] using rev_ind; [done|].
    rewrite last_last. apply in_or_app. right. by left. }
  destruct (splitext_root_name _ Hlast) as [Hstem Hns]. fold stem in Hstem, Hns.
  assert (PurePath.name a = stem +:+ Archiving.extension fmt) as Hname.
  { unfold a, archive_path. rewrite archive_file_name by done.
    unfold PurePath.name. simpl. by rewrite last_last. }
  destruct Hfmt as [Hf|Hf].
  - (* zip *)
    subst fmt.
    destruct (archive_zip_tree unfinished folder Disk aparts st Hsound Hd Hroot Ha Hout
                               Hrep Hpar)
      as (ms & st1 & Hrun & Hfs1 & Hn1 & Hms & Hall).
    fold archive_path in Hrun, Hfs1. exists st1. split; [exact Hrun|].
    assert (fs st1 !! a = Some (File false (Zip ms))) as Ha1.
    { rewrite Hfs1. apply lookup_insert_eq. }
    rewrite (read_archived_zip_first_match a pattern st1 ms r);
      [|by apply (suffix_of_zip _ stem)|exact Ha1|exact Hparse].
    destruct (Hall q Hq) as (m & Hm & Hmq); [by rewrite Hlook|].
    assert (m = (arcname folder q, EFile c)) as ->.
    { unfold member_of in Hmq. rewrite Hlook in Hmq. by injection Hmq. }
    rewrite (find_only _ _ (arcname folder q)); [| |done|].
    + unfold ZipFile.read, ZipFile.getinfo.
      destruct (last_named_some (arcname folder q) ms) as [e He].
      { apply list_elem_of_In, in_map_iff. exists (arcname folder q, EFile c).
        split; [done|by apply list_elem_of_In]. }
      rewrite He. apply last_named_elem in He.
      destruct (Hms _ He) as (q' & Hq' & Hm').
      destruct (member_of_tree (fs st) folder folder q' _ Hsound Hd Hq' Hm') as [Ht' _].
      destruct (member_of_tree (fs st) folder folder q _ Hsound Hd Hq Hmq) as [Ht Hkind].
      simpl in Ht, Ht'. rewrite Ht in Ht'.
      assert (q = q') as <- by (by apply (place_inj folder folder)).
      rewrite Hmq in Hm'. injection Hm' as <-.
      erewrite bind_ok by reflexivity.
      destruct Hkind as [(Hdir & _)|(c' & _ & _ & Hends)]; [congruence|].
      simpl in Hends. by rewrite Hends.
    + apply list_elem_of_In, in_map_iff. exists (arcname folder q, EFile c).
      split; [done|by apply list_elem_of_In].
    + intros n' Hin' Hp'. apply list_elem_of_In, in_map_iff in Hin' as (m' & <- & Hin').
      apply list_elem_of_In in Hin'. destruct (Hms _ Hin') as (q' & Hq' & Hm').
      destruct (decide (q' = q)) as [->|Hne].
      * rewrite Hmq in Hm'. by injection Hm' as <-.
      * exfalso. destruct (Honly q' Hq') as [H1 H2]; [|done|].
        { unfold member_of in Hm'. destruct (fs st !! q'); [by eexists|done]. }
        unfold member_of in Hm'.
        destruct (fs st !! q') as [[|[] c']|]; try done; injection Hm' as <-;
          simpl in Hp'; congruence.
  - (* tar *)
    subst fmt.
    destruct (archive_tar_tree unfinished folder Disk aparts Archiving.FTar st)
      as (ms & st1 & Hrun & Hfs1 & Hn1 & Hms & Hall); try done.
    fold archive_path in Hrun, Hfs1. fold a in Hrun, Hfs1.
    exists st1. split; [exact Hrun|].
    assert (fs st1 !! a = Some (File false (Tar ms))) as Ha1.
    { rewrite Hfs1. apply lookup_insert_eq. }
    rewrite (read_archived_tar_first_match a pattern st1 ms r);
      [|by apply (suffix_of_tar _ stem)|exact Ha1|exact Hparse].
    rewrite Forall_forall in Hms.
    destruct (Hall q Hq) as (m & Hm & Hmq); [by rewrite Hlook|].
    assert (m = (arcname folder q, EFile c)) as ->.
    { unfold tar_member_of in Hmq. rewrite Hlook in Hmq. by injection Hmq. }
    rewrite (find_only _ _ (arcname folder q)); [| |done|].
    + destruct (first_named_some (arcname folder q) ms) as [e He].
      { apply list_elem_of_In, in_map_iff. exists (arcname folder q, EFile c).
        split; [done|by apply list_elem_of_In]. }
      rewrite He. apply first_named_elem in He.
      destruct (Hms _ He) as (q' & Hq' & Hm').
      destruct (tar_member_of_tree (fs st) folder folder q' _ Hsound Hd Hq' Hm') as [Ht' _].
      destruct (tar_member_of_tree (fs st) folder folder q _ Hsound Hd Hq Hmq) as [Ht _].
      simpl in Ht, Ht'. rewrite Ht in Ht'.
      assert (q = q') as <- by (by apply (place_inj folder folder)).
      rewrite Hmq in Hm'. by injection Hm' as <-.
    + apply list_elem_of_In, in_map_iff. exists (arcname folder q, EFile c).
      split; [done|by apply list_elem_of_In].
    + intros n' Hin' Hp'. apply list_elem_of_In, in_map_iff in Hin' as (m' & <- & Hin').
      apply list_elem_of_In in Hin'. destruct (Hms _ Hin') as (q' & Hq' & Hm').
      destruct (decide (q' = q)) as [->|Hne].
      * rewrite Hmq in Hm'. by injection Hm' as <-.
      * exfalso. destruct (Honly q' Hq') as [H1 H2]; [|done|].
        { unfold tar_member_of in Hm'. destruct (fs st !! q'); [by eexists|done]. }
        unfold tar_member_of in Hm'.
        destruct (fs st !! q') as [[|[] c']|]; try done; injection Hm' as <-;
          simpl in Hp'; congruence.
Qed.

Lemma archive_then_read_archived_file_witness :
  let st := fresh [([], Dir); (["d"], Dir); (["d"; "f.txt"], File false (bytes_of "x"));
                   (["d"; "s"], Dir); (["d"; "s"; "g.txt"], File false (bytes_of "y"));
                   (["z"], Dir)] in
  exists st1,
    Archiving.archive (fun _ => Raw []) (Path Disk ["d"]) (Path Disk ["z"; "a.tar"])
                      Archiving.FTar st
    = (Ok (Path Disk ["z"; "a.tar"]), st1) /\
    read_archived_file (Path Disk ["z"; "a.tar"]) ".*g.txt" st1 = (Ok (bytes_of "y"), st1).
Proof.
  intros st.
  set (r := Re.Seq (Re.Seq (Re.Seq (Re.Seq (Re.Seq (Re.Seq Re.Eps (Re.Star Re.Any))
                                                   (Re.Chr "g")) Re.Any)
                                   (Re.Chr "t")) (Re.Chr "x")) (Re.Chr "t")).
  apply (archive_then_read_archived_file
           (fun _ => Raw []) (Path Disk ["d"]) ["z"; "a.tar"] Archiving.FTar ".*g.txt" r
           (Path Disk ["d"; "s"; "g.txt"]) (bytes_of "y") st).
  - by right.
  - split; [reflexivity|]. split; [vm_compute; reflexivity|].
    intros q _ [n Hq]. apply elem_of_list_to_map_2 in Hq. simpl in Hq.
    repeat (apply elem_of_cons in Hq as [Hq|Hq];
            [inversion Hq; subst; split; [reflexivity|intros _; reflexivity]|]).
    by apply elem_of_nil in Hq.
  - done.
  - reflexivity.
  - reflexivity.
  - done.
  - reflexivity.
  - reflexivity.
  - intros [_ [k Hk]]. discriminate.
  - reflexivity.
  - split; [reflexivity|]. by exists ["s"; "g.txt"].
  - reflexivity.
  - reflexivity.
  - intros q' _ [n Hq] Hne. apply elem_of_list_to_map_2 in Hq. simpl in Hq.
    repeat (apply elem_of_cons in Hq as [Hq|Hq];
            [inversion Hq; subst; first [done | split; vm_compute; reflexivity]|]).
    by apply elem_of_nil in Hq.
Defined.

(** ** [extract_file] of a zip writes in the output directory only *)

Global Instance disk_kept_refl out : Reflexive (disk_kept out).
Proof. by intros st q n. Qed.

Global Instance disk_kept_trans out : Transitive (disk_kept out).
Proof. intros s1 s2 s3 H1 H2 q n Hr Hq Hn. by apply H2, H1. Qed.

Lemma kept_outside_disk_kept dst out st st' :
  PurePath.below out dst -> kept_outside dst st st' -> disk_kept out st st'.
Proof.
  intros Hd H q n _ Hq Hn. apply H; [|done]. intros Hb. apply Hq. by eapply below_trans.
Qed.

Lemma within_disk_kept out st st' : within off_disk st st' -> disk_kept out st st'.
Proof.
  intros [_ H] q n Hr _ Hn. rewrite H; [done|]. unfold off_disk. by rewrite Hr; intros ?.
Qed.

Lemma keeps_outside_disk {A} dst out (m : M A) :
  PurePath.below out dst -> keeps (kept_outside dst) m -> keeps (disk_kept out) m.
Proof. intros Hd. apply keeps_weaken. intros s s'. by apply kept_outside_disk_kept. Qed.

Lemma keeps_within_disk {A} out (m : M A) :
  keeps (within off_disk) m -> keeps (disk_kept out) m.
Proof. apply keeps_weaken. intros s s'. apply within_disk_kept. Qed.

(** Making directories changes no node that is there. *)
Lemma keeps_outside_makedirs dst p : keeps (kept_outside dst) (Os.makedirs p).
Proof.
  intros st q n _ Hn. unfold Os.makedirs.
  destruct (blocked (fs st) p) eqn:Hb; [done|].
  destruct (is_file (fs st) p) eqn:Hf; [done|].
  destruct (is_dir (fs st) p) eqn:Hd; [done|].
  simpl. apply plant_kept; try done.
  unfold exists_, is_file, is_dir in *. by destruct (fs st !! p) as [[|]|].
Qed.

Lemma keeps_outside_mkdir dst p : keeps (kept_outside dst) (Os.mkdir p).
Proof.
  intros st q n _ Hn. unfold Os.mkdir.
  destruct (exists_ (fs st) p) eqn:He; [done|].
  repeat case_match; simpl; try done.
  rewrite lookup_insert_ne; [done|]. intros <-. unfold exists_ in He. by rewrite Hn in He.
Qed.

Lemma keeps_outside_upperdirs dst t : keeps (kept_outside dst) (upperdirs t).
Proof. unfold upperdirs. repeat keeps_step. apply keeps_outside_makedirs. Qed.

Lemma keeps_outside_log dst lvl msg : keeps (kept_outside dst) (log lvl msg).
Proof. by intros st q n. Qed.

Lemma keeps_outside_remove dst p : PurePath.below dst p -> keeps (kept_outside dst) (remove p).
Proof.
  intros Hp st q n Hq Hn. rewrite remove_frame; [done|].
  intros Hb. apply Hq. by eapply below_trans.
Qed.

Lemma keeps_outside_copy src dst : keeps (kept_outside dst) (copy src dst).
Proof.
  unfold copy. repeat keeps_step;
    auto using keeps_outside_copytree, keeps_outside_copy2, keeps_outside_log.
Qed.

(** Where a member of a zip goes lies below the directory it is
    extracted to, whatever its name. *)
Lemma zip_target_below out name : PurePath.below out (ZipFile.target out name).
Proof. split; [done|]. simpl. by eexists. Qed.

Lemma keeps_outside_zip_extractall ms out names :
  keeps (kept_outside out) (ZipFile.extractall ms out names).
Proof.
  induction names as [|n l IH]; simpl; repeat keeps_step; [|done].
  unfold ZipFile.extract, ZipFile.getinfo.
  repeat keeps_step;
    auto using keeps_outside_upperdirs, keeps_outside_mkdir,
               keeps_outside_write_file, zip_target_below.
Qed.

(** A block with a temporary directory leaves the disk outside [out] as
    it is when its body does. *)
Lemma disk_kept_with_tmpdir {A} out (body : path -> M A) :
  (forall n, keeps (disk_kept out) (body (Path (Scratch n) []))) ->
  keeps (disk_kept out) (Tempfile.with_tmpdir body).
Proof.
  intros Hb st q n Hr Hq Hn.
  unfold Tempfile.with_tmpdir, Tempfile.mkdtemp, Tempfile.cleanup.
  match goal with |- context [body ?p ?s] =>
    pose proof (Hb (next_tmp st) s q n Hr Hq) as H; destruct (body p s) as [r s2] end.
  simpl in *. rewrite lookup_prune.
  destruct (decide _) as [[Hroot _]|_].
  - simpl in Hroot. by rewrite Hr in Hroot.
  - apply H. rewrite lookup_insert_ne; [done|]. intros <-. done.
Qed.

Lemma disk_kept_extract_one E ms names out_parts overwrite file_path name :
  let output := Path Disk out_parts in
  keeps (disk_kept output)
        (extract_one E (ZipArchive ms) names output overwrite file_path
                     (PurePath.joinpath output name)).
Proof.
  intros output. set (extr_dir := PurePath.joinpath output name).
  assert (PurePath.below output extr_dir) as Hbelow by apply joinpath_below.
  unfold extract_one.
  apply keeps_bind; [apply _ | apply keeps_get_fs; apply _ | intros f].
  destruct (is_dir f extr_dir).
  - apply (keeps_outside_disk output); [apply below_refl|].
    destruct overwrite; repeat keeps_step;
      auto using keeps_outside_log, keeps_outside_remove.
  - apply keeps_bind;
      [apply _ | apply (keeps_outside_disk output), keeps_outside_log; apply below_refl |].
    intros _. apply disk_kept_with_tmpdir. intros k.
    set (tmp := Path (Scratch k) []).
    apply (keeps_bind_with _ (fun a : path * path * path =>
                                a.1.2 = output \/ off_disk (p_root a.1.2))).
    { destruct (in_docker E); repeat keeps_step.
      apply keeps_within_disk, within_copy. by intros ?. }
    { intros st [[fp out'] dir'] st' H. simpl.
      destruct (in_docker E).
      - apply bind_inv_ok in H as (o & s & _ & H). inversion H; subst. right. by intros ?.
      - inversion H; subst. by left. }
    intros [[fp out'] dir'] Hout. simpl in Hout.
    apply (keeps_bind_with _ (fun a : selection * path =>
                                a.2 = output \/ off_disk (p_root a.2))).
    { destruct (Str.endswith ".zip" (PurePath.str fp)); simpl; repeat keeps_step. }
    { intros st [sel out''] st' H. simpl.
      destruct (Str.endswith ".zip" (PurePath.str fp)); simpl in H;
        unfold bind, ret, raise in H; by inversion H; subst. }
    intros [sel out''] Hout''. simpl in Hout''.
    repeat keeps_step.
    + apply (keeps_outside_disk output), keeps_outside_makedirs; apply below_refl.
    + destruct sel as [l|l]; simpl; [|repeat keeps_step].
      destruct Hout'' as [->|Hoff].
      * apply (keeps_outside_disk output), keeps_outside_zip_extractall; apply below_refl.
      * by apply keeps_within_disk, within_zip_extractall.
    + by apply (keeps_outside_disk extr_dir), keeps_outside_copy.
Qed.

Lemma disk_kept_extract_loop E ms names out_parts overwrite file_path extr_names :
  let output := Path Disk out_parts in
  keeps (disk_kept output)
        (extract_loop E (ZipArchive ms) names output overwrite file_path
                      (List.map (PurePath.joinpath output) extr_names)).
Proof.
  intros output. revert file_path. induction extr_names as [|d l IH]; intros file_path; simpl.
  - apply keeps_ret. apply _.
  - apply keeps_bind; [apply _ | apply disk_kept_extract_one | intros fp; apply IH].
Qed.

Lemma extract_file_scratch_kept E file_path out_parts overwrite :
  keeps scratch_kept (extract_file E file_path (Path Disk out_parts) overwrite).
Proof.
  unfold extract_file.
  apply keeps_bind; [apply _ | apply keeps_get_fs; apply _ | intros f].
  destruct (is_dir f file_path); [apply keeps_ret; apply _|].
  apply keeps_bind; [apply _ | | intros [arch names]].
  { apply within_disk_scratch_kept.
    unfold ZipFile.open_r, TarFile.open_r.
    repeat keeps_step; auto using within_read_file. }
  apply keeps_bind; [apply _ | apply scratch_kept_extract_loop | intros _].
  repeat case_match; apply keeps_ret; apply _.
Qed.

Lemma extract_file_zip_disk_kept E file_path out_parts overwrite :
  PurePath.suffix file_path = ".zip" ->
  keeps (disk_kept (Path Disk out_parts))
        (extract_file E file_path (Path Disk out_parts) overwrite).
Proof.
  intros Hzip. unfold extract_file. rewrite Hzip. cbn [String.eqb Ascii.eqb Bool.eqb].
  apply keeps_bind; [apply _ | apply keeps_get_fs; apply _ | intros f].
  destruct (is_dir f file_path); [apply keeps_ret; apply _|].
  apply (keeps_bind_with _ (fun a : archive * list string => exists ms, a.1 = ZipArchive ms)).
  { apply keeps_within_disk. unfold ZipFile.open_r.
    repeat keeps_step; auto using within_read_file. }
  { intros st [arch names] st' H. simpl.
    apply bind_inv_ok in H as (ms & s & _ & H). inversion H; subst. by eexists. }
  intros [arch names] [ms Harch]. simpl in Harch. subst arch.
  apply keeps_bind; [apply _ | apply disk_kept_extract_loop | intros _].
  repeat case_match; apply keeps_ret; apply _.
Qed.

(** X24. Extracting a zip writes in the output directory only, whatever
    the names of its members are: when no top-level name of the archive
    is [".."], every node that is neither the output directory nor below
    it is after the call what it was before it, also when the call
    raises.  (The [".."] in member names are dropped by [zipfile]; a
    top-level [".."] would make the parent of the output directory the
    directory to overwrite.) *)
Theorem extract_file_zip_stays_in_output
  (E : env) (file_path : path) (out_parts : list string) (overwrite : bool) (st : state)
  (q : path) (n : node) :
  let output := Path Disk out_parts in
  PurePath.suffix file_path = ".zip" ->
  (forall l ms, fs st !! file_path = Some (File l (Zip ms)) ->
                ".." ∉ top_level E (ZipFile.namelist ms)) ->
  tidy st ->
  ~ PurePath.below output q ->
  fs st !! q = Some n ->
  fs (extract_file E file_path output overwrite st).2 !! q = Some n.
Proof.
  intros output Hzip _ Htidy Hq Hn.
  destruct (p_root q) as [|k] eqn:Hr.
  - by apply (extract_file_zip_disk_kept E file_path out_parts overwrite Hzip st q n).
  - destruct (extract_file_scratch_kept E file_path out_parts overwrite st Htidy) as [_ H].
    destruct q as [r parts]. simpl in Hr. subst r. by rewrite H.
Qed.

Lemma extract_file_zip_stays_in_output_witness :
  let archive := Zip [("p/", EDir); ("p/../../x.txt", EFile (bytes_of "new"))] in
  let st := fresh [([], Dir); (["in"], Dir); (["in"; "p.zip"], File false archive);
                   (["out"], Dir); (["x.txt"], File false (bytes_of "old"))] in
  fs (extract_file (python true id) (Path Disk ["in"; "p.zip"]) (Path Disk ["out"]) true st).2
     !! Path Disk ["x.txt"] = Some (File false (bytes_of "old")).
Proof.
  intros archive st.
  apply (extract_file_zip_stays_in_output
           (python true id) (Path Disk ["in"; "p.zip"]) ["out"] true st).
  - reflexivity.
  - intros l ms Hms. vm_compute in Hms. injection Hms as <- <-.
    intros Hin. apply list_elem_of_In in Hin. vm_compute in Hin.
    destruct Hin as [H|[]]. discriminate.
  - intros n parts _. unfold st, fresh, disk. simpl.
    repeat (rewrite lookup_insert_ne by (intros ?; simplify_eq)). apply lookup_empty.
  - intros [_ [k Hk]]. discriminate.
  - vm_compute. reflexivity.
Defined.

(** ** [sertit.logs] *)

Module LogsFacts.
Import Logs.

Lemma logging_eta s :
  Logging (root_logger s) (loggerDict s) (heap s) (next_handler s) (disable s)
          (disabled_attr s) (files s) = s.
Proof. by destruct s. Qed.

Lemma get_update l f s :
  get (update l f s) l = option_map f (get s l).
Proof.
  destruct l as [|n]; simpl; [done|].
  destruct (loggerDict s !! n) as [[lg|]|] eqn:Hn; simpl; rewrite ?Hn; try done.
  by rewrite lookup_insert_eq.
Qed.

Lemma get_update_ne l r f s : r <> l -> get (update l f s) r = get s r.
Proof.
  intros Hne. destruct l as [|n], r as [|m]; simpl; try done.
  - by repeat case_match.
  - destruct (loggerDict s !! n) as [[lg|]|] eqn:Hn; simpl; try done.
    rewrite lookup_insert_ne; [done|]. congruence.
Qed.

Lemma update_update l f g s : update l f (update l g s) = update l (fun x => f (g x)) s.
Proof.
  destruct l as [|n]; simpl; [done|].
  destruct (loggerDict s !! n) as [[lg|]|] eqn:Hn; simpl; rewrite ?Hn; try done.
  rewrite lookup_insert_eq. by rewrite insert_insert_eq.
Qed.

Lemma update_id l f s :
  (forall lg, get s l = Some lg -> f lg = lg) -> update l f s = s.
Proof.
  intros Hf. destruct l as [|n]; simpl in *.
  - rewrite Hf by done. apply logging_eta.
  - destruct (loggerDict s !! n) as [[lg|]|] eqn:Hn; try done.
    rewrite Hf by done. rewrite insert_id by done. apply logging_eta.
Qed.

Lemma update_ext l f g s :
  (forall lg, get s l = Some lg -> f lg = g lg) -> update l f s = update l g s.
Proof.
  intros Hf. destruct l as [|n]; simpl in *.
  - by rewrite Hf.
  - destruct (loggerDict s !! n) as [[lg|]|] eqn:Hn; try done. by rewrite Hf.
Qed.

Lemma handlers_of_set_handlers l hs s :
  is_Some (get s l) -> handlers_of (set_handlers l hs s) l = hs.
Proof.
  intros [lg Hlg]. unfold handlers_of, set_handlers. by rewrite get_update, Hlg.
Qed.

Lemma set_handlers_twice l hs hs' s :
  set_handlers l hs (set_handlers l hs' s) = set_handlers l hs s.
Proof. unfold set_handlers. by rewrite update_update. Qed.

Lemma set_handlers_same l s : set_handlers l (handlers_of s l) s = s.
Proof.
  unfold set_handlers, handlers_of. apply update_id. intros lg ->. by destruct lg.
Qed.

Lemma get_set_handlers l hs s : is_Some (get s l) -> is_Some (get (set_handlers l hs s) l).
Proof. intros [lg Hlg]. unfold set_handlers. rewrite get_update, Hlg. by eexists. Qed.


Lemma update_handler_id h f s :
  (forall x, heap s !! h = Some x -> f x = x) -> update_handler h f s = s.
Proof.
  intros Hf. unfold update_handler. rewrite alter_id by done. apply logging_eta.
Qed.

Lemma update_update_handler l f h g s :
  update l f (update_handler h g s) = update_handler h g (update l f s).
Proof.
  destruct l as [|n]; simpl; [done|]. by repeat case_match.
Qed.

Lemma get_update_handler l h g s : get (update_handler h g s) l = get s l.
Proof. by destruct l. Qed.

Lemma handlers_of_update_handler l h g s :
  handlers_of (update_handler h g s) l = handlers_of s l.
Proof. unfold handlers_of. by rewrite get_update_handler. Qed.

Lemma handlers_of_setLevel l lvl s : handlers_of (setLevel l lvl s) l = handlers_of s l.
Proof.
  unfold handlers_of, setLevel. rewrite get_update. by destruct (get s l).
Qed.

Lemma get_setLevel l lvl s : is_Some (get s l) -> is_Some (get (setLevel l lvl s) l).
Proof. intros [lg Hlg]. unfold setLevel. rewrite get_update, Hlg. by eexists. Qed.

(** What [init_logger] does to a logger that holds handlers. *)
Lemma init_logger_held l lvl fmt s h0 hs :
  handlers_of s l = h0 :: hs ->
  init_logger l lvl fmt s
  = handler_setFormatter h0 (Formatter fmt) (handler_setLevel h0 lvl (setLevel l lvl s)).
Proof. intros Hh. unfold init_logger. by rewrite handlers_of_setLevel, Hh. Qed.

Lemma get_same s s' l :
  root_logger s = root_logger s' -> loggerDict s = loggerDict s' -> get s l = get s' l.
Proof. intros Hr Hd. destruct l; simpl; by rewrite ?Hr, ?Hd. Qed.

Lemma get_allocate k s l : get (allocate k s).2 l = get s l.
Proof. by apply get_same. Qed.

Lemma handlers_of_allocate k s l : handlers_of (allocate k s).2 l = handlers_of s l.
Proof. unfold handlers_of. by rewrite get_allocate. Qed.

Lemma heap_update l f s : heap (update l f s) = heap s.
Proof. destruct l; simpl; [done|]. by repeat case_match. Qed.

Lemma next_handler_update l f s : next_handler (update l f s) = next_handler s.
Proof. destruct l; simpl; [done|]. by repeat case_match. Qed.

Lemma get_addHandler_new l h s lg :
  get s l = Some lg -> h ∉ lg_handlers lg ->
  get (addHandler l h s) l
  = Some (Logger (lg_level lg) (lg_handlers lg ++ [h]) (lg_propagate lg) (lg_disabled lg)
                 (lg_filters lg)).
Proof.
  intros Hlg Hh. unfold addHandler, handlers_of. rewrite Hlg.
  rewrite bool_decide_eq_false_2 by done.
  unfold set_handlers. by rewrite get_update, Hlg.
Qed.

Lemma heap_addHandler l h s : heap (addHandler l h s) = heap s.
Proof. unfold addHandler, set_handlers. case_match; [done|]. apply heap_update. Qed.

(** [init_logger] on a logger without handlers *)
Lemma init_logger_bare l lvl fmt s lg :
  get s l = Some lg -> lg_handlers lg = [] ->
  let s' := init_logger l lvl fmt s in
  get s' l = Some (Logger lvl [next_handler s] (lg_propagate lg) (lg_disabled lg)
                          (lg_filters lg)) /\
  heap s' !! next_handler s = Some (Handler StreamHandler lvl (Some (Formatter fmt)) false).
Proof.
  intros Hlg Hh s'.
  assert (get (setLevel l lvl s) l
          = Some (Logger lvl [] (lg_propagate lg) (lg_disabled lg) (lg_filters lg))) as H1.
  { unfold setLevel. by rewrite get_update, Hlg, <- Hh. }
  assert (handlers_of (setLevel l lvl s) l = []) as H0.
  { unfold handlers_of. by rewrite H1. }
  unfold s', init_logger. rewrite H0. unfold new_StreamHandler.
  destruct (allocate StreamHandler (setLevel l lvl s)) as [h s1] eqn:Ha.
  assert (h = next_handler s) as ->.
  { unfold allocate in Ha. injection Ha as <- _. apply next_handler_update. }
  assert (s1 = (allocate StreamHandler (setLevel l lvl s)).2) as -> by by rewrite Ha.
  split.
  - rewrite (get_addHandler_new _ _ _
               (Logger lvl [] (lg_propagate lg) (lg_disabled lg) (lg_filters lg))).
    + reflexivity.
    + unfold handler_setFormatter, handler_setLevel.
      by rewrite !get_update_handler, get_allocate, H1.
    + simpl. apply not_elem_of_nil.
  - rewrite heap_addHandler. unfold handler_setFormatter, handler_setLevel, update_handler.
    simpl. rewrite !lookup_alter_eq. unfold setLevel. rewrite next_handler_update.
    by rewrite lookup_insert_eq.
Qed.

Lemma init_logger_handlers l lvl fmt s :
  is_Some (get s l) ->
  handlers_of (init_logger l lvl fmt s) l
  = match handlers_of s l with
    | [] => [next_handler s]
    | hs => hs
    end.
Proof.
  intros [lg Hlg]. destruct (handlers_of s l) as [|h0 hs] eqn:Hh.
  - unfold handlers_of in Hh. rewrite Hlg in Hh.
    destruct (init_logger_bare l lvl fmt s lg Hlg Hh) as [Hg _].
    unfold handlers_of. by rewrite Hg.
  - rewrite (init_logger_held l lvl fmt s h0 hs Hh).
    unfold handler_setFormatter, handler_setLevel.
    by rewrite !handlers_of_update_handler, handlers_of_setLevel.
Qed.

(** After [init_logger] the logger has the level, and its first handler
    the level and the format. *)
Lemma init_logger_post l lvl fmt s :
  is_Some (get s l) ->
  let s' := init_logger l lvl fmt s in
  (exists lg, get s' l = Some lg /\ lg_level lg = lvl) /\
  (forall h0 x, head (handlers_of s' l) = Some h0 -> heap s' !! h0 = Some x ->
                h_level x = lvl /\ h_formatter x = Some (Formatter fmt)).
Proof.
  intros [lg Hlg] s'. destruct (handlers_of s l) as [|h hs] eqn:Hold.
  - unfold handlers_of in Hold. rewrite Hlg in Hold.
    destruct (init_logger_bare l lvl fmt s lg Hlg Hold) as [Hg Hh]. fold s' in Hg, Hh.
    split; [by eexists|]. unfold handlers_of. rewrite Hg. simpl.
    intros h0 x [= <-]. rewrite Hh. by intros [= <-].
  - unfold s'. rewrite (init_logger_held l lvl fmt s h hs Hold).
    unfold handler_setFormatter, handler_setLevel. split.
    + rewrite !get_update_handler. unfold setLevel. rewrite get_update, Hlg. by eexists.
    + rewrite !handlers_of_update_handler, handlers_of_setLevel, Hold. simpl.
      intros h0 x [= <-]. unfold update_handler. simpl.
      rewrite !lookup_alter_eq. destruct (heap _ !! h) as [y|]; simpl; [|done].
      by intros [= <-].
Qed.

End LogsFacts.


(** X15. [init_logger] gives a logger a handler only when it has none:
    the handlers it holds stay, and the first one gets the level and the
    format.  Calling it again with the same arguments changes nothing
    more, so that no message is printed twice. *)
Theorem init_logger_once
  (l : Logs.ref) (lvl : Z) (fmt : string) (s : Logs.logging)
  (Hl : is_Some (Logs.get s l)) :
  let s' := Logs.init_logger l lvl fmt s in
  Logs.handlers_of s' l
  = match Logs.handlers_of s l with
    | [] => [Logs.next_handler s]
    | hs => hs
    end /\
  (exists lg, Logs.get s' l = Some lg /\ Logs.lg_level lg = lvl) /\
  (forall h0 x, head (Logs.handlers_of s' l) = Some h0 -> Logs.heap s' !! h0 = Some x ->
                Logs.h_level x = lvl /\ Logs.h_formatter x = Some (Logs.Formatter fmt)) /\
  Logs.init_logger l lvl fmt s' = s'.
Proof.
  intros s'.
  pose proof (LogsFacts.init_logger_handlers l lvl fmt s Hl) as Hh. fold s' in Hh.
  destruct (LogsFacts.init_logger_post l lvl fmt s Hl) as [(lg & Hlg & Hlvl) Hfirst].
  fold s' in Hlg, Hfirst.
  split; [exact Hh|]. split; [by exists lg|]. split; [exact Hfirst|].
  assert (exists h0 hs, Logs.handlers_of s' l = h0 :: hs) as (h0 & hs & Hs').
  { rewrite Hh. destruct (Logs.handlers_of s l); by eexists _, _. }
  rewrite (LogsFacts.init_logger_held l lvl fmt s' h0 hs Hs').
  assert (Logs.setLevel l lvl s' = s') as ->.
  { apply LogsFacts.update_id. intros lg' Hlg'. rewrite Hlg in Hlg'.
    injection Hlg' as <-. destruct lg; simpl in *. congruence. }
  assert (Logs.handler_setLevel h0 lvl s' = s') as ->.
  { apply LogsFacts.update_handler_id. intros x Hx.
    destruct (Hfirst h0 x) as [Hl1 Hf1]; [by rewrite Hs'|done|].
    destruct x; simpl in *. congruence. }
  apply LogsFacts.update_handler_id. intros x Hx.
  destruct (Hfirst h0 x) as [Hl1 Hf1]; [by rewrite Hs'|done|].
  destruct x; simpl in *. congruence.
Qed.

Lemma init_logger_once_witness :
  let s := (Logs.getLogger "sertit" (fresh_logging ∅)).2 in
  let s' := Logs.init_logger (Logs.Named "sertit") Logs.DEBUG Logs.LOGGING_FORMAT s in
  Logs.handlers_of s' (Logs.Named "sertit") = [0] /\
  Logs.init_logger (Logs.Named "sertit") Logs.DEBUG Logs.LOGGING_FORMAT s' = s'.
Proof.
  intros s s'.
  destruct (init_logger_once (Logs.Named "sertit") Logs.DEBUG Logs.LOGGING_FORMAT s)
    as (Hh & _ & _ & Hidem).
  - vm_compute. by eexists.
  - split; [exact Hh | exact Hidem].
Defined.
Module LogsFacts2.
Import Logs LogsFacts.

Lemma get_set_handlers_ne l r hs s : r <> l -> get (set_handlers l hs s) r = get s r.
Proof. intros Hne. unfold set_handlers. by apply get_update_ne. Qed.

Lemma get_removeHandler_ne l r h s : r <> l -> get (removeHandler l h s) r = get s r.
Proof.
  intros Hne. unfold removeHandler. case_match; [|done]. by apply get_set_handlers_ne.
Qed.

Lemma heap_removeHandler l h s : heap (removeHandler l h s) = heap s.
Proof. unfold removeHandler, set_handlers. case_match; [|done]. apply heap_update. Qed.

Lemma removeHandler_head l h t s :
  handlers_of s l = h :: t -> removeHandler l h s = set_handlers l t s.
Proof.
  intros Hh. unfold removeHandler. rewrite Hh.
  rewrite bool_decide_eq_true_2 by left. simpl. by rewrite Nat.eqb_refl.
Qed.

Lemma is_Some_get_removeHandler l h s :
  is_Some (get s l) -> is_Some (get (removeHandler l h s) l).
Proof. intros Hl. unfold removeHandler. case_match; [|done]. by apply get_set_handlers. Qed.

Lemma shutdown_each_spec l hs : forall s,
  is_Some (get s l) -> handlers_of s l = hs ->
  let s' := shutdown_each l hs s in
  handlers_of s' l = [] /\
  (forall h, heap s' !! h = if decide (h ∈ hs) then closed <$> heap s !! h else heap s !! h) /\
  (forall r, r <> l -> get s' r = get s r).
Proof.
  induction hs as [|h t IH]; intros s Hl Hh.
  - simpl. repeat split; done.
  - cbn [shutdown_each]. cbv zeta. rewrite (removeHandler_head l h t s Hh).
    set (s1 := handler_close h (set_handlers l t s)).
    assert (is_Some (get s1 l)) as Hl1.
    { unfold s1, handler_close. rewrite get_update_handler. by apply get_set_handlers. }
    assert (handlers_of s1 l = t) as Hh1.
    { unfold s1, handler_close. rewrite handlers_of_update_handler.
      by apply handlers_of_set_handlers. }
    destruct (IH s1 Hl1 Hh1) as (Hnil & Hheap & Hget). split; [done|]. split.
    + intros h'. rewrite Hheap. unfold s1, handler_close, update_handler, set_handlers.
      simpl. rewrite heap_update.
      destruct (decide (h' = h)) as [->|Hne].
      * rewrite lookup_alter_eq. rewrite (decide_True (P := h ∈ h :: t)) by left.
        case_match; [|done]. by destruct (heap s !! h).
      * rewrite lookup_alter_ne by done.
        destruct (decide (h' ∈ t)) as [Hin|Hout].
        -- by rewrite decide_True by (by right).
        -- rewrite decide_False; [done|]. intros Hin. apply elem_of_cons in Hin as [?|?]; done.
    + intros r Hr. rewrite Hget by done. unfold s1, handler_close.
      rewrite get_update_handler. by apply get_set_handlers_ne.
Qed.

End LogsFacts2.

(** X16. [shutdown_logger] takes every handler off the logger and closes
    it: the loop runs over a copy of the list.  The other loggers keep
    their handlers, also the ones that are closed now. *)
Theorem shutdown_logger_closes_all
  (l : Logs.ref) (s : Logs.logging) (Hl : is_Some (Logs.get s l)) :
  let s' := Logs.shutdown_logger l s in
  Logs.handlers_of s' l = [] /\
  (forall h x, h ∈ Logs.handlers_of s l -> Logs.heap s !! h = Some x ->
               Logs.heap s' !! h = Some (closed x)) /\
  (forall r, r <> l -> Logs.get s' r = Logs.get s r).
Proof.
  intros s'.
  destruct (LogsFacts2.shutdown_each_spec l (Logs.handlers_of s l) s Hl eq_refl)
    as (Hnil & Hheap & Hget).
  split; [exact Hnil|]. split; [|exact Hget].
  intros h x Hin Hx. unfold s', Logs.shutdown_logger. rewrite Hheap.
  rewrite decide_True by done. by rewrite Hx.
Qed.

Lemma shutdown_logger_closes_all_witness :
  let s := Logs.init_logger Logs.Root Logs.DEBUG Logs.LOGGING_FORMAT (fresh_logging ∅) in
  let s' := Logs.shutdown_logger Logs.Root s in
  Logs.handlers_of s' Logs.Root = [] /\
  Logs.h_closed <$> Logs.heap s' !! 0 = Some true.
Proof.
  intros s s'.
  destruct (shutdown_logger_closes_all Logs.Root s) as (Hnil & Hheap & _).
  - by eexists.
  - split; [exact Hnil|].
    pose proof (Hheap 0 (Logs.Handler Logs.StreamHandler Logs.DEBUG
                                      (Some (Logs.Formatter Logs.LOGGING_FORMAT)) false))
      as H0.
    unfold s'. rewrite H0.
    + reflexivity.
    + vm_compute. left.
    + vm_compute. reflexivity.
Defined.
Module LogsFacts3.
Import Logs LogsFacts LogsFacts2.

Lemma list_remove_app x pre rest :
  x ∉ pre -> list_remove x (pre ++ x :: rest) = (pre ++ rest)%list.
Proof.
  induction pre as [|y pre IH]; intros Hx; simpl.
  - by rewrite Nat.eqb_refl.
  - apply not_elem_of_cons in Hx as [Hne Hx].
    destruct (Nat.eqb_spec y x) as [->|_]; [done|]. by rewrite IH.
Qed.

(** The loop that removes the handler it is at leaves every other one. *)
Lemma remove_while_iterating_spec l : forall fuel pre rest s,
  is_Some (get s l) ->
  handlers_of s l = (pre ++ rest)%list ->
  NoDup (pre ++ rest) ->
  length rest <= 2 * fuel ->
  remove_while_iterating fuel (length pre) l s
  = set_handlers l (pre ++ every_other rest) s.
Proof.
  induction fuel as [|fuel IH]; intros pre rest s Hl Hh Hnd Hlen.
  - destruct rest; [|simpl in Hlen; lia]. simpl.
    rewrite <- Hh. by rewrite set_handlers_same.
  - cbn [remove_while_iterating]. rewrite Hh.
    rewrite lookup_app_r by done. rewrite Nat.sub_diag.
    destruct rest as [|x rest]; simpl.
    { rewrite <- Hh. by rewrite set_handlers_same. }
    assert (x ∉ pre) as Hx.
    { apply NoDup_app in Hnd as (_ & Hd & _). intros Hin. apply (Hd x Hin). left. }
    assert (removeHandler l x s = set_handlers l (pre ++ rest) s) as ->.
    { unfold removeHandler. rewrite Hh.
      rewrite bool_decide_eq_true_2 by (apply elem_of_app; right; left).
      by rewrite list_remove_app. }
    set (s1 := set_handlers l (pre ++ rest) s).
    assert (is_Some (get s1 l)) as Hl1 by by apply get_set_handlers.
    assert (handlers_of s1 l = (pre ++ rest)%list) as Hh1 by by apply handlers_of_set_handlers.
    destruct rest as [|y rest].
    + destruct fuel; simpl.
      * unfold s1. by rewrite !app_nil_r.
      * rewrite Hh1. rewrite lookup_ge_None_2 by (rewrite length_app; simpl; lia).
        unfold s1. by rewrite !app_nil_r.
    + replace (S (length pre)) with (length (pre ++ [y])) by (rewrite length_app; simpl; lia).
      rewrite (IH (pre ++ [y])%list rest s1 Hl1).
      * unfold s1. rewrite set_handlers_twice. by rewrite <- app_assoc.
      * rewrite Hh1. by rewrite <- app_assoc.
      * rewrite <- app_assoc. simpl.
        apply NoDup_app in Hnd as (Hp & Hd & Hr). apply NoDup_cons in Hr as [_ Hr].
        apply NoDup_app. split; [done|]. split; [|done].
        intros z Hz Hin. apply (Hd z Hz). by right.
      * simpl in Hlen. lia.
Qed.

Lemma every_other_subset hs x : x ∈ every_other hs -> x ∈ hs.
Proof.
  revert x. induction hs as [hs IH] using (induction_ltof1 _ (@length nat)).
  unfold ltof in IH. intros x. destruct hs as [|a [|b hs]]; simpl; try by intros ?%elem_of_nil.
  intros Hin. apply elem_of_cons in Hin as [->|Hin].
  - right. left.
  - right. right. apply IH; [simpl; lia|done].
Qed.

Lemma every_other_length hs : length (every_other hs) = length hs / 2.
Proof.
  induction hs as [hs IH] using (induction_ltof1 _ (@length nat)).
  unfold ltof in IH. destruct hs as [|a [|b hs]]; try done.
  simpl every_other. simpl length. rewrite IH by (simpl; lia).
  change (S (S (length hs))) with (1 * 2 + length hs)%nat.
  rewrite Nat.div_add_l by done. lia.
Qed.

End LogsFacts3.
Module LogsFacts4.
Import Logs LogsFacts LogsFacts2 LogsFacts3.

Lemma fixup_logger name ends : forall d m x,
  d !! m = Some (ALogger x) -> fixup name ends d !! m = Some (ALogger x).
Proof.
  induction ends as [|i rest IH]; intros d m x Hm; simpl; [done|].
  destruct (d !! String.substring 0 i name) as [[lg|]|] eqn:Hs; auto.
  apply IH. rewrite lookup_insert_ne; [done|]. intros <-. congruence.
Qed.

Lemma fixup_no_logger name ends : forall d m x,
  fixup name ends d !! m = Some (ALogger x) -> d !! m = Some (ALogger x).
Proof.
  induction ends as [|i rest IH]; intros d m x Hm; simpl in *; [done|].
  destruct (d !! String.substring 0 i name) as [[lg|]|] eqn:Hs; auto.
  apply IH in Hm. destruct (decide (String.substring 0 i name = m)) as [<-|Hne].
  - by rewrite lookup_insert_eq in Hm.
  - by rewrite lookup_insert_ne in Hm.
Qed.

Lemma getLogger_ref n s : (getLogger n s).1 = logger_named n.
Proof. unfold getLogger, logger_named. by repeat case_match. Qed.

Lemma same_loggers (d d' : gmap string slot) m :
  (forall x, d' !! m = Some (ALogger x) <-> d !! m = Some (ALogger x)) ->
  match d' !! m with Some (ALogger lg) => Some lg | _ => None end
  = match d !! m with Some (ALogger lg) => Some lg | _ => None end.
Proof.
  intros H.
  destruct (d' !! m) as [[x|]|] eqn:Hd'; destruct (d !! m) as [[y|]|] eqn:Hd; try done.
  all: try (pose proof (proj1 (H x) eq_refl); congruence).
  all: try (pose proof (proj2 (H y) eq_refl); congruence).
Qed.

Lemma get_getLogger_ne n s r : r <> logger_named n -> get (getLogger n s).2 r = get s r.
Proof.
  unfold getLogger, logger_named. intros Hr.
  destruct (String.eqb n "" || String.eqb n "root"); [done|].
  destruct r as [|m]; simpl; [by repeat case_match|].
  assert (m <> n) as Hne by congruence.
  destruct (loggerDict s !! n) as [[lg|]|] eqn:Hn; simpl; try done.
  - apply same_loggers. intros x. split.
    + intros Hf. apply fixup_no_logger in Hf. by rewrite lookup_insert_ne in Hf.
    + intros Hm. apply fixup_logger. by rewrite lookup_insert_ne.
  - apply same_loggers. intros x. split.
    + intros Hf. apply fixup_no_logger in Hf. by rewrite lookup_insert_ne in Hf.
    + intros Hm. apply fixup_logger. by rewrite lookup_insert_ne.
Qed.

Lemma get_getLogger n s : is_Some (get (getLogger n s).2 (logger_named n)).
Proof.
  unfold getLogger, logger_named.
  destruct (String.eqb n "" || String.eqb n "root"); [by eexists|].
  destruct (loggerDict s !! n) as [[lg|]|] eqn:Hn; simpl; [rewrite Hn; by eexists|..].
  all: erewrite fixup_logger; [by eexists | by rewrite lookup_insert_eq].
Qed.

Lemma heap_getLogger n s : heap (getLogger n s).2 = heap s.
Proof. unfold getLogger. by repeat case_match. Qed.

Lemma next_handler_getLogger n s : next_handler (getLogger n s).2 = next_handler s.
Proof. unfold getLogger. by repeat case_match. Qed.

Lemma files_getLogger n s : files (getLogger n s).2 = files s.
Proof. unfold getLogger. by repeat case_match. Qed.

Lemma manage_one n sh fh s :
  sh <> fh ->
  let r := logger_named n in
  let s' := addHandler r fh (addHandler r sh (setLevel r INFO
              (set_handlers r [] (getLogger n s).2))) in
  (exists lg, get s' r = Some lg /\ managed sh fh lg) /\
  (forall r', r' <> r -> get s' r' = get s r') /\
  heap s' = heap s.
Proof.
  intros Hne r s'. destruct (get_getLogger n s) as [lg Hlg]. fold r in Hlg.
  set (s0 := (getLogger n s).2) in *.
  assert (get (setLevel r INFO (set_handlers r [] s0)) r
          = Some (Logger INFO [] (lg_propagate lg) (lg_disabled lg) (lg_filters lg))) as H1.
  { unfold setLevel, set_handlers. by rewrite !get_update, Hlg. }
  pose proof (get_addHandler_new r sh _ _ H1 (not_elem_of_nil sh)) as H2. simpl in H2.
  pose proof (get_addHandler_new r fh _ _ H2) as H3. simpl in H3.
  split; [|split].
  - eexists. split; [apply H3|done]. intros Hin. apply elem_of_cons in Hin as [?|Hin]; [done|]. by apply elem_of_nil in Hin.
  - intros r' Hr'. unfold s', addHandler, set_handlers, setLevel.
    repeat case_match; rewrite ?get_update_ne by done; by apply get_getLogger_ne.
  - unfold s'. rewrite !heap_addHandler. unfold setLevel, set_handlers.
    rewrite !heap_update. apply heap_getLogger.
Qed.

Lemma manage_others_spec sh fh names : forall s,
  sh <> fh ->
  let s' := manage_others names sh fh s in
  (forall r, Forall (fun n => logger_named n <> r) names -> get s' r = get s r) /\
  (forall n, n ∈ names -> exists lg, get s' (logger_named n) = Some lg /\ managed sh fh lg) /\
  heap s' = heap s.
Proof.
  induction names as [|n names IH]; intros s Hne.
  { simpl. split; [done|]. split; [|done]. intros n Hn. by apply elem_of_nil in Hn. }
  cbn [manage_others]. cbv zeta.
  pose proof (getLogger_ref n s) as Href.
  destruct (getLogger n s) as [r s0] eqn:Hg. simpl in Href. subst r.
  assert (s0 = (getLogger n s).2) as -> by by rewrite Hg.
  destruct (manage_one n sh fh s Hne) as ((lg & Hlg & Hm) & Hothers & Hheap).
  match type of Hheap with heap ?s1 = _ =>
    destruct (IH s1 Hne) as (Hkeep & Hin & Hheap') end. clear IH.
  split; [|split].
  - intros r Hr. apply Forall_cons in Hr as [Hr Hrs].
    rewrite Hkeep by done. by apply Hothers.
  - intros m Hm'. apply elem_of_cons in Hm' as [->|Hm']; [|by apply Hin].
    destruct (decide (Exists (fun n' => logger_named n' = logger_named n) names)) as [He|He].
    + apply Exists_exists in He as (n' & Hn' & Heq).
      destruct (Hin n' Hn') as (lg' & Hlg' & Hm2). rewrite Heq in Hlg'. by exists lg'.
    + rewrite Hkeep; [by exists lg|].
      apply Forall_forall. intros n' Hn' Heq. apply He, Exists_exists. by exists n'.
  - by rewrite Hheap'.
Qed.

End LogsFacts4.
Module LogsFacts5.
Import Logs LogsFacts LogsFacts2 LogsFacts3 LogsFacts4.

Lemma new_FileHandler_ok p s :
  is_dir (files s) (PurePath.parent p) = true ->
  replaceable (files s) p = true ->
  exists s',
    new_FileHandler p s = (Ok (next_handler s), s') /\
    root_logger s' = root_logger s /\ loggerDict s' = loggerDict s /\
    heap s' = <[next_handler s := Handler (FileHandler p) NOTSET None false]> (heap s) /\
    is_file (files s') p = true.
Proof.
  intros Hp Hr. unfold new_FileHandler, replaceable in *.
  destruct (files s !! p) as [[|[] c]|] eqn:Hf; try done.
  - eexists. split; [reflexivity|]. simpl. unfold is_file. by rewrite Hf.
  - rewrite Hp. eexists. split; [reflexivity|]. simpl. unfold is_file.
    by rewrite lookup_insert_eq.
Qed.

Lemma new_FileHandler_missing p s :
  files s !! p = None ->
  is_dir (files s) (PurePath.parent p) = false ->
  exists e, new_FileHandler p s = (Err e, s) /\ is_OSError e = true.
Proof.
  intros Hf Hp. unfold new_FileHandler. rewrite Hf, Hp.
  destruct (is_file _ _); by eexists.
Qed.


(** The state that [create_logger] reaches before the file handler is
    made. *)
Lemma create_logger_stream l slvl s lg :
  get s l = Some lg ->
  NoDup (lg_handlers lg) ->
  Forall (fun h => h < next_handler s) (lg_handlers lg) ->
  let sh := next_handler s in
  let color := ColoredFormatter "%(asctime)s - [%(log_color)s%(levelname)s%(reset)s] - %(message_log_color)s%(message)s" in
  let s4 := addHandler l sh
              (handler_setFormatter sh color
                 (handler_setLevel sh slvl
                    (allocate StreamHandler
                       (remove_while_iterating (length (handlers_of s l)) 0 l s)).2)) in
  get s4 l = Some (Logger (lg_level lg) (every_other (lg_handlers lg) ++ [sh])
                          (lg_propagate lg) (lg_disabled lg) (lg_filters lg)) /\
  heap s4 !! sh = Some (Handler StreamHandler slvl (Some color) false) /\
  next_handler s4 = S sh /\ files s4 = files s /\
  (forall r, r <> l -> get s4 r = get s r) /\
  (forall h, h <> sh -> heap s4 !! h = heap s !! h).
Proof.
  intros Hlg Hnd Hfresh sh color.
  assert (handlers_of s l = lg_handlers lg) as Hh by (unfold handlers_of; by rewrite Hlg).
  pose proof (remove_while_iterating_spec l (length (handlers_of s l)) []
                (handlers_of s l) s) as Hrw.
  cbn [length app] in Hrw. rewrite Hrw; [|by eexists|done|by rewrite Hh|lia].
  clear Hrw. rewrite Hh.
  set (s1 := set_handlers l (every_other (lg_handlers lg)) s).
  assert (get s1 l = Some (Logger (lg_level lg) (every_other (lg_handlers lg))
                                  (lg_propagate lg) (lg_disabled lg) (lg_filters lg))) as H1.
  { unfold s1, set_handlers. by rewrite get_update, Hlg. }
  assert (next_handler s1 = sh) as Hn1 by apply next_handler_update.
  assert (heap s1 = heap s) as Hheap1 by apply heap_update.
  assert (files s1 = files s) as Hfiles1.
  { unfold s1, set_handlers. destruct l; simpl; [done|]. by repeat case_match. }
  intros s4. unfold s4. clear s4.
  assert (sh ∉ every_other (lg_handlers lg)) as Hsh.
  { intros Hin. apply every_other_subset in Hin.
    rewrite Forall_forall in Hfresh. specialize (Hfresh sh Hin). unfold sh in Hfresh. lia. }
  unfold allocate. cbn [snd]. rewrite Hn1.
  split; [|split; [|split; [|split; [|split]]]].
  - rewrite (get_addHandler_new _ _ _
               (Logger (lg_level lg) (every_other (lg_handlers lg))
                       (lg_propagate lg) (lg_disabled lg) (lg_filters lg))); [done| |done].
    unfold handler_setFormatter, handler_setLevel. rewrite !get_update_handler.
    rewrite <- H1. by apply get_same.
  - rewrite heap_addHandler. unfold handler_setFormatter, handler_setLevel, update_handler.
    simpl. rewrite !lookup_alter_eq. by rewrite lookup_insert_eq.
  - unfold addHandler, set_handlers. case_match; [done|]. by rewrite next_handler_update.
  - unfold addHandler, set_handlers, update. repeat case_match; simpl; done.
  - intros r Hr. unfold addHandler. case_match.
    + unfold handler_setFormatter, handler_setLevel. rewrite !get_update_handler.
      transitivity (get s1 r); [by apply get_same|]. by apply get_set_handlers_ne.
    + rewrite get_set_handlers_ne by done.
      unfold handler_setFormatter, handler_setLevel. rewrite !get_update_handler.
      transitivity (get s1 r); [by apply get_same|]. by apply get_set_handlers_ne.
  - intros h Hh'. rewrite heap_addHandler.
    unfold handler_setFormatter, handler_setLevel, update_handler. simpl.
    rewrite !lookup_alter_ne by done. rewrite lookup_insert_ne by done. by rewrite Hheap1.
Qed.

End LogsFacts5.

(** X17. [create_logger] takes the former handlers off in a loop over
    the list that it changes, which passes over every other one: when
    the log file can be opened, the logger ends with its second, fourth,
    ... former handler, then the new stream handler and the new file
    handler.  Only a logger with one handler at most is left with the two
    new ones alone.  The loggers named in [other_logger_names] get the
    same two handlers and the level [INFO]. *)
Theorem create_logger_keeps_every_other_handler
  (today : string) (l : Logs.ref) (file_log_level stream_log_level : Z)
  (output_folder : path) (name : string) (other_logger_names : list string)
  (s : Logs.logging) (lg : Logs.logger) :
  let log_path :=
    PurePath.joinpath output_folder (today +:+ "_" +:+ name +:+ "_log.txt") in
  let sh := Logs.next_handler s in
  let fh := S sh in
  Logs.get s l = Some lg ->
  NoDup (Logs.lg_handlers lg) ->
  Forall (fun h => h < Logs.next_handler s) (Logs.lg_handlers lg) ->
  is_dir (Logs.files s) (PurePath.parent log_path) = true ->
  replaceable (Logs.files s) log_path = true ->
  exists s',
    Logs.create_logger today l file_log_level stream_log_level output_folder name
                       other_logger_names s = (Ok tt, s') /\
    (Forall (fun n => logger_named n <> l) other_logger_names ->
     Logs.handlers_of s' l = (every_other (Logs.lg_handlers lg) ++ [sh; fh])%list /\
     length (Logs.handlers_of s' l) = length (Logs.lg_handlers lg) / 2 + 2) /\
    (forall n, n ∈ other_logger_names -> n <> "root" ->
               exists lg', Logs.get s' (logger_named n) = Some lg' /\ managed sh fh lg') /\
    Logs.h_level <$> Logs.heap s' !! sh = Some stream_log_level /\
    Logs.heap s' !! fh
    = Some (Logs.Handler (Logs.FileHandler log_path) file_log_level
                         (Some (Logs.Formatter Logs.LOGGING_FORMAT)) false).
Proof.
  intros log_path sh fh Hlg Hnd Hfresh Hparent Hfile.
  unfold Logs.create_logger. unfold Logs.new_StreamHandler.
  destruct (Logs.allocate Logs.StreamHandler _) as [sh' s2] eqn:Ha.
  assert (sh' = sh) as ->.
  { unfold Logs.allocate in Ha. injection Ha as <- _.
    pose proof (LogsFacts3.remove_while_iterating_spec l (length (Logs.handlers_of s l)) []
                  (Logs.handlers_of s l) s) as Hrw.
    cbn [length app] in Hrw. rewrite Hrw; [apply LogsFacts.next_handler_update | by eexists
                                           | done | | lia].
    unfold Logs.handlers_of. by rewrite Hlg. }
  assert (s2 = (Logs.allocate Logs.StreamHandler
                  (Logs.remove_while_iterating (length (Logs.handlers_of s l)) 0 l s)).2)
    as -> by by rewrite Ha.
  clear Ha.
  destruct (LogsFacts5.create_logger_stream l stream_log_level s lg Hlg Hnd Hfresh)
    as (H4 & Hsh & Hn4 & Hf4 & Hothers4 & Hheap4).
  fold sh in H4, Hsh, Hn4, Hf4, Hothers4, Hheap4.
  match type of H4 with Logs.get ?x _ = _ => set (s4 := x) in * end.
  fold log_path.
  destruct (LogsFacts5.new_FileHandler_ok log_path s4) as (s5 & Hnew & Hr5 & Hd5 & Hh5 & _).
  { by rewrite Hf4. }
  { by rewrite Hf4. }
  rewrite Hnew, Hn4. fold fh.
  set (s6 := Logs.handler_setFormatter fh (Logs.Formatter Logs.LOGGING_FORMAT)
               (Logs.handler_setLevel fh file_log_level s5)).
  assert (forall r, Logs.get s6 r = Logs.get s4 r) as Hget6.
  { intros r. unfold s6, Logs.handler_setFormatter, Logs.handler_setLevel.
    rewrite !LogsFacts.get_update_handler. by apply LogsFacts.get_same. }
  assert (sh <> fh) as Hne by (unfold fh; lia).
  assert (fh ∉ (every_other (Logs.lg_handlers lg) ++ [sh])%list) as Hfh.
  { intros Hin. apply elem_of_app in Hin as [Hin|Hin].
    - apply LogsFacts3.every_other_subset in Hin. rewrite Forall_forall in Hfresh.
      specialize (Hfresh fh Hin). unfold fh, sh in Hfresh. lia.
    - apply elem_of_cons in Hin as [?|Hin]; [done|]. by apply elem_of_nil in Hin. }
  set (s7 := Logs.addHandler l fh s6).
  assert (Logs.get s7 l
          = Some (Logs.Logger (Logs.lg_level lg)
                    ((every_other (Logs.lg_handlers lg) ++ [sh]) ++ [fh])
                    (Logs.lg_propagate lg) (Logs.lg_disabled lg) (Logs.lg_filters lg))) as H7.
  { unfold s7.
    rewrite (LogsFacts.get_addHandler_new l fh s6
               (Logs.Logger (Logs.lg_level lg) (every_other (Logs.lg_handlers lg) ++ [sh])
                            (Logs.lg_propagate lg) (Logs.lg_disabled lg)
                            (Logs.lg_filters lg))); [done| |exact Hfh].
    by rewrite Hget6. }
  assert (Logs.heap s7 !! sh
          = Some (Logs.Handler Logs.StreamHandler stream_log_level
                    (Some (Logs.ColoredFormatter "%(asctime)s - [%(log_color)s%(levelname)s%(reset)s] - %(message_log_color)s%(message)s")) false)
          /\ Logs.heap s7 !! fh
             = Some (Logs.Handler (Logs.FileHandler log_path) file_log_level
                                  (Some (Logs.Formatter Logs.LOGGING_FORMAT)) false))
    as [Hsh7 Hfh7].
  { unfold s7. rewrite LogsFacts.heap_addHandler.
    unfold s6, Logs.handler_setFormatter, Logs.handler_setLevel, Logs.update_handler.
    simpl. rewrite Hh5, Hn4. fold fh. split.
    - rewrite !lookup_alter_ne by done. by rewrite lookup_insert_ne.
    - rewrite !lookup_alter_eq. by rewrite lookup_insert_eq. }
  destruct (LogsFacts4.manage_others_spec sh fh other_logger_names s7 Hne)
    as (Hkeep & Hin & Hheap).
  eexists. split; [reflexivity|]. split; [|split; [|split]].
  - intros Hnot. assert (Logs.handlers_of
                           (Logs.manage_others other_logger_names sh fh s7) l
                         = (every_other (Logs.lg_handlers lg) ++ [sh; fh])%list) as Hh.
    { unfold Logs.handlers_of. rewrite Hkeep by done. rewrite H7. simpl.
      by rewrite <- app_assoc. }
    split; [exact Hh|]. rewrite Hh, length_app, LogsFacts3.every_other_length. done.
  - intros n Hn _. by apply Hin.
  - rewrite Hheap, Hsh7. done.
  - by rewrite Hheap.
Qed.

Lemma create_logger_keeps_every_other_handler_witness :
  let f := disk [([], Dir); (["log"], Dir)] in
  let l := Logs.Named "app" in
  let s := (Logs.create_logger "210302_165735" l Logs.DEBUG Logs.INFO (Path Disk ["log"])
                               "first" [] (Logs.getLogger "app" (fresh_logging f)).2).2 in
  Logs.handlers_of s l = [0; 1] /\
  exists s',
    Logs.create_logger "210302_165736" l Logs.DEBUG Logs.INFO (Path Disk ["log"])
                       "second" ["rasterio"] s = (Ok tt, s') /\
    Logs.handlers_of s' l = [1; 2; 3] /\
    Logs.handlers_of s' (Logs.Named "rasterio") = [2; 3].
Proof.
  intros f l s. split; [vm_compute; reflexivity|].
  destruct (create_logger_keeps_every_other_handler
              "210302_165736" l Logs.DEBUG Logs.INFO (Path Disk ["log"]) "second"
              ["rasterio"] s (Logs.Logger 0 [0; 1] true false []))
    as (s' & Hrun & Hown & Hothers & _).
  - vm_compute. reflexivity.
  - simpl. refine (bool_decide_unpack _ _). vm_compute. reflexivity.
  - simpl. repeat constructor.
  - vm_compute. reflexivity.
  - vm_compute. reflexivity.
  - exists s'. split; [exact Hrun|]. split.
    + apply Hown. repeat constructor. discriminate.
    + destruct (Hothers "rasterio") as (lg' & Hlg' & Hm & _); [left | discriminate |].
      unfold Logs.handlers_of. change (logger_named "rasterio") with (Logs.Named "rasterio") in Hlg'.
      by rewrite Hlg'.
Defined.

(** X18. When the log file cannot be opened because its folder is not
    there, [create_logger] raises the [OSError] of [logging.FileHandler]
    with the logger already changed: former handlers are taken off and
    the new stream handler is on it. *)
Theorem create_logger_without_folder
  (today : string) (l : Logs.ref) (file_log_level stream_log_level : Z)
  (output_folder : path) (name : string) (other_logger_names : list string)
  (s : Logs.logging) (lg : Logs.logger) :
  let log_path :=
    PurePath.joinpath output_folder (today +:+ "_" +:+ name +:+ "_log.txt") in
  Logs.get s l = Some lg ->
  NoDup (Logs.lg_handlers lg) ->
  Forall (fun h => h < Logs.next_handler s) (Logs.lg_handlers lg) ->
  Logs.files s !! log_path = None ->
  is_dir (Logs.files s) (PurePath.parent log_path) = false ->
  exists e s',
    Logs.create_logger today l file_log_level stream_log_level output_folder name
                       other_logger_names s = (Err e, s') /\
    is_OSError e = true /\
    Logs.handlers_of s' l = (every_other (Logs.lg_handlers lg) ++ [Logs.next_handler s])%list.
Proof.
  intros log_path Hlg Hnd Hfresh Hfile Hparent.
  unfold Logs.create_logger. unfold Logs.new_StreamHandler.
  destruct (Logs.allocate Logs.StreamHandler _) as [sh' s2] eqn:Ha.
  assert (sh' = Logs.next_handler s) as ->.
  { unfold Logs.allocate in Ha. injection Ha as <- _.
    pose proof (LogsFacts3.remove_while_iterating_spec l (length (Logs.handlers_of s l)) []
                  (Logs.handlers_of s l) s) as Hrw.
    cbn [length app] in Hrw. rewrite Hrw; [apply LogsFacts.next_handler_update | by eexists
                                           | done | | lia].
    unfold Logs.handlers_of. by rewrite Hlg. }
  assert (s2 = (Logs.allocate Logs.StreamHandler
                  (Logs.remove_while_iterating (length (Logs.handlers_of s l)) 0 l s)).2)
    as -> by by rewrite Ha.
  clear Ha.
  destruct (LogsFacts5.create_logger_stream l stream_log_level s lg Hlg Hnd Hfresh)
    as (H4 & _ & _ & Hf4 & _ & _).
  match type of H4 with Logs.get ?x _ = _ => set (s4 := x) in * end.
  fold log_path.
  destruct (LogsFacts5.new_FileHandler_missing log_path s4) as (e & Hnew & He).
  { by rewrite Hf4. }
  { by rewrite Hf4. }
  rewrite Hnew. exists e, s4. split; [done|]. split; [done|].
  unfold Logs.handlers_of. by rewrite H4.
Qed.

Lemma create_logger_without_folder_witness :
  let l := Logs.Named "app" in
  let s := (Logs.getLogger "app" (fresh_logging (disk [([], Dir)]))).2 in
  exists e s',
    Logs.create_logger "210302_165735" l Logs.DEBUG Logs.INFO (Path Disk ["log"])
                       "first" [] s = (Err e, s') /\
    is_OSError e = true /\ Logs.handlers_of s' l = [0].
Proof.
  intros l s.
  apply (create_logger_without_folder
           "210302_165735" l Logs.DEBUG Logs.INFO (Path Disk ["log"]) "first" [] s
           (Logs.Logger 0 [] true false [])).
  - vm_compute. reflexivity.
  - constructor.
  - constructor.
  - vm_compute. reflexivity.
  - vm_compute. reflexivity.
Defined.
Module LogsFacts6.
Import Logs LogsFacts LogsFacts2.

Lemma closed_closed x : closed (closed x) = closed x.
Proof. done. Qed.

Lemma dict_update_ne n m f s :
  m <> n -> loggerDict (update (Named n) f s) !! m = loggerDict s !! m.
Proof.
  intros Hne. simpl. destruct (loggerDict s !! n) as [[lg|]|]; simpl; try done.
  by rewrite lookup_insert_ne.
Qed.

Lemma dict_update_placeholder l m f s :
  loggerDict s !! m = Some PlaceHolder ->
  loggerDict (update l f s) !! m = Some PlaceHolder.
Proof.
  intros Hm. destruct l as [|n]; simpl; [done|].
  destruct (loggerDict s !! n) as [[lg|]|] eqn:Hn; simpl; try done.
  rewrite lookup_insert_ne; [done|]. intros ->. congruence.
Qed.

Lemma disable_update l f s : disable (update l f s) = disable s.
Proof. destruct l; simpl; [done|]. by repeat case_match. Qed.

Lemma disabled_attr_update l f s : disabled_attr (update l f s) = disabled_attr s.
Proof. destruct l; simpl; [done|]. by repeat case_match. Qed.

(** The loop of [reset_logging] over the handlers of one logger. *)
Lemma close_each_spec l hs : forall s,
  is_Some (get s l) -> handlers_of s l = hs ->
  let s' := foldl (fun s handler => removeHandler l handler (handler_close handler s)) s hs in
  (exists lg, get s l = Some lg /\
     get s' l = Some (Logger (lg_level lg) [] (lg_propagate lg) (lg_disabled lg)
                             (lg_filters lg))) /\
  (forall h, heap s' !! h = if decide (h ∈ hs) then closed <$> heap s !! h else heap s !! h) /\
  (forall r, r <> l -> get s' r = get s r) /\
  (forall k, Named k <> l -> loggerDict s' !! k = loggerDict s !! k) /\
  (forall k, loggerDict s !! k = Some PlaceHolder -> loggerDict s' !! k = Some PlaceHolder) /\
  disable s' = disable s /\ disabled_attr s' = disabled_attr s.
Proof.
  induction hs as [|h t IH]; intros s Hl Hh.
  - simpl. destruct Hl as [lg Hlg]. split.
    + exists lg. split; [done|]. unfold handlers_of in Hh. rewrite Hlg in Hh.
      rewrite Hlg. destruct lg; simpl in *. by subst.
    + repeat split; done.
  - cbn [foldl]. cbv zeta.
    assert (handlers_of (handler_close h s) l = h :: t) as Hh0.
    { unfold handler_close. by rewrite handlers_of_update_handler. }
    rewrite (removeHandler_head l h t _ Hh0).
    set (s1 := set_handlers l t (handler_close h s)).
    assert (is_Some (get s1 l)) as Hl1.
    { apply get_set_handlers. unfold handler_close. by rewrite get_update_handler. }
    assert (handlers_of s1 l = t) as Hh1.
    { apply handlers_of_set_handlers. unfold handler_close. by rewrite get_update_handler. }
    destruct (IH s1 Hl1 Hh1) as ((lg1 & Hlg1 & Hfin) & Hheap & Hget & Hdict & Hph & Hdis & Hattr).
    destruct Hl as [lg Hlg].
    assert (get s1 l = Some (Logger (lg_level lg) t (lg_propagate lg) (lg_disabled lg)
                                    (lg_filters lg))) as Hs1.
    { unfold s1, set_handlers, handler_close.
      by rewrite get_update, get_update_handler, Hlg. }
    rewrite Hs1 in Hlg1. injection Hlg1 as <-. simpl in Hfin.
    split; [by exists lg|]. split; [|split; [|split; [|split; [|split]]]].
    + intros h'. rewrite Hheap. unfold s1, set_handlers, handler_close.
      rewrite heap_update. unfold update_handler. simpl.
      destruct (decide (h' = h)) as [->|Hne].
      * rewrite lookup_alter_eq. rewrite (decide_True (P := h ∈ h :: t)) by left.
        case_match; [|done]. by destruct (heap s !! h).
      * rewrite lookup_alter_ne by done.
        destruct (decide (h' ∈ t)) as [Hin|Hout].
        -- by rewrite decide_True by (by right).
        -- rewrite decide_False; [done|]. intros Hin. apply elem_of_cons in Hin as [?|?]; done.
    + intros r Hr. rewrite Hget by done. unfold s1, handler_close.
      rewrite get_set_handlers_ne by done. by rewrite get_update_handler.
    + intros k Hk. rewrite Hdict by done. unfold s1, set_handlers.
      destruct l as [|n]; simpl; [done|].
      destruct (loggerDict s !! n) as [[x|]|]; simpl; try done.
      rewrite lookup_insert_ne; [done|]. congruence.
    + intros k Hk. apply Hph. unfold s1, set_handlers. by apply dict_update_placeholder.
    + rewrite Hdis. unfold s1, set_handlers. by rewrite disable_update.
    + rewrite Hattr. unfold s1, set_handlers. by rewrite disabled_attr_update.
Qed.


(** One round of the loop of [reset_logging]. *)
Lemma reset_logger_spec n lg s :
  loggerDict s !! n = Some (ALogger lg) ->
  let s' := reset_logger n s in
  get s' (Named n) = Some new_logger /\
  (forall h, heap s' !! h
             = if decide (h ∈ lg_handlers lg) then closed <$> heap s !! h else heap s !! h) /\
  (forall r, r <> Named n -> get s' r = get s r) /\
  (forall k, k <> n -> loggerDict s' !! k = loggerDict s !! k) /\
  (forall k, loggerDict s !! k = Some PlaceHolder -> loggerDict s' !! k = Some PlaceHolder) /\
  disable s' = disable s /\ disabled_attr s' = disabled_attr s.
Proof.
  intros Hn s'. unfold s', reset_logger. unfold setLevel. rewrite !update_update.
  set (f := fun x : logger => Logger NOTSET (lg_handlers x) true false []).
  match goal with |- context [update (Named n) ?g s] =>
    assert (update (Named n) g s = update (Named n) f s) as -> by done end.
  set (s0 := update (Named n) f s).
  assert (get s (Named n) = Some lg) as Hlg by (simpl; by rewrite Hn).
  assert (get s0 (Named n) = Some (f lg)) as H0.
  { unfold s0. by rewrite get_update, Hlg. }
  assert (handlers_of s0 (Named n) = lg_handlers lg) as Hh0.
  { unfold handlers_of. by rewrite H0. }
  rewrite Hh0.
  destruct (close_each_spec (Named n) (lg_handlers lg) s0)
    as ((lg0 & Hlg0 & Hfin) & Hheap & Hget & Hdict & Hph & Hdis & Hattr); [by eexists|done|].
  rewrite H0 in Hlg0. injection Hlg0 as <-. simpl in Hfin.
  split; [exact Hfin|]. split; [|split; [|split; [|split; [|split]]]].
  - intros h. rewrite Hheap. unfold s0. by rewrite heap_update.
  - intros r Hr. rewrite Hget by done. unfold s0. by apply get_update_ne.
  - intros k Hk. rewrite Hdict by congruence. unfold s0. by apply dict_update_ne.
  - intros k Hk. apply Hph. unfold s0. by apply dict_update_placeholder.
  - rewrite Hdis. unfold s0. by rewrite disable_update.
  - rewrite Hattr. unfold s0. by rewrite disabled_attr_update.
Qed.

End LogsFacts6.

Module LogsFacts7.
Import Logs LogsFacts LogsFacts2 LogsFacts6.

Lemma reset_all_spec (l : list (string * slot)) : forall s,
  NoDup (l.*1) ->
  (forall n sl, (n, sl) ∈ l -> loggerDict s !! n = Some sl) ->
  let s' := foldl (fun s (ne : string * slot) =>
                     match ne.2 with
                     | ALogger _ => reset_logger ne.1 s
                     | PlaceHolder => s
                     end) s l in
  (forall n lg, (n, ALogger lg) ∈ l -> get s' (Named n) = Some new_logger) /\
  (forall n lg h x, (n, ALogger lg) ∈ l -> h ∈ lg_handlers lg -> heap s !! h = Some x ->
                    heap s' !! h = Some (closed x)) /\
  (forall h x, heap s !! h = Some x ->
               heap s' !! h = Some x \/ heap s' !! h = Some (closed x)) /\
  (forall h, (forall n lg, (n, ALogger lg) ∈ l -> h ∉ lg_handlers lg) ->
             heap s' !! h = heap s !! h) /\
  (forall r, (forall n lg, (n, ALogger lg) ∈ l -> r <> Named n) -> get s' r = get s r) /\
  (forall k, loggerDict s !! k = Some PlaceHolder -> loggerDict s' !! k = Some PlaceHolder) /\
  disable s' = disable s /\ disabled_attr s' = disabled_attr s.
Proof.
  induction l as [|[n sl] l IH]; intros s Hnd Hdict.
  { simpl. repeat split; try done.
    - intros n lg Hin. by apply elem_of_nil in Hin.
    - intros n lg h x Hin. by apply elem_of_nil in Hin.
    - intros h x Hx. by left. }
  cbn [foldl]. cbv zeta. simpl in Hnd. apply NoDup_cons in Hnd as [Hn Hnd].
  destruct sl as [lg|]; cbn [snd fst].
  - pose proof (Hdict n (ALogger lg) ltac:(left)) as Hlg.
    destruct (reset_logger_spec n lg s Hlg) as (Hnew & Hheap1 & Hget1 & Hd1 & Hph1 & Hdis1 & Hattr1).
    set (s1 := reset_logger n s) in *.
    destruct (IH s1 Hnd) as (Hall & Hclosed & Hmono & Hsame & Hget & Hph & Hdis & Hattr).
    { intros m sl Hin. rewrite Hd1; [apply Hdict; by right|].
      intros ->. apply Hn. apply list_elem_of_fmap. by exists (n, sl). }
    clear IH.
    assert (forall m lg', (m, ALogger lg') ∈ l -> Named n <> Named m) as Hfresh.
    { intros m lg' Hin [= ->]. apply Hn. apply list_elem_of_fmap. by exists (m, ALogger lg'). }
    split; [|split; [|split; [|split; [|split; [|split; [|split]]]]]].
    + intros m lg' Hin. apply elem_of_cons in Hin as [[= -> ->]|Hin]; [|by eapply Hall].
      rewrite Hget; [done|]. exact Hfresh.
    + intros m lg' h x Hin Hh Hx.
      assert (heap s1 !! h = Some x \/ heap s1 !! h = Some (closed x)) as Hs1.
      { rewrite Hheap1. rewrite Hx. case_match; [by right|by left]. }
      apply elem_of_cons in Hin as [[= -> ->]|Hin].
      * assert (heap s1 !! h = Some (closed x)) as Hc.
        { rewrite Hheap1, Hx. by rewrite decide_True. }
        destruct (Hmono h _ Hc) as [->| ->]; by rewrite ?closed_closed.
      * destruct Hs1 as [H1|H1]; rewrite (Hclosed m lg' h _ Hin Hh H1); by rewrite ?closed_closed.
    + intros h x Hx.
      assert (heap s1 !! h = Some x \/ heap s1 !! h = Some (closed x)) as [H1|H1].
      { rewrite Hheap1. rewrite Hx. case_match; [by right|by left]. }
      * by apply Hmono.
      * right. destruct (Hmono h _ H1) as [->| ->]; by rewrite ?closed_closed.
    + intros h Hh. rewrite Hsame.
      * rewrite Hheap1. rewrite decide_False; [done|]. apply (Hh n lg). left.
      * intros m lg' Hin. apply (Hh m lg'). by right.
    + intros r Hr. rewrite Hget.
      * apply Hget1. apply (Hr n lg). left.
      * intros m lg' Hin. apply (Hr m lg'). by right.
    + intros k Hk. by apply Hph, Hph1.
    + by rewrite Hdis.
    + by rewrite Hattr.
  - destruct (IH s Hnd) as (Hall & Hclosed & Hmono & Hsame & Hget & Hph & Hdis & Hattr).
    { intros m sl Hin. apply Hdict. by right. }
    split; [|split; [|split; [|split; [|split; [|split; [|split]]]]]]; try done.
    + intros m lg' Hin. apply elem_of_cons in Hin as [?|Hin]; [done|]. by eapply Hall.
    + intros m lg' h x Hin. apply elem_of_cons in Hin as [?|Hin]; [done|]. by eapply Hclosed.
    + intros h Hh. apply Hsame. intros m lg' Hin. apply (Hh m lg'). by right.
    + intros r Hr. apply Hget. intros m lg' Hin. apply (Hr m lg'). by right.
Qed.

End LogsFacts7.

(** X19. [reset_logging] resets every logger that has a name: level
    [NOTSET], no handler and no filter, enabled, propagating; the
    handlers that they held are closed.  The root logger is not in
    [manager.loggerDict] and is left as it is, with its handlers; and the
    threshold of [logging.disable] stays, as the assignment goes to
    another attribute. *)
Theorem reset_logging_spares_root (s : Logs.logging) :
  let s' := Logs.reset_logging s in
  (forall n lg, Logs.loggerDict s !! n = Some (Logs.ALogger lg) ->
     Logs.get s' (Logs.Named n) = Some Logs.new_logger /\
     forall h x, h ∈ Logs.lg_handlers lg -> Logs.heap s !! h = Some x ->
                 Logs.heap s' !! h = Some (closed x)) /\
  Logs.root_logger s' = Logs.root_logger s /\
  (forall h, (forall n lg, Logs.loggerDict s !! n = Some (Logs.ALogger lg) ->
                           h ∉ Logs.lg_handlers lg) ->
             Logs.heap s' !! h = Logs.heap s !! h) /\
  Logs.disable s' = Logs.disable s /\
  Logs.disabled_attr s' = Some Logs.NOTSET.
Proof.
  intros s'. unfold s', Logs.reset_logging. cbn [Logs.loggerDict].
  set (s0 := Logs.Logging _ _ _ _ _ _ _).
  destruct (LogsFacts7.reset_all_spec (map_to_list (Logs.loggerDict s)) s0)
    as (Hall & Hclosed & _ & Hsame & Hget & _ & Hdis & Hattr).
  { apply NoDup_fst_map_to_list. }
  { intros n sl Hin. by apply elem_of_map_to_list in Hin. }
  split; [|split; [|split; [|split]]].
  - intros n lg Hn. apply elem_of_map_to_list in Hn. split.
    + by eapply Hall.
    + intros h x Hh Hx. by eapply Hclosed.
  - assert (Logs.get (foldl _ s0 (map_to_list (Logs.loggerDict s))) Logs.Root
            = Logs.get s0 Logs.Root) as Hroot by (by apply Hget).
    simpl in Hroot. by injection Hroot.
  - intros h Hh. rewrite Hsame; [done|]. intros n lg Hin.
    apply elem_of_map_to_list in Hin. by eapply Hh.
  - by rewrite Hdis.
  - by rewrite Hattr.
Qed.
